(* ===== verification/_CoqProject ===== *)
-Q . S2P
Prelude.v
RustStr.v
Redis.v
Schema.v
World.v
Ext.v
Demo.v
DemoJson.v
DemoJwt.v
RedisKeys.v
Http.v
Config.v
Scopes.v
Hashing.v
RateLimit.v
Jwt.v
KeyFiles.v
Role.v
User.v
Client.v
RefreshToken.v
Session.v
Consent.v
AccountTokens.v
Integrity.v
AuthCode.v
Secrets.v
Password.v
LoginHttp.v
Signup.v
AccountHttp.v
Issuer.v
Oidc.v
Device.v
TokenFlow.v
Introspect.v
Authorize.v
CodeFlow.v
Logout.v
OAuthHttp.v
Bootstrap.v
Admin.v
Keeps.v
Invariants.v
ClientCache.v
Server.v
ServerFlow.v
Routes.v
