(* ===== verification/Prelude.v ===== *)
(** * A verification development for the auth-server repository

    The program is an OAuth 2.0 / OpenID Connect authorization server in Rust
    ([src/src]).  It keeps users, roles, clients, sessions, consents and refresh
    tokens in Postgres, and codes, pending requests, rate-limit counters and two
    read caches in Redis.  RSA keys for its JSON Web Tokens are files.  Browsers
    log in and consent; clients exchange codes, refresh tokens, device codes or
    their own secret for tokens; administrators manage everything over a JSON API.

    ** How the program is modelled

    An [async fn] is a program of the error-state monad [prog] below, over the
    state of [World.v]: the committed tables, the Redis data and a tick.  Each
    request to the outside (a statement, a Redis command, the clock, the random
    source, a blocking task) spends one tick and is answered by [Env], which is a
    parameter: a call may be served, fail before its effect, take effect with the
    answer lost, or be rejected.  A theorem that says nothing about [Env] therefore
    holds under every pattern of failures.  Transactions work on a copy of the
    tables that is committed at the end.  A handler is the whole function, its
    early returns and discarded results included; handlers return an HTTP response
    or an [err], which [Http.v] turns into a response.

    Integers have their Rust width: [Z] with the checks, saturation or wrap-around of
    the operation the source uses.  Strings are UTF-8 bytes.  Times are nanoseconds.

    ** Files and the code they model

    Foundations:
    - [Prelude]: the monad, the program logics [wp] (one state) and [yields] (the
      value alone), the tactics and hint databases, lemmas on lists and options;
    - [RustStr]: the string functions of the standard library;
    - [Redis], [Ext]: interfaces of Redis and of the third-party crates, with laws;
    - [Schema]: [migrations/*.sql]; [World]: the state and its outside;
    - [Demo], [DemoJson], [DemoJwt]: implementations of the interfaces, which show
      that the laws can hold together and on which the witnesses run.

    Shared services:
    - [RedisKeys]: [common/redis/keys.rs], [lua.rs]; [Http]: [common/web/*],
      [error.rs]; [Config]: [config.rs]; [RateLimit]: [common/ratelimit/mod.rs];
    - [Hashing]: [common/crypto/sha256.rs], [hmac_sha256.rs], [random_tokens.rs] and
      [oauth/pkce.rs]; [Secrets]: [common/crypto/argon2.rs], [client/secret.rs];
    - [Jwt]: [common/crypto/jwt.rs]; [KeyFiles]: [common/crypto/rsa_keys.rs];
    - [Scopes]: [oauth/scopes.rs].

    Repositories and stores:
    - [Role]: [role/mod.rs]; [User]: [user/mod.rs]; [Client]: [client/*.rs] with the
      client cache; [RefreshToken]: [oauth/token/repository.rs], [cleanup.rs];
      [Session]: [session/*.rs] with the session cache; [Consent]:
      [oauth/consent/{model,repository,service,pending_store}.rs]; [AccountTokens]:
      [password/repository.rs], [signup/repository.rs]; [AuthCode]:
      [oauth/authorize/code.rs]; [Integrity]: all their SQL statements together.

    Flows and endpoints:
    - [Password]: [password/flow.rs], [login/service.rs]; [LoginHttp]: [login/*.rs];
      [Signup]: [signup/flow.rs]; [AccountHttp]: [signup/resource.rs],
      [password/resource.rs];
    - [Issuer]: [oauth/token/issuer.rs]; [TokenFlow]: [oauth/token/flow.rs];
      [Introspect]: [oauth/token/introspect.rs], [revoke.rs]; [Device]:
      [oauth/device/*.rs]; [Authorize]: [oauth/authorize/flow.rs]; [Logout]:
      [oauth/logout/*.rs]; [OAuthHttp]: [oauth/resource.rs],
      [oauth/consent/resource.rs]; [Oidc]: [oidc/resource.rs];
    - [Bootstrap]: [bootstrap/*.rs]; [Admin]: [admin/*.rs].

    The server as a whole:
    - [Server]: [main.rs], [state.rs]: the services as [main] wires them, start-up, and
      [serve], which runs the handler of a request; [step] is a request, a sweep or a
      restart, and theorems about the server are about sequences of steps;
    - [Routes]: the routing tables of [main.rs] and of the [configure] functions;
    - [Keeps]: a logic for invariants of the tables along programs, whose rules follow
      the program's text, with a tactic that proves them; [Invariants]: those it is
      used for, [intact], [named], [contained] and [single];
    - [ClientCache]: the client cache over sequences of look-ups and writes;
    - [CodeFlow], [ServerFlow]: the authorization-code flow as a whole, on the flows
      and over HTTP.

    A flow calls the repositories' definitions the way the code calls their methods;
    a client of an interface ([RedisLaws], [KeyProvider], [JwtLaws], ...) is proved
    against the laws, and [KeyFiles] discharges [KeyProvider] for the key directory.

    ** What the theorems show

    - State.  Every statement keeps the schema's constraints; the role hierarchy
      stays a forest; nobody ever has two passwords; the client cache answers as the
      database would, as long as no write to the client tables misses Redis; no live
      session-cache entry is without its row; the active signing key is loaded, and
      a restart finds every key again.
    - Credentials.  A code is redeemed once, by its client, with its verifier; a
      refresh token is rotated, and its reuse is refused and, once the client is
      accepted and Postgres answers, revokes the family; a device code is
      decided once and redeemed once; a reset token takes the account over once; a
      signed token validates to its claims and nothing else validates.
    - Endpoints.  [/authorize] issues codes and redirects only after its checks;
      consent is given only by the browser it was asked of; [/userinfo] and
      introspection disclose only what the token covers; every admin endpoint is
      behind its guard; the login page redirects to local paths only (one with a tab
      in it leaves the server all the same, as [LoginHttp.safe_redirect_leaves] shows).
    - Availability and composition.  A registered and verified user can log in; the
      session of a login is accepted by [/auth/me]; a signed access token is accepted
      by [/userinfo] while its session lasts; a successful start-up leaves an
      administrator; and with an outside that answers the whole
      authorization-code flow completes over HTTP, from [/oauth/authorize] to
      [/userinfo], also across a key rotation.
    - The server.  Along every sequence of requests, sweeps and restarts, with any
      failures, the tables keep their constraints, the roles stay a forest, the roles
      and keys the server relies on are there; what people may do changes only by a
      request of an administrator, but for new accounts, which have the role [user].
    - Exactness.  Scopes, consent, effective roles, redirect-URI checks, password
      hashes and, while Redis answers, rate limits are characterised by equivalences
      or equalities.
    - Where the code does not do what it means to, a lemma or an [Example] at the end
      of the file runs it: lost logouts when Redis is down, a key that returns after
      its retirement, an administrator without a password, and others.

    ** Bounds and fuel

    Only the two walks of the role hierarchy recurse on fuel: the number of roles,
    which [climb_fuel] and [walk_fuel] prove sufficient, so the error that stands for
    exhausted fuel is never raised.  All other loops are structural, with the bounds
    the source writes ([push_chars] and [persist_loop] in [Device.v]).

    ** Assumptions

    None beyond the sections' contexts, which turn into hypotheses: [RedisLaws],
    [EnvLaws] (rows come in some order, the clock of Redis does not run backwards,
    random values have the size asked for), [CryptoLaws], [UrlCodecLaws],
    [TextsLaws], [ValueParserLaws], [JsonCodecLaws], [JwtLaws], [Argon2Laws],
    [RsaLaws], [FsLaws], [KidLaws].  Theorems that need digests to be free of collisions, which is an
    idealisation, name [DigestInjective] or [Argon2Injective].

    ** Not modelled

    - in [main.rs]: CORS, metrics and tracing middleware, the favicon and the socket,
      which are calls into actix-web; how actix-web searches the routing tables is the
      parameter [Router] of [Routes.v], and what its extractors make of a request is
      the argument of a [request] in [Server.v];
    - [db.rs], [redis_pool.rs]: connection pools and the migration runner;
    - [common/redis/json.rs]: two wrappers around [serde_json], which is the interface
      [JsonCodec] here;
    - the HTML templates (the interface [Askama]), the delivery of back-channel
      logout requests, logging, the timers that start the sweeps;
    - interleavings within one handler: the server takes requests one at a time.
      Where the code guards against interleaving (transactions, Lua scripts, row
      locks) these are single steps, and sessions, the client cache, statements and
      keys are also stated along arbitrary sequences of their operations; in the
      components the key set may change at every tick of a handler. *)

From stdpp Require Import base tactics list gmap strings sorting.

(** ** The error-state monad

    Every [async fn] of the server reads and writes shared state (Postgres,
    Redis, the clock, the random source) and may fail.  A call that fails keeps
    the effects it had before the failure, so a program returns its outcome
    next to the state in both cases. *)

Inductive res (E A : Type) : Type :=
| Ok (a : A)
| Err (e : E).
Global Arguments Ok {E A} a.
Global Arguments Err {E A} e.

Definition prog (S E A : Type) : Type := S -> res E A * S.

Section Monad.
Context {S E : Type}.

Definition ret {A} (a : A) : prog S E A := fun s => (Ok a, s).

Definition throw {A} (e : E) : prog S E A := fun s => (Err e, s).

(** The [?] operator: an error ends the enclosing function. *)
Definition bind {A B} (m : prog S E A) (k : A -> prog S E B) : prog S E B :=
  fun s =>
    match m s with
    | (Ok a, s') => k a s'
    | (Err e, s') => (Err e, s')
    end.

(** A call whose [Result] is inspected instead of propagated. *)
Definition attempt {A} (m : prog S E A) : prog S E (res E A) :=
  fun s => match m s with (r, s') => (Ok r, s') end.

(** [call.await.map_err(f)?] in a function whose own errors are the [F] of its
    result. *)
Definition or_fail {A B F} (m : prog S E A) (f : E -> F) (k : A -> prog S E (res F B)) : prog S E (res F B) :=
  bind (attempt m) (fun r => match r with Ok a => k a | Err e => ret (Err (f e)) end).

(** [let _ = call.await;] *)
Definition ignore {A} (m : prog S E A) : prog S E unit :=
  bind (attempt m) (fun _ => ret tt).

(** [for x in xs { body(x).await?; }] *)
Fixpoint for_each {A} (xs : list A) (body : A -> prog S E unit) : prog S E unit :=
  match xs with
  | [] => ret tt
  | x :: rest => bind (body x) (fun _ => for_each rest body)
  end.

(** [for x in xs { out.push(body(x).await?); }] *)
Fixpoint for_collect {A B} (xs : list A) (body : A -> prog S E B) : prog S E (list B) :=
  match xs with
  | [] => ret []
  | x :: rest =>
      bind (body x) (fun y => bind (for_collect rest body) (fun ys => ret (y :: ys)))
  end.
End Monad.

Declare Scope auth_scope.
Delimit Scope auth_scope with auth.

(** Pure fallible code: a statement's checks, a parser's [?]. *)
Definition rbind {E A B} (r : res E A) (k : A -> res E B) : res E B :=
  match r with Ok a => k a | Err e => Err e end.

Definition ok {E A} (r : res E A) : option A :=
  match r with Ok a => Some a | Err _ => None end.

Definition ok_or {E A} (e : E) (o : option A) : res E A :=
  match o with Some a => Ok a | None => Err e end.

Notation "'let?' x := m 'in' k" := (rbind m (fun x => k))
  (at level 10, x name, m at level 100, k at level 200,
   format "'[v' 'let?'  x  :=  m  'in' '/' k ']'") : auth_scope.
Notation "'check!' b 'else' e 'in' k" := (if b then k else Err e)
  (at level 10, b at level 100, e at level 100, k at level 200,
   format "'[v' 'check!'  b  'else'  e  'in' '/' k ']'") : auth_scope.

Notation "'let!' x := m 'in' k" := (bind m (fun x => k))
  (at level 10, x name, m at level 100, k at level 200,
   format "'[v' 'let!'  x  :=  m  'in' '/' k ']'") : auth_scope.
Notation "'let!' ' p := m 'in' k" :=
  (bind m (fun x => match x with p => k end))
  (at level 10, p strict pattern, m at level 100, k at level 200,
   format "'[v' 'let!'  ' p  :=  m  'in' '/' k ']'") : auth_scope.
Notation "'do!' m 'in' k" := (bind m (fun _ => k))
  (at level 10, m at level 100, k at level 200,
   format "'[v' 'do!'  m  'in' '/' k ']'") : auth_scope.

Notation "'try!' x := m 'else' f 'in' k" := (or_fail m f (fun x => k))
  (at level 10, x name, m at level 100, f at level 100, k at level 200,
   format "'[v' 'try!'  x  :=  m  'else'  f  'in' '/' k ']'") : auth_scope.
Notation "'try!' ' p := m 'else' f 'in' k" := (or_fail m f (fun x => match x with p => k end))
  (at level 10, p strict pattern, m at level 100, f at level 100, k at level 200,
   format "'[v' 'try!'  ' p  :=  m  'else'  f  'in' '/' k ']'") : auth_scope.

(** ** Weakest preconditions

    [wp m Q s]: running [m] from [s] ends in an outcome and a state that
    satisfy [Q].  [Q] sees failures too, so a postcondition says what holds on
    every path. *)

Definition wp {S E A} (m : prog S E A) (Q : res E A -> S -> Prop) (s : S) : Prop :=
  Q (m s).1 (m s).2.

(** Only successful runs: what holds when the call returns [Ok]. *)
Definition post {A} {S E : Type} (Q : A -> S -> Prop) : res E A -> S -> Prop :=
  fun r s => match r with Ok a => Q a s | Err _ => True end.

(** What holds of the final state, whatever the outcome. *)
Definition always {A} {S E : Type} (Q : S -> Prop) : res E A -> S -> Prop :=
  fun _ s => Q s.

Section WpRules.
Context {S E : Type}.
Implicit Types s : S.

Lemma wp_ret {A} (a : A) Q s : Q (Ok a) s -> wp (S:=S) (E:=E) (ret a) Q s.
Proof. exact id. Qed.

Lemma wp_throw {A} (e : E) Q s : Q (Err e) s -> wp (A:=A) (throw e) Q s.
Proof. exact id. Qed.

Lemma wp_bind {A B} (m : prog S E A) (k : A -> prog S E B) Q s :
  wp m (fun r s' => match r with Ok a => wp (k a) Q s' | Err e => Q (Err e) s' end) s ->
  wp (bind m k) Q s.
Proof. unfold wp, bind. destruct (m s) as [[a|e] s']; done. Qed.

Lemma wp_bind_inv {A B} (m : prog S E A) (k : A -> prog S E B) Q s :
  wp (bind m k) Q s ->
  wp m (fun r s' => match r with Ok a => wp (k a) Q s' | Err e => Q (Err e) s' end) s.
Proof. unfold wp, bind. destruct (m s) as [[a|e] s']; done. Qed.

Lemma wp_attempt {A} (m : prog S E A) Q s :
  wp m (fun r s' => Q (Ok r) s') s -> wp (attempt m) Q s.
Proof. unfold wp, attempt. by destruct (m s). Qed.

Lemma wp_mono {A} (m : prog S E A) (Q Q' : res E A -> S -> Prop) s :
  wp m Q s -> (forall r s', Q r s' -> Q' r s') -> wp m Q' s.
Proof. unfold wp. eauto. Qed.

Lemma wp_ignore {A} (m : prog S E A) Q s : wp m (fun _ s' => Q (Ok tt) s') s -> wp (ignore m) Q s.
Proof. intros Hm. apply wp_bind, wp_attempt. eapply wp_mono; [exact Hm|]. by intros r s'. Qed.

Lemma wp_or_fail {A B F} (m : prog S E A) (f : E -> F) (k : A -> prog S E (res F B)) Q s :
  wp m (fun r s' => match r with Ok a => wp (k a) Q s' | Err e => Q (Ok (Err (f e))) s' end) s ->
  wp (or_fail m f k) Q s.
Proof. intros Hm. apply wp_bind, wp_attempt. eapply wp_mono; [exact Hm|]. by intros [a|e] s'. Qed.

Lemma wp_conj {A} (m : prog S E A) (Q Q' : res E A -> S -> Prop) s :
  wp m Q s -> wp m Q' s -> wp m (fun r s' => Q r s' /\ Q' r s') s.
Proof. by unfold wp. Qed.

(** Reading a triple back as a statement about one run. *)
Lemma wp_run {A} (m : prog S E A) Q s r s' : wp m Q s -> m s = (r, s') -> Q r s'.
Proof. unfold wp. intros H Hrun. by rewrite Hrun in H. Qed.

Lemma run_wp {A} (m : prog S E A) (Q : res E A -> S -> Prop) s :
  (forall r s', m s = (r, s') -> Q r s') -> wp m Q s.
Proof. unfold wp. intros H. destruct (m s) as [r s'] eqn:Hm. by apply H. Qed.

Lemma bind_ok {A B} (m : prog S E A) (k : A -> prog S E B) s b s' :
  bind m k s = (Ok b, s') -> exists a s1, m s = (Ok a, s1) /\ k a s1 = (Ok b, s').
Proof. unfold bind. destruct (m s) as [[a|e] s1]; [eauto|done]. Qed.

Lemma bind_eq {A B} (m : prog S E A) (k : A -> prog S E B) s a s1 :
  m s = (Ok a, s1) -> bind m k s = k a s1.
Proof. unfold bind. by intros ->. Qed.

Lemma bind_err {A B} (m : prog S E A) (k : A -> prog S E B) s e s1 :
  m s = (Err e, s1) -> bind m k s = (Err e, s1).
Proof. unfold bind. by intros ->. Qed.

(** A run named by its outcome. *)
Lemma run_fst {A} (m : prog S E A) s r : (m s).1 = r -> m s = (r, (m s).2).
Proof. intros <-. apply surjective_pairing. Qed.

(** Monad laws, pointwise. *)
Lemma bind_ret_l {A B} (a : A) (k : A -> prog S E B) s : bind (ret a) k s = k a s.
Proof. done. Qed.

Lemma bind_assoc {A B C} (m : prog S E A) (k : A -> prog S E B) (h : B -> prog S E C) s :
  bind (bind m k) h s = bind m (fun a => bind (k a) h) s.
Proof. unfold bind. by destruct (m s) as [[a|e] s']. Qed.

(** Loops keep an invariant of the state. *)
Lemma wp_for_each {A} (I : S -> Prop) (xs : list A) (body : A -> prog S E unit) s :
  (forall x s', x ∈ xs -> I s' -> wp (body x) (always I) s') ->
  I s -> wp (for_each xs body) (always I) s.
Proof.
  revert s. induction xs as [|x xs IH]; intros s Hb Hs; simpl; [exact Hs|].
  apply wp_bind. eapply wp_mono; [apply Hb; [left|done]|].
  intros [[]|e] s' Hs'; [|done]. apply IH; [|done].
  intros y s'' Hy. apply Hb. by right.
Qed.

Lemma wp_for_collect {A B} (I : S -> Prop) (R : A -> B -> Prop) (xs : list A) (body : A -> prog S E B) s :
  (forall x s', x ∈ xs -> I s' -> wp (body x) (fun r s'' => I s'' /\ forall y, r = Ok y -> R x y) s') ->
  I s -> wp (for_collect xs body) (fun r s' => I s' /\ forall ys, r = Ok ys -> Forall2 R xs ys) s.
Proof.
  revert s. induction xs as [|x xs IH]; intros s Hb Hs; simpl; [apply wp_ret; split; [done|by intros ? [= <-]]|].
  apply wp_bind. eapply wp_mono; [apply Hb; [left|done]|]. intros [y|e] s' [Hs' Hr]; [|done].
  apply wp_bind. eapply wp_mono; [apply IH; [|done]; intros z s'' Hz; apply Hb; by right|].
  intros [ys|e] s'' [Hs'' Hrs]; [|done]. apply wp_ret. split; [done|]. intros ? [= <-]. constructor; auto.
Qed.

(** What a program can return, in whatever state it runs and whatever its calls
    answer: only the values it ends with matter. *)
Definition yields {A} (P : A -> Prop) (m : prog S E A) : Prop := forall s a s', m s = (Ok a, s') -> P a.

Lemma yields_ret {A} (P : A -> Prop) a : P a -> yields P (ret a).
Proof. by intros HP s ? s' [= <- <-]. Qed.
Lemma yields_throw {A} (P : A -> Prop) e : yields P (throw e).
Proof. by intros s a s'. Qed.
Lemma yields_bind {A B} (P : B -> Prop) (m : prog S E A) (k : A -> prog S E B) :
  (forall a, yields P (k a)) -> yields P (bind m k).
Proof. intros Hk s b s' (a & s1 & _ & Hrun)%bind_ok. by eapply Hk. Qed.
End WpRules.

Global Opaque bind.

(** Hints: integrity of the tables; triples of the effectful primitives. *)
Create HintDb pg.
Create HintDb wp.

(** Go to the ends of a program. *)
Ltac yields_step := match goal with
  | |- yields _ (bind _ _) => apply yields_bind; intros ?
  | |- yields _ (ret _) => apply yields_ret
  | |- yields _ (throw _) => apply yields_throw
  | |- yields _ (let _ := _ in _) => cbv zeta
  | |- yields _ (match ?x with _ => _ end) => destruct x
  end; cbn beta.
Ltac yields_steps := repeat yields_step.

(** Comparisons of literal keys. *)
Ltac closed_keys := repeat match goal with
  | |- context [@bool_decide (?a = ?b) ?d] =>
      let v := eval vm_compute in (@bool_decide (a = b) d) in change (@bool_decide (a = b) d) with v
  end.
