(* ===== verification/RustStr.v ===== *)
(** * Rust's [str] and [String]

    A Rust string is a sequence of UTF-8 bytes; here it is a [string], whose
    characters are the bytes.  [chars] cuts it into scalar values (each one the
    string of its bytes), and the functions of the standard library the server
    uses ([trim], [split], [split_whitespace], [to_lowercase], ...) are written
    over it.  The generic lemmas of the file are what the scope, consent and
    device components rest on. *)

From stdpp Require Import base tactics list gmap strings sorting.
From Stdlib Require Import Ascii ZArith.
From S2P Require Import Prelude.

Implicit Types s t : string.

Definition byte (c : ascii) : N := N_of_ascii c.

(** ** UTF-8 scalar values *)

(** A continuation byte, [10xxxxxx]. *)
Definition is_cont (c : ascii) : bool := (128 <=? byte c)%N && (byte c <? 192)%N.

(** Number of bytes the lead byte announces. *)
Definition utf8_width (c : ascii) : nat :=
  if (byte c <? 192)%N then 1
  else if (byte c <? 224)%N then 2
  else if (byte c <? 240)%N then 3
  else 4.

(** [s.chars()]: the scalar values in order.  A lead byte that is not followed
    by its continuation bytes, which no Rust string contains, stands alone. *)
Fixpoint chars (s : string) : list string :=
  match s with
  | "" => []
  | String a r =>
      match utf8_width a, r with
      | 2, String b r2 =>
          if is_cont b then String a (String b "") :: chars r2
          else String a "" :: chars r
      | 3, String b (String c r3 as r2) =>
          if is_cont b && is_cont c then String a (String b (String c "")) :: chars r3
          else String a "" :: chars r
      | 4, String b (String c (String d r4 as r3) as r2) =>
          if is_cont b && is_cont c && is_cont d
          then String a (String b (String c (String d ""))) :: chars r4
          else String a "" :: chars r
      | _, _ => String a "" :: chars r
      end
  end.

(** Gluing scalar values back together ([collect::<String>()]). *)
Definition of_chars (cs : list string) : string := foldr String.append "" cs.

(** [char::is_whitespace]: the Unicode property [White_Space]. *)
Definition is_whitespace (ch : string) : bool :=
  match ch with
  | String a "" => ((9 <=? byte a) && (byte a <=? 13))%N || (byte a =? 32)%N
  | String a (String b "") =>
      (byte a =? 194)%N && ((byte b =? 133) || (byte b =? 160))%N
  | String a (String b (String c "")) =>
      ((byte a =? 225) && (byte b =? 154) && (byte c =? 128))%N
      || ((byte a =? 226) && (byte b =? 128)
          && (((128 <=? byte c) && (byte c <=? 138))
              || (byte c =? 168) || (byte c =? 169) || (byte c =? 175)))%N
      || ((byte a =? 226) && (byte b =? 129) && (byte c =? 159))%N
      || ((byte a =? 227) && (byte b =? 128) && (byte c =? 128))%N
  | _ => false
  end.

(** ** Trimming and splitting *)

Fixpoint drop_while {A} (p : A -> bool) (l : list A) : list A :=
  match l with
  | [] => []
  | x :: r => if p x then drop_while p r else l
  end.

(** [s.trim()] *)
Definition trim_chars (cs : list string) : list string :=
  rev (drop_while is_whitespace (rev (drop_while is_whitespace cs))).
Definition trim (s : string) : string := of_chars (trim_chars (chars s)).

(** [s.split(p)]: the pieces between the scalar values that satisfy [p],
    empty pieces included. *)
Fixpoint split_chars (p : string -> bool) (cs : list string) : list (list string) :=
  match cs with
  | [] => [[]]
  | c :: r =>
      if p c then [] :: split_chars p r
      else match split_chars p r with
           | [] => [[c]]
           | piece :: rest => (c :: piece) :: rest
           end
  end.
Definition split (p : string -> bool) (s : string) : list string :=
  of_chars <$> split_chars p (chars s).

Definition is_empty (s : string) : bool := match s with "" => true | _ => false end.

(** [s.split_whitespace()] *)
Definition split_whitespace (s : string) : list string :=
  base.filter (fun t => is_empty t = false) (split is_whitespace s).

(** ** ASCII case *)

Definition ascii_lower (c : ascii) : ascii :=
  if ((65 <=? byte c) && (byte c <=? 90))%N then ascii_of_N (byte c + 32) else c.
Definition ascii_upper (c : ascii) : ascii :=
  if ((97 <=? byte c) && (byte c <=? 122))%N then ascii_of_N (byte c - 32) else c.

Fixpoint map_bytes (f : ascii -> ascii) (s : string) : string :=
  match s with "" => "" | String c r => String (f c) (map_bytes f r) end.

(** [s.to_ascii_lowercase()] *)
Definition to_ascii_lowercase : string -> string := map_bytes ascii_lower.
Definition to_ascii_uppercase : string -> string := map_bytes ascii_upper.

(** [s.eq_ignore_ascii_case(t)] *)
Definition eq_ignore_ascii_case (s t : string) : bool :=
  bool_decide (to_ascii_lowercase s = to_ascii_lowercase t).

Fixpoint is_ascii (s : string) : bool :=
  match s with "" => true | String c r => (byte c <? 128)%N && is_ascii r end.

(** [str::to_lowercase] and [str::to_uppercase] use the Unicode case tables.
    On ASCII strings they are the ASCII maps; the table for the others is a
    parameter. *)
Class UnicodeTables := {
  uni_lower : string -> string;
  uni_upper : string -> string;
}.

Definition to_lowercase `{UnicodeTables} (s : string) : string :=
  if is_ascii s then map_bytes ascii_lower s else uni_lower s.
Definition to_uppercase `{UnicodeTables} (s : string) : string :=
  if is_ascii s then map_bytes ascii_upper s else uni_upper s.

(** [o.filter(|s| !s.is_empty())] *)
Definition nonempty (o : option string) : option string :=
  match o with Some s => if is_empty s then None else Some s | None => None end.

(** ** Searching *)

(** [s.contains(c)] for an ASCII [c]. *)
Fixpoint contains_byte (c : ascii) (s : string) : bool :=
  match s with "" => false | String d r => bool_decide (c = d) || contains_byte c r end.

(** [s.find(c)] for an ASCII [c]: the index of its first byte. *)
Fixpoint find_byte (c : ascii) (s : string) : option nat :=
  match s with
  | "" => None
  | String d r => if bool_decide (c = d) then Some 0 else S <$> find_byte c r
  end.

(** [s.starts_with(p)] *)
Definition starts_with (p s : string) : bool := String.prefix p s.

(** [&s[..n]] and [&s[n..]] *)
Fixpoint take_bytes (n : nat) (s : string) : string :=
  match n, s with S n, String c r => String c (take_bytes n r) | _, _ => "" end.
Fixpoint drop_bytes (n : nat) (s : string) : string :=
  match n, s with 0, _ => s | S n, String _ r => drop_bytes n r | S _, "" => "" end.

(** Decimal digits, as [str::parse] of an integer type reads them. *)
Definition is_digit (c : ascii) : bool := (48 <=? byte c)%N && (byte c <=? 57)%N.

Fixpoint all_digits (s : string) : bool :=
  match s with "" => true | String c r => is_digit c && all_digits r end.

Fixpoint digits_value (acc : Z) (s : string) : Z :=
  match s with
  | "" => acc
  | String c r => digits_value (acc * 10 + (Z.of_N (byte c) - 48)) r
  end.

(** [s.parse::<i64>().ok()] *)
Definition parse_i64 (s : string) : option Z :=
  let unsigned r := if is_empty r || negb (all_digits r) then None else Some (digits_value 0 r) in
  let v := match s with
           | String "-" r => Z.opp <$> unsigned r
           | String "+" r => unsigned r
           | _ => unsigned s
           end in
  match v with
  | Some n => if ((-9223372036854775808 <=? n) && (n <=? 9223372036854775807))%Z then Some n else None
  | None => None
  end.

(** [vec.join(sep)] *)
Fixpoint join (sep : string) (l : list string) : string :=
  match l with
  | [] => ""
  | [x] => x
  | x :: r => x +:+ sep +:+ join sep r
  end.

(** [Vec<String>] from a [HashSet], then [sort()]: byte order. *)
Definition sorted (X : gset string) : list string := merge_sort String.le (elements X).

(** ** Lemmas *)

Lemma string_app_nil_r s : s +:+ "" = s.
Proof. induction s as [|c s IH]; [done|]. unfold String.app in *. simpl. by rewrite IH. Qed.

Lemma string_app_assoc s1 s2 s3 : s1 +:+ (s2 +:+ s3) = (s1 +:+ s2) +:+ s3.
Proof. induction s1 as [|c s IH]; [done|]. unfold String.app in *. simpl. by rewrite IH. Qed.

Lemma string_app_cons c s t : String c s +:+ t = String c (s +:+ t).
Proof. done. Qed.

Lemma contains_byte_app c s t : contains_byte c (s +:+ t) = contains_byte c s || contains_byte c t.
Proof. induction s as [|d s IH]; simpl; [done|]. fold (s +:+ t). by rewrite IH, orb_assoc. Qed.

Lemma of_chars_app cs ds : of_chars (cs ++ ds) = of_chars cs +:+ of_chars ds.
Proof.
  induction cs as [|c cs IH]; [done|]. simpl. by rewrite IH, string_app_assoc.
Qed.

(** *** Cutting into scalar values

    [chars] takes one scalar value off the front; [char_len] is its number of
    bytes. *)
Definition char_len (a : ascii) (r : string) : nat :=
  match utf8_width a, r with
  | 2, String b _ => if is_cont b then 2 else 1
  | 3, String b (String c _) => if is_cont b && is_cont c then 3 else 1
  | 4, String b (String c (String d _)) => if is_cont b && is_cont c && is_cont d then 4 else 1
  | _, _ => 1
  end.

Lemma chars_cons a r :
  chars (String a r) =
    take_bytes (char_len a r) (String a r) :: chars (drop_bytes (char_len a r) (String a r)).
Proof.
  unfold char_len. cbn [chars].
  destruct (utf8_width a) as [|[|[|[|[|?]]]]], r as [|b [|c [|d r]]]; try done;
    by repeat case_match.
Qed.

Lemma char_len_pos a r : exists n, char_len a r = S n.
Proof. unfold char_len. repeat case_match; eauto. Qed.

Lemma take_drop_bytes n s : take_bytes n s +:+ drop_bytes n s = s.
Proof.
  revert s. induction n as [|n IH]; intros [|c s]; try done. simpl.
  by rewrite string_app_cons, IH.
Qed.

Lemma length_drop_bytes n s : String.length (drop_bytes n s) = String.length s - n.
Proof. revert s. induction n as [|n IH]; intros [|c s]; simpl; auto. Qed.

(** Induction along [chars]. *)
Lemma chars_ind (P : string -> Prop) :
  P "" ->
  (forall a r, P (drop_bytes (char_len a r) (String a r)) -> P (String a r)) ->
  forall s, P s.
Proof.
  intros H0 Hstep s.
  induction s as [s IH] using (induction_ltof1 _ String.length). destruct s as [|a r]; [done|].
  apply Hstep, IH. unfold ltof. rewrite length_drop_bytes.
  destruct (char_len_pos a r) as [n ->]. simpl. lia.
Qed.

Lemma of_chars_chars s : of_chars (chars s) = s.
Proof.
  induction s as [|a r IH] using chars_ind; [done|].
  rewrite chars_cons. simpl of_chars. rewrite IH. apply take_drop_bytes.
Qed.

Lemma chars_nil_inv s : chars s = [] -> s = "".
Proof. destruct s as [|a r]; [done|]. by rewrite chars_cons. Qed.

(** An appended byte that does not continue a scalar value starts a new one. *)
Lemma char_len_app a r b t :
  is_cont b = false -> char_len a (r +:+ String b t) = char_len a r.
Proof.
  intros Hb. unfold char_len.
  destruct (utf8_width a) as [|[|[|[|[|?]]]]], r as [|b1 [|b2 [|b3 r]]];
    destruct t as [|t1 [|t2 t]]; unfold String.app; cbn; by rewrite ?Hb, ?andb_false_r.
Qed.

Lemma char_len_le a r : char_len a r <= String.length (String a r).
Proof.
  unfold char_len.
  destruct (utf8_width a) as [|[|[|[|[|?]]]]], r as [|b1 [|b2 [|b3 r]]]; simpl;
    repeat case_match; lia.
Qed.

Lemma take_bytes_app n s t : n <= String.length s -> take_bytes n (s +:+ t) = take_bytes n s.
Proof.
  revert s. induction n as [|n IH]; intros [|c s] Hn; simpl in *; try done; [lia|].
  by rewrite IH by lia.
Qed.

Lemma drop_bytes_app n s t :
  n <= String.length s -> drop_bytes n (s +:+ t) = drop_bytes n s +:+ t.
Proof.
  revert s. induction n as [|n IH]; intros [|c s] Hn; simpl in *; try done; [lia|].
  by rewrite IH by lia.
Qed.

Lemma chars_app_break s b t :
  is_cont b = false -> chars (s +:+ String b t) = chars s ++ chars (String b t).
Proof.
  intros Hb. induction s as [|a r IH] using chars_ind; [done|].
  rewrite string_app_cons, !(chars_cons a), char_len_app by done.
  pose proof (char_len_le a r) as Hle.
  change (String a (r +:+ String b t)) with (String a r +:+ String b t).
  rewrite take_bytes_app, drop_bytes_app by done. simpl. by rewrite IH.
Qed.

Lemma is_cont_ascii b : (byte b <? 128)%N = true -> is_cont b = false.
Proof. unfold is_cont. intros H%N.ltb_lt. apply andb_false_intro1, N.leb_gt, H. Qed.

Lemma chars_ascii_cons b t :
  (byte b <? 128)%N = true -> chars (String b t) = String b "" :: chars t.
Proof.
  intros H. rewrite chars_cons.
  assert (char_len b t = 1) as ->; [|done].
  unfold char_len, utf8_width. apply N.ltb_lt in H.
  destruct (byte b <? 192)%N eqn:E; [done|]. apply N.ltb_ge in E. lia.
Qed.

(** A run of consecutive scalar values is cut the same way on its own. *)
Lemma char_len_prefix a u v :
  char_len a (u +:+ v) <= String.length (String a u) ->
  char_len a u = char_len a (u +:+ v).
Proof.
  unfold char_len.
  destruct (utf8_width a) as [|[|[|[|[|?]]]]], u as [|b1 [|b2 [|b3 u]]], v as [|c1 [|c2 [|c3 v]]];
    unfold String.app; simpl; intros; repeat case_match; try done; lia.
Qed.

Lemma of_chars_cons_take a r l :
  of_chars (take_bytes (char_len a r) (String a r) :: l) =
  String a (drop_bytes 1 (take_bytes (char_len a r) (String a r)) +:+ of_chars l).
Proof. destruct (char_len_pos a r) as [n Hn]. rewrite Hn. done. Qed.

Lemma take_bytes_length_le n s : n <= String.length s -> String.length (take_bytes n s) = n.
Proof. revert s. induction n as [|n IH]; intros [|c s] Hn; simpl in *; try done; [lia|]. by rewrite IH by lia. Qed.

Lemma string_length_app s t : String.length (s +:+ t) = String.length s + String.length t.
Proof. induction s as [|c s IH]; [done|]. rewrite string_app_cons. simpl. by rewrite IH. Qed.

Lemma take_bytes_all n s t : String.length s = n -> take_bytes n (s +:+ t) = s.
Proof. intros <-. induction s as [|c s IH]; [done|]. rewrite string_app_cons. simpl. by rewrite IH. Qed.

Lemma drop_bytes_all n s t : String.length s = n -> drop_bytes n (s +:+ t) = t.
Proof. intros <-. induction s as [|c s IH]; [done|]. rewrite string_app_cons. simpl. done. Qed.

Lemma chars_prefix s l r : chars s = l ++ r -> chars (of_chars l) = l.
Proof.
  revert l. induction s as [|a u IH] using chars_ind; intros l Hl.
  { by destruct l. }
  destruct l as [|x l]; [done|]. rewrite chars_cons in Hl.
  injection Hl as Hl0 Hx. subst x. specialize (IH l Hx).
  set (n := char_len a u) in *.
  assert (Hrest : drop_bytes n (String a u) = of_chars l +:+ of_chars r).
  { by rewrite <- of_chars_app, <- Hx, of_chars_chars. }
  pose proof (char_len_le a u) as Hle. fold n in Hle.
  pose proof (take_bytes_length_le _ _ Hle) as Hlen.
  destruct (char_len_pos a u) as [m Hm]. fold n in Hm.
  assert (Hu : u = (take_bytes m u +:+ of_chars l) +:+ of_chars r).
  { rewrite Hm in Hrest. simpl in Hrest. rewrite <- string_app_assoc, <- Hrest.
    by rewrite take_drop_bytes. }
  assert (Heq : take_bytes n (String a u) = String a (take_bytes m u)) by by rewrite Hm.
  rewrite Heq in Hlen |- *. change (of_chars (String a (take_bytes m u) :: l))
    with (String a (take_bytes m u +:+ of_chars l)).
  assert (Hc : char_len a (take_bytes m u +:+ of_chars l) = n).
  { unfold n. rewrite Hu at 2. apply char_len_prefix. rewrite <- Hu. fold n.
    simpl in Hlen |- *. rewrite string_length_app. lia. }
  rewrite chars_cons, Hc.
  change (String a (take_bytes m u +:+ of_chars l)) with (String a (take_bytes m u) +:+ of_chars l).
  by rewrite take_bytes_all, drop_bytes_all, IH.
Qed.

Lemma chars_suffix s l r : chars s = l ++ r -> chars (of_chars r) = r.
Proof.
  revert l. induction s as [|a u IH] using chars_ind; intros l Hl.
  { by destruct l, r. }
  destruct l as [|x l].
  - change ([] ++ r) with r in Hl. by rewrite <- Hl, of_chars_chars.
  - rewrite chars_cons in Hl. injection Hl as _ Hl. by eapply IH.
Qed.

Lemma chars_infix s l m r : chars s = l ++ m ++ r -> chars (of_chars m) = m.
Proof. intros H. apply chars_suffix in H. eapply chars_prefix. by rewrite H. Qed.

(** *** Splitting *)

Lemma split_chars_infix p cs piece :
  piece ∈ split_chars p cs -> exists l r, cs = l ++ piece ++ r.
Proof.
  assert (Hgen : forall cs, (exists r, default [] (head (split_chars p cs)) ++ r = cs)
    /\ (forall q, q ∈ split_chars p cs -> exists l r, cs = l ++ q ++ r)); [|apply Hgen].
  clear. induction cs as [|c cs [[r0 IH0] IH]]; simpl.
  { split; [by exists []|]. intros q ->%list_elem_of_singleton. by exists [], []. }
  destruct (p c).
  - split; [by exists (c :: cs)|].
    intros q [->|Hq]%elem_of_cons; [by exists [], (c :: cs)|].
    destruct (IH q Hq) as (l & r & ->). by exists (c :: l), r.
  - destruct (split_chars p cs) as [|q0 qs]; simpl in *.
    + split; [by exists cs|]. intros q ->%list_elem_of_singleton. by exists [], cs.
    + split; [exists r0; by rewrite IH0|].
      intros q [->|Hq]%elem_of_cons.
      * exists [], r0. by rewrite <- IH0.
      * destruct (IH q) as (l & r & Heq); [by right|]. exists (c :: l), r. by rewrite Heq.
Qed.

Lemma split_chars_clean p cs piece c :
  piece ∈ split_chars p cs -> c ∈ piece -> p c = false.
Proof.
  revert piece. induction cs as [|d cs IH]; simpl; intros piece Hp Hc.
  { apply list_elem_of_singleton in Hp as ->. by apply not_elem_of_nil in Hc. }
  destruct (p d) eqn:Hd.
  - apply elem_of_cons in Hp as [->|Hp]; [by apply not_elem_of_nil in Hc|eauto].
  - destruct (split_chars p cs) as [|q0 qs].
    + apply list_elem_of_singleton in Hp as ->. by apply list_elem_of_singleton in Hc as ->.
    + apply elem_of_cons in Hp as [->|Hp]; [|apply (IH piece); [by right|done]].
      apply elem_of_cons in Hc as [->|Hc]; [done|]. apply (IH q0); [by left|done].
Qed.

Lemma split_chars_nonempty p cs : split_chars p cs <> [].
Proof. destruct cs as [|c cs]; simpl; [done|]. destruct (p c); [done|]. by destruct (split_chars p cs). Qed.

Lemma split_chars_app p l c r :
  p c = true -> split_chars p (l ++ c :: r) = split_chars p l ++ split_chars p r.
Proof.
  intros Hc. induction l as [|d l IH]; simpl; [by rewrite Hc|].
  rewrite IH. destruct (p d); [done|].
  pose proof (split_chars_nonempty p l). by destruct (split_chars p l).
Qed.

Lemma split_chars_whole p cs : (forall c, c ∈ cs -> p c = false) -> split_chars p cs = [cs].
Proof.
  induction cs as [|c cs IH]; intros H; simpl; [done|].
  rewrite (H c) by left. rewrite IH; [done|]. intros d Hd. apply H. by right.
Qed.

(** The non-empty pieces: [split(p)] followed by a filter on emptiness. *)
Definition pieces (p : string -> bool) (cs : list string) : list (list string) :=
  base.filter (fun q => q <> []) (split_chars p cs).

Lemma pieces_app p l c r : p c = true -> pieces p (l ++ c :: r) = pieces p l ++ pieces p r.
Proof. intros Hc. unfold pieces. by rewrite split_chars_app, filter_app. Qed.

Lemma pieces_seps p cs : Forall (fun c => p c = true) cs -> pieces p cs = [].
Proof.
  induction 1 as [|c cs Hc _ IH]; [done|].
  change (c :: cs) with ([] ++ c :: cs). by rewrite pieces_app, IH.
Qed.

Lemma pieces_strip_l p l cs : Forall (fun c => p c = true) l -> pieces p (l ++ cs) = pieces p cs.
Proof.
  induction 1 as [|c l Hc _ IH]; [done|].
  change ((c :: l) ++ cs) with ([] ++ c :: (l ++ cs)). by rewrite pieces_app, IH.
Qed.

Lemma pieces_strip_r p cs l : Forall (fun c => p c = true) l -> pieces p (cs ++ l) = pieces p cs.
Proof.
  intros [|c l' Hc Hl]; [by rewrite app_nil_r|].
  by rewrite pieces_app, (pieces_seps p l'), app_nil_r.
Qed.

(** *** Trimming *)

Lemma drop_while_spec {A} (p : A -> bool) (l : list A) :
  exists pre, l = pre ++ drop_while p l /\ Forall (fun x => p x = true) pre.
Proof.
  induction l as [|x l (pre & IH & Hpre)]; simpl; [by exists []|].
  destruct (p x) eqn:Hx; [|by exists []].
  exists (x :: pre). split; [by rewrite IH at 1|by constructor].
Qed.

Lemma drop_while_none {A} (p : A -> bool) (l : list A) :
  (forall x, x ∈ l -> p x = false) -> drop_while p l = l.
Proof. destruct l as [|x l]; intros H; simpl; [done|]. by rewrite (H x) by left. Qed.

Lemma trim_chars_spec cs :
  exists pre suf, cs = pre ++ trim_chars cs ++ suf
    /\ Forall (fun c => is_whitespace c = true) pre
    /\ Forall (fun c => is_whitespace c = true) suf.
Proof.
  destruct (drop_while_spec is_whitespace cs) as (pre & Hpre & Fpre).
  destruct (drop_while_spec is_whitespace (rev (drop_while is_whitespace cs)))
    as (suf & Hsuf & Fsuf).
  exists pre, (rev suf). split; [|split; [done|by apply Forall_rev]].
  unfold trim_chars. rewrite <- rev_app_distr, <- Hsuf, rev_involutive. done.
Qed.

Lemma chars_trim s : chars (trim s) = trim_chars (chars s).
Proof.
  destruct (trim_chars_spec (chars s)) as (pre & suf & Heq & _). unfold trim.
  by eapply chars_infix.
Qed.

Lemma trim_clean s : (forall c, c ∈ chars s -> is_whitespace c = false) -> trim s = s.
Proof.
  intros H. unfold trim, trim_chars. rewrite (drop_while_none _ (chars s)) by done.
  rewrite drop_while_none; [by rewrite rev_involutive, of_chars_chars|].
  intros c Hc. apply H. by apply list_elem_of_In, in_rev, list_elem_of_In.
Qed.

Lemma of_chars_nil_inv cs s l r : chars s = l ++ cs ++ r -> of_chars cs = "" -> cs = [].
Proof. intros H H0. apply chars_infix in H. by rewrite H0 in H. Qed.

Lemma is_empty_spec s : is_empty s = true <-> s = "".
Proof. by destruct s. Qed.

(** A string whose scalar values are all whitespace trims to nothing. *)
Lemma is_empty_false s : s <> "" -> is_empty s = false.
Proof. by destruct s. Qed.

Lemma nonempty_spec o s : nonempty o = Some s -> o = Some s /\ s <> "".
Proof.
  destruct o as [x|]; simpl; [|done]. destruct (is_empty x) eqn:E; [done|]. intros [= <-].
  split; [done|]. by rewrite <- is_empty_spec, E.
Qed.

Lemma trim_empty_pieces p s :
  (forall c, is_whitespace c = true -> p c = true) ->
  trim s = "" -> pieces p (chars s) = [].
Proof.
  intros Hp H. pose proof (chars_trim s) as Ht. rewrite H in Ht.
  destruct (trim_chars_spec (chars s)) as (pre & suf & Heq & Hpre & Hsuf).
  rewrite <- Ht in Heq. rewrite Heq. apply pieces_seps, Forall_app.
  split; (eapply Forall_impl; [done|]); simpl; auto.
Qed.

Lemma pieces_trim p s :
  (forall c, is_whitespace c = true -> p c = true) ->
  pieces p (chars (trim s)) = pieces p (chars s).
Proof.
  intros Hp. rewrite chars_trim.
  destruct (trim_chars_spec (chars s)) as (pre & suf & Heq & Hpre & Hsuf).
  rewrite Heq at 2.
  rewrite pieces_strip_l, pieces_strip_r; [done| |]; (eapply Forall_impl; [done|]); simpl; auto.
Qed.
