(* ===== verification/Redis.v ===== *)
(** * The Redis server as an interface

    Redis is a service the code talks to; here it is a class of commands
    ([RedisServer]) and a class of laws ([RedisLaws]) that state the documented
    behaviour of the commands the server issues: [GET], [SET EX], [SET EX NX],
    [DEL], [EXISTS], [HSET], [HGETALL], [EXPIRE], [TTL], [INCR].  The clients'
    theorems are proved against the laws.  [RedisMap] implements the interface
    with a finite map, so the laws can hold and witnesses can be evaluated.

    Times are nanoseconds; a key with deadline [d] is gone at [d]. *)

From stdpp Require Import base tactics list gmap strings pretty.
From Stdlib Require Import ZArith Lia.
From S2P Require Import Prelude.

Local Open Scope Z_scope.

Inductive rvalue :=
| RStr (s : string)
| RInt (n : Z)
| RHash (h : gmap string string).

(** A stored value and the time it disappears at. *)
Definition rentry : Type := rvalue * option Z.

Definition ns_per_sec : Z := 1000000000.

(** What a [GET] answers for a value; [None] is the [WRONGTYPE] error reply. *)
Definition rvalue_text (v : rvalue) : option string :=
  match v with RStr s => Some s | RInt n => Some (pretty n) | RHash _ => None end.

Definition i64_max : Z := 9223372036854775807.

(** [None] as the result of a command is an error reply. *)
Class RedisServer := {
  rstate : Type;
  (** The entry under a key as of a time; the observer of the laws. *)
  rlive : Z -> string -> rstate -> option rentry;
  r_get : Z -> string -> rstate -> option (option string);
  r_set_ex : Z -> string -> string -> Z -> rstate -> option rstate;
  (** [SET key value EX ttl NX]: [false] is the nil reply. *)
  r_set_ex_nx : Z -> string -> string -> Z -> rstate -> option (bool * rstate);
  r_del : Z -> string -> rstate -> Z * rstate;
  r_exists : Z -> string -> rstate -> Z;
  r_hset : Z -> string -> list (string * string) -> rstate -> option rstate;
  r_hgetall : Z -> string -> rstate -> option (gmap string string);
  r_expire : Z -> string -> Z -> rstate -> Z * rstate;
  r_ttl : Z -> string -> rstate -> Z;
  r_incr : Z -> string -> rstate -> option (Z * rstate);
}.

(** An entry seen later: it is the same entry until its deadline. *)
Definition still_live (t : Z) (o : option rentry) : option rentry :=
  match o with
  | Some (v, Some d) => if t <? d then Some (v, Some d) else None
  | _ => o
  end.

(** Successive [HSET]s of the pairs, left to right. *)
Definition hset_pairs (ps : list (string * string)) (h : gmap string string) : gmap string string :=
  foldl (fun h p => <[p.1 := p.2]> h) h ps.

(** [update t k e s s']: from time [t] on, [s'] is [s] with [e] under [k]. *)
Definition rupdate `{RedisServer} (t : Z) (k : string) (e : option rentry) (s s' : rstate) : Prop :=
  forall t' k', t <= t' -> rlive t' k' s' = if bool_decide (k' = k) then still_live t' e else rlive t' k' s.

Class RedisLaws `{RedisServer} := {
  rlive_time t t' k s : t <= t' -> rlive t' k s = still_live t' (rlive t k s);
  rlive_deadline t k s v d : rlive t k s = Some (v, Some d) -> t < d;
  r_get_law t k s :
    r_get t k s = match rlive t k s with
                  | None => Some None
                  | Some (v, _) => Some <$> rvalue_text v
                  end;
  r_set_ex_law t k v ttl s :
    if 0 <? ttl
    then exists s', r_set_ex t k v ttl s = Some s'
           /\ rupdate t k (Some (RStr v, Some (t + ttl * ns_per_sec))) s s'
    else r_set_ex t k v ttl s = None;
  r_set_ex_nx_law t k v ttl s :
    if 0 <? ttl
    then match rlive t k s with
         | Some _ => r_set_ex_nx t k v ttl s = Some (false, s)
         | None => exists s', r_set_ex_nx t k v ttl s = Some (true, s')
                     /\ rupdate t k (Some (RStr v, Some (t + ttl * ns_per_sec))) s s'
         end
    else r_set_ex_nx t k v ttl s = None;
  r_del_law t k s :
    (r_del t k s).1 = (match rlive t k s with Some _ => 1 | None => 0 end) /\ rupdate t k None s (r_del t k s).2;
  r_exists_law t k s : r_exists t k s = match rlive t k s with Some _ => 1 | None => 0 end;
  r_hset_law t k ps s :
    ps <> [] ->
    match rlive t k s with
    | None => exists s', r_hset t k ps s = Some s'
                /\ rupdate t k (Some (RHash (hset_pairs ps ∅), None)) s s'
    | Some (RHash h, d) => exists s', r_hset t k ps s = Some s'
                /\ rupdate t k (Some (RHash (hset_pairs ps h), d)) s s'
    | Some _ => r_hset t k ps s = None
    end;
  r_hgetall_law t k s :
    r_hgetall t k s = match rlive t k s with
                      | None => Some ∅
                      | Some (RHash h, _) => Some h
                      | Some _ => None
                      end;
  (** [EXPIRE] with a TTL that is not positive deletes the key. *)
  r_expire_law t k ttl s :
    match rlive t k s with
    | None => r_expire t k ttl s = (0, s)
    | Some (v, _) =>
        (r_expire t k ttl s).1 = 1
        /\ rupdate t k (if 0 <? ttl then Some (v, Some (t + ttl * ns_per_sec)) else None)
             s (r_expire t k ttl s).2
    end;
  r_ttl_law t k s :
    match rlive t k s with
    | None => r_ttl t k s = -2
    | Some (_, None) => r_ttl t k s = -1
    | Some (_, Some d) => 0 <= r_ttl t k s
        /\ d - t - ns_per_sec <= r_ttl t k s * ns_per_sec <= d - t + ns_per_sec
    end;
  (** [INCR] keeps the TTL; a counter at the 64-bit maximum is an error. *)
  r_incr_law t k s :
    match rlive t k s with
    | None => exists s', r_incr t k s = Some (1, s') /\ rupdate t k (Some (RInt 1, None)) s s'
    | Some (RInt n, d) =>
        if n <? i64_max
        then exists s', r_incr t k s = Some (n + 1, s') /\ rupdate t k (Some (RInt (n + 1), d)) s s'
        else r_incr t k s = None
    | Some (RStr _, d) =>
        (** a text that is a number is replaced by the next one *)
        forall n s', r_incr t k s = Some (n, s') -> rupdate t k (Some (RInt n, d)) s s'
    | Some (RHash _, _) => r_incr t k s = None
    end;
}.

(** ** Consequences *)

Section Laws.
Context `{RedisLaws}.

Lemma rupdate_same t k e s s' t' :
  rupdate t k e s s' -> t <= t' -> rlive t' k s' = still_live t' e.
Proof. intros Hu Ht. rewrite (Hu t' k Ht). by rewrite bool_decide_true. Qed.

Lemma rupdate_other t k e s s' t' k' :
  rupdate t k e s s' -> t <= t' -> k' <> k -> rlive t' k' s' = rlive t' k' s.
Proof. intros Hu Ht Hk. rewrite (Hu t' k' Ht). by rewrite bool_decide_false. Qed.

Lemma still_live_idem t t' o : t <= t' -> still_live t' (still_live t o) = still_live t' o.
Proof.
  intros Ht. destruct o as [[v [d|]]|]; simpl; try done.
  destruct (t <? d) eqn:E; simpl; [done|].
  destruct (t' <? d) eqn:E'; [|done]. lia.
Qed.

(** A key that is absent stays absent as time passes. *)
Lemma rlive_none_later t t' k s : t <= t' -> rlive t k s = None -> rlive t' k s = None.
Proof. intros Ht Hn. by rewrite (rlive_time t), Hn. Qed.

Lemma rlive_some_earlier t t' k s e : t <= t' -> rlive t' k s = Some e -> rlive t k s = Some e.
Proof.
  intros Ht. rewrite (rlive_time t) by done.
  destruct (rlive t k s) as [[v [d|]]|]; simpl; try done. by destruct (t' <? d).
Qed.
End Laws.

(** ** An implementation with a finite map

    A counter lives under keys no [SET] writes, so [INCR] of a string value
    just answers an error. *)
Module RedisMap.
Definition live (t : Z) (k : string) (s : gmap string rentry) : option rentry :=
  still_live t (s !! k).

Definition set_ex (t : Z) (k v : string) (ttl : Z) (s : gmap string rentry) :=
  if 0 <? ttl then Some (<[k := (RStr v, Some (t + ttl * ns_per_sec))]> s) else None.

Definition incr (t : Z) (k : string) (s : gmap string rentry) : option (Z * gmap string rentry) :=
  match live t k s with
  | None => Some (1, <[k := (RInt 1, None)]> s)
  | Some (RInt n, d) => if n <? i64_max then Some (n + 1, <[k := (RInt (n + 1), d)]> s) else None
  | Some _ => None
  end.

Definition hset (t : Z) (k : string) (ps : list (string * string)) (s : gmap string rentry) :=
  match live t k s with
  | None => Some (<[k := (RHash (hset_pairs ps ∅), None)]> s)
  | Some (RHash h, d) => Some (<[k := (RHash (hset_pairs ps h), d)]> s)
  | Some _ => None
  end.

Definition expire (t : Z) (k : string) (ttl : Z) (s : gmap string rentry) :=
  match live t k s with
  | None => (0, s)
  | Some (v, _) =>
      (1, if 0 <? ttl then <[k := (v, Some (t + ttl * ns_per_sec))]> s else delete k s)
  end.

Definition ttl (t : Z) (k : string) (s : gmap string rentry) : Z :=
  match live t k s with
  | None => -2
  | Some (_, None) => -1
  | Some (_, Some d) => (d - t) / ns_per_sec
  end.

#[export] Instance server : RedisServer := {|
  rstate := gmap string rentry;
  rlive := live;
  r_get t k s := match live t k s with None => Some None | Some (v, _) => Some <$> rvalue_text v end;
  r_set_ex := set_ex;
  r_set_ex_nx t k v ttl s :=
    if 0 <? ttl
    then match live t k s with
         | Some _ => Some (false, s)
         | None => (fun s' => (true, s')) <$> set_ex t k v ttl s
         end
    else None;
  r_del t k s := (match live t k s with Some _ => 1 | None => 0 end, delete k s);
  r_exists t k s := match live t k s with Some _ => 1 | None => 0 end;
  r_hset := hset;
  r_hgetall t k s :=
    match live t k s with None => Some ∅ | Some (RHash h, _) => Some h | Some _ => None end;
  r_expire := expire;
  r_ttl := ttl;
  r_incr := incr;
|}.

Lemma update_insert t k (e : rentry) (s : gmap string rentry) : rupdate t k (Some e) s (<[k := e]> s).
Proof.
  intros t' k' _. simpl. unfold live. case_bool_decide; subst.
  - by rewrite lookup_insert_eq.
  - by rewrite lookup_insert_ne.
Qed.

Lemma update_delete t k (s : gmap string rentry) : rupdate t k None s (delete k s).
Proof.
  intros t' k' _. simpl. unfold live. case_bool_decide; subst.
  - by rewrite lookup_delete_eq.
  - by rewrite lookup_delete_ne.
Qed.

#[export] Instance laws : RedisLaws.
Proof.
  split; simpl.
  - intros t t' k s Ht. unfold live. by rewrite still_live_idem.
  - unfold live. intros t k s v d H. destruct (s !! k) as [[v' [d'|]]|]; simplify_eq/=.
    destruct (t <? d') eqn:E; simplify_eq. lia.
  - done.
  - intros t k v ttl s. unfold set_ex. destruct (0 <? ttl); eauto using update_insert.
  - intros t k v ttl s. unfold set_ex. destruct (0 <? ttl); [|done].
    destruct (live t k s); [done|]. simpl. eauto using update_insert.
  - eauto using update_delete.
  - done.
  - intros t k ps s _. unfold hset.
    destruct (live t k s) as [[[|?|] ?]|]; eauto using update_insert.
  - done.
  - intros t k ttl s. unfold expire. destruct (live t k s) as [[v ?]|]; simpl; [|done].
    split; [done|]. destruct (0 <? ttl); eauto using update_insert, update_delete.
  - intros t k s. unfold ttl, ns_per_sec. destruct (live t k s) as [[v [d|]]|] eqn:E; try done.
    assert (t < d).
    { unfold live in E. destruct (s !! k) as [[v' [d'|]]|]; simplify_eq/=.
      destruct (t <? d') eqn:E'; simplify_eq. lia. }
    split; [apply Z.div_pos; lia|].
    pose proof (Z.div_mod (d - t) 1000000000). pose proof (Z.mod_pos_bound (d - t) 1000000000). lia.
  - intros t k s. unfold incr. destruct (live t k s) as [[[?|n|?] d]|]; try done.
    + destruct (n <? i64_max); eauto using update_insert.
    + eauto using update_insert.
Qed.
End RedisMap.
