(* ===== verification/Schema.v ===== *)
(** * The Postgres schema

    The rows of the tables that [migrations/*.sql] create, as the [FromRow]
    structs of the source declare them, the tables, and the building blocks of
    the SQL statements: [WHERE] selections, updates and deletions, the casts to
    [VARCHAR(n)] and [TIMESTAMP], and the integrity invariant [pg_wf] that the
    schema's [PRIMARY KEY], [UNIQUE], [CHECK] and [FOREIGN KEY] clauses
    maintain.  Each repository file writes its statements with these blocks.

    Columns the structs read as non-optional are never [NULL]: every writer in
    the source binds a value.  Times are nanoseconds since the Unix epoch. *)

From stdpp Require Import base tactics list gmap strings.
From Stdlib Require Import ZArith Lia.
From S2P Require Import Prelude RustStr.

Abbreviation Uuid := N.

(** ** Rows *)

Record User := mkUser {
  usr_id : Uuid;
  usr_email : string;
  usr_email_verified : bool;
  usr_username : string;
  usr_first_name : option string;
  usr_last_name : option string;
  usr_enabled : bool;
  usr_created_at : Z;
  usr_updated_at : Z;
}.

Record Credential := mkCredential {
  cred_id : Uuid;
  cred_type : string;
  cred_secret_data : option string;
  cred_credential_data : option string;
  cred_created_at : Z;
  cred_updated_at : Z;
  cred_user_id : Uuid;
}.

Record Role := mkRole {
  role_id : Uuid;
  role_name : string;
  role_description : option string;
  role_parent_id : option Uuid;
  role_created_at : Z;
}.

Record UserSession := mkUserSession {
  ses_id : Uuid;
  ses_user_id : Uuid;
  ses_session_token : string;
  ses_ip_address : option string;
  ses_user_agent : option string;
  ses_expires_at : option Z;
  ses_last_accessed_at : option Z;
  ses_created_at : Z;
}.

Record RedirectUri := mkRedirectUri {
  ru_id : Uuid;
  ru_client_id : Uuid;
  ru_uri : string;
  ru_created_at : Z;
}.

(** [cl_redirect_uris] is [#[sqlx(skip)]]: empty in the table, filled by the
    repository. *)
Record Client := mkClient {
  cl_id : Uuid;
  cl_client_id : string;
  cl_client_secret : option string;
  cl_name : option string;
  cl_client_type : option string;
  cl_grant_types : option string;
  cl_response_types : option string;
  cl_scopes : option string;
  cl_pkce_required : bool;
  cl_enabled : bool;
  cl_base_url : option string;
  cl_description : option string;
  cl_access_token_ttl : option Z;
  cl_refresh_token_ttl : option Z;
  cl_frontchannel_logout_uri : option string;
  cl_backchannel_logout_uri : option string;
  cl_created_at : Z;
  cl_updated_at : Z;
  cl_redirect_uris : list RedirectUri;
}.

Record RefreshToken := mkRefreshToken {
  rt_id : Uuid;
  rt_user_id : Uuid;
  rt_client_id : Uuid;
  rt_session_id : Uuid;
  rt_token_hash : string;
  rt_expires_at : option Z;
  rt_revoked : bool;
  rt_created_at : Z;
}.

Record UserConsent := mkUserConsent {
  con_id : Uuid;
  con_user_id : Uuid;
  con_client_id : Uuid;
  con_scopes : string;
  con_granted_at : Z;
  con_updated_at : Z;
}.

Record EmailVerification := mkEmailVerification {
  ev_id : Uuid;
  ev_user_id : Uuid;
  ev_token_hash : string;
  ev_expires_at : Z;
  ev_consumed_at : option Z;
  ev_created_at : Z;
}.

Record PasswordReset := mkPasswordReset {
  pr_id : Uuid;
  pr_user_id : Uuid;
  pr_token_hash : string;
  pr_expires_at : Z;
  pr_consumed_at : option Z;
  pr_created_at : Z;
}.

(** ** Tables, keyed by primary key *)

Record Pg := mkPg {
  users : gmap Uuid User;
  credentials : gmap Uuid Credential;
  roles : gmap Uuid Role;
  user_roles : gset (Uuid * Uuid);
  user_sessions : gmap Uuid UserSession;
  clients : gmap Uuid Client;
  redirect_uris : gmap Uuid RedirectUri;
  refresh_tokens : gmap Uuid RefreshToken;
  user_consents : gmap Uuid UserConsent;
  email_verifications : gmap Uuid EmailVerification;
  password_resets : gmap Uuid PasswordReset;
}.

Definition pg_empty : Pg := mkPg ∅ ∅ ∅ ∅ ∅ ∅ ∅ ∅ ∅ ∅ ∅.

Definition on_users f (d : Pg) := mkPg (f (users d)) (credentials d) (roles d) (user_roles d)
  (user_sessions d) (clients d) (redirect_uris d) (refresh_tokens d) (user_consents d)
  (email_verifications d) (password_resets d).
Definition on_credentials f (d : Pg) := mkPg (users d) (f (credentials d)) (roles d) (user_roles d)
  (user_sessions d) (clients d) (redirect_uris d) (refresh_tokens d) (user_consents d)
  (email_verifications d) (password_resets d).
Definition on_roles f (d : Pg) := mkPg (users d) (credentials d) (f (roles d)) (user_roles d)
  (user_sessions d) (clients d) (redirect_uris d) (refresh_tokens d) (user_consents d)
  (email_verifications d) (password_resets d).
Definition on_user_roles f (d : Pg) := mkPg (users d) (credentials d) (roles d) (f (user_roles d))
  (user_sessions d) (clients d) (redirect_uris d) (refresh_tokens d) (user_consents d)
  (email_verifications d) (password_resets d).
Definition on_user_sessions f (d : Pg) := mkPg (users d) (credentials d) (roles d) (user_roles d)
  (f (user_sessions d)) (clients d) (redirect_uris d) (refresh_tokens d) (user_consents d)
  (email_verifications d) (password_resets d).
Definition on_clients f (d : Pg) := mkPg (users d) (credentials d) (roles d) (user_roles d)
  (user_sessions d) (f (clients d)) (redirect_uris d) (refresh_tokens d) (user_consents d)
  (email_verifications d) (password_resets d).
Definition on_redirect_uris f (d : Pg) := mkPg (users d) (credentials d) (roles d) (user_roles d)
  (user_sessions d) (clients d) (f (redirect_uris d)) (refresh_tokens d) (user_consents d)
  (email_verifications d) (password_resets d).
Definition on_refresh_tokens f (d : Pg) := mkPg (users d) (credentials d) (roles d) (user_roles d)
  (user_sessions d) (clients d) (redirect_uris d) (f (refresh_tokens d)) (user_consents d)
  (email_verifications d) (password_resets d).
Definition on_user_consents f (d : Pg) := mkPg (users d) (credentials d) (roles d) (user_roles d)
  (user_sessions d) (clients d) (redirect_uris d) (refresh_tokens d) (f (user_consents d))
  (email_verifications d) (password_resets d).
Definition on_email_verifications f (d : Pg) := mkPg (users d) (credentials d) (roles d)
  (user_roles d) (user_sessions d) (clients d) (redirect_uris d) (refresh_tokens d)
  (user_consents d) (f (email_verifications d)) (password_resets d).
Definition on_password_resets f (d : Pg) := mkPg (users d) (credentials d) (roles d)
  (user_roles d) (user_sessions d) (clients d) (redirect_uris d) (refresh_tokens d)
  (user_consents d) (email_verifications d) (f (password_resets d)).

(** ** Statements

    A statement reads the tables and either fails with an SQLSTATE, leaving
    them as they are, or returns its result and the new tables. *)
Definition stmt (A : Type) : Type := Pg -> res string (A * Pg).

Definition unique_violation : string := "23505".
Definition foreign_key_violation : string := "23503".
Definition check_violation : string := "23514".
Definition string_data_right_truncation : string := "22001".

Section Rows.
Context {R : Type}.

Definition rows (m : gmap Uuid R) : list R := (map_to_list m).*2.

(** [SELECT * FROM m WHERE P] *)
Definition where_ (P : R -> Prop) `{forall r, Decision (P r)} (m : gmap Uuid R) : list R :=
  base.filter P (rows m).

(** [UPDATE m SET ... WHERE P] *)
Definition update_where (P : R -> Prop) `{forall r, Decision (P r)} (f : R -> R)
  (m : gmap Uuid R) : gmap Uuid R :=
  (fun r => if decide (P r) then f r else r) <$> m.

(** [DELETE FROM m WHERE P] *)
Definition delete_where (P : R -> Prop) `{forall r, Decision (P r)}
  (m : gmap Uuid R) : gmap Uuid R :=
  base.filter (fun kr => ~ P kr.2) m.

Definition no_row (P : R -> Prop) `{forall r, Decision (P r)} (m : gmap Uuid R) : bool :=
  bool_decide (where_ P m = []).

Definition has_row (m : gmap Uuid R) (i : Uuid) : bool := bool_decide (is_Some (m !! i)).
End Rows.

(** Assignment to a [VARCHAR(n)] column: too long is an error unless the excess
    is spaces, which are cut off. *)
Definition varchar (n : nat) (s : string) : res string string :=
  let cs := chars s in
  if decide (length cs <= n) then Ok s
  else if decide (Forall (fun c => c = " ") (drop n cs)) then Ok (of_chars (take n cs))
  else Err string_data_right_truncation.

Definition varchar_opt (n : nat) (o : option string) : res string (option string) :=
  match o with None => Ok None | Some s => rbind (varchar n s) (fun t => Ok (Some t)) end.

(** A [TIMESTAMP] has microseconds, counted from 2000-01-01. *)
Definition pg_epoch : Z := 946684800 * 1000000000.
Definition pg_ts (t : Z) : Z := pg_epoch + Z.quot (t - pg_epoch) 1000 * 1000.

(** ** Lemmas on rows *)

Lemma filter_map {A B} (P : B -> Prop) `{forall x, Decision (P x)} (f : A -> B) (l : list A) :
  base.filter P (f <$> l) = f <$> base.filter (fun x => P (f x)) l.
Proof.
  induction l as [|x l IH]; [done|]. rewrite fmap_cons, !filter_cons. by case_decide; rewrite IH.
Qed.

Section RowLemmas.
Context {R : Type}.
Implicit Types m : gmap Uuid R.

Lemma elem_of_rows m r : r ∈ rows m <-> exists i, m !! i = Some r.
Proof.
  unfold rows. rewrite list_elem_of_fmap. split.
  - intros ([i r'] & -> & H%elem_of_map_to_list). eauto.
  - intros [i H]. exists (i, r). split; [done|]. by apply elem_of_map_to_list.
Qed.

Lemma elem_of_where (P : R -> Prop) `{forall r, Decision (P r)} m r :
  r ∈ where_ P m <-> P r /\ exists i, m !! i = Some r.
Proof. unfold where_. by rewrite list_elem_of_filter, elem_of_rows. Qed.

Lemma where_nil (P : R -> Prop) `{forall r, Decision (P r)} m :
  where_ P m = [] <-> forall i r, m !! i = Some r -> ~ P r.
Proof.
  split.
  - intros Hn i r Hi Hp. assert (r ∈ where_ P m) as Hr by (apply elem_of_where; eauto).
    rewrite Hn in Hr. by apply not_elem_of_nil in Hr.
  - intros Hn. destruct (where_ P m) as [|r l] eqn:E; [done|].
    assert (r ∈ where_ P m) as [Hp [i Hi]]%elem_of_where by (rewrite E; left).
    by destruct (Hn i r).
Qed.

Lemma no_row_spec (P : R -> Prop) `{forall r, Decision (P r)} m :
  no_row P m = true <-> forall i r, m !! i = Some r -> ~ P r.
Proof. unfold no_row. by rewrite bool_decide_eq_true, where_nil. Qed.

Lemma has_row_spec m i : has_row m i = true -> is_Some (m !! i).
Proof. apply bool_decide_eq_true. Qed.

Lemma has_row_none m i : has_row m i = false -> m !! i = None.
Proof. intros Hr%bool_decide_eq_false. by apply eq_None_not_Some. Qed.

Lemma lookup_update_where (P : R -> Prop) `{forall r, Decision (P r)} f m i :
  update_where P f m !! i = (fun r => if decide (P r) then f r else r) <$> m !! i.
Proof. apply lookup_fmap. Qed.

Lemma lookup_delete_where (P : R -> Prop) `{forall r, Decision (P r)} m i r :
  delete_where P m !! i = Some r <-> m !! i = Some r /\ ~ P r.
Proof. unfold delete_where. by rewrite map_lookup_filter_Some. Qed.

(** Rows are keyed by their id. *)
Definition keyed (id : R -> Uuid) m : Prop := forall i r, m !! i = Some r -> id r = i.

(** A [UNIQUE] constraint. *)
Definition unique_on {K} (f : R -> K) m : Prop :=
  forall i j r s, m !! i = Some r -> m !! j = Some s -> f r = f s -> i = j.

(** A [FOREIGN KEY] constraint. *)
Definition refers {P : Type} (fk : R -> Uuid) (parent : gmap Uuid P) m : Prop :=
  forall i r, m !! i = Some r -> is_Some (parent !! fk r).

(** At most one row answers a lookup on a unique column. *)
Lemma where_unique {K} (f : R -> K) `{EqDecision K} m i r :
  unique_on f m -> m !! i = Some r -> where_ (fun x => f x = f r) m = [r].
Proof.
  intros Hu Hi.
  assert (Hall : forall x, x ∈ where_ (fun x => f x = f r) m -> x = r).
  { intros x (Hx & j & Hj)%elem_of_where. assert (j = i) as -> by by eapply Hu. naive_solver. }
  assert (Hin : r ∈ where_ (fun x => f x = f r) m) by (apply elem_of_where; eauto).
  assert (Hlen : length (where_ (fun x => f x = f r) m) <= 1).
  { unfold where_, rows. rewrite filter_map, length_fmap.
    set (l := base.filter _ (map_to_list m)).
    assert (Hd : NoDup l) by apply NoDup_filter, NoDup_map_to_list.
    assert (Hl : forall p, p ∈ l -> p = (i, r)).
    { intros [j x] [Hx Hj%elem_of_map_to_list]%list_elem_of_filter. simpl in Hx.
      assert (j = i) as -> by by eapply Hu. naive_solver. }
    destruct l as [|p [|q l]]; simpl; [lia|lia|].
    assert (p = q) as -> by by rewrite (Hl p), (Hl q) by set_solver.
    apply NoDup_cons in Hd as [Hn _]. destruct Hn. left. }
  destruct (where_ _ m) as [|x [|y l]]; simpl in *; [by apply not_elem_of_nil in Hin| |lia].
  by rewrite (Hall x) by left.
Qed.

(** Two tables that agree on the rows selected answer alike. *)
Lemma where_same (P : R -> Prop) `{forall r, Decision (P r)} m m' :
  (forall i r, P r -> m !! i = Some r <-> m' !! i = Some r) -> where_ P m ≡ₚ where_ P m'.
Proof.
  intros Heq. unfold where_, rows. rewrite !filter_map. apply fmap_Permutation.
  apply NoDup_Permutation; try apply NoDup_filter, NoDup_map_to_list.
  intros [i r]. rewrite !list_elem_of_filter, !elem_of_map_to_list. simpl. naive_solver.
Qed.

Lemma keyed_empty id : keyed id (∅ : gmap Uuid R).
Proof. intros i r. by rewrite lookup_empty. Qed.
Lemma unique_empty {K} (f : R -> K) : unique_on f (∅ : gmap Uuid R).
Proof. intros i j r s. by rewrite lookup_empty. Qed.
Lemma refers_empty {P} (fk : R -> Uuid) (parent : gmap Uuid P) : refers fk parent (∅ : gmap Uuid R).
Proof. intros i r. by rewrite lookup_empty. Qed.

Lemma keyed_insert id m r : keyed id m -> keyed id (<[id r := r]> m).
Proof. intros Hk i x [[<- <-]|[? Hx]]%lookup_insert_Some; [done|by apply Hk]. Qed.
Lemma keyed_insert_at id m i r : id r = i -> keyed id m -> keyed id (<[i := r]> m).
Proof. intros <-. apply keyed_insert. Qed.
Lemma unique_insert {K} (f : R -> K) m i r :
  unique_on f m -> (forall j x, m !! j = Some x -> j <> i -> f x <> f r) ->
  unique_on f (<[i := r]> m).
Proof.
  intros Hu Hn j k x y [[<- <-]|[? Hx]]%lookup_insert_Some [[<- <-]|[? Hy]]%lookup_insert_Some Hf;
    [done| | |by eapply Hu].
  - by destruct (Hn k y).
  - by destruct (Hn j x).
Qed.
Lemma refers_insert {P} (fk : R -> Uuid) (parent : gmap Uuid P) m i r :
  is_Some (parent !! fk r) -> refers fk parent m -> refers fk parent (<[i := r]> m).
Proof. intros Hr Hm j x [[<- <-]|[? Hx]]%lookup_insert_Some; [done|by eapply Hm]. Qed.

Lemma keyed_update id (P : R -> Prop) `{forall r, Decision (P r)} f m :
  (forall r, id (f r) = id r) -> keyed id m -> keyed id (update_where P f m).
Proof.
  intros Hf Hk i x. rewrite lookup_update_where. intros (r & Hr & ->)%fmap_Some.
  case_decide; rewrite ?Hf; by apply Hk.
Qed.
Lemma unique_update {K} (g : R -> K) (P : R -> Prop) `{forall r, Decision (P r)} f m :
  (forall r, g (f r) = g r) -> unique_on g m -> unique_on g (update_where P f m).
Proof.
  intros Hf Hu i j x y. rewrite !lookup_update_where.
  intros (r & Hr & ->)%fmap_Some (s & Hs & ->)%fmap_Some Hg.
  eapply Hu; [done..|]. by repeat case_decide; rewrite ?Hf in Hg.
Qed.
Lemma refers_update {Q} (fk : R -> Uuid) (parent : gmap Uuid Q)
  (P : R -> Prop) `{forall r, Decision (P r)} f m :
  (forall r, fk (f r) = fk r) -> refers fk parent m -> refers fk parent (update_where P f m).
Proof.
  intros Hf Hr i x. rewrite lookup_update_where. intros (r & Hi & ->)%fmap_Some.
  case_decide; rewrite ?Hf; by eapply Hr.
Qed.

Lemma subset_keyed id m m' : m' ⊆ m -> keyed id m -> keyed id m'.
Proof. intros Hs Hk i r Hi. apply Hk. by eapply lookup_weaken. Qed.
Lemma subset_unique {K} (f : R -> K) m m' : m' ⊆ m -> unique_on f m -> unique_on f m'.
Proof. intros Hs Hu i j r s Hi Hj. eapply Hu; by eapply lookup_weaken. Qed.
Lemma subset_refers {P} (fk : R -> Uuid) (parent : gmap Uuid P) m m' :
  m' ⊆ m -> refers fk parent m -> refers fk parent m'.
Proof. intros Hs Hr i r Hi. eapply Hr. by eapply lookup_weaken. Qed.

Lemma delete_where_subset (P : R -> Prop) `{forall r, Decision (P r)} m : delete_where P m ⊆ m.
Proof. apply map_filter_subseteq. Qed.

Lemma refers_parent_grow {P Q} (fk : R -> Uuid) (parent : gmap Uuid P) (parent' : gmap Uuid Q) m :
  (forall i, is_Some (parent !! i) -> is_Some (parent' !! i)) ->
  refers fk parent m -> refers fk parent' m.
Proof. intros Hp Hr i r Hi. by eapply Hp, Hr. Qed.
End RowLemmas.

Lemma is_Some_update {R} (P : R -> Prop) `{forall r, Decision (P r)} f (m : gmap Uuid R) i :
  is_Some (m !! i) -> is_Some (update_where P f m !! i).
Proof. rewrite lookup_update_where. by rewrite fmap_is_Some. Qed.

(** ** Integrity *)

Definition client_type_ok (c : Client) : Prop :=
  cl_client_type c = None \/ cl_client_type c = Some "confidential" \/ cl_client_type c = Some "public".

#[export] Instance client_type_ok_dec c : Decision (client_type_ok c).
Proof. unfold client_type_ok. apply _. Defined.

Record pg_wf (d : Pg) : Prop := {
  wf_users_key : keyed usr_id (users d);
  wf_users_email : unique_on usr_email (users d);
  wf_users_username : unique_on usr_username (users d);
  wf_credentials_key : keyed cred_id (credentials d);
  wf_credentials_user : refers cred_user_id (users d) (credentials d);
  wf_roles_key : keyed role_id (roles d);
  wf_roles_name : unique_on role_name (roles d);
  wf_roles_parent : forall i r p, roles d !! i = Some r -> role_parent_id r = Some p ->
    is_Some (roles d !! p);
  wf_user_roles : forall u r, (u, r) ∈ user_roles d ->
    is_Some (users d !! u) /\ is_Some (roles d !! r);
  wf_sessions_key : keyed ses_id (user_sessions d);
  wf_sessions_token : unique_on ses_session_token (user_sessions d);
  wf_sessions_user : refers ses_user_id (users d) (user_sessions d);
  wf_clients_key : keyed cl_id (clients d);
  wf_clients_client_id : unique_on cl_client_id (clients d);
  wf_clients_type : forall i c, clients d !! i = Some c -> client_type_ok c;
  wf_redirects_key : keyed ru_id (redirect_uris d);
  wf_redirects_uri : unique_on (fun r => (ru_client_id r, ru_uri r)) (redirect_uris d);
  wf_redirects_client : refers ru_client_id (clients d) (redirect_uris d);
  wf_refresh_key : keyed rt_id (refresh_tokens d);
  wf_refresh_hash : unique_on rt_token_hash (refresh_tokens d);
  wf_refresh_user : refers rt_user_id (users d) (refresh_tokens d);
  wf_refresh_client : refers rt_client_id (clients d) (refresh_tokens d);
  wf_refresh_session : refers rt_session_id (user_sessions d) (refresh_tokens d);
  wf_consents_key : keyed con_id (user_consents d);
  wf_consents_pair : unique_on (fun c => (con_user_id c, con_client_id c)) (user_consents d);
  wf_consents_user : refers con_user_id (users d) (user_consents d);
  wf_consents_client : refers con_client_id (clients d) (user_consents d);
  wf_verifications_key : keyed ev_id (email_verifications d);
  wf_verifications_hash : unique_on ev_token_hash (email_verifications d);
  wf_verifications_user : refers ev_user_id (users d) (email_verifications d);
  wf_resets_key : keyed pr_id (password_resets d);
  wf_resets_hash : unique_on pr_token_hash (password_resets d);
  wf_resets_user : refers pr_user_id (users d) (password_resets d);
}.

#[export] Hint Resolve keyed_empty unique_empty refers_empty keyed_insert keyed_insert_at
  refers_insert keyed_update unique_update refers_update is_Some_update delete_where_subset : pg.

Lemma pg_empty_wf : pg_wf pg_empty.
Proof. split; simpl; auto with pg; try (intros *; by rewrite lookup_empty); set_solver. Qed.

Lemma pg_ts_idem t : pg_ts (pg_ts t) = pg_ts t.
Proof.
  unfold pg_ts. replace (pg_epoch + Z.quot (t - pg_epoch) 1000 * 1000 - pg_epoch)%Z
    with (Z.quot (t - pg_epoch) 1000 * 1000)%Z by lia. by rewrite Z.quot_mul.
Qed.

(** ** Deciding integrity of a concrete database *)

Section Decide.
Context {R : Type}.
Implicit Types m : gmap Uuid R.

Definition keyed_b (id : R -> Uuid) m : bool :=
  forallb (fun p => bool_decide (id p.2 = p.1)) (map_to_list m).
Definition unique_b {K} `{EqDecision K} (f : R -> K) m : bool :=
  forallb (fun p => forallb (fun q => bool_decide (f p.2 = f q.2 -> p.1 = q.1)) (map_to_list m))
    (map_to_list m).
Definition refers_b {P} (fk : R -> Uuid) (parent : gmap Uuid P) m : bool :=
  forallb (fun p => has_row parent (fk p.2)) (map_to_list m).

Lemma forallb_map_to_list (p : Uuid * R -> bool) m i r :
  forallb p (map_to_list m) = true -> m !! i = Some r -> p (i, r) = true.
Proof.
  rewrite forallb_forall. intros Hp Hi. apply Hp, list_elem_of_In. by apply elem_of_map_to_list.
Qed.

Lemma keyed_b_ok id m : keyed_b id m = true -> keyed id m.
Proof.
  intros Hb i r Hi. pose proof (forallb_map_to_list _ _ _ _ Hb Hi) as Hp.
  by apply bool_decide_eq_true in Hp.
Qed.
Lemma unique_b_ok {K} `{EqDecision K} (f : R -> K) m : unique_b f m = true -> unique_on f m.
Proof.
  intros Hb i j r s Hi Hj. pose proof (forallb_map_to_list _ _ _ _ Hb Hi) as Hp.
  pose proof (forallb_map_to_list _ _ _ _ Hp Hj) as Hq. by apply bool_decide_eq_true in Hq.
Qed.
Lemma refers_b_ok {P} (fk : R -> Uuid) (parent : gmap Uuid P) m :
  refers_b fk parent m = true -> refers fk parent m.
Proof.
  intros Hb i r Hi. pose proof (forallb_map_to_list _ _ _ _ Hb Hi) as Hp.
  by apply bool_decide_eq_true in Hp.
Qed.
End Decide.

Definition pg_wf_b (d : Pg) : bool :=
  keyed_b usr_id (users d) && unique_b usr_email (users d) && unique_b usr_username (users d)
  && keyed_b cred_id (credentials d) && refers_b cred_user_id (users d) (credentials d)
  && keyed_b role_id (roles d) && unique_b role_name (roles d)
  && forallb (fun p => match role_parent_id p.2 with
                       | None => true | Some q => has_row (roles d) q end) (map_to_list (roles d))
  && forallb (fun p => has_row (users d) p.1 && has_row (roles d) p.2) (elements (user_roles d))
  && keyed_b ses_id (user_sessions d) && unique_b ses_session_token (user_sessions d)
  && refers_b ses_user_id (users d) (user_sessions d)
  && keyed_b cl_id (clients d) && unique_b cl_client_id (clients d)
  && forallb (fun p => bool_decide (client_type_ok p.2)) (map_to_list (clients d))
  && keyed_b ru_id (redirect_uris d)
  && unique_b (fun r => (ru_client_id r, ru_uri r)) (redirect_uris d)
  && refers_b ru_client_id (clients d) (redirect_uris d)
  && keyed_b rt_id (refresh_tokens d) && unique_b rt_token_hash (refresh_tokens d)
  && refers_b rt_user_id (users d) (refresh_tokens d)
  && refers_b rt_client_id (clients d) (refresh_tokens d)
  && refers_b rt_session_id (user_sessions d) (refresh_tokens d)
  && keyed_b con_id (user_consents d)
  && unique_b (fun c => (con_user_id c, con_client_id c)) (user_consents d)
  && refers_b con_user_id (users d) (user_consents d)
  && refers_b con_client_id (clients d) (user_consents d)
  && keyed_b ev_id (email_verifications d) && unique_b ev_token_hash (email_verifications d)
  && refers_b ev_user_id (users d) (email_verifications d)
  && keyed_b pr_id (password_resets d) && unique_b pr_token_hash (password_resets d)
  && refers_b pr_user_id (users d) (password_resets d).

Lemma pg_wf_b_ok d : pg_wf_b d = true -> pg_wf d.
Proof.
  unfold pg_wf_b. rewrite !andb_true_iff. intros Hb. destruct_and!.
  split; eauto using keyed_b_ok, unique_b_ok, refers_b_ok.
  - intros i r p Hi Hp.
    match goal with Hf : forallb _ (map_to_list (roles d)) = true |- _ =>
      pose proof (forallb_map_to_list _ _ _ _ Hf Hi) as Hq end.
    simpl in Hq. rewrite Hp in Hq. by apply bool_decide_eq_true in Hq.
  - intros u r Hin. match goal with Hf : forallb _ (elements (user_roles d)) = true |- _ =>
      rewrite forallb_forall in Hf; specialize (Hf (u, r)) end.
    rewrite <- list_elem_of_In, elem_of_elements, andb_true_iff in *.
    unfold has_row in *. rewrite !bool_decide_eq_true in *. auto.
  - intros i c Hi. match goal with Hf : forallb _ (map_to_list (clients d)) = true |- _ =>
      pose proof (forallb_map_to_list _ _ _ _ Hf Hi) as Hq end.
    by apply bool_decide_eq_true in Hq.
Qed.

(** ** Reading a statement that succeeded *)

(** Split a statement that succeeded into its checks. *)
Ltac stmt_inv H :=
  repeat match type of H with
  | rbind ?r _ = _ => destruct r eqn:?; cbn [rbind] in H; [|discriminate H]
  | (if ?b then _ else _) = Ok _ => destruct b eqn:?; [|discriminate H]
  | match ?o with Some _ => _ | None => _ end = _ => destruct o eqn:?
  end; inversion H; subst; clear H.

Ltac bools := repeat match goal with
  | Hb : negb _ = true |- _ => apply negb_true_iff in Hb
  | Hb : andb _ _ = true |- _ => apply andb_prop in Hb as [? ?]
  | Hb : has_row _ _ = true |- _ => apply has_row_spec in Hb
  end.
