(* ===== verification/World.v ===== *)
(** * The world the server runs in

    [World] is everything a request handler can read and change: the committed
    Postgres tables and the Redis data.  [Env] is the part of the outside that
    answers requests: the clock, the random sources, whether a call to Postgres
    or Redis goes through, and what SQL leaves open (row order, collation).
    Every request to the outside consumes one tick, so two requests of one run
    may get different answers.  No assumption is made on the answers unless a
    theorem says so; [EnvLaws] holds the documented ones.

    A call to Postgres or Redis has four outcomes ([reply]): it is served; it
    fails before it has an effect; it takes effect but the answer is lost; the
    server rejects it. *)

From stdpp Require Import base tactics list gmap strings sorting.
From Stdlib Require Import ZArith Lia.
From S2P Require Import Prelude RustStr Redis Schema.

Inductive reply := Served | Lost | NoAnswer | Rejected (code : string).

Class Env := {
  (** [Utc::now()], [SystemTime::now()] *)
  clock : nat -> Z;
  (** The clock of the Redis server. *)
  redis_clock : nat -> Z;
  (** [OsRng.fill_bytes] on a buffer of the given length. *)
  random_bytes : nat -> nat -> string;
  (** [Uuid::new_v4()] *)
  new_v4 : nat -> Uuid;
  (** [(base as f64 * (1.0 + gen_range(-0.1..0.1))).floor() as i64] *)
  jitter_floor : nat -> Z -> Z;
  (** [redis.get()]: whether the pool hands out a connection. *)
  redis_pool_up : nat -> bool;
  redis_reply : nat -> reply;
  pg_reply : nat -> reply;
  (** The order a query without [ORDER BY] returns its rows in. *)
  row_order : forall A : Type, nat -> list A -> list A;
  (** [<=] on text in the database's collation. *)
  collate_le : string -> string -> bool;
  (** [LOWER] on text that is not ASCII. *)
  lower_table : string -> string;
  (** [NOW()] *)
  pg_clock : nat -> Z;
  (** [rng.gen_range(0..bound)] *)
  gen_range : nat -> nat -> nat;
  (** [spawn_blocking]: whether the task ran to its end. *)
  task_ok : nat -> bool;
}.
Global Arguments row_order {_ _} _ _.

Class EnvLaws `{Env} := {
  row_order_perm {A} n (l : list A) : row_order n l ≡ₚ l;
  redis_clock_mono n m : (n <= m)%nat -> (redis_clock n <= redis_clock m)%Z;
  gen_range_lt n bound : (0 < bound)%nat -> (gen_range n bound < bound)%nat;
  random_bytes_length n len : String.length (random_bytes n len) = len;
}.

(** Errors of the source: [sqlx::Error] (with its SQLSTATE when the database
    answered), [redis::RedisError], the pool's error, and the [anyhow] and
    [thiserror] variants built from them. *)
Inductive err :=
| EDb (code : option string)
| ERedis
| ERedisPool
| ERedisUnavailable
| ECycle (msg : string)
| EJson
| EOther (msg : string).

Section World.
Context `{RedisServer} `{Env}.

Record World := mkWorld {
  tick : nat;
  pg : Pg;
  redis : rstate;
}.

Definition io (A : Type) : Type := prog World err A.

Definition bump (w : World) : World := mkWorld (S (tick w)) (pg w) (redis w).
Definition set_pg (d : Pg) (w : World) : World := mkWorld (tick w) d (redis w).
Definition set_redis (s : rstate) (w : World) : World := mkWorld (tick w) (pg w) s.

(** ** Clock and random sources *)

Definition ask {A} (f : nat -> A) : io A := fun w => (Ok (f (tick w)), bump w).

Definition utc_now : io Z := ask clock.
Definition uuid_new_v4 : io Uuid := ask new_v4.
(** [argon2::run_bounded]: a task that is cancelled or panics answers [false]. *)
Definition run_bounded (b : bool) : io bool := ask (fun t => if task_ok t then b else false).
Definition fill_bytes (n : nat) : io string := ask (fun t => random_bytes t n).

(** ** Postgres *)

(** A statement on a pooled connection, committed on its own. *)
Definition execute {A} (q : stmt A) : io A := fun w =>
  match pg_reply (tick w) with
  | Lost => (Err (EDb None), bump w)
  | Rejected code => (Err (EDb (Some code)), bump w)
  | NoAnswer =>
      match q (pg w) with
      | Ok (_, d) => (Err (EDb None), bump (set_pg d w))
      | Err _ => (Err (EDb None), bump w)
      end
  | Served =>
      match q (pg w) with
      | Ok (a, d) => (Ok a, bump (set_pg d w))
      | Err code => (Err (EDb (Some code)), bump w)
      end
  end.

(** A statement that reads [NOW()]. *)
Definition execute_now {A} (q : Z -> stmt A) : io A := fun w => execute (q (pg_clock (tick w))) w.

(** A query; [fetch_all] returns the rows in the order the server sends. *)
Definition fetch_all {A} (q : Pg -> list A) : io (list A) := fun w =>
  match pg_reply (tick w) with
  | Served => (Ok (row_order (tick w) (q (pg w))), bump w)
  | Rejected code => (Err (EDb (Some code)), bump w)
  | _ => (Err (EDb None), bump w)
  end.

(** [fetch_optional]: the first row, if any. *)
Definition fetch_optional {A} (q : Pg -> list A) : io (option A) :=
  bind (fetch_all q) (fun rs => ret (head rs)).

(** [SELECT COUNT( * )] with [fetch_one]. *)
Definition fetch_count {A} (q : Pg -> list A) : io Z :=
  bind (fetch_all q) (fun rs => ret (Z.of_nat (length rs))).

(** *** Transactions

    A transaction works on its own copy of the tables; [commit] publishes
    the copy, and dropping the transaction discards it.  A statement the
    server rejects aborts the transaction: what follows is rejected too
    (SQLSTATE 25P02) and [commit] rolls back without an error.  A lost
    connection makes what follows fail. *)
Inductive Tx := TxOpen (d : Pg) | TxAborted | TxBroken.

Definition begin_tx : io Tx := fun w =>
  match pg_reply (tick w) with
  | Served => (Ok (TxOpen (pg w)), bump w)
  | Rejected code => (Err (EDb (Some code)), bump w)
  | _ => (Err (EDb None), bump w)
  end.

(** [NOW()] is the time the transaction started. *)
Definition begin_tx_now : io (Z * Tx) := fun w =>
  bind begin_tx (fun tx => ret (pg_clock (tick w), tx)) w.

(** A statement in a transaction.  The transaction's state is returned in
    both cases, for callers that go on after a failure. *)
Definition tx_execute {A} (q : stmt A) (tx : Tx) : io (res err A * Tx) := fun w =>
  match tx, pg_reply (tick w) with
  | TxBroken, _ => (Ok (Err (EDb None), TxBroken), bump w)
  | _, Lost | _, NoAnswer => (Ok (Err (EDb None), TxBroken), bump w)
  | TxAborted, _ => (Ok (Err (EDb (Some "25P02")), TxAborted), bump w)
  | TxOpen _, Rejected code => (Ok (Err (EDb (Some code)), TxAborted), bump w)
  | TxOpen d, Served =>
      match q d with
      | Ok (a, d') => (Ok (Ok a, TxOpen d'), bump w)
      | Err code => (Ok (Err (EDb (Some code)), TxAborted), bump w)
      end
  end.

(** The same with [?]: a failure drops the transaction. *)
Definition tx_try {A} (q : stmt A) (tx : Tx) : io (A * Tx) :=
  bind (tx_execute q tx) (fun p =>
    match p with
    | (Ok a, tx') => ret (a, tx')
    | (Err e, _) => throw e
    end).

(** A query in a transaction, with [?]. *)
Definition tx_fetch_all {A} (q : Pg -> list A) (tx : Tx) : io (list A * Tx) := fun w =>
  tx_try (fun d => Ok (row_order (tick w) (q d), d)) tx w.

Definition tx_fetch_optional {A} (q : Pg -> list A) (tx : Tx) : io (option A * Tx) :=
  bind (tx_fetch_all q tx) (fun p => ret (head p.1, p.2)).

Definition commit (tx : Tx) : io unit := fun w =>
  match tx, pg_reply (tick w) with
  | TxBroken, _ => (Err (EDb None), bump w)
  | _, Lost => (Err (EDb None), bump w)
  | TxOpen d, NoAnswer => (Err (EDb None), bump (set_pg d w))
  | TxAborted, NoAnswer => (Err (EDb None), bump w)
  | TxAborted, _ => (Ok tt, bump w)
  | TxOpen _, Rejected code => (Err (EDb (Some code)), bump w)
  | TxOpen d, Served => (Ok tt, bump (set_pg d w))
  end.

(** ** Redis *)

(** [redis.get().await]: a connection from the pool. *)
Definition redis_conn : io unit := fun w =>
  if redis_pool_up (tick w) then (Ok tt, bump w) else (Err ERedisPool, bump w).

(** One command, or one Lua script: atomic on the server. *)
Definition redis_cmd {A} (c : Z -> rstate -> option (A * rstate)) : io A := fun w =>
  match redis_reply (tick w) with
  | Lost | Rejected _ => (Err ERedis, bump w)
  | NoAnswer =>
      match c (redis_clock (tick w)) (redis w) with
      | Some (_, s) => (Err ERedis, bump (set_redis s w))
      | None => (Err ERedis, bump w)
      end
  | Served =>
      match c (redis_clock (tick w)) (redis w) with
      | Some (a, s) => (Ok a, bump (set_redis s w))
      | None => (Err ERedis, bump w)
      end
  end.

Definition redis_get (k : string) : io (option string) :=
  redis_cmd (fun t s => (fun v => (v, s)) <$> r_get t k s).
Definition redis_set_ex (k v : string) (ttl : Z) : io unit :=
  redis_cmd (fun t s => (fun s' => (tt, s')) <$> r_set_ex t k v ttl s).
Definition redis_set_ex_nx (k v : string) (ttl : Z) : io bool :=
  redis_cmd (fun t s => r_set_ex_nx t k v ttl s).
Definition redis_del (k : string) : io Z :=
  redis_cmd (fun t s => Some (r_del t k s)).
Definition redis_exists (k : string) : io Z :=
  redis_cmd (fun t s => Some (r_exists t k s, s)).
Definition redis_hset_multiple (k : string) (ps : list (string * string)) : io unit :=
  redis_cmd (fun t s => (fun s' => (tt, s')) <$> r_hset t k ps s).
Definition redis_hgetall (k : string) : io (gmap string string) :=
  redis_cmd (fun t s => (fun h => (h, s)) <$> r_hgetall t k s).
Definition redis_expire (k : string) (ttl : Z) : io Z :=
  redis_cmd (fun t s => Some (r_expire t k ttl s)).
Definition redis_ttl (k : string) : io Z :=
  redis_cmd (fun t s => Some (r_ttl t k s, s)).
End World.

Global Arguments World {_}.
Global Arguments io {_} A.

(** [(a - b).num_seconds()] of a [chrono::Duration]: whole seconds, towards
    zero. *)
Definition num_seconds (d : Z) : Z := Z.quot d 1000000000.
Definition seconds (n : Z) : Z := (n * 1000000000)%Z.

(** [SELECT ... ORDER BY] with [fetch_all]: rows that compare equal keep the
    order the server found them in. *)
Definition sort_by {A} (le : A -> A -> bool) : list A -> list A :=
  @merge_sort A (fun a b => le a b = true) (fun a b => decide (le a b = true)).

Definition fetch_ordered `{RedisServer} `{Env} {A} (le : A -> A -> bool) (q : Pg -> list A) : io (list A) :=
  bind (fetch_all q) (fun rs => ret (sort_by le rs)).

Lemma sort_by_perm {A} le (l : list A) : sort_by le l ≡ₚ l.
Proof. apply merge_sort_Permutation. Qed.

Section Quiet.
Context `{RedisServer} `{Env}.
Implicit Types w : World.

(** Time passes and the stores stay as they are. *)
Definition quiet w w' : Prop := pg w' = pg w /\ redis w' = redis w /\ tick w <= tick w'.

Lemma quiet_refl w : quiet w w.
Proof. by repeat split. Qed.
Lemma quiet_bump w w' : quiet w w' -> quiet w (bump w').
Proof. intros (? & ? & ?). repeat split; simpl; auto. Qed.
Lemma quiet_trans w1 w2 w3 : quiet w1 w2 -> quiet w2 w3 -> quiet w1 w3.
Proof. intros (? & ? & ?) (? & ? & ?). repeat split; try congruence. lia. Qed.
End Quiet.

(** ** Triples of the primitives *)

Section Triples.
Context `{RedisServer} `{Env}.
Implicit Types w : World.

Lemma wp_ask {A} (f : nat -> A) Q w : Q (Ok (f (tick w))) (bump w) -> wp (ask f) Q w.
Proof. exact id. Qed.

Lemma wp_execute {A} (q : stmt A) Q w :
  (forall a d, q (pg w) = Ok (a, d) -> Q (Ok a) (bump (set_pg d w))) ->
  (forall c, Q (Err (EDb c)) (bump w)) ->
  (forall c a d, q (pg w) = Ok (a, d) -> Q (Err (EDb c)) (bump (set_pg d w))) ->
  wp (execute q) Q w.
Proof.
  intros Hok Herr Hlost. unfold wp, execute.
  destruct (pg_reply (tick w)); simpl; auto; destruct (q (pg w)) as [[a d]|e] eqn:E; simpl; eauto.
Qed.

Lemma wp_execute_now {A} (q : Z -> stmt A) Q w :
  (forall a d, q (pg_clock (tick w)) (pg w) = Ok (a, d) -> Q (Ok a) (bump (set_pg d w))) ->
  (forall c, Q (Err (EDb c)) (bump w)) ->
  (forall c a d, q (pg_clock (tick w)) (pg w) = Ok (a, d) -> Q (Err (EDb c)) (bump (set_pg d w))) ->
  wp (execute_now q) Q w.
Proof. apply wp_execute. Qed.

Lemma wp_fetch_all {A} (q : Pg -> list A) Q w :
  Q (Ok (row_order (tick w) (q (pg w)))) (bump w) ->
  (forall c, Q (Err (EDb c)) (bump w)) ->
  wp (fetch_all q) Q w.
Proof. intros Hok Herr. unfold wp, fetch_all. destruct (pg_reply (tick w)); simpl; auto. Qed.

Lemma wp_fetch_optional {A} (q : Pg -> list A) Q w :
  Q (Ok (head (row_order (tick w) (q (pg w))))) (bump w) ->
  (forall c, Q (Err (EDb c)) (bump w)) ->
  wp (fetch_optional q) Q w.
Proof. intros Hok Herr. apply wp_bind, wp_fetch_all; [by apply wp_ret|done]. Qed.

(** The same, knowing that Postgres did not answer when there is an error. *)
Lemma wp_fetch_optional_why {A} (q : Pg -> list A) Q w :
  Q (Ok (head (row_order (tick w) (q (pg w))))) (bump w) ->
  (forall c, pg_reply (tick w) <> Served -> Q (Err (EDb c)) (bump w)) ->
  wp (fetch_optional q) Q w.
Proof. intros Hok Herr. apply wp_bind. unfold wp, fetch_all. destruct (pg_reply (tick w)); simpl; eauto. Qed.

Lemma wp_fetch_count {A} (q : Pg -> list A) Q w :
  Q (Ok (Z.of_nat (length (row_order (tick w) (q (pg w)))))) (bump w) ->
  (forall c, Q (Err (EDb c)) (bump w)) ->
  wp (fetch_count q) Q w.
Proof. intros Hok Herr. apply wp_bind, wp_fetch_all; [by apply wp_ret|done]. Qed.

Lemma wp_fetch_ordered {A} le (q : Pg -> list A) Q w :
  Q (Ok (sort_by le (row_order (tick w) (q (pg w))))) (bump w) ->
  (forall c, Q (Err (EDb c)) (bump w)) ->
  wp (fetch_ordered le q) Q w.
Proof. intros Hok Herr. apply wp_bind, wp_fetch_all; [by apply wp_ret|done]. Qed.

Lemma wp_begin Q w :
  Q (Ok (TxOpen (pg w))) (bump w) -> (forall c, Q (Err (EDb c)) (bump w)) -> wp begin_tx Q w.
Proof. intros Hok Herr. unfold wp, begin_tx. destruct (pg_reply (tick w)); simpl; auto. Qed.

Lemma wp_begin_now Q w :
  Q (Ok (pg_clock (tick w), TxOpen (pg w))) (bump w) -> (forall c, Q (Err (EDb c)) (bump w)) ->
  wp begin_tx_now Q w.
Proof. intros Hok Herr. apply wp_bind, wp_begin; [by apply wp_ret|done]. Qed.

Lemma wp_tx_execute {A} (q : stmt A) d Q w :
  (forall a d', q d = Ok (a, d') -> Q (Ok (Ok a, TxOpen d')) (bump w)) ->
  (forall c, Q (Ok (Err (EDb c), TxAborted)) (bump w)) ->
  (forall c, Q (Ok (Err (EDb c), TxBroken)) (bump w)) ->
  wp (tx_execute q (TxOpen d)) Q w.
Proof.
  intros Hok Hab Hbr. unfold wp, tx_execute.
  destruct (pg_reply (tick w)); simpl; auto. destruct (q d) as [[a d']|e] eqn:E; simpl; auto.
Qed.

Lemma wp_tx_try {A} (q : stmt A) d Q w :
  (forall a d', q d = Ok (a, d') -> Q (Ok (a, TxOpen d')) (bump w)) ->
  (forall c, Q (Err (EDb c)) (bump w)) ->
  wp (tx_try q (TxOpen d)) Q w.
Proof. intros Hok Herr. apply wp_bind, wp_tx_execute; intros; [by apply wp_ret, Hok|..]; by apply wp_throw. Qed.

(** After an error in the transaction, every statement of it fails. *)
Lemma wp_tx_try_dead {A} (q : stmt A) tx Q w :
  (forall d, tx <> TxOpen d) -> (forall c, Q (Err (EDb c)) (bump w)) -> wp (tx_try q tx) Q w.
Proof.
  intros Hdead Herr. apply wp_bind. unfold wp, tx_execute.
  destruct tx as [d| |]; [by destruct (Hdead d)|..]; destruct (pg_reply (tick w)); apply Herr.
Qed.

Lemma wp_tx_fetch_all {A} (q : Pg -> list A) d Q w :
  Q (Ok (row_order (tick w) (q d), TxOpen d)) (bump w) ->
  (forall c, Q (Err (EDb c)) (bump w)) ->
  wp (tx_fetch_all q (TxOpen d)) Q w.
Proof. intros Hok Herr. apply wp_tx_try; [|done]. intros a d' [= <- <-]. done. Qed.

Lemma wp_tx_fetch_optional {A} (q : Pg -> list A) d Q w :
  Q (Ok (head (row_order (tick w) (q d)), TxOpen d)) (bump w) ->
  (forall c, Q (Err (EDb c)) (bump w)) ->
  wp (tx_fetch_optional q (TxOpen d)) Q w.
Proof. intros Hok Herr. apply wp_bind, wp_tx_fetch_all; [by apply wp_ret|done]. Qed.

Lemma wp_commit d Q w :
  Q (Ok tt) (bump (set_pg d w)) ->
  (forall c, Q (Err (EDb c)) (bump w)) ->
  (forall c, Q (Err (EDb c)) (bump (set_pg d w))) ->
  wp (commit (TxOpen d)) Q w.
Proof. intros Hok Herr Hlost. unfold wp, commit. destruct (pg_reply (tick w)); simpl; auto. Qed.

(** Committing an aborted transaction rolls it back, and is not an error. *)
Lemma wp_commit_aborted Q w :
  Q (Ok tt) (bump w) -> (forall c, Q (Err (EDb c)) (bump w)) -> wp (commit TxAborted) Q w.
Proof. intros Hok Herr. unfold wp, commit. destruct (pg_reply (tick w)); simpl; auto. Qed.

Lemma wp_commit_broken Q w : Q (Err (EDb None)) (bump w) -> wp (commit TxBroken) Q w.
Proof. exact id. Qed.

Lemma wp_redis_conn Q w :
  Q (Ok tt) (bump w) -> Q (Err ERedisPool) (bump w) -> wp redis_conn Q w.
Proof. intros Hok Herr. unfold wp, redis_conn. by destruct (redis_pool_up (tick w)). Qed.

Lemma wp_redis_cmd {A} (c : Z -> rstate -> option (A * rstate)) Q w :
  (forall a s, c (redis_clock (tick w)) (redis w) = Some (a, s) -> Q (Ok a) (bump (set_redis s w))) ->
  Q (Err ERedis) (bump w) ->
  (forall a s, c (redis_clock (tick w)) (redis w) = Some (a, s) ->
     Q (Err ERedis) (bump (set_redis s w))) ->
  wp (redis_cmd c) Q w.
Proof.
  intros Hok Herr Hlost. unfold wp, redis_cmd.
  destruct (redis_reply (tick w)); simpl; auto;
    destruct (c _ _) as [[a s]|] eqn:E; simpl; eauto.
Qed.

(** Reads leave the data as it is. *)
Lemma wp_redis_get k Q w :
  (forall v, r_get (redis_clock (tick w)) k (redis w) = Some v -> Q (Ok v) (bump w)) ->
  Q (Err ERedis) (bump w) ->
  wp (redis_get k) Q w.
Proof.
  intros Hok Herr. destruct w as [t d s]. apply wp_redis_cmd; simpl; [|done|].
  - intros a s' ([v|] & Hg & Heq)%fmap_Some; simplify_eq; by apply Hok.
  - intros a s' ([v|] & Hg & Heq)%fmap_Some; by simplify_eq.
Qed.

Lemma wp_redis_ttl k Q w :
  Q (Ok (r_ttl (redis_clock (tick w)) k (redis w))) (bump w) ->
  Q (Err ERedis) (bump w) ->
  wp (redis_ttl k) Q w.
Proof.
  intros Hok Herr. destruct w as [t d s]. apply wp_redis_cmd; simpl; [|done|]; intros a s' Heq; by simplify_eq.
Qed.

Lemma wp_redis_exists k Q w :
  Q (Ok (r_exists (redis_clock (tick w)) k (redis w))) (bump w) ->
  Q (Err ERedis) (bump w) ->
  wp (redis_exists k) Q w.
Proof.
  intros Hok Herr. destruct w as [t d s]. apply wp_redis_cmd; simpl; [|done|]; intros a s' Heq; by simplify_eq.
Qed.

Lemma wp_redis_hgetall k Q w :
  (forall h, r_hgetall (redis_clock (tick w)) k (redis w) = Some h -> Q (Ok h) (bump w)) ->
  Q (Err ERedis) (bump w) ->
  wp (redis_hgetall k) Q w.
Proof.
  intros Hok Herr. destruct w as [t d s]. apply wp_redis_cmd; simpl; [|done|].
  - intros a s' (v & Hg & Heq)%fmap_Some; simplify_eq; by apply Hok.
  - intros a s' (v & Hg & Heq)%fmap_Some; by simplify_eq.
Qed.
End Triples.

(** ** Triples of the primitives when the outside answers *)

Section Answered.
Context `{RedisServer} `{Env}.
Implicit Types w : World.

(** From a tick on, Redis (Postgres) serves every request. *)
Definition redis_ok (n : nat) : Prop :=
  forall m, n <= m -> redis_pool_up m = true /\ redis_reply m = Served.
Definition pg_ok (n : nat) : Prop := forall m, n <= m -> pg_reply m = Served.

Lemma redis_ok_later n m : n <= m -> redis_ok n -> redis_ok m.
Proof. intros Hle Hn k Hk. apply Hn. lia. Qed.
Lemma pg_ok_later n m : n <= m -> pg_ok n -> pg_ok m.
Proof. intros Hle Hn k Hk. apply Hn. lia. Qed.

Lemma wp_redis_conn_ok Q w : redis_ok (tick w) -> Q (Ok tt) (bump w) -> wp redis_conn Q w.
Proof. intros Hup HQ. unfold wp, redis_conn. destruct (Hup (tick w)) as [-> _]; [lia|done]. Qed.

Lemma wp_redis_conn_down Q w :
  redis_pool_up (tick w) = false -> Q (Err ERedisPool) (bump w) -> wp redis_conn Q w.
Proof. intros Hd HQ. unfold wp, redis_conn. by rewrite Hd. Qed.

Lemma wp_redis_conn_up Q w :
  redis_pool_up (tick w) = true -> Q (Ok tt) (bump w) -> wp redis_conn Q w.
Proof. intros Hd HQ. unfold wp, redis_conn. by rewrite Hd. Qed.

Lemma wp_redis_cmd_down {A} (c : Z -> rstate -> option (A * rstate)) Q w :
  redis_reply (tick w) <> Served -> (forall w', Q (Err ERedis) w') -> wp (redis_cmd c) Q w.
Proof.
  intros Hd HQ. unfold wp, redis_cmd. destruct (redis_reply (tick w)); try done; simpl; auto.
  destruct (c _ _) as [[]|]; simpl; auto.
Qed.

Lemma wp_redis_cmd_ok {A} (c : Z -> rstate -> option (A * rstate)) a s Q w :
  redis_ok (tick w) ->
  c (redis_clock (tick w)) (redis w) = Some (a, s) ->
  Q (Ok a) (bump (set_redis s w)) ->
  wp (redis_cmd c) Q w.
Proof.
  intros Hup Hc HQ. unfold wp, redis_cmd. destruct (Hup (tick w)) as [_ ->]; [lia|].
  by rewrite Hc.
Qed.

Lemma wp_redis_get_ok k v Q w :
  redis_ok (tick w) -> r_get (redis_clock (tick w)) k (redis w) = Some v ->
  Q (Ok v) (bump w) -> wp (redis_get k) Q w.
Proof. intros Hup Hg HQ. destruct w as [t d s]. eapply wp_redis_cmd_ok; [done|by rewrite Hg|done]. Qed.

Lemma wp_redis_hgetall_ok k h Q w :
  redis_ok (tick w) -> r_hgetall (redis_clock (tick w)) k (redis w) = Some h ->
  Q (Ok h) (bump w) -> wp (redis_hgetall k) Q w.
Proof. intros Hup Hg HQ. destruct w as [t d s]. eapply wp_redis_cmd_ok; [done|by rewrite Hg|done]. Qed.

Lemma wp_fetch_all_ok {A} (q : Pg -> list A) Q w :
  pg_ok (tick w) -> Q (Ok (row_order (tick w) (q (pg w)))) (bump w) -> wp (fetch_all q) Q w.
Proof. intros Hup HQ. unfold wp, fetch_all. by rewrite Hup by lia. Qed.

Lemma wp_fetch_optional_ok {A} (q : Pg -> list A) Q w :
  pg_ok (tick w) -> Q (Ok (head (row_order (tick w) (q (pg w))))) (bump w) ->
  wp (fetch_optional q) Q w.
Proof. intros Hup HQ. apply wp_bind, wp_fetch_all_ok; [done|by apply wp_ret]. Qed.

Lemma wp_fetch_count_ok {A} (q : Pg -> list A) Q w :
  pg_ok (tick w) -> Q (Ok (Z.of_nat (length (row_order (tick w) (q (pg w)))))) (bump w) -> wp (fetch_count q) Q w.
Proof. intros Hup HQ. apply wp_bind, wp_fetch_all_ok; [done|by apply wp_ret]. Qed.

Lemma wp_fetch_ordered_ok {A} le (q : Pg -> list A) Q w :
  pg_ok (tick w) -> Q (Ok (sort_by le (row_order (tick w) (q (pg w))))) (bump w) -> wp (fetch_ordered le q) Q w.
Proof. intros Hup HQ. apply wp_bind, wp_fetch_all_ok; [done|by apply wp_ret]. Qed.

Lemma wp_execute_ok {A} (q : stmt A) a d Q w :
  pg_ok (tick w) -> q (pg w) = Ok (a, d) -> Q (Ok a) (bump (set_pg d w)) -> wp (execute q) Q w.
Proof. intros Hup Hq HQ. unfold wp, execute. rewrite Hup by lia. by rewrite Hq. Qed.

Lemma wp_begin_ok Q w : pg_ok (tick w) -> Q (Ok (TxOpen (pg w))) (bump w) -> wp begin_tx Q w.
Proof. intros Hup HQ. unfold wp, begin_tx. by rewrite Hup by lia. Qed.

Lemma wp_begin_now_ok Q w :
  pg_ok (tick w) -> Q (Ok (pg_clock (tick w), TxOpen (pg w))) (bump w) -> wp begin_tx_now Q w.
Proof. intros Hup HQ. apply wp_bind, wp_begin_ok; [done|by apply wp_ret]. Qed.

Lemma wp_tx_execute_ok {A} (q : stmt A) d a d' Q w :
  pg_ok (tick w) -> q d = Ok (a, d') -> Q (Ok (Ok a, TxOpen d')) (bump w) ->
  wp (tx_execute q (TxOpen d)) Q w.
Proof. intros Hup Hq HQ. unfold wp, tx_execute. rewrite Hup by lia. by rewrite Hq. Qed.

Lemma wp_tx_try_ok {A} (q : stmt A) d a d' Q w :
  pg_ok (tick w) -> q d = Ok (a, d') -> Q (Ok (a, TxOpen d')) (bump w) ->
  wp (tx_try q (TxOpen d)) Q w.
Proof. intros Hup Hq HQ. apply wp_bind. eapply wp_tx_execute_ok; eauto. Qed.

Lemma wp_tx_fetch_all_ok {A} (q : Pg -> list A) d Q w :
  pg_ok (tick w) -> Q (Ok (row_order (tick w) (q d), TxOpen d)) (bump w) ->
  wp (tx_fetch_all q (TxOpen d)) Q w.
Proof. intros Hup HQ. by eapply (wp_tx_try_ok _ d). Qed.

Lemma wp_tx_fetch_optional_ok {A} (q : Pg -> list A) d Q w :
  pg_ok (tick w) -> Q (Ok (head (row_order (tick w) (q d)), TxOpen d)) (bump w) ->
  wp (tx_fetch_optional q (TxOpen d)) Q w.
Proof. intros Hup HQ. apply wp_bind, wp_tx_fetch_all_ok; [done|by apply wp_ret]. Qed.

Lemma wp_commit_ok d Q w :
  pg_ok (tick w) -> Q (Ok tt) (bump (set_pg d w)) -> wp (commit (TxOpen d)) Q w.
Proof. intros Hup HQ. unfold wp, commit. by rewrite Hup by lia. Qed.

Context `{!RedisLaws} `{!EnvLaws}.

(** From now on [e] is what Redis stores under [k]. *)
Definition stores (w : World) (k : string) (e : option rentry) : Prop :=
  forall t, (redis_clock (tick w) <= t)%Z -> rlive t k (redis w) = still_live t e.

Lemma stores_rlive w k : stores w k (rlive (redis_clock (tick w)) k (redis w)).
Proof. intros t Ht. by apply rlive_time. Qed.

Lemma stores_bump w k e : stores w k e -> stores (bump w) k e.
Proof.
  intros Hs t Ht. simpl. apply Hs. etrans; [|done]. apply redis_clock_mono. simpl. lia.
Qed.

Lemma stores_set_pg w k e d : stores w k e -> stores (set_pg d w) k e.
Proof. done. Qed.

Lemma stores_update w k e s :
  rupdate (redis_clock (tick w)) k e (redis w) s -> stores (bump (set_redis s w)) k e.
Proof.
  intros Hu t Ht. simpl. eapply rupdate_same; [done|].
  etrans; [|done]. apply redis_clock_mono. simpl. lia.
Qed.

Lemma stores_update_other w k e s k' e' :
  rupdate (redis_clock (tick w)) k e (redis w) s -> k' <> k ->
  stores w k' e' -> stores (bump (set_redis s w)) k' e'.
Proof.
  intros Hu Hk Hs t Ht. simpl.
  assert (redis_clock (tick w) <= t)%Z.
  { etrans; [|done]. apply redis_clock_mono. simpl. lia. }
  rewrite (rupdate_other _ _ _ _ _ _ _ Hu) by done. by apply Hs.
Qed.

Lemma stores_eq w k e e' :
  stores w k e -> (forall t, still_live t e = still_live t e') -> stores w k e'.
Proof. intros Hs He t Ht. by rewrite Hs, He. Qed.
End Answered.

(** ** Lookups by a unique column *)

Section Lookup.
Context `{EnvLaws}.

(** A query that selects at most one row finds it whatever the row order. *)
Lemma head_row_order {A} n (l : list A) : length l <= 1 -> head (row_order n l) = head l.
Proof.
  intros Hl. pose proof (row_order_perm n l) as Hp. destruct l as [|x [|y l]]; simpl in Hl; [| |lia].
  - by apply Permutation_nil_r in Hp as ->.
  - by apply Permutation_singleton_r in Hp as ->.
Qed.

Lemma where_key {R} (id : R -> Uuid) (m : gmap Uuid R) i :
  keyed id m -> where_ (fun r => id r = i) m = option_list (m !! i).
Proof.
  intros Hk. destruct (m !! i) as [r|] eqn:Hi; simpl.
  - assert (Hu : unique_on id m).
    { intros j k x y Hx Hy Heq. by rewrite <- (Hk _ _ Hx), <- (Hk _ _ Hy). }
    pose proof (where_unique id m i r Hu Hi) as Hw. by rewrite (Hk _ _ Hi) in Hw.
  - apply where_nil. intros j r Hj <-. rewrite (Hk _ _ Hj) in Hi. congruence.
Qed.

Lemma head_where_key {R} (id : R -> Uuid) (m : gmap Uuid R) n i :
  keyed id m -> head (row_order n (where_ (fun r => id r = i) m)) = m !! i.
Proof.
  intros Hk. rewrite head_row_order; rewrite (where_key id m i Hk); destruct (m !! i); done || (simpl; lia).
Qed.

Lemma head_where_unique {R K} (f : R -> K) `{EqDecision K} (m : gmap Uuid R) n x :
  unique_on f m ->
  match head (row_order n (where_ (fun r => f r = x) m)) with
  | Some r => f r = x /\ exists i, m !! i = Some r
  | None => forall i r, m !! i = Some r -> f r <> x
  end.
Proof.
  intros Hu. destruct (decide (where_ (fun r => f r = x) m = [])) as [He|Hne].
  - rewrite He. pose proof (row_order_perm n (@nil R)) as Hp. apply Permutation_nil_r in Hp as ->. simpl.
    by apply (where_nil (fun r => f r = x) m).
  - destruct (where_ (fun r => f r = x) m) as [|r l] eqn:E; [done|].
    assert (Hr : r ∈ where_ (fun r => f r = x) m) by (rewrite E; left).
    apply elem_of_where in Hr as [<- [i Hi]].
    rewrite (where_unique f m i r Hu Hi) in E. injection E as <-.
    rewrite head_row_order by (simpl; lia). simpl. eauto.
Qed.
End Lookup.

(** ** What a run leaves alone *)

Section Frame.
Context `{RedisLaws} `{EnvLaws}.

(** From [w] to [w'], only keys in [K] changed in Redis. *)
Definition redis_frame (K : string -> Prop) (w w' : World) : Prop :=
  tick w <= tick w' /\
  forall t k, (redis_clock (tick w') <= t)%Z -> ~ K k -> rlive t k (redis w') = rlive t k (redis w).

Lemma frame_refl K w : redis_frame K w w.
Proof. by split. Qed.

Lemma frame_trans K w1 w2 w3 : redis_frame K w1 w2 -> redis_frame K w2 w3 -> redis_frame K w1 w3.
Proof.
  intros [Ht1 Hf1] [Ht2 Hf2]. split; [lia|]. intros t k Ht Hk. rewrite Hf2 by done. apply Hf1; [|done].
  etrans; [by apply redis_clock_mono|done].
Qed.

Lemma frame_weaken (K K' : string -> Prop) w w' :
  (forall k, K k -> K' k) -> redis_frame K w w' -> redis_frame K' w w'.
Proof. intros Hk [Ht Hf]. split; [done|]. intros t k Hc Hn. apply Hf; auto. Qed.

Lemma frame_bump K w0 w : redis_frame K w0 w -> redis_frame K w0 (bump w).
Proof. intros Hf. eapply frame_trans; [done|]. split; simpl; [lia|done]. Qed.

Lemma frame_set_pg K w0 w d : redis_frame K w0 w -> redis_frame K w0 (set_pg d w).
Proof. done. Qed.

Lemma frame_cmd (K : string -> Prop) w0 w k e s :
  redis_frame K w0 w -> rupdate (redis_clock (tick w)) k e (redis w) s -> K k ->
  redis_frame K w0 (bump (set_redis s w)).
Proof.
  intros Hf Hu Hk. eapply frame_trans; [done|]. split; simpl; [lia|]. intros t k' Ht Hn.
  eapply rupdate_other; [done| |by intros ->].
  etrans; [|done]. apply redis_clock_mono. simpl. lia.
Qed.

Lemma frame_stores K w w' k e : redis_frame K w w' -> ~ K k -> stores w k e -> stores w' k e.
Proof.
  intros [Ht Hf] Hk Hs t Hle. rewrite Hf by done. apply Hs.
  etrans; [by apply redis_clock_mono|done].
Qed.

(** The live entry under an untouched key was there before. *)
Lemma frame_rlive K w w' k e :
  redis_frame K w w' -> ~ K k ->
  rlive (redis_clock (tick w')) k (redis w') = Some e ->
  rlive (redis_clock (tick w)) k (redis w) = Some e.
Proof.
  intros [Ht Hf] Hk Hl. rewrite Hf in Hl by done.
  eapply rlive_some_earlier; [|done]. by apply redis_clock_mono.
Qed.

(** From [w] to [w'], entries of Redis only disappeared. *)
Definition redis_shrinks (w w' : World) : Prop :=
  tick w <= tick w' /\
  forall t k, (redis_clock (tick w') <= t)%Z ->
    rlive t k (redis w') = rlive t k (redis w) \/ rlive t k (redis w') = None.

Lemma shrinks_refl w : redis_shrinks w w.
Proof. split; auto. Qed.

Lemma shrinks_trans w1 w2 w3 : redis_shrinks w1 w2 -> redis_shrinks w2 w3 -> redis_shrinks w1 w3.
Proof.
  intros [Ht1 Hs1] [Ht2 Hs2]. split; [lia|]. intros t k Ht.
  destruct (Hs2 t k Ht) as [->|]; [|by right]. apply Hs1.
  etrans; [by apply redis_clock_mono|done].
Qed.

Lemma shrinks_bump w0 w : redis_shrinks w0 w -> redis_shrinks w0 (bump w).
Proof. intros Hs. eapply shrinks_trans; [done|]. split; simpl; auto. Qed.

Lemma shrinks_set_pg w0 w d : redis_shrinks w0 w -> redis_shrinks w0 (set_pg d w).
Proof. done. Qed.

Lemma shrinks_del w0 w k s :
  redis_shrinks w0 w -> rupdate (redis_clock (tick w)) k None (redis w) s ->
  redis_shrinks w0 (bump (set_redis s w)).
Proof.
  intros Hs Hu. eapply shrinks_trans; [done|]. split; simpl; [lia|]. intros t k' Ht.
  assert (redis_clock (tick w) <= t)%Z by (etrans; [|done]; apply redis_clock_mono; simpl; lia).
  rewrite (Hu t k') by done. case_bool_decide; auto.
Qed.

Lemma shrinks_gone w w' k : redis_shrinks w w' -> stores w k None -> stores w' k None.
Proof.
  intros [Ht Hs] Hg t Hle. destruct (Hs t k Hle) as [->| ->]; [|done]. apply Hg.
  etrans; [by apply redis_clock_mono|done].
Qed.

Lemma shrinks_rlive w w' k e :
  redis_shrinks w w' -> rlive (redis_clock (tick w')) k (redis w') = Some e ->
  rlive (redis_clock (tick w)) k (redis w) = Some e.
Proof.
  intros [Ht Hs] Hl. destruct (Hs (redis_clock (tick w')) k) as [Heq|Heq]; [done| |congruence].
  rewrite Heq in Hl. eapply rlive_some_earlier; [|done]. by apply redis_clock_mono.
Qed.

(** *** Commands that write one key *)

Lemma wp_redis_set_ex k v ttl Q w :
  (0 < ttl)%Z ->
  (forall r s, r = Ok tt \/ r = Err ERedis ->
     rupdate (redis_clock (tick w)) k
       (Some (RStr v, Some (redis_clock (tick w) + ttl * ns_per_sec)%Z)) (redis w) s ->
     Q r (bump (set_redis s w))) ->
  Q (Err ERedis) (bump w) ->
  wp (redis_set_ex k v ttl) Q w.
Proof.
  intros Httl Hset Herr. pose proof (r_set_ex_law (redis_clock (tick w)) k v ttl (redis w)) as Hl.
  replace (0 <? ttl)%Z with true in Hl by lia. destruct Hl as (s & Hs & Hu).
  unfold redis_set_ex. apply wp_redis_cmd; [|done|]; rewrite Hs; simpl; intros a s' [= <- <-]; auto.
Qed.

Lemma wp_redis_del k Q w :
  (forall r s, rupdate (redis_clock (tick w)) k None (redis w) s ->
     (r = Err ERedis \/ exists n, r = Ok n) -> Q r (bump (set_redis s w))) ->
  Q (Err ERedis) (bump w) ->
  wp (redis_del k) Q w.
Proof.
  intros Hdel Herr. pose proof (r_del_law (redis_clock (tick w)) k (redis w)) as [_ Hu].
  unfold redis_del. destruct (r_del _ _ _) as [n s] eqn:E. simpl in Hu.
  apply wp_redis_cmd; [|done|]; rewrite E; intros a s' [= <- <-]; eauto.
Qed.

(** [HSET] of some fields: merged into the hash that is there. *)
Lemma wp_redis_hset k ps Q w :
  ps <> [] ->
  (forall r s h d, r = Ok tt \/ r = Err ERedis ->
     (rlive (redis_clock (tick w)) k (redis w) = Some (RHash h, d)
      \/ rlive (redis_clock (tick w)) k (redis w) = None /\ h = ∅ /\ d = None) ->
     rupdate (redis_clock (tick w)) k (Some (RHash (hset_pairs ps h), d)) (redis w) s ->
     Q r (bump (set_redis s w))) ->
  Q (Err ERedis) (bump w) ->
  wp (redis_hset_multiple k ps) Q w.
Proof.
  intros Hne Hset Herr. pose proof (r_hset_law (redis_clock (tick w)) k ps (redis w) Hne) as Hl.
  unfold redis_hset_multiple.
  destruct (rlive (redis_clock (tick w)) k (redis w)) as [[[x|n|h] d]|] eqn:E.
  - apply wp_redis_cmd; [|done|]; by rewrite Hl.
  - apply wp_redis_cmd; [|done|]; by rewrite Hl.
  - destruct Hl as (s & Hs & Hu). apply wp_redis_cmd; [|done|]; rewrite Hs; intros a s' [= <- <-]; eauto.
  - destruct Hl as (s & Hs & Hu). apply wp_redis_cmd; [|done|]; rewrite Hs; intros a s' [= <- <-];
      eapply Hset; eauto.
Qed.

Lemma wp_redis_del_served k Q w :
  redis_reply (tick w) = Served ->
  (forall n s, rupdate (redis_clock (tick w)) k None (redis w) s -> Q (Ok n) (bump (set_redis s w))) ->
  wp (redis_del k) Q w.
Proof.
  intros Hup Hdel. pose proof (r_del_law (redis_clock (tick w)) k (redis w)) as [_ Hu].
  unfold redis_del. destruct (r_del (redis_clock (tick w)) k (redis w)) as [n s] eqn:E. simpl in Hu.
  unfold wp, redis_cmd. rewrite Hup, E. by apply Hdel.
Qed.
End Frame.

#[export] Hint Resolve quiet_refl quiet_bump : wp.
#[export] Hint Resolve frame_refl frame_bump frame_set_pg shrinks_refl shrinks_bump shrinks_set_pg : wp.

Global Opaque ask execute fetch_all fetch_optional fetch_count fetch_ordered begin_tx
  tx_execute tx_try tx_fetch_all tx_fetch_optional commit redis_conn redis_cmd redis_get redis_ttl
  redis_exists redis_hgetall wp.

(** One step of symbolic execution: the rule of the head of the program, with
    a goal per outcome. *)
Ltac wp_step :=
  lazymatch goal with
  | |- wp (bind _ _) _ _ => apply wp_bind
  | |- wp (ret _) _ _ => apply wp_ret
  | |- wp (throw _) _ _ => apply wp_throw
  | |- wp (attempt _) _ _ => apply wp_attempt
  | |- wp (ignore _) _ _ => apply wp_ignore
  | |- wp (or_fail _ _ _) _ _ => apply wp_or_fail
  | |- wp (ask _) _ _ => apply wp_ask
  | |- wp utc_now _ _ => apply wp_ask
  | |- wp uuid_new_v4 _ _ => apply wp_ask
  | |- wp (fill_bytes _) _ _ => apply wp_ask
  | |- wp (run_bounded _) _ _ => apply wp_ask
  | |- wp (fetch_all _) _ _ => apply wp_fetch_all; [|intros ?c]
  | |- wp (fetch_optional _) _ _ => apply wp_fetch_optional; [|intros ?c]
  | |- wp (fetch_count _) _ _ => apply wp_fetch_count; [|intros ?c]
  | |- wp (fetch_ordered _ _) _ _ => apply wp_fetch_ordered; [|intros ?c]
  | |- wp (execute _) _ _ => apply wp_execute; [intros ?a ?d ?Hq|intros ?c|intros ?c ?a ?d ?Hq]
  | |- wp (execute_now _) _ _ => apply wp_execute_now; [intros ?a ?d ?Hq|intros ?c|intros ?c ?a ?d ?Hq]
  | |- wp begin_tx_now _ _ => apply wp_begin_now; [|intros ?c]
  | |- wp begin_tx _ _ => apply wp_begin; [|intros ?c]
  | |- wp (tx_execute _ (TxOpen _)) _ _ => apply wp_tx_execute; [intros ?a ?d ?Hq|intros ?c|intros ?c]
  | |- wp (tx_try _ (TxOpen _)) _ _ => apply wp_tx_try; [intros ?a ?d ?Hq|intros ?c]
  | |- wp (tx_fetch_all _ (TxOpen _)) _ _ => apply wp_tx_fetch_all; [|intros ?c]
  | |- wp (tx_fetch_optional _ (TxOpen _)) _ _ => apply wp_tx_fetch_optional; [|intros ?c]
  | |- wp (commit (TxOpen _)) _ _ => apply wp_commit; [|intros ?c|intros ?c]
  | |- wp (commit TxAborted) _ _ => apply wp_commit_aborted; [|intros ?c]
  | |- wp (commit TxBroken) _ _ => apply wp_commit_broken
  | |- wp redis_conn _ _ => apply wp_redis_conn
  | |- wp (redis_get _) _ _ => apply wp_redis_get; [intros ?v ?Hget|]
  | |- wp (redis_ttl _) _ _ => apply wp_redis_ttl
  | |- wp (redis_exists _) _ _ => apply wp_redis_exists
  | |- wp (redis_hgetall _) _ _ => apply wp_redis_hgetall; [intros ?h ?Hget|]
  | |- wp (redis_cmd _) _ _ => apply wp_redis_cmd; [intros ?a ?s ?Hc| |intros ?a ?s ?Hc]
  | |- wp (match ?x with _ => _ end) _ _ => destruct x eqn:?
  end; cbn beta iota.

Ltac wp_steps := repeat wp_step.

(** The outside still answers, some ticks later. *)
Ltac still_up :=
  first [ eapply pg_ok_later; [|eassumption]; simpl in *; lia
        | eapply redis_ok_later; [|eassumption]; simpl in *; lia ].

(** A step with an outside that answers, so that only the outcome that is an answer
    is left; what the rule asks of the data stays a goal. *)
Ltac wp_up :=
  lazymatch goal with
  | |- wp (fetch_all _) _ _ => apply wp_fetch_all_ok; [still_up|]
  | |- wp (fetch_optional _) _ _ => apply wp_fetch_optional_ok; [still_up|]
  | |- wp (fetch_count _) _ _ => apply wp_fetch_count_ok; [still_up|]
  | |- wp (fetch_ordered _ _) _ _ => apply wp_fetch_ordered_ok; [still_up|]
  | |- wp begin_tx _ _ => apply wp_begin_ok; [still_up|]
  | |- wp (commit (TxOpen _)) _ _ => apply wp_commit_ok; [still_up|]
  | |- wp redis_conn _ _ => apply wp_redis_conn_ok; [still_up|]
  | _ => wp_step
  end; cbn beta iota.

(** Use a triple of a called function. *)
Ltac wp_call H := eapply wp_mono; [apply H|cbn beta].

(** Turn a goal about the outcome of a run into a triple. *)
Ltac run_wp Hrun :=
  lazymatch type of Hrun with
  | _ = (?r, ?w') => pattern r, w'; refine (wp_run _ _ _ _ _ _ Hrun); clear Hrun
  end.
