(* ===== verification/Ext.v ===== *)
(** * Third-party code the server calls

    Each class is a library function or a family of them ([sha2], [base64],
    [hmac], [uuid], [chrono], [serde_json], [jsonwebtoken], [argon2], [url],
    [urlencoding]); the functions are parameters of the model.  The [...Laws]
    classes state the documented behaviour that theorems rely on, and [Demo]
    implements them, so they can hold and witnesses can be evaluated. *)

From stdpp Require Import base tactics list gmap strings countable.
From Stdlib Require Import ZArith Lia Ascii.
From S2P Require Import Prelude RustStr Schema.

(** ** Hashes, encodings *)

Class Crypto := {
  (** [Sha256::digest] *)
  sha256_digest : string -> string;
  (** [URL_SAFE_NO_PAD.encode] *)
  b64url_encode : string -> string;
  (** [Hmac<Sha256>] of a key and a message *)
  hmac_sha256_mac : string -> string -> string;
  (** [STANDARD.encode], [STANDARD.decode] *)
  b64_encode : string -> string;
  b64_decode : string -> option string;
}.

Fixpoint all_bytes (p : ascii -> bool) (s : string) : bool :=
  match s with "" => true | String c r => p c && all_bytes p r end.

Definition is_b64 (c : ascii) : bool :=
  let n := byte c in
  ((65 <=? n) && (n <=? 90) || (97 <=? n) && (n <=? 122) || (48 <=? n) && (n <=? 57)
   || (n =? 43) || (n =? 47) || (n =? 61))%N.

Class CryptoLaws `{Crypto} := {
  b64url_inj s t : b64url_encode s = b64url_encode t -> s = t;
  b64_decode_encode s : b64_decode (b64_encode s) = Some s;
  (** The alphabet is letters, digits, [+], [/] and [=]. *)
  b64_alphabet s : all_bytes is_b64 (b64_encode s) = true;
}.

(** Collision resistance, as an idealisation: distinct inputs have distinct
    digests. *)
Class DigestInjective `{Crypto} := {
  sha256_inj s t : sha256_digest s = sha256_digest t -> s = t;
}.

(** ** urlencoding *)

Class UrlCodec := {
  (** [urlencoding::encode], and the inverse a reader of the query applies *)
  url_encode : string -> string;
  url_decode : string -> option string;
}.

(** What the encoding leaves as it is, and the escape byte. *)
Definition is_url_byte (c : ascii) : bool :=
  let n := byte c in
  ((65 <=? n) && (n <=? 90) || (97 <=? n) && (n <=? 122) || (48 <=? n) && (n <=? 57)
   || (n =? 45) || (n =? 95) || (n =? 46) || (n =? 126) || (n =? 37))%N.

Class UrlCodecLaws `{UrlCodec} := {
  url_decode_encode s : url_decode (url_encode s) = Some s;
  url_alphabet s : all_bytes is_url_byte (url_encode s) = true;
}.

(** ** Text forms of UUIDs and timestamps *)

Class Texts := {
  uuid_to_string : Uuid -> string;
  uuid_parse_str : string -> option Uuid;
  (** [NaiveDateTime::format(f)] and [parse_from_str(s, f)] *)
  dt_format : string -> Z -> string;
  dt_parse : string -> string -> option Z;
  (** [to_string()] of a [NaiveDateTime] *)
  dt_to_string : Z -> string;
}.

Class TextsLaws `{Texts} := {
  uuid_parse_to_string u : uuid_parse_str (uuid_to_string u) = Some u;
  (** Seconds with their fraction ([%S%.f]) are printed exactly. *)
  dt_parse_format t :
    dt_parse "%Y-%m-%dT%H:%M:%S%.f" (dt_format "%Y-%m-%dT%H:%M:%S%.f" t) = Some t;
}.

(** ** serde_json *)

Set Warnings "-register-all".

(** [serde_json::Value]; an object is a [BTreeMap].  A number that is not an
    integer is kept as its text. *)
Inductive Value :=
| JNull
| JBool (b : bool)
| JInt (n : Z)
| JFloat (text : string)
| JStr (s : string)
| JArr (l : list Value)
| JObj (m : gmap string Value).

(** [serde_json::from_str::<Value>] *)
Class ValueParser := { value_from_str : string -> option Value }.

(** [v.get(key)], [v.as_str()], [v.as_array()], [v.as_object()], [v.as_u64()] *)
Definition value_get (v : Value) (key : string) : option Value :=
  match v with JObj m => m !! key | _ => None end.
Definition as_str (v : Value) : option string := match v with JStr s => Some s | _ => None end.
Definition as_array (v : Value) : option (list Value) := match v with JArr l => Some l | _ => None end.
Definition as_object (v : Value) : option (gmap string Value) := match v with JObj m => Some m | _ => None end.
Definition as_u64 (v : Value) : option Z :=
  match v with
  | JInt n => if ((0 <=? n) && (n <? 18446744073709551616))%Z then Some n else None
  | _ => None
  end.

(** *** JSON texts

    A value written out by hand: strings without escapes, unsigned decimal
    numbers, arrays and objects, with no white space. *)
Inductive JText :=
| TStr (s : string)
| TNum (digits : string)
| TArr (l : list JText)
| TObj (l : list (string * JText)).

Definition dquote : ascii := ascii_of_N 34.
Definition quoted (s : string) : string := String dquote "" +:+ s +:+ String dquote "".

Fixpoint json_text (t : JText) : string :=
  match t with
  | TStr s => quoted s
  | TNum digits => digits
  | TArr l => "[" +:+ join "," (map json_text l) +:+ "]"
  | TObj l => "{" +:+ join "," (map (fun p => quoted p.1 +:+ ":" +:+ json_text p.2) l) +:+ "}"
  end.

Fixpoint json_value (t : JText) : Value :=
  match t with
  | TStr s => JStr s
  | TNum digits => JInt (digits_value 0 digits)
  | TArr l => JArr (map json_value l)
  | TObj l => JObj (list_to_map (map (fun p => (p.1, json_value p.2)) l))
  end.

(** A byte a JSON string holds as it is. *)
Definition plain_byte (c : ascii) : bool :=
  (32 <=? byte c)%N && (byte c <? 127)%N && negb (byte c =? 34)%N && negb (byte c =? 92)%N.

Fixpoint well_formed (t : JText) : Prop :=
  match t with
  | TStr s => all_bytes plain_byte s = true
  | TNum digits => digits <> "" /\ all_digits digits = true
      /\ (starts_with "0" digits = true -> digits = "0")
      /\ (digits_value 0 digits < 18446744073709551616)%Z
  | TArr l => foldr (fun t P => well_formed t /\ P) True l
  | TObj l => NoDup l.*1
      /\ foldr (fun p P => (all_bytes plain_byte p.1 = true /\ well_formed p.2) /\ P) True l
  end.

Class ValueParserLaws `{ValueParser} := {
  value_from_text t : well_formed t -> value_from_str (json_text t) = Some (json_value t);
}.

(** The codec [#[derive(Serialize, Deserialize)]] generates for a struct. *)
Class JsonCodec (T : Type) := {
  json_to_string : T -> option string;
  json_from_str : string -> option T;
}.

Class JsonCodecLaws (T : Type) `{JsonCodec T} := {
  json_roundtrip v s : json_to_string v = Some s -> json_from_str s = Some v;
  json_total v : exists s, json_to_string v = Some s /\ s <> "";
}.

(** ** jsonwebtoken *)

Record JwtHeader := mkJwtHeader {
  hdr_alg : string;
  hdr_typ : option string;
  hdr_kid : option string;
}.

Record Validation := mkValidation {
  val_alg : string;
  val_iss : list string;
  val_aud : option (list string);
  val_validate_exp : bool;
  val_validate_nbf : bool;
  val_validate_aud : bool;
  val_leeway : Z;
  val_required_spec_claims : list string;
}.

Class JwtLib := {
  EncodingKey : Type;
  DecodingKey : Type;
  (** [encode(&header, claims, &key)] *)
  jwt_encode : JwtHeader -> gmap string Value -> EncodingKey -> option string;
  (** [decode_header(token)] *)
  jwt_decode_header : string -> option JwtHeader;
  (** [decode::<Value>(token, &key, &validation)] at a time, in seconds *)
  jwt_decode : Z -> string -> DecodingKey -> Validation -> option Value;
}.

(** A claim that is a text or a list of texts names each of them. *)
Definition names (x : string) (v : Value) : Prop := v = JStr x \/ exists l, v = JArr l /\ JStr x ∈ l.

(** A claim that is a number. *)
Definition is_number (v : Value) : Prop := (exists n, v = JInt n) \/ exists text, v = JFloat text.

Class JwtLaws `{JwtLib} := {
  (** The two halves of an RSA key. *)
  key_pair : EncodingKey -> DecodingKey -> Prop;
  (** A token is base64url text and dots. *)
  jwt_token_text h c k token :
    jwt_encode h c k = Some token -> token <> "" /\ forall x, x ∈ chars token -> is_whitespace x = false;
  jwt_header_encode h c k token : jwt_encode h c k = Some token -> jwt_decode_header token = Some h;
  (** A token made with the other half of the key is accepted when its claims
      meet the validation. *)
  jwt_decode_encode h c k k' token now v exp iss :
    jwt_encode h c k = Some token -> key_pair k k' -> hdr_alg h = val_alg v ->
    c !! "exp" = Some (JInt exp) -> (now < exp)%Z -> (0 <= val_leeway v)%Z ->
    c !! "iss" = Some (JStr iss) -> iss ∈ val_iss v ->
    c !! "nbf" = None -> (forall r, r ∈ val_required_spec_claims v -> is_Some (c !! r)) ->
    (val_validate_aud v = false \/
       exists auds a, val_aud v = Some auds /\ c !! "aud" = Some (JStr a) /\ a ∈ auds) ->
    jwt_decode now token k' v = Some (JObj c);
  (** Accepted claims meet the validation. *)
  jwt_decode_required now token k v c r :
    jwt_decode now token k v = Some (JObj c) -> r ∈ val_required_spec_claims v -> is_Some (c !! r);
  (** A required [exp] is a number. *)
  jwt_decode_exp_number now token k v c :
    jwt_decode now token k v = Some (JObj c) -> "exp" ∈ val_required_spec_claims v ->
    exists e, c !! "exp" = Some e /\ is_number e;
  jwt_decode_iss now token k v c x :
    jwt_decode now token k v = Some (JObj c) -> c !! "iss" = Some x -> val_iss v <> [] ->
    exists i, i ∈ val_iss v /\ names i x;
  jwt_decode_exp now token k v c e :
    jwt_decode now token k v = Some (JObj c) -> val_validate_exp v = true -> c !! "exp" = Some (JInt e) ->
    (now - val_leeway v <= e)%Z;
  jwt_decode_aud now token k v c auds x :
    jwt_decode now token k v = Some (JObj c) -> val_validate_aud v = true -> val_aud v = Some auds ->
    c !! "aud" = Some x -> exists a, a ∈ auds /\ names a x;
}.

(** ** argon2 *)

Inductive Argon2Algorithm := Argon2d | Argon2i | Argon2id.

Class Argon2Lib := {
  (** [Params::new(memory_kb, iterations, parallelism, Some(length))] succeeds *)
  argon2_params_ok : Z -> Z -> Z -> Z -> bool;
  (** [Argon2::new(algorithm, V0x13, params).hash_password_into(password, salt, out)] *)
  argon2_hash : Argon2Algorithm -> Z -> Z -> Z -> Z -> string -> string -> option string;
}.

Class Argon2Laws `{Argon2Lib} := {
  (** 12 MiB, 3 passes, 1 lane, 32 bytes are legal parameters, and a 16-byte
      salt and a password shorter than 2^32 bytes are legal inputs. *)
  argon2_default_params : argon2_params_ok 12288 3 1 32 = true;
  argon2_default_hash password salt :
    (Z.of_nat (String.length password) < 4294967296)%Z -> String.length salt = 16 ->
    is_Some (argon2_hash Argon2id 12288 3 1 32 password salt);
}.

(** Collision resistance, as an idealisation: with one salt, distinct passwords
    have distinct hashes. *)
Class Argon2Injective `{Argon2Lib} := {
  argon2_inj a m t p n pw pw' salt out :
    argon2_hash a m t p n pw salt = Some out -> argon2_hash a m t p n pw' salt = Some out -> pw = pw';
}.
