(* ===== verification/Demo.v ===== *)
(** * A concrete outside world

    Instances of the parameters of the model ([Env], the third-party classes),
    with proofs of the laws assumed of them: the laws can hold together, and
    the theorems' witnesses run on these instances.  Every request is served,
    a tick takes one nanosecond, digests are the identity, and a struct's JSON
    is its [Countable] code in binary. *)

From stdpp Require Import base tactics list gmap strings countable pretty.
From Stdlib Require Import ZArith Lia Ascii.
From S2P Require Import Prelude RustStr Redis Schema World Ext.

(** ** Binary text *)

Fixpoint pos_text (p : positive) : string :=
  match p with
  | xH => "1"
  | xO p => String "0"%char (pos_text p)
  | xI p => String "1"%char (pos_text p)
  end.

(** The last digit of the text is the leading [1]. *)
Fixpoint text_pos (s : string) : option positive :=
  match s with
  | "" => None
  | "1" => Some xH
  | String "0"%char r => xO <$> text_pos r
  | String "1"%char r => xI <$> text_pos r
  | _ => None
  end.

Lemma pos_text_nonempty p : pos_text p <> "".
Proof. by destruct p. Qed.

Lemma text_pos_text p : text_pos (pos_text p) = Some p.
Proof.
  induction p as [p IH|p IH|]; [| |done]; cbn [pos_text text_pos];
    pose proof (pos_text_nonempty p); destruct (pos_text p); by rewrite ?IH.
Qed.

Lemma pos_text_b64 p : all_bytes is_b64 (pos_text p) = true.
Proof. by induction p. Qed.

(** [len] bytes that start with [s], or with as much of it as fits. *)
Fixpoint padded (len : nat) (s : string) : string :=
  match len, s with
  | 0, _ => ""
  | S n, String c r => String c (padded n r)
  | S n, "" => String "."%char (padded n "")
  end.

Lemma padded_length len s : String.length (padded len s) = len.
Proof. revert s. induction len as [|n IH]; intros [|c s]; simpl; by rewrite ?IH. Qed.

Section Codec.
Context `{Countable T}.

Definition code_to_string (v : T) : option string := Some (pos_text (encode v)).
Definition code_from_str (s : string) : option T := text_pos s ≫= decode.

Lemma code_roundtrip v s : code_to_string v = Some s -> code_from_str s = Some v.
Proof. intros [= <-]. unfold code_from_str. rewrite text_pos_text. apply decode_encode. Qed.
Lemma code_total v : exists s, code_to_string v = Some s /\ s <> "".
Proof. eexists. split; [done|]. apply pos_text_nonempty. Qed.
End Codec.

Module Instances.
#[export] Instance demo_codec `{Countable T} : JsonCodec T | 100 :=
  {| json_to_string := code_to_string; json_from_str := code_from_str |}.
#[export] Instance demo_codec_laws `{Countable T} : JsonCodecLaws T | 100.
Proof. split; [apply code_roundtrip|apply code_total]. Qed.

#[export] Instance demo_env : Env := {|
  clock n := (1700000000000000000 + Z.of_nat n)%Z;
  redis_clock n := Z.of_nat n;
  random_bytes n len := padded len (pretty (N.of_nat n));
  new_v4 n := N.of_nat (1000 + n);
  jitter_floor _ base := base;
  redis_pool_up _ := true;
  redis_reply _ := Served;
  pg_reply _ := Served;
  row_order _ _ l := l;
  collate_le s t := bool_decide (String.le s t);
  lower_table s := s;
  pg_clock n := (1700000000000000000 + Z.of_nat n)%Z;
  gen_range n bound := n mod bound;
  task_ok _ := true;
|}.

#[export] Instance demo_env_laws : EnvLaws.
Proof. split; simpl; [done|lia| |].
  - intros n bound Hb. apply Nat.mod_upper_bound. lia.
  - intros n len. apply padded_length.
Qed.

#[export] Instance demo_unicode : UnicodeTables := {| uni_lower s := s; uni_upper s := s |}.

#[export] Instance demo_crypto : Crypto := {|
  sha256_digest s := s;
  b64url_encode s := s;
  hmac_sha256_mac k s := k +:+ s;
  b64_encode s := pos_text (encode s);
  b64_decode s := text_pos s ≫= decode;
|}.
#[export] Instance demo_crypto_laws : CryptoLaws.
Proof.
  split; simpl; [done| |].
  - intros s. rewrite text_pos_text. apply decode_encode.
  - intros s. apply pos_text_b64.
Qed.
#[export] Instance demo_digest : DigestInjective.
Proof. split; done. Qed.

Definition uuid_text (u : Uuid) : string := pos_text (N.succ_pos u).
Definition uuid_of_text (s : string) : option Uuid := Pos.pred_N <$> text_pos s.

Definition dt_text (f : string) (t : Z) : string := pos_text (encode t).
Definition dt_of_text (f s : string) : option Z := text_pos s ≫= decode.

#[export] Instance demo_texts : Texts := {|
  uuid_to_string := uuid_text;
  uuid_parse_str := uuid_of_text;
  dt_format := dt_text;
  dt_parse := dt_of_text;
  dt_to_string := dt_text "";
|}.
#[export] Instance demo_texts_laws : TextsLaws.
Proof.
  split; simpl.
  - intros u. unfold uuid_of_text, uuid_text. rewrite text_pos_text. simpl.
    by rewrite N.pos_pred_succ.
  - intros t. unfold dt_of_text, dt_text. rewrite text_pos_text. apply decode_encode.
Qed.

#[export] Instance demo_url : UrlCodec := {|
  url_encode s := pos_text (encode s);
  url_decode s := text_pos s ≫= decode;
|}.
#[export] Instance demo_url_laws : UrlCodecLaws.
Proof.
  split; simpl.
  - intros s. rewrite text_pos_text. apply decode_encode.
  - intros s. by induction (encode s).
Qed.

#[export] Instance demo_argon2 : Argon2Lib := {|
  argon2_params_ok _ _ _ _ := true;
  argon2_hash _ _ _ _ _ pw salt := Some (pos_text (encode (pw, salt)));
|}.
#[export] Instance demo_argon2_laws : Argon2Laws.
Proof. split; simpl; eauto. Qed.
#[export] Instance demo_argon2_inj : Argon2Injective.
Proof.
  split. intros a m t p n pw pw' salt out [= <-] [= Heq].
  assert (Hd : text_pos (pos_text (encode (pw', salt))) = Some (encode (pw, salt)))
    by (by rewrite Heq, text_pos_text).
  rewrite text_pos_text in Hd. injection Hd as Hd. apply (inj encode) in Hd. congruence.
Qed.

Lemma demo_redis_ok n : redis_ok n.
Proof. done. Qed.
Lemma demo_pg_ok n : pg_ok n.
Proof. done. Qed.

Export RedisMap.

(** An empty database and an empty cache. *)
Definition world0 : World := mkWorld 0 pg_empty (∅ : gmap string rentry).
End Instances.

