(* ===== verification/DemoJson.v ===== *)
(** * A JSON parser

    An implementation of the part of [serde_json] that the laws of
    [ValueParser] speak about: texts with unescaped strings, unsigned numbers,
    arrays and objects.  It shows that the laws can hold, and witnesses run on
    it. *)

From stdpp Require Import base tactics list gmap strings.
From Stdlib Require Import ZArith Lia Ascii.
From S2P Require Import Prelude RustStr Schema World Ext.

Section Combinators.
Context {A : Type}.

(** The bytes before the closing quote. *)
Fixpoint p_str (s : string) : option (string * string) :=
  match s with
  | "" => None
  | String c r =>
      if bool_decide (c = dquote) then Some ("", r)
      else (fun p => (String c p.1, p.2)) <$> p_str r
  end.

Fixpoint p_digits (s : string) : string * string :=
  match s with
  | "" => ("", "")
  | String c r => if is_digit c then let p := p_digits r in (String c p.1, p.2) else ("", s)
  end.

(** Items up to [close], separated by commas. *)
Fixpoint p_items (fuel : nat) (p : string -> option (A * string)) (close : ascii) (s : string)
    : option (list A * string) :=
  match fuel with
  | 0 => None
  | S n =>
      match p s with
      | Some (x, String c r) =>
          if bool_decide (c = ","%char) then
            match p_items n p close r with Some (xs, r') => Some (x :: xs, r') | None => None end
          else if bool_decide (c = close) then Some ([x], r) else None
      | _ => None
      end
  end.

Definition p_list (fuel : nat) (p : string -> option (A * string)) (close : ascii) (s : string)
    : option (list A * string) :=
  match s with
  | String c r => if bool_decide (c = close) then Some ([], r) else p_items fuel p close s
  | "" => None
  end.
End Combinators.

Definition p_member (p : string -> option (Value * string)) (s : string) : option (string * Value * string) :=
  match s with
  | String c r =>
      if bool_decide (c = dquote) then
        match p_str r with
        | Some (k, String d r') =>
            if bool_decide (d = ":"%char) then
              match p r' with Some (v, r'') => Some (k, v, r'') | None => None end
            else None
        | _ => None
        end
      else None
  | "" => None
  end.

Fixpoint p_value (fuel : nat) (s : string) : option (Value * string) :=
  match fuel, s with
  | S n, String c r =>
      if bool_decide (c = dquote) then (fun p => (JStr p.1, p.2)) <$> p_str r
      else if bool_decide (c = "["%char) then
        (fun p => (JArr p.1, p.2)) <$> p_list n (p_value n) "]"%char r
      else if bool_decide (c = "{"%char) then
        (fun p => (JObj (list_to_map p.1), p.2)) <$> p_list n (p_member (p_value n)) "}"%char r
      else if is_digit c then
        let p := p_digits s in Some (JInt (digits_value 0 p.1), p.2)
      else None
  | _, _ => None
  end.

Definition json_parse (s : string) : option Value :=
  match p_value (String.length s) s with Some (v, "") => Some v | _ => None end.

(** ** The parser inverts [json_text] *)

Fixpoint tsize (t : JText) : nat :=
  match t with
  | TStr _ | TNum _ => 1
  | TArr l => S (sum_list (map tsize l))
  | TObj l => S (sum_list (map (fun p => tsize p.2) l))
  end.

Section JInd.
Context (P : JText -> Prop).
Context (Hstr : forall s, P (TStr s)) (Hnum : forall d, P (TNum d)).
Context (Harr : forall l, Forall P l -> P (TArr l)).
Context (Hobj : forall l, Forall (fun p => P p.2) l -> P (TObj l)).

Fixpoint jtext_ind' (t : JText) : P t :=
  match t with
  | TStr s => Hstr s
  | TNum d => Hnum d
  | TArr l => Harr l ((fix go l : Forall P l := match l with
      | [] => Forall_nil_2 _ | x :: r => Forall_cons_2 _ _ _ (jtext_ind' x) (go r) end) l)
  | TObj l => Hobj l ((fix go l : Forall (fun p => P p.2) l := match l with
      | [] => Forall_nil_2 _ | x :: r => Forall_cons_2 _ _ _ (jtext_ind' x.2) (go r) end) l)
  end.
End JInd.

Lemma tsize_pos t : 1 <= tsize t.
Proof. destruct t; simpl; lia. Qed.

Lemma length_join_le {A} (f : A -> string) (g : A -> nat) l :
  (forall x, x ∈ l -> g x <= String.length (f x)) ->
  sum_list (map g l) <= String.length (join "," (map f l)).
Proof.
  induction l as [|x l IH]; intros Hg; simpl; [lia|].
  assert (g x <= String.length (f x)) by (apply Hg; left).
  assert (sum_list (map g l) <= String.length (join "," (map f l))) by (apply IH; intros y Hy; apply Hg; by right).
  destruct l as [|y l]; simpl in *; [lia|]. rewrite !string_length_app. simpl. lia.
Qed.

Lemma tsize_le t : well_formed t -> tsize t <= String.length (json_text t).
Proof.
  induction t as [s|d|l IH|l IH] using jtext_ind'; simpl.
  - intros _. unfold quoted. rewrite !string_length_app. simpl. lia.
  - intros [Hd _]. destruct d; [done|]. simpl. lia.
  - intros Hwf. rewrite !string_length_app. simpl. apply le_n_S.
    etrans; [apply (length_join_le json_text tsize)|lia].
    induction l as [|x l IHl]; [by intros ? ?%not_elem_of_nil|].
    apply Forall_cons in IH as [Hx IH]. destruct Hwf as [Hwx Hwf].
    intros y [->|Hy]%elem_of_cons; auto.
  - intros [_ Hwf]. rewrite !string_length_app. simpl. apply le_n_S.
    etrans; [apply (length_join_le (fun p => quoted p.1 +:+ ":" +:+ json_text p.2) (fun p => tsize p.2))|lia].
    induction l as [|x l IHl]; [by intros ? ?%not_elem_of_nil|].
    apply Forall_cons in IH as [Hx IH]. destruct Hwf as [[_ Hwx] Hwf].
    intros y [->|Hy]%elem_of_cons; [|auto]. rewrite !string_length_app. specialize (Hx Hwx). lia.
Qed.

Lemma quoted_app s r : quoted s +:+ r = String dquote (s +:+ String dquote r).
Proof. unfold quoted. by rewrite <- !string_app_assoc. Qed.

Lemma p_str_spec s rest : all_bytes plain_byte s = true -> p_str (s +:+ String dquote rest) = Some (s, rest).
Proof.
  induction s as [|c s IH]; [done|]. cbn [all_bytes].
  intros [Hc Hs]%andb_prop. rewrite string_app_cons. cbn [p_str]. rewrite IH by done.
  rewrite bool_decide_false; [done|]. intros ->. done.
Qed.

(** What may follow a value. *)
Definition break (s : string) : Prop :=
  match s with "" => True | String c _ => is_digit c = false end.

Lemma p_digits_spec d rest : all_digits d = true -> break rest -> p_digits (d +:+ rest) = (d, rest).
Proof.
  induction d as [|c d IH]; intros Hd Hb; simpl.
  - destruct rest as [|c r]; simpl in *; [done|]. by rewrite Hb.
  - cbn [all_digits] in Hd. apply andb_prop in Hd as [Hc Hd]. rewrite Hc. by rewrite IH.
Qed.

Lemma p_items_spec {A B} (p : string -> option (A * string)) (txt : B -> string) (val : B -> A)
  close xs fuel rest :
  (forall x r, x ∈ xs -> break r -> p (txt x +:+ r) = Some (val x, r)) ->
  is_digit close = false -> close <> ","%char -> xs <> [] -> length xs <= fuel ->
  p_items fuel p close (join "," (map txt xs) +:+ String close rest) = Some (map val xs, rest).
Proof.
  intros Hp Hd Hc. revert fuel. induction xs as [|x xs IH]; intros fuel Hne Hf; [done|].
  destruct fuel as [|n]; simpl in Hf; [lia|]. destruct xs as [|y xs].
  - simpl. rewrite Hp by (done || left). by rewrite bool_decide_false, bool_decide_true.
  - change (join "," (map txt (x :: y :: xs))) with (txt x +:+ "," +:+ join "," (map txt (y :: xs))).
    rewrite <- !string_app_assoc. cbn [p_items]. rewrite Hp by (done || left).
    change ("," +:+ ?t) with (String ","%char t). cbn iota. rewrite bool_decide_true by done.
    rewrite IH; [done| |done|lia]. intros z r Hz. apply Hp. by right.
Qed.

Lemma p_list_spec {A B} (p : string -> option (A * string)) (txt : B -> string) (val : B -> A)
  close xs fuel rest :
  (forall x r, x ∈ xs -> break r -> p (txt x +:+ r) = Some (val x, r)) ->
  (forall x, x ∈ xs -> exists c r, txt x = String c r /\ c <> close) ->
  is_digit close = false -> close <> ","%char -> length xs <= fuel ->
  p_list fuel p close (join "," (map txt xs) +:+ String close rest) = Some (map val xs, rest).
Proof.
  intros Hp Hh Hd Hc Hf. unfold p_list. destruct xs as [|x xs]; [simpl; by rewrite bool_decide_true|].
  rewrite (p_items_spec p txt val close (x :: xs) fuel rest) by done.
  destruct (Hh x) as (c & r & Hx & Hne); [left|].
  assert (Hj : exists t, join "," (map txt (x :: xs)) = String c t).
  { destruct xs; cbn [map join]; rewrite Hx; rewrite ?string_app_cons; eauto. }
  destruct Hj as [t ->]. rewrite string_app_cons. by rewrite bool_decide_false.
Qed.

Lemma sum_map_ge {A} (g : A -> nat) l n :
  (forall x, 1 <= g x) -> sum_list (map g l) <= n -> length l <= n /\ forall x, x ∈ l -> g x <= n.
Proof.
  intros Hg. revert n. induction l as [|x l IH]; intros n; simpl.
  - split; [lia|]. by intros ? ?%not_elem_of_nil.
  - intros Hs. destruct (IH (n - g x)) as [Hl Hx]; [lia|]. pose proof (Hg x). split; [lia|].
    intros y [->|Hy]%elem_of_cons; [lia|]. specialize (Hx y Hy). lia.
Qed.

Lemma text_head t : well_formed t ->
  exists c r, json_text t = String c r /\ c <> "]"%char /\ c <> "}"%char.
Proof.
  destruct t as [s|d|l|l]; simpl.
  - intros _. by exists dquote, (s +:+ String dquote "").
  - intros (Hne & Hd & _). destruct d as [|c r]; [done|]. exists c, r. split; [done|].
    simpl in Hd. apply andb_prop in Hd as [Hd _]. split; intros ->; done.
  - intros _. by eexists _, _.
  - intros _. by eexists _, _.
Qed.

Lemma p_value_spec t fuel rest :
  well_formed t -> tsize t <= fuel -> break rest ->
  p_value fuel (json_text t +:+ rest) = Some (json_value t, rest).
Proof.
  revert fuel rest. induction t as [s|d|l IH|l IH] using jtext_ind'; intros fuel rest Hwf Hf Hb.
  all: destruct fuel as [|n]; [simpl in Hf; lia|].
  - cbn [json_text]. rewrite quoted_app. cbn [p_value].
    rewrite bool_decide_true by done. rewrite p_str_spec by done. done.
  - destruct Hwf as (Hne & Hd & _). destruct d as [|c r]; [done|]. simpl in Hd.
    apply andb_prop in Hd as [Hc Hd]. cbn [json_text]. rewrite string_app_cons. cbn [p_value].
    rewrite !bool_decide_false by (intros ->; done). rewrite Hc.
    rewrite <- string_app_cons, p_digits_spec; [done| |done]. simpl. by rewrite Hc.
  - cbn [json_text tsize] in *. rewrite Forall_forall in IH.
    destruct (sum_map_ge tsize l n tsize_pos) as [Hl Hs]; [lia|].
    assert (Hw : forall x, x ∈ l -> well_formed x).
    { clear -Hwf. simpl in Hwf. induction l; [by intros ? ?%not_elem_of_nil|]. destruct Hwf.
      intros y [->|]%elem_of_cons; auto. }
    rewrite <- !string_app_assoc. change ("[" +:+ ?x) with (String "["%char x). cbn [p_value].
    rewrite bool_decide_false, bool_decide_true by done. change ("]" +:+ rest) with (String "]"%char rest).
    rewrite (p_list_spec (p_value n) json_text json_value); [done| | |done|done|done].
    + intros x r Hx Hr. apply IH; auto.
    + intros x Hx. destruct (text_head x (Hw x Hx)) as (c & r & ? & ? & ?). eauto.
  - cbn [json_text tsize] in *. rewrite Forall_forall in IH.
    destruct (sum_map_ge (fun p : string * JText => tsize p.2) l n) as [Hl Hs]; [intros; apply tsize_pos|lia|].
    destruct Hwf as [_ Hwf].
    assert (Hw : forall x, x ∈ l -> all_bytes plain_byte x.1 = true /\ well_formed x.2).
    { clear -Hwf. induction l; [by intros ? ?%not_elem_of_nil|]. destruct Hwf.
      intros y [->|]%elem_of_cons; auto. }
    rewrite <- !string_app_assoc. change ("{" +:+ ?x) with (String "{"%char x). cbn [p_value].
    rewrite 2!bool_decide_false, bool_decide_true by done.
    change ("}" +:+ rest) with (String "}"%char rest).
    rewrite (p_list_spec (p_member (p_value n)) (fun p => quoted p.1 +:+ ":" +:+ json_text p.2)
      (fun p => (p.1, json_value p.2))); [done| | |done|done|done].
    + intros [k v] r Hx Hr. destruct (Hw _ Hx) as [Hk Hv]. cbn [fst snd] in *.
      rewrite <- !string_app_assoc, quoted_app. unfold p_member. rewrite bool_decide_true by done. rewrite p_str_spec by done.
      change (":" +:+ ?x) with (String ":"%char x). cbn iota. rewrite bool_decide_true by done.
      pose proof (IH (k, v) Hx n r Hv (Hs (k, v) Hx) Hr) as Hp. cbn [snd] in Hp. by rewrite Hp.
    + intros x Hx. eexists dquote, _. split; [apply quoted_app|done].
Qed.

Module JsonInstance.
#[export] Instance demo_value_parser : ValueParser := {| value_from_str := json_parse |}.
#[export] Instance demo_value_parser_laws : ValueParserLaws.
Proof.
  split. intros t Hwf. unfold value_from_str. simpl. unfold json_parse.
  pose proof (p_value_spec t (String.length (json_text t)) "" Hwf (tsize_le t Hwf) I) as Hp.
  rewrite string_app_nil_r in Hp. by rewrite Hp.
Qed.
End JsonInstance.
