(* ===== verification/DemoJwt.v ===== *)
(** * A JWT library

    An implementation of the part of [jsonwebtoken] that [JwtLaws] speaks about.
    A token is the text of its header, claims and key; only claims that are
    texts, integers, booleans or lists of texts can be encoded.  It shows that
    the laws can hold, and witnesses run on it. *)

From stdpp Require Import base tactics list gmap strings countable.
From Stdlib Require Import ZArith Lia Ascii.
From S2P Require Import Prelude RustStr Redis Schema World Ext Demo.

Definition Flat : Type := string + (Z + (bool + list string)).

Definition unflat (x : Flat) : Value :=
  match x with
  | inl s => JStr s
  | inr (inl n) => JInt n
  | inr (inr (inl b)) => JBool b
  | inr (inr (inr l)) => JArr (JStr <$> l)
  end.

Fixpoint all_strs (l : list Value) : option (list string) :=
  match l with
  | [] => Some []
  | JStr s :: r => cons s <$> all_strs r
  | _ => None
  end.

Definition flat (v : Value) : option Flat :=
  match v with
  | JStr s => Some (inl s)
  | JInt n => Some (inr (inl n))
  | JBool b => Some (inr (inr (inl b)))
  | JArr l => (fun x => inr (inr (inr x))) <$> all_strs l
  | _ => None
  end.

Lemma all_strs_spec l x : all_strs l = Some x -> JStr <$> x = l.
Proof.
  revert x. induction l as [|v l IH]; simpl; intros x; [by intros [= <-]|].
  destruct v; try done. destruct (all_strs l) as [y|] eqn:E; [|done]. intros [= <-]. simpl. by rewrite IH.
Qed.

Lemma unflat_flat v x : flat v = Some x -> unflat x = v.
Proof.
  destruct v; simpl; try by intros [= <-]. destruct (all_strs l) as [y|] eqn:E; [|done].
  intros [= <-]. simpl. by rewrite (all_strs_spec _ _ E).
Qed.

Fixpoint flat_list (l : list (string * Value)) : option (list (string * Flat)) :=
  match l with
  | [] => Some []
  | (k, v) :: r => match flat v, flat_list r with Some x, Some y => Some ((k, x) :: y) | _, _ => None end
  end.

Definition unflat_list (l : list (string * Flat)) : list (string * Value) :=
  (fun p => (p.1, unflat p.2)) <$> l.

Lemma unflat_flat_list l x : flat_list l = Some x -> unflat_list x = l.
Proof.
  revert x. induction l as [|[k v] l IH]; simpl; intros x; [by intros [= <-]|].
  destruct (flat v) as [f|] eqn:E; [|done]. destruct (flat_list l) as [y|]; [|done].
  intros [= <-]. simpl. by rewrite (unflat_flat _ _ E), IH.
Qed.

Definition token_data : Type := (string * option string * option string) * list (string * Flat) * string.

Definition demo_encode (h : JwtHeader) (c : gmap string Value) (k : string) : option string :=
  match flat_list (map_to_list c) with
  | None => None
  | Some l => Some (pos_text (encode ((hdr_alg h, hdr_typ h, hdr_kid h), l, k)))
  end.

Definition read_token (token : string) : option token_data := text_pos token ≫= decode.

Definition demo_decode_header (token : string) : option JwtHeader :=
  match read_token token with
  | Some ((alg, typ, kid), _, _) => Some (mkJwtHeader alg typ kid)
  | None => None
  end.

Definition names_any (xs : list string) (v : Value) : bool :=
  match v with
  | JStr s => bool_decide (s ∈ xs)
  | JArr l => existsb (fun v => match v with JStr s => bool_decide (s ∈ xs) | _ => false end) l
  | _ => false
  end.

Definition claims_ok (now : Z) (v : Validation) (c : gmap string Value) : bool :=
  forallb (fun r => bool_decide (is_Some (c !! r))) (val_required_spec_claims v)
  && (match c !! "iss" with
      | Some x => bool_decide (val_iss v = []) || names_any (val_iss v) x
      | None => true
      end)
  && ((if val_validate_exp v
       then match c !! "exp" with Some (JInt e) => (now - val_leeway v <=? e)%Z | _ => true end
       else true)
      && (if bool_decide ("exp" ∈ val_required_spec_claims v)
          then match c !! "exp" with Some (JInt _) | Some (JFloat _) => true | _ => false end
          else true))
  && (if val_validate_aud v
      then match val_aud v, c !! "aud" with Some auds, Some x => names_any auds x | _, _ => true end
      else true).

Definition demo_decode (now : Z) (token k : string) (v : Validation) : option Value :=
  match read_token token with
  | Some ((alg, _, _), l, k') =>
      let c := list_to_map (unflat_list l) in
      if bool_decide (k = k') && bool_decide (alg = val_alg v) && claims_ok now v c
      then Some (JObj c) else None
  | None => None
  end.

Lemma names_any_spec xs v : names_any xs v = true -> exists x, x ∈ xs /\ names x v.
Proof.
  destruct v; simpl; try done.
  - rewrite bool_decide_eq_true. intros Hs. eexists. split; [done|]. by left.
  - rewrite existsb_exists. intros (v & Hin & Hv). destruct v; try done.
    apply bool_decide_eq_true in Hv. eexists. split; [done|]. right. eexists. split; [done|].
    by apply list_elem_of_In.
Qed.

Lemma demo_decode_ok now token k v c : demo_decode now token k v = Some (JObj c) -> claims_ok now v c = true.
Proof.
  unfold demo_decode. destruct (read_token token) as [[[[[alg typ] kid] l] k']|]; [|done].
  destruct (claims_ok now v (list_to_map (unflat_list l))) eqn:E; rewrite ?andb_true_r, ?andb_false_r; [|done].
  destruct (_ && _); [|done]. by intros [= <-].
Qed.

Lemma pos_text_chars p x : x ∈ chars (pos_text p) -> is_whitespace x = false.
Proof.
  induction p as [p IH|p IH|]; cbn [pos_text].
  - rewrite chars_ascii_cons by done. by intros [->|Hx]%elem_of_cons; [|apply IH].
  - rewrite chars_ascii_cons by done. by intros [->|Hx]%elem_of_cons; [|apply IH].
  - by intros ->%list_elem_of_singleton.
Qed.

Module JwtInstance.
#[export] Instance demo_jwt : JwtLib := {|
  EncodingKey := string; DecodingKey := string;
  jwt_encode := demo_encode; jwt_decode_header := demo_decode_header; jwt_decode := demo_decode;
|}.

#[export] Instance demo_jwt_laws : JwtLaws.
Proof.
  refine {| key_pair := (fun k k' : string => k = k') : @EncodingKey demo_jwt -> @DecodingKey demo_jwt -> Prop |}.
  - intros [a t i] c k token. cbn. unfold demo_encode. destruct (flat_list _) as [l|]; [|done].
    intros [= <-]. split; [apply pos_text_nonempty|intros x; apply pos_text_chars].
  - intros [a t i] c k token. cbn. unfold demo_encode, demo_decode_header, read_token.
    destruct (flat_list _) as [l|]; [|done]. intros [= <-]. rewrite text_pos_text. simpl.
    by rewrite decode_encode.
  - intros [a t i] c k k' token now v e iss. cbn. unfold demo_encode, demo_decode, read_token.
    destruct (flat_list _) as [l|] eqn:E; [|done]. intros [= <-] -> Ha He Hlt Hlw Hi Hin Hn Hr Haud.
    rewrite text_pos_text. cbn [mbind option_bind]. rewrite decode_encode.
    rewrite (unflat_flat_list _ _ E), list_to_map_to_list. simpl in Ha.
    rewrite !bool_decide_true by done.
    assert (Hc : claims_ok now v c = true); [|by rewrite Hc].
    unfold claims_ok. rewrite Hi, He. repeat (apply andb_true_intro; split).
    + apply forallb_forall. intros r Hrin. apply bool_decide_eq_true. apply Hr. by apply list_elem_of_In.
    + apply orb_true_intro. right. by apply bool_decide_eq_true.
    + destruct (val_validate_exp v); [|done]. lia.
    + by destruct (bool_decide _).
    + destruct Haud as [->|(auds & x & -> & -> & Hx)]; [done|].
      destruct (val_validate_aud v); [|done]. by apply bool_decide_eq_true.
  - intros now token k v c r Hd%demo_decode_ok Hr. unfold claims_ok in Hd.
    rewrite !andb_true_iff in Hd. destruct Hd as [[[Hreq _] _] _].
    rewrite forallb_forall in Hreq. specialize (Hreq r). rewrite bool_decide_eq_true in Hreq.
    apply Hreq. by apply list_elem_of_In.
  - intros now token k v c Hd%demo_decode_ok Hr. unfold claims_ok in Hd.
    rewrite !andb_true_iff in Hd. destruct Hd as [[_ [_ He]] _]. rewrite bool_decide_true in He by done.
    destruct (c !! "exp") as [[]|]; try done; (eexists; split; [done|]); [left|right]; eauto.
  - intros now token k v c x Hd%demo_decode_ok Hx Hne. unfold claims_ok in Hd.
    rewrite !andb_true_iff, Hx in Hd. destruct Hd as [[[_ Hi] _] _].
    rewrite bool_decide_false in Hi by done. by apply names_any_spec.
  - intros now token k v c e Hd%demo_decode_ok Hv Hx. unfold claims_ok in Hd.
    rewrite !andb_true_iff, Hx, Hv in Hd. destruct Hd as [[_ [He _]] _]. lia.
  - intros now token k v c auds x Hd%demo_decode_ok Hv Ha Hx. unfold claims_ok in Hd.
    rewrite !andb_true_iff, Hx, Hv, Ha in Hd. destruct Hd as [_ Hd]. by apply names_any_spec.
Defined.

Lemma demo_key_pair k : key_pair k k.
Proof. reflexivity. Qed.
End JwtInstance.
