(* ===== verification/RedisKeys.v ===== *)
(** * Redis key names and Lua scripts ([common/redis/keys.rs], [common/redis/lua.rs])

    The key namespaces, and the scripts the server runs atomically.  Keys of
    different namespaces never collide, and within a namespace the key
    determines the name it was built from. *)

From stdpp Require Import base tactics list gmap strings.
From Stdlib Require Import ZArith Lia.
From S2P Require Import Prelude RustStr Redis Schema World.

Module Keys.
Definition auth_code (code : string) : string := "authcode:" +:+ code.
Definition device_by_code (device_code : string) : string := "device:dc:" +:+ device_code.
Definition device_by_user_code (user_code : string) : string := "device:uc:" +:+ user_code.
Definition pending_auth (state : string) : string := "pending:" +:+ state.
Definition session (token_hash : string) : string := "session:" +:+ token_hash.
Definition client (client_id : string) : string := "client:" +:+ client_id.
Definition rl_login_email (email : string) : string := "rl:login:email:" +:+ email.
Definition rl_login_ip (ip : string) : string := "rl:login:ip:" +:+ ip.
Definition rl_signup_ip (ip : string) : string := "rl:signup:ip:" +:+ ip.
Definition rl_verify_email (email : string) : string := "rl:verify-email:" +:+ email.
Definition rl_device_auth (client_id : string) : string := "rl:device-auth:" +:+ client_id.
End Keys.

Lemma string_app_inj_l p s t : p +:+ s = p +:+ t -> s = t.
Proof.
  induction p as [|c p IH]; [done|]. rewrite !string_app_cons. intros [= H]. by apply IH.
Qed.

Lemma session_key_inj a b : Keys.session a = Keys.session b -> a = b.
Proof. apply string_app_inj_l. Qed.
Lemma client_key_inj a b : Keys.client a = Keys.client b -> a = b.
Proof. apply string_app_inj_l. Qed.
Lemma device_key_inj a b : Keys.device_by_code a = Keys.device_by_code b -> a = b.
Proof. apply string_app_inj_l. Qed.
Lemma auth_code_key_inj a b : Keys.auth_code a = Keys.auth_code b -> a = b.
Proof. apply string_app_inj_l. Qed.

(** Keys of different namespaces differ in their first bytes. *)
Ltac key_ne := intros; unfold Keys.auth_code, Keys.device_by_code, Keys.device_by_user_code,
  Keys.pending_auth, Keys.session, Keys.client, Keys.rl_login_email, Keys.rl_login_ip,
  Keys.rl_signup_ip, Keys.rl_verify_email, Keys.rl_device_auth;
  rewrite ?string_app_cons; congruence.

(** ** Lua scripts *)

Section Lua.
Context `{RedisServer} `{Env}.

(** [GET key; DEL if exists; return value] *)
Definition get_and_del_script (key : string) (t : Z) (s : rstate) : option (option string * rstate) :=
  match r_get t key s with
  | None => None
  | Some None => Some (None, s)
  | Some (Some v) => Some (Some v, (r_del t key s).2)
  end.
Definition GET_AND_DEL (key : string) : io (option string) := redis_cmd (get_and_del_script key).

(** [INCR key; EXPIRE if first hit; return count] *)
Definition incr_and_expire_script (key : string) (arg : Z) (t : Z) (s : rstate) : option (Z * rstate) :=
  match r_incr t key s with
  | None => None
  | Some (n, s1) => if (n =? 1)%Z then Some (n, (r_expire t key arg s1).2) else Some (n, s1)
  end.
Definition INCR_AND_EXPIRE (key : string) (arg : Z) : io Z := redis_cmd (incr_and_expire_script key arg).

(** [HGETALL key; DEL if non-empty; return hash] *)
Definition hgetall_and_del_script (key : string) (t : Z) (s : rstate) : option (gmap string string * rstate) :=
  match r_hgetall t key s with
  | None => None
  | Some h => if bool_decide (h = ∅) then Some (h, s) else Some (h, (r_del t key s).2)
  end.
Definition HGETALL_AND_DEL (key : string) : io (gmap string string) := redis_cmd (hgetall_and_del_script key).

Context `{!RedisLaws}.

(** Whatever the script answers, the key is absent afterwards. *)
Lemma get_and_del_gone key t s v s' :
  get_and_del_script key t s = Some (v, s') ->
  rupdate t key None s s' /\ (v = None <-> rlive t key s = None).
Proof.
  unfold get_and_del_script. rewrite r_get_law.
  destruct (rlive t key s) as [[x d]|] eqn:E; simpl.
  - destruct (rvalue_text x); simpl; [|done]. intros [= <- <-].
    split; [apply r_del_law|done].
  - intros [= <- <-]. split; [|done]. intros t' k' Ht. case_bool_decide; subst; [|done].
    by eapply rlive_none_later.
Qed.

Lemma get_and_del_text key t s v s' :
  get_and_del_script key t s = Some (Some v, s') ->
  exists x d, rlive t key s = Some (x, d) /\ rvalue_text x = Some v.
Proof.
  unfold get_and_del_script. rewrite r_get_law.
  destruct (rlive t key s) as [[x d]|] eqn:E; simpl; [|done].
  destruct (rvalue_text x) eqn:Ex; simpl; [|done]. intros [= -> <-]. eauto.
Qed.
End Lua.

(** ** Triple of the one-shot read *)

Section OneShot.
Context `{RedisLaws} `{EnvLaws}.

(** However the call ends, it wrote at most the deletion of the key; an answer
    means the key is gone now and held the answered text before. *)
Lemma wp_get_and_del key Q w :
  (forall v s, rupdate (redis_clock (tick w)) key None (redis w) s ->
     match v with
     | Some raw => exists x d, rlive (redis_clock (tick w)) key (redis w) = Some (x, d)
                     /\ rvalue_text x = Some raw
     | None => rlive (redis_clock (tick w)) key (redis w) = None
     end -> Q (Ok v) (bump (set_redis s w))) ->
  (forall s, rupdate (redis_clock (tick w)) key None (redis w) s -> Q (Err ERedis) (bump (set_redis s w))) ->
  Q (Err ERedis) (bump w) ->
  wp (GET_AND_DEL key) Q w.
Proof.
  intros Hok Hlost Herr. unfold GET_AND_DEL. apply wp_redis_cmd; [|done|].
  - intros v s Hs. destruct (get_and_del_gone _ _ _ _ _ Hs) as [Hu Hv]. apply Hok; [done|].
    destruct v as [raw|]; [by eapply get_and_del_text|by apply Hv].
  - intros v s Hs. by apply Hlost; eapply get_and_del_gone.
Qed.
End OneShot.
