(* ===== verification/Http.v ===== *)
(** * Requests and responses ([common/web/bearer.rs], [common/web/client_ip.rs],
    [error.rs])

    What the handlers read of a request, the responses they build, and how an error
    becomes a response. *)

From stdpp Require Import base tactics list gmap strings.
From Stdlib Require Import ZArith Lia Ascii.
From S2P Require Import Prelude RustStr Redis Schema World Ext.

Local Open Scope auth_scope.

(** ** Requests *)

(** [actix_web::HttpRequest], as far as it is read: headers in order with their
    names, cookies, and the peer's address. *)
Record HttpRequest := mkHttpRequest {
  rq_headers : list (string * string);
  rq_cookies : list (string * string);
  rq_peer_ip : option string;
}.

(** [req.headers().get(name)]: names are compared without case. *)
Definition header (req : HttpRequest) (name : string) : option string :=
  snd <$> head (base.filter (fun p => eq_ignore_ascii_case p.1 name = true) (rq_headers req)).

Definition cookie (req : HttpRequest) (name : string) : option string :=
  snd <$> head (base.filter (fun p => p.1 = name) (rq_cookies req)).

(** [HeaderValue::to_str]: visible ASCII, space and tab. *)
Definition header_byte (c : ascii) : bool := (byte c =? 9)%N || ((32 <=? byte c)%N && (byte c <? 127)%N).
Definition to_str (value : string) : option string := if all_bytes header_byte value then Some value else None.

(** ** The session token of a request *)

Definition SESSION_COOKIE : string := "session_token".
Definition BEARER_SCHEME_LEN : nat := 7.

Definition bearer_of (auth : string) : option string :=
  if (BEARER_SCHEME_LEN <? String.length auth) && eq_ignore_ascii_case (take_bytes BEARER_SCHEME_LEN auth) "Bearer "
  then Some (trim (drop_bytes BEARER_SCHEME_LEN auth))
  else None.

Definition extract_from_headers (req : HttpRequest) : option string :=
  match (header req "Authorization" ≫= to_str) ≫= bearer_of with
  | Some token => Some token
  | None => header req "X-Session-Token" ≫= to_str
  end.

Definition extract (req : HttpRequest) : option string :=
  match extract_from_headers req with
  | Some token => if negb (is_empty (trim token)) then Some token else nonempty (cookie req SESSION_COOKIE)
  | None => nonempty (cookie req SESSION_COOKIE)
  end.

(** ** The client's address *)

(** [s.split(',').next().unwrap_or("")] *)
Definition first_hop (s : string) : string :=
  match find_byte ","%char s with Some n => take_bytes n s | None => s end.

Definition client_ip (req : HttpRequest) : option string :=
  match header req "X-Forwarded-For" ≫= to_str with
  | Some s =>
      let first := trim (first_hop s) in
      if negb (is_empty first) then Some first else rq_peer_ip req
  | None => rq_peer_ip req
  end.

(** ** Responses *)

(** [actix_web::cookie::Cookie]; every cookie the server sets is [SameSite=Lax]. *)
Record Cookie := mkCookie {
  ck_name : string;
  ck_value : string;
  ck_path : string;
  ck_http_only : bool;
  ck_secure : bool;
  ck_same_site_lax : bool;
  ck_max_age : Z;
}.

Inductive Body := NoBody | Json (v : Value) | Text (s : string) | Html (s : string).

Record HttpResponse := mkHttpResponse {
  rs_status : Z;
  rs_headers : list (string * string);
  rs_cookies : list Cookie;
  rs_body : Body;
}.

Definition json_response (status : Z) (body : Value) : HttpResponse := mkHttpResponse status [] [] (Json body).
Definition finish (status : Z) : HttpResponse := mkHttpResponse status [] [] NoBody.
Definition text_response (status : Z) (body : string) : HttpResponse := mkHttpResponse status [] [] (Text body).
Definition html_response (body : string) : HttpResponse := mkHttpResponse 200 [] [] (Html body).

(** [.insert_header(..)] and [.cookie(..)] *)
Definition insert_header (name value : string) (r : HttpResponse) : HttpResponse :=
  mkHttpResponse (rs_status r) (rs_headers r ++ [(name, value)]) (rs_cookies r) (rs_body r).
Definition add_cookie (c : Cookie) (r : HttpResponse) : HttpResponse :=
  mkHttpResponse (rs_status r) (rs_headers r) (rs_cookies r ++ [c]) (rs_body r).

(** What [HeaderValue] accepts: anything but control bytes, except the tab. *)
Definition header_value_ok (value : string) : bool :=
  all_bytes (fun c => (byte c =? 9)%N || ((32 <=? byte c)%N && negb (byte c =? 127)%N)) value.

(** [HttpResponse::SeeOther().insert_header((LOCATION, location)).finish()]: a value
    that is no header value makes the response an internal error, and a cookie set
    on it is lost. *)
Definition see_other_with (cookies : list Cookie) (location : string) : HttpResponse :=
  if header_value_ok location then mkHttpResponse 303 [("Location", location)] cookies NoBody else finish 500.
Definition see_other : string -> HttpResponse := see_other_with [].

Definition obj (fields : list (string * Value)) : Value := JObj (list_to_map fields).
Definition opt_str (o : option string) : Value := match o with Some s => JStr s | None => JNull end.
Definition message (status : Z) (msg : string) : HttpResponse := json_response status (obj [("message", JStr msg)]).
Definition oauth_error (status : Z) (error description : string) : HttpResponse :=
  json_response status (obj [("error", JStr error); ("error_description", JStr description)]).

Definition is_success (r : HttpResponse) : bool := (200 <=? rs_status r)%Z && (rs_status r <? 300)%Z.

(** ** AppError *)

Inductive AppError :=
| BadRequest (msg : string)
| Unauthorized
| Forbidden
| NotFound
| AppConflict (msg : string)
| RateLimited (retry_after_seconds : Z)
| OAuth (status : Z) (error description : string)
| Internal (e : err).

Definition status_code (e : AppError) : Z :=
  match e with
  | BadRequest _ => 400
  | Unauthorized => 401
  | Forbidden => 403
  | NotFound => 404
  | AppConflict _ => 409
  | RateLimited _ => 429
  | OAuth status _ _ => status
  | Internal _ => 500
  end.

(** The texts of library errors, and of numbers. *)
Class ErrorTexts := { err_text : err -> string; u64_to_string : Z -> string }.

Definition app_error_text `{ErrorTexts} (e : AppError) : string :=
  match e with
  | BadRequest msg => "bad request: " +:+ msg
  | Unauthorized => "unauthorized"
  | Forbidden => "forbidden"
  | NotFound => "not found"
  | AppConflict msg => "conflict: " +:+ msg
  | RateLimited _ => "too many requests"
  | OAuth _ error description => "oauth error: " +:+ error +:+ ": " +:+ description
  | Internal e => err_text e
  end.

Definition error_response `{ErrorTexts} (e : AppError) : HttpResponse :=
  let status := status_code e in
  match e with
  | OAuth _ error description =>
      oauth_error status error description
  | BadRequest msg | AppConflict msg => json_response status (obj [("error", JStr msg)])
  | RateLimited n =>
      insert_header "Retry-After" (u64_to_string n)
        (json_response status (obj [("error", JStr "rate_limit_exceeded"); ("retry_after_seconds", JInt n)]))
  | _ => json_response status (obj [("error", JStr (app_error_text e))])
  end.

(** What a handler's [AppResult<HttpResponse>] is on the wire. *)
Definition respond `{ErrorTexts} (r : res err HttpResponse) : HttpResponse :=
  match r with Ok resp => resp | Err e => error_response (Internal e) end.

(** The outcome of a handler that builds [AppError]s itself; errors of the stores
    that it passes on with [?] are in the monad. *)
Definition answer : Type := res AppError HttpResponse.

Definition on_wire `{ErrorTexts} (r : res err answer) : HttpResponse :=
  match r with
  | Ok (Ok resp) => resp
  | Ok (Err e) => error_response e
  | Err e => error_response (Internal e)
  end.

(** ** Pages and URLs

    [askama]'s templates and the [url] crate. *)

Class Askama (P : Type) := { askama_render : P -> option string }.

(** [page.render().map_err(..)?] and an HTML response. *)
Definition render_page {P} `{Askama P} (page : P) : answer :=
  match askama_render page with
  | Some body => Ok (html_response body)
  | None => Err (Internal (EOther "askama"))
  end.

Record Url := mkUrl { url_scheme : string; url_host : option string; url_port : option Z }.

(** [Url::parse], and the decimal text of a port *)
Class UrlLib := { url_parse : string -> option Url; port_text : Z -> string }.

(** ** Lemmas *)

Lemma internal_not_success `{ErrorTexts} e : is_success (respond (Err e)) = false.
Proof. reflexivity. Qed.

(** A token that is extracted is not empty. *)
Lemma extract_nonempty req token : extract req = Some token -> token <> "".
Proof.
  unfold extract. assert (Hc : forall o t, nonempty o = Some t -> t <> "") by (intros o t Ht; by apply nonempty_spec in Ht as [_ ?]).
  destruct (extract_from_headers req) as [t|]; [|apply Hc].
  destruct (is_empty (trim t)) eqn:He; simpl; [apply Hc|]. intros [= <-] ->. done.
Qed.
