(* ===== verification/Scopes.v ===== *)
(** * Scope strings ([oauth/scopes.rs])

    [parse] turns a space- or comma-separated string into a set of tokens;
    [is_subset_of] is the check behind every scope decision of the server.
    The theorems characterise both, and show that the sorted, space-joined form
    the consent rows are written in parses back to the same set. *)

From stdpp Require Import base tactics list gmap strings sorting.
From Stdlib Require Import Ascii.
From S2P Require Import Prelude RustStr.

(** [|c| c.is_whitespace() || c == ','] *)
Definition is_sep (c : string) : bool := is_whitespace c || bool_decide (c = ",").

Definition parse (raw : option string) : gset string :=
  match raw with
  | None => ∅
  | Some s =>
      if is_empty (trim s) then ∅
      else list_to_set (base.filter (fun t => is_empty t = false) (trim <$> split is_sep s))
  end.

Definition is_subset_of (requested allowed : option string) : bool :=
  let req_str := from_option trim "" requested in
  if is_empty req_str then true
  else
    let allow_str := from_option trim "" allowed in
    if is_empty allow_str then false
    else bool_decide (parse (Some req_str) ⊆ parse (Some allow_str)).

(** ** What a token is *)

(** A non-empty run of scalar values without separators. *)
Definition token (t : string) : Prop := t <> "" /\ forall c, c ∈ chars t -> is_sep c = false.

Lemma whitespace_sep c : is_whitespace c = true -> is_sep c = true.
Proof. unfold is_sep. by intros ->. Qed.

Lemma piece_trim s q :
  q ∈ split_chars is_sep (chars s) -> chars (of_chars q) = q /\ trim (of_chars q) = of_chars q.
Proof.
  intros Hq. destruct (split_chars_infix _ _ _ Hq) as (l & r & Heq).
  assert (Hc : chars (of_chars q) = q) by by eapply chars_infix.
  split; [done|]. apply trim_clean. rewrite Hc. intros c Hin.
  pose proof (split_chars_clean _ _ _ _ Hq Hin) as Hs. unfold is_sep in Hs.
  by apply orb_false_elim in Hs as [? _].
Qed.

(** Membership in [parse], through the pieces of the raw string. *)
Lemma elem_of_parse s t :
  t ∈ parse (Some s) <-> exists q, q ∈ pieces is_sep (chars s) /\ t = of_chars q.
Proof.
  unfold parse. destruct (is_empty (trim s)) eqn:Hb.
  - apply is_empty_spec in Hb. rewrite (trim_empty_pieces is_sep s) by (done || apply whitespace_sep).
    split; [set_solver|]. intros (q & Hq & _). by apply not_elem_of_nil in Hq.
  - rewrite elem_of_list_to_set, list_elem_of_filter, list_elem_of_fmap. unfold pieces.
    setoid_rewrite list_elem_of_filter. split.
    + intros (Hne & u & -> & (q & -> & Hq)%list_elem_of_fmap).
      destruct (piece_trim s q Hq) as [Hc Ht]. rewrite Ht in Hne |- *.
      exists q. split; [split; [|done]|done]. by intros ->.
    + intros (q & [Hne Hq] & ->). destruct (piece_trim s q Hq) as [Hc Ht]. split.
      * destruct (is_empty (of_chars q)) eqn:He; [|done]. apply is_empty_spec in He.
        rewrite He in Hc. by destruct q.
      * exists (of_chars q). split; [done|]. apply list_elem_of_fmap. eauto.
Qed.

Lemma parse_token raw t : t ∈ parse raw -> token t.
Proof.
  destruct raw as [s|]; [|set_solver].
  intros (q & [Hne Hq]%list_elem_of_filter & ->)%elem_of_parse.
  destruct (piece_trim s q Hq) as [Hc _]. split.
  - intros He. rewrite He in Hc. by destruct q.
  - rewrite Hc. intros c Hin. by eapply split_chars_clean.
Qed.

Lemma parse_trim s : parse (Some (trim s)) = parse (Some s).
Proof.
  apply set_eq. intros t. rewrite !elem_of_parse.
  by rewrite pieces_trim by apply whitespace_sep.
Qed.

Lemma is_sep_space : is_sep " " = true.
Proof. done. Qed.

Lemma pieces_token t : token t -> pieces is_sep (chars t) = [chars t].
Proof.
  intros [Hne Hc]. unfold pieces. rewrite split_chars_whole by done.
  rewrite filter_cons, decide_True; [done|]. intros He. by apply chars_nil_inv in He.
Qed.

Lemma chars_join_cons t ts :
  ts <> [] -> chars (join " " (t :: ts)) = chars t ++ " " :: chars (join " " ts).
Proof.
  intros Hne. destruct ts as [|u ts]; [done|].
  change (join " " (t :: u :: ts)) with (t +:+ String " " (join " " (u :: ts))).
  rewrite chars_app_break by done. by rewrite chars_ascii_cons.
Qed.

Lemma pieces_join ts :
  Forall token ts -> pieces is_sep (chars (join " " ts)) = chars <$> ts.
Proof.
  induction 1 as [|t ts Ht Hts IH]; [done|].
  destruct ts as [|u ts]; [by apply pieces_token|].
  rewrite chars_join_cons by done. rewrite pieces_app by done.
  by rewrite pieces_token, IH.
Qed.

Lemma parse_join ts : Forall token ts -> parse (Some (join " " ts)) = list_to_set ts.
Proof.
  intros Hts. apply set_eq. intros t. rewrite elem_of_parse, pieces_join by done.
  rewrite elem_of_list_to_set. setoid_rewrite list_elem_of_fmap. split.
  - intros (q & (u & -> & Hu) & ->). by rewrite of_chars_chars.
  - intros Ht. exists (chars t). split; [by exists t|by rewrite of_chars_chars].
Qed.

(** The form consent rows are written in: sorted, joined with spaces. *)
Lemma parse_sorted_join (X : gset string) :
  (forall t, t ∈ X -> token t) -> parse (Some (join " " (sorted X))) = X.
Proof.
  intros HX. unfold sorted.
  assert (Hp : merge_sort String.le (elements X) ≡ₚ elements X) by apply merge_sort_Permutation.
  rewrite parse_join.
  - apply set_eq. intros t. rewrite elem_of_list_to_set, Hp. apply elem_of_elements.
  - apply Forall_forall. intros t Ht. apply HX. rewrite Hp in Ht. by apply elem_of_elements.
Qed.

Lemma is_subset_of_spec r a :
  is_subset_of r a = true <->
  from_option trim "" r = "" \/ from_option trim "" a <> "" /\ parse r ⊆ parse a.
Proof.
  unfold is_subset_of. destruct (is_empty (from_option trim "" r)) eqn:Hr.
  { apply is_empty_spec in Hr. rewrite Hr. tauto. }
  assert (Hr' : from_option trim "" r <> "") by by rewrite <- is_empty_spec, Hr.
  destruct (is_empty (from_option trim "" a)) eqn:Ha.
  { apply is_empty_spec in Ha. rewrite Ha. split; [done|]. intros [|[? _]]; done. }
  assert (Ha' : from_option trim "" a <> "") by by rewrite <- is_empty_spec, Ha.
  destruct r as [r|], a as [a|]; try done. cbn [from_option] in *.
  rewrite bool_decide_eq_true, !parse_trim. naive_solver.
Qed.

(** ** Theorems *)

(** The scope check is exact.  [is_subset_of] accepts a request if and only
    if the requested string is blank, or the allowed string is not blank and
    every token of the request is a token of the allowed string. *)
Theorem scope_check_exact (requested allowed : option string) :
  is_subset_of requested allowed = true <->
  from_option trim "" requested = ""
  \/ from_option trim "" allowed <> "" /\ parse requested ⊆ parse allowed.
Proof. apply is_subset_of_spec. Qed.

(** Scope strings survive the form they are stored in.  Rendering a parsed
    scope set sorted and space-joined, the way consent rows are written, and
    parsing it again gives the same set; and every element of a parsed set is a
    non-empty token without separators. *)
Lemma scope_set_roundtrip (raw : option string) :
  parse (Some (join " " (sorted (parse raw)))) = parse raw
  /\ forall t, t ∈ parse raw -> token t.
Proof.
  split; [|intros t; apply parse_token].
  apply parse_sorted_join. intros t. apply parse_token.
Qed.
