(* ===== verification/Hashing.v ===== *)
(** * Token hashing and generation ([common/crypto/sha256.rs],
    [common/crypto/hmac_sha256.rs], [common/crypto/random_tokens.rs]) and PKCE
    ([oauth/pkce.rs]) *)

From stdpp Require Import base tactics list gmap strings.
From Stdlib Require Import ZArith Lia.
From S2P Require Import Prelude RustStr Redis Schema World Ext Demo.

(** [sha256::base64_url] *)
Definition base64_url `{Crypto} (raw : string) : string := b64url_encode (sha256_digest raw).

(** [HmacSha256]; the constructor asserts that the key is not empty. *)
Record HmacSha256 := mkHmacSha256 { hmac_key : string }.

Definition hmac_new (key : string) : option HmacSha256 :=
  if is_empty key then None else Some (mkHmacSha256 key).

Definition compute `{Crypto} (h : HmacSha256) (value : string) : string :=
  b64url_encode (hmac_sha256_mac (hmac_key h) value).

(** [random_tokens::url_safe] *)
Definition url_safe `{RedisServer} `{Env} `{Crypto} (byte_length : nat) : io string :=
  bind (fill_bytes byte_length) (fun bytes => ret (b64url_encode bytes)).

(** ** PKCE *)

Definition SUPPORTED_METHODS : list string := ["S256"].

Definition is_method_supported (method : option string) : bool :=
  match method with
  | None => false
  | Some m => existsb (fun s => bool_decide (s = m)) SUPPORTED_METHODS
  end.

Definition verify `{Crypto} (code_verifier code_challenge method : string) : bool :=
  if is_empty code_verifier || is_empty code_challenge then false
  else if negb (eq_ignore_ascii_case method "S256") then false
  else bool_decide (base64_url code_verifier = code_challenge).

Lemma pkce_verify_spec `{Crypto} v c m :
  verify v c m = true ->
  v <> "" /\ c <> "" /\ eq_ignore_ascii_case m "S256" = true /\ base64_url v = c.
Proof.
  unfold verify. destruct (is_empty v) eqn:Hv, (is_empty c) eqn:Hc; try done. simpl.
  destruct (eq_ignore_ascii_case m "S256"); [|done]. simpl. rewrite bool_decide_eq_true.
  rewrite <- !is_empty_spec, Hv, Hc. naive_solver.
Qed.

Lemma base64_url_inj `{CryptoLaws} `{!DigestInjective} s t : base64_url s = base64_url t -> s = t.
Proof. intros Heq%b64url_inj. by apply sha256_inj. Qed.

(** ** Theorems *)

(** PKCE admits exactly the verifier the challenge was made from.  If
    digests do not collide, a verifier passes against the S256 challenge of
    another one if and only if it is that verifier (and not empty); the methods
    a request may name are exactly those spelt [S256]; and no other method
    passes verification, whatever the verifier. *)
Theorem pkce_exact `{CryptoLaws} `{!DigestInjective} (v v' m : string) :
  base64_url v <> "" ->
  (verify v' (base64_url v) "S256" = true <-> v' <> "" /\ v' = v)
  /\ (is_method_supported (Some m) = true <-> m = "S256")
  /\ (eq_ignore_ascii_case m "S256" = false -> verify v' (base64_url v) m = false).
Proof.
  intros Hne. split; [|split].
  - split.
    + intros (Hv & _ & _ & Heq)%pkce_verify_spec. split; [done|]. by apply base64_url_inj.
    + intros [Hv ->]. unfold verify.
      destruct (is_empty v) eqn:Ev; [by apply is_empty_spec in Ev|].
      destruct (is_empty (base64_url v)) eqn:Eb; [by apply is_empty_spec in Eb|].
      by apply bool_decide_eq_true.
  - simpl. rewrite orb_false_r, bool_decide_eq_true. naive_solver.
  - intros Hm. unfold verify. rewrite Hm. by destruct (is_empty v' || _).
Qed.

Import Instances.

Lemma pkce_exact_witness :
  verify "abc" (base64_url "abc") "S256" = true /\ verify "abd" (base64_url "abc") "S256" = false.
Proof.
  split; [by apply (pkce_exact "abc" "abc" "plain")|].
  apply not_true_iff_false. intros [_ ?]%(pkce_exact "abc" "abd" "plain"); done.
Defined.
