(* ===== verification/RateLimit.v ===== *)
(** * The rate limiter ([common/ratelimit/mod.rs])

    A fixed-window counter in Redis: the first hit of a window creates the
    counter and its deadline in one script, later hits increment it, and a hit
    is allowed while the count is within the limit.  When Redis cannot be asked
    the limiter lets the request through. *)

From stdpp Require Import base tactics list gmap strings.
From Stdlib Require Import ZArith Lia.
From S2P Require Import Prelude RustStr Redis Schema World Ext Demo RedisKeys.

Local Open Scope Z_scope.

Record RateLimitDecision := mkDecision {
  allowed : bool;
  count : Z;
  retry_after_seconds : Z;
}.

Definition decision_allowed (n : Z) : RateLimitDecision := mkDecision true n 0.
Definition decision_denied (n retry : Z) : RateLimitDecision := mkDecision false n retry.
Definition fail_open : RateLimitDecision := mkDecision true 0 0.

Section Limiter.
Context `{RedisServer} `{Env}.

Definition read_ttl_or_default (key : string) (fallback : Z) : io Z :=
  bind (attempt (redis_ttl key)) (fun r =>
    match r with
    | Ok sec => if 0 <? sec then ret sec else ret fallback
    | Err _ => ret fallback
    end).

(** [window] in nanoseconds; [as_secs] drops the fraction. *)
Definition check (key : string) (limit window : Z) : io RateLimitDecision :=
  if is_empty key || (limit =? 0) || (window =? 0) then ret fail_open
  else
    let window_seconds := window / ns_per_sec in
    bind (attempt redis_conn) (fun conn =>
    match conn with
    | Err _ => ret fail_open
    | Ok _ =>
      bind (attempt (INCR_AND_EXPIRE key window_seconds)) (fun r =>
      match r with
      | Err _ => ret fail_open
      | Ok n =>
        let n := Z.max n 0 in
        if limit <? n
        then bind (read_ttl_or_default key window_seconds) (fun retry_after =>
             ret (decision_denied n retry_after))
        else ret (decision_allowed n)
      end)
    end).

(** A sequence of requests for the same key. *)
Fixpoint check_many (n : nat) (key : string) (limit window : Z) : io (list RateLimitDecision) :=
  match n with
  | O => ret []
  | S n =>
      bind (check key limit window) (fun d =>
      bind (check_many n key limit window) (fun ds => ret (d :: ds)))
  end.
End Limiter.

Section Props.
Context `{RedisLaws} `{Env}.

(** [n] hits are recorded under [key] and the window ends at [d]. *)
Definition counted (key : string) (n d t : Z) (s : rstate) : Prop :=
  rlive t key s = Some (RInt n, Some d).

Lemma incr_first key sec t s :
  rlive t key s = None -> 1 <= sec ->
  exists s', incr_and_expire_script key sec t s = Some (1, s')
    /\ rupdate t key (Some (RInt 1, Some (t + sec * ns_per_sec))) s s'.
Proof.
  intros Hn Hsec. unfold incr_and_expire_script.
  pose proof (r_incr_law t key s) as Hl. rewrite Hn in Hl. destruct Hl as (s1 & -> & Hu1). simpl.
  eexists. split; [done|]. pose proof (r_expire_law t key sec s1) as He.
  rewrite (rupdate_same _ _ _ _ _ t Hu1) in He by lia. simpl in He. destruct He as [_ He].
  replace (0 <? sec) with true in He by lia.
  intros t' k' Ht. rewrite (He t' k' Ht). case_bool_decide; [done|].
  by apply (rupdate_other _ _ _ _ _ _ _ Hu1).
Qed.

Lemma incr_next key sec t s n d :
  counted key n d t s -> 1 <= n < i64_max ->
  exists s', incr_and_expire_script key sec t s = Some (n + 1, s')
    /\ rupdate t key (Some (RInt (n + 1), Some d)) s s'.
Proof.
  intros Hn Hr. unfold incr_and_expire_script.
  pose proof (r_incr_law t key s) as Hl. rewrite Hn in Hl.
  replace (n <? i64_max) with true in Hl by lia. destruct Hl as (s1 & -> & Hu1).
  replace (n + 1 =? 1) with false by lia. eauto.
Qed.
End Props.

Section Window.
Context `{RedisLaws} `{EnvLaws}.

Lemma read_ttl_ok key fallback Q w :
  redis_ok (tick w) -> (forall sec, Q (Ok sec) (bump w)) -> wp (read_ttl_or_default key fallback) Q w.
Proof.
  intros Hup HQ. unfold read_ttl_or_default. apply wp_bind, wp_attempt, wp_redis_ttl.
  - destruct (0 <? _); by apply wp_ret.
  - by apply wp_ret.
Qed.

(** The script changes nothing but the counter. *)
Lemma incr_script_frame key sec t s n s' :
  incr_and_expire_script key sec t s = Some (n, s') ->
  forall t' k, t <= t' -> k <> key -> rlive t' k s' = rlive t' k s.
Proof.
  unfold incr_and_expire_script. destruct (r_incr t key s) as [[m s1]|] eqn:Hi; [|done].
  assert (Hu : exists e, rupdate t key e s s1).
  { pose proof (r_incr_law t key s) as Hl. rewrite Hi in Hl. destruct (rlive t key s) as [[[x|x|x] d]|].
    - eauto.
    - destruct (x <? i64_max); [|done]. destruct Hl as (s2 & [= -> ->] & Hu). eauto.
    - done.
    - destruct Hl as (s2 & [= -> ->] & Hu). eauto. }
  destruct Hu as [e Hu]. intros Hs t' k Ht Hk. rewrite <- (rupdate_other _ _ _ _ _ _ _ Hu Ht Hk).
  destruct (m =? 1); injection Hs as <- <-; [|done].
  pose proof (r_expire_law t key sec s1) as He. destruct (rlive t key s1) as [[v d]|].
  - destruct He as [_ He]. exact (rupdate_other _ _ _ _ _ _ _ He Ht Hk).
  - by rewrite He.
Qed.

(** Whatever the outcome, a check only touches its counter. *)
Lemma check_frame key limit window w :
  wp (check key limit window) (fun r w' => pg w' = pg w /\ redis_frame (eq key) w w' /\ exists d, r = Ok d) w.
Proof.
  unfold check. destruct (is_empty key || _ || _); [apply wp_ret; repeat split; eauto|].
  apply wp_bind, wp_attempt, wp_redis_conn; [|apply wp_ret; repeat split; eauto; simpl; lia].
  assert (Hcmd : forall n s, incr_and_expire_script key (window / ns_per_sec) (redis_clock (tick (bump w))) (redis (bump w)) = Some (n, s) ->
    redis_frame (eq key) w (bump (set_redis s (bump w)))).
  { intros n s Hs. split; [simpl; lia|]. intros t k Ht Hk. simpl in *.
    apply (incr_script_frame _ _ _ _ _ _ Hs); [|congruence]. etrans; [|exact Ht]. apply redis_clock_mono. lia. }
  apply wp_bind, wp_attempt, wp_redis_cmd.
  - intros n s Hs. destruct (_ <? _); [|apply wp_ret; eauto].
    apply wp_bind. unfold read_ttl_or_default. apply wp_bind, wp_attempt, wp_redis_ttl.
    + destruct (_ <? _); apply wp_ret, wp_ret; (split; [done|]); (split; [apply frame_bump; eauto|eauto]).
    + apply wp_ret, wp_ret. split; [done|]. split; [apply frame_bump; eauto|eauto].
  - apply wp_ret. split; [done|]. split; [do 2 apply frame_bump; apply frame_refl|eauto].
  - intros n s Hs. apply wp_ret. eauto.
Qed.

(** One request, from whatever count the script leaves. *)
Lemma check_ok key limit window w n d s :
  key <> "" -> 0 < limit -> ns_per_sec <= window -> redis_ok (tick w) -> 1 <= n ->
  incr_and_expire_script key (window / ns_per_sec) (redis_clock (S (tick w))) (redis w) = Some (n, s) ->
  rupdate (redis_clock (S (tick w))) key (Some (RInt n, Some d)) (redis w) s ->
  wp (check key limit window)
    (fun r w' => exists dec, r = Ok dec /\ allowed dec = (n <=? limit) /\ count dec = n
       /\ stores w' key (Some (RInt n, Some d))
       /\ (tick w <= tick w' <= tick w + 3)%nat) w.
Proof.
  intros Hk Hl Hw Hup Hn Hs Hu. unfold check.
  replace (is_empty key) with false by by destruct key.
  replace (limit =? 0) with false by lia.
  replace (window =? 0) with false by (unfold ns_per_sec in Hw; lia). cbn [orb].
  apply wp_bind, wp_attempt, wp_redis_conn_ok; [done|].
  apply wp_bind, wp_attempt. unfold INCR_AND_EXPIRE. eapply wp_redis_cmd_ok; [|done|].
  { eapply redis_ok_later; [|done]. simpl. lia. }
  assert (Hst : stores (bump (set_redis s (bump w))) key (Some (RInt n, Some d))).
  { by apply (stores_update (bump w)). }
  replace (Z.max n 0) with n by lia.
  destruct (limit <? n) eqn:E.
  - apply wp_bind, read_ttl_ok.
    { eapply redis_ok_later; [|done]; simpl; lia. }
    intros sec. apply wp_ret. eexists. split; [done|].
    split; [simpl; lia|split; [done|split; [by apply stores_bump|simpl; lia]]].
  - apply wp_ret. eexists. split; [done|].
    split; [simpl; lia|split; [done|split; [done|simpl; lia]]].
Qed.

(** Verdicts from a count of [c] hits on. *)
Fixpoint verdicts (n : nat) (c limit : Z) : list bool :=
  match n with O => [] | S n => (c + 1 <=? limit) :: verdicts n (c + 1) limit end.

Lemma verdicts_closed n c limit :
  0 <= c ->
  verdicts n c limit =
    replicate (min n (Z.to_nat (limit - c))) true ++ replicate (n - Z.to_nat (limit - c)) false.
Proof.
  revert c. induction n as [|n IH]; intros c Hc; simpl; [done|].
  rewrite IH by lia. destruct (c + 1 <=? limit) eqn:E.
  - replace (Z.to_nat (limit - c)) with (S (Z.to_nat (limit - (c + 1)))) by lia. done.
  - replace (Z.to_nat (limit - c)) with 0%nat by lia.
    replace (Z.to_nat (limit - (c + 1))) with 0%nat by lia. by rewrite !Nat.min_0_r, !Nat.sub_0_r.
Qed.

Lemma check_many_counted n key limit window w c d :
  key <> "" -> 0 < limit -> ns_per_sec <= window -> redis_ok (tick w) ->
  1 <= c -> c + Z.of_nat n < i64_max ->
  stores w key (Some (RInt c, Some d)) ->
  (forall m, (m <= tick w + 3 * n)%nat -> redis_clock m < d) ->
  wp (check_many n key limit window)
    (fun r _ => exists ds, r = Ok ds /\ allowed <$> ds = verdicts n c limit) w.
Proof.
  intros Hk Hl Hw. revert w c. induction n as [|n IH]; intros w c Hup Hc Hmax Hst Htime; simpl.
  { apply wp_ret. by exists []. }
  assert (Ht : redis_clock (S (tick w)) < d) by (apply Htime; lia).
  assert (Hcnt : counted key c d (redis_clock (S (tick w))) (redis w)).
  { unfold counted. rewrite Hst by (apply redis_clock_mono; lia). simpl.
    by replace (redis_clock (S (tick w)) <? d) with true by lia. }
  destruct (incr_next key (window / ns_per_sec) _ _ _ _ Hcnt) as (s & Hs & Hu); [lia|].
  apply wp_bind. eapply wp_mono; [by apply (check_ok key limit window w (c + 1) d s); try done; lia|].
  intros r w' (dec & -> & Hal & _ & Hst' & Hti). apply wp_bind.
  eapply wp_mono; [apply (IH w' (c + 1)); try done; try lia|].
  - eapply redis_ok_later; [|done]. lia.
  - intros m Hm. apply Htime. lia.
  - intros r' w'' (ds & -> & Hds). apply wp_ret. exists (dec :: ds). split; [done|].
    rewrite fmap_cons. by rewrite Hal, Hds.
Qed.

Lemma check_many_window n key limit window w :
  key <> "" -> 0 < limit -> ns_per_sec <= window -> redis_ok (tick w) ->
  Z.of_nat n + 1 < i64_max ->
  rlive (redis_clock (S (tick w))) key (redis w) = None ->
  (forall m, (m <= tick w + 3 * n)%nat ->
     redis_clock m < redis_clock (S (tick w)) + window / ns_per_sec * ns_per_sec) ->
  wp (check_many n key limit window)
    (fun r _ => exists ds, r = Ok ds /\ allowed <$> ds = verdicts n 0 limit) w.
Proof.
  intros Hk Hl Hw Hup Hmax Hnone Htime. destruct n as [|n]; simpl.
  { apply wp_ret. by exists []. }
  assert (Hsec : 1 <= window / ns_per_sec).
  { apply Z.div_le_lower_bound; unfold ns_per_sec in *; lia. }
  destruct (incr_first key (window / ns_per_sec) _ _ Hnone Hsec) as (s & Hs & Hu).
  apply wp_bind. eapply wp_mono; [by eapply (check_ok key limit window w 1); try done|].
  intros r w' (dec & -> & Hal & _ & Hst' & Hti). apply wp_bind.
  eapply wp_mono; [eapply (check_many_counted n key limit window w' 1); try done; try lia|].
  - eapply redis_ok_later; [|done]. lia.
  - intros m Hm. apply Htime. lia.
  - intros r' w'' (ds & -> & Hds). apply wp_ret. exists (dec :: ds). split; [done|].
    rewrite fmap_cons. by rewrite Hal, Hds.
Qed.
(** *** Whatever Redis does *)

(** The counter of [key], if there is one, has at most [c] hits. *)
Definition at_most (key : string) (c : Z) (w : World) : Prop :=
  match rlive (redis_clock (tick w)) key (redis w) with
  | None => True
  | Some (RInt m, _) => m <= c
  | Some _ => False
  end.

Lemma still_at_most t c e :
  match e with None => True | Some (RInt m, _) => m <= c | Some _ => False end ->
  match still_live t e with None => True | Some (RInt m, _) => m <= c | Some _ => False end.
Proof. destruct e as [[v [d|]]|]; simpl; [destruct (t <? d)|..]; done. Qed.

Lemma at_most_later key c c' w w' :
  c <= c' -> (tick w <= tick w')%nat -> redis w' = redis w -> at_most key c w -> at_most key c' w'.
Proof.
  intros Hc Ht Hr Ha. unfold at_most in *. rewrite Hr, (rlive_time (redis_clock (tick w))) by by apply redis_clock_mono.
  apply still_at_most. destruct (rlive _ _ _) as [[[| |] ]|]; try done. lia.
Qed.

(** One run of the script adds at most one hit, and answers what it left. *)
Lemma incr_at_most key sec w c n s :
  at_most key c w -> 0 <= c -> incr_and_expire_script key sec (redis_clock (tick w)) (redis w) = Some (n, s) ->
  n <= c + 1 /\ at_most key (c + 1) (bump (set_redis s w)).
Proof.
  unfold at_most, incr_and_expire_script. simpl. intros Ha Hc.
  destruct (r_incr (redis_clock (tick w)) key (redis w)) as [[m s1]|] eqn:Hi; [|done].
  assert (Hup : m <= c + 1 /\ exists d, rupdate (redis_clock (tick w)) key (Some (RInt m, d)) (redis w) s1).
  { pose proof (r_incr_law (redis_clock (tick w)) key (redis w)) as Hl. rewrite Hi in Hl.
    destruct (rlive _ key (redis w)) as [[[x|x|x] d]|]; [done| |done|].
    - destruct (x <? i64_max); [|done]. destruct Hl as (s2 & [= -> ->] & Hu). split; [lia|eauto].
    - destruct Hl as (s2 & [= -> ->] & Hu). split; [lia|eauto]. }
  destruct Hup as [Hm [d Hu]].
  assert (Hle : redis_clock (tick w) <= redis_clock (S (tick w))) by (apply redis_clock_mono; lia).
  destruct (m =? 1); intros [= <- <-]; (split; [done|]).
  - pose proof (r_expire_law (redis_clock (tick w)) key sec s1) as He.
    rewrite (rupdate_same _ _ _ _ _ (redis_clock (tick w)) Hu) in He by done. simpl in He.
    destruct (match d with Some _ => _ | None => _ end) as [[v dl]|] eqn:Hd.
    + destruct He as [_ He]. rewrite (rupdate_same _ _ _ _ _ _ He Hle). apply still_at_most.
      assert (v = RInt m) as -> by (destruct d as [d|]; [destruct (_ <? d)|]; by simplify_eq). by destruct (0 <? sec).
    + rewrite He. simpl. rewrite (rupdate_same _ _ _ _ _ _ Hu Hle). by apply still_at_most.
  - rewrite (rupdate_same _ _ _ _ _ _ Hu Hle). by apply still_at_most.
Qed.

Lemma check_within_budget key limit window w c :
  at_most key c w -> 0 <= c ->
  wp (check key limit window) (fun r w' => at_most key (c + 1) w'
    /\ exists dec, r = Ok dec /\ (c + 1 <= limit -> allowed dec = true)) w.
Proof.
  intros Ha Hc.
  assert (Hopen : forall w', (tick w <= tick w')%nat -> redis w' = redis w -> at_most key (c + 1) w'
    /\ exists dec, @Ok err _ fail_open = Ok dec /\ (c + 1 <= limit -> allowed dec = true)).
  { intros w' Ht Hr. split; [|by eexists]. eapply (at_most_later key c); [lia|done..]. }
  unfold check. destruct (is_empty key || _ || _); [by apply wp_ret, Hopen|].
  apply wp_bind, wp_attempt, wp_redis_conn; [|apply wp_ret, Hopen; simpl; auto].
  assert (Hb : at_most key c (bump w)) by (eapply (at_most_later key c c w); simpl; [lia|lia|done|done]).
  apply wp_bind, wp_attempt, wp_redis_cmd.
  - intros n s Hs. destruct (incr_at_most _ _ _ _ _ _ Hb Hc Hs) as [Hn Ha'].
    destruct (Z.ltb_spec limit (Z.max n 0)).
    + assert (Hden : forall ttl w', (tick (bump w) < tick w')%nat -> redis w' = s -> at_most key (c + 1) w'
        /\ exists dec, @Ok err _ (decision_denied (Z.max n 0) ttl) = Ok dec /\ (c + 1 <= limit -> allowed dec = true)).
      { intros ttl w' Ht Hr. split; [|eexists; split; [done|intros; exfalso; lia]].
        apply (at_most_later key (c + 1) (c + 1) (bump (set_redis s (bump w)))); [lia|simpl in *; lia|exact Hr|exact Ha']. }
      apply wp_bind. unfold read_ttl_or_default. apply wp_bind, wp_attempt, wp_redis_ttl;
        [destruct (_ <? _)|]; apply wp_ret, wp_ret, Hden; simpl; auto.
    + apply wp_ret. split; [done|]. by eexists.
  - apply wp_ret, Hopen; simpl; auto.
  - intros n s Hs. apply wp_ret. split; [by apply (incr_at_most _ _ _ _ _ _ Hb Hc Hs)|]. by eexists.
Qed.

Lemma check_many_within_budget n key limit window w c :
  at_most key c w -> 0 <= c ->
  wp (check_many n key limit window) (fun r _ => exists ds, r = Ok ds
    /\ forall i dec, ds !! i = Some dec -> c + Z.of_nat i < limit -> allowed dec = true) w.
Proof.
  revert w c. induction n as [|n IH]; intros w c Ha Hc; simpl; [apply wp_ret; by exists []|].
  apply wp_bind. eapply wp_mono; [by apply (check_within_budget key limit window w c)|].
  intros r w' (Ha' & dec & -> & Hdec). apply wp_bind. eapply wp_mono; [apply (IH w' (c + 1) Ha'); lia|].
  intros r w'' (ds & -> & Hds). apply wp_ret. eexists. split; [done|]. intros [|i] d Hi Hlt; simpl in Hi.
  - injection Hi as <-. apply Hdec. lia.
  - apply (Hds i d Hi). lia.
Qed.
End Window.

(** ** Theorems *)

(** C33: The rate limiter grants exactly its budget.  Let [n] requests be made for a
    key that has no counter yet.  Whatever Redis does, none of the first [limit] of
    them is denied.  And if Redis answers all of them, before a window of at least a
    second ends, and the key is not empty and the limit not zero, then exactly the
    first [limit] are allowed and all the others denied. *)
Theorem rate_limit_budget `{RedisLaws} `{EnvLaws} (n : nat) (key : string) (limit window : Z) (w : World) :
  rlive (redis_clock (tick w)) key (redis w) = None ->
  exists ds w', check_many n key limit window w = (Ok ds, w')
    /\ (forall i dec, ds !! i = Some dec -> Z.of_nat i < limit -> allowed dec = true)
    /\ (key <> "" -> 0 < limit -> ns_per_sec <= window -> redis_ok (tick w) -> Z.of_nat n + 1 < i64_max ->
        (forall m, (m <= tick w + 3 * n)%nat ->
           redis_clock m < redis_clock (S (tick w)) + window / ns_per_sec * ns_per_sec) ->
        allowed <$> ds = replicate (min n (Z.to_nat limit)) true ++ replicate (n - Z.to_nat limit) false).
Proof.
  intros Hnone.
  assert (Hfew : at_most key 0 w) by (unfold at_most; by rewrite Hnone).
  destruct (check_many n key limit window w) as [r w'] eqn:Hrun.
  destruct (wp_run _ _ _ _ _ (check_many_within_budget n key limit window w 0 Hfew (Z.le_refl 0)) Hrun) as (ds & -> & Hds).
  exists ds, w'. split; [done|]. split; [by setoid_rewrite Z.add_0_l in Hds|]. intros Hk Hl Hw Hup Hmax Htime.
  assert (Hn1 : rlive (redis_clock (S (tick w))) key (redis w) = None)
    by (eapply rlive_none_later; [|done]; apply redis_clock_mono; lia).
  destruct (wp_run _ _ _ _ _ (check_many_window n key limit window w Hk Hl Hw Hup Hmax Hn1 Htime) Hrun) as (ds' & [= <-] & Hds').
  rewrite Hds', verdicts_closed by lia. by rewrite Z.sub_0_r.
Qed.

Lemma check_fail_open `{RedisServer} `{Env} key limit window w :
  redis_pool_up (tick w) = false \/ redis_reply (S (tick w)) <> Served ->
  wp (check key limit window) (fun r _ => r = Ok fail_open) w.
Proof.
  intros Hd. unfold check. destruct (_ || _); [by apply wp_ret|].
  destruct (redis_pool_up (tick w)) eqn:Hp.
  - destruct Hd as [|Hd]; [done|].
    apply wp_bind, wp_attempt, wp_redis_conn_up; [done|].
    apply wp_bind, wp_attempt, wp_redis_cmd_down; [done|]. intros w'. by apply wp_ret.
  - apply wp_bind, wp_attempt, wp_redis_conn_down; [done|]. by apply wp_ret.
Qed.

(** The rate limiter fails open.  When the pool hands out no connection, or
    the script's call fails (with or without effect on the server), the request
    is let through with the neutral decision. *)
Lemma rate_limit_fails_open `{RedisServer} `{Env} (key : string) (limit window : Z) (w : World) :
  redis_pool_up (tick w) = false \/ redis_reply (S (tick w)) <> Served ->
  exists w', check key limit window w = (Ok fail_open, w').
Proof.
  intros Hd. pose proof (check_fail_open key limit window w Hd) as Hwp.
  destruct (check key limit window w) as [r w'] eqn:Hrun.
  exists w'. f_equal. exact (wp_run _ _ _ _ _ Hwp Hrun).
Qed.

Import Instances.

Lemma rate_limit_budget_witness :
  exists ds w', check_many 5 "rl:login:ip:1" 3 (60 * ns_per_sec) world0 = (Ok ds, w')
    /\ allowed <$> ds = [true; true; true; false; false].
Proof.
  destruct (rate_limit_budget 5 "rl:login:ip:1" 3 (60 * ns_per_sec) world0 eq_refl) as (ds & w' & Hrun & _ & Hds).
  exists ds, w'. split; [exact Hrun|]. apply Hds; try done.
  intros m Hm. change (60 * ns_per_sec / ns_per_sec * ns_per_sec) with 60000000000.
  cbn in Hm |- *. lia.
Defined.

(** The same environment with the Redis pool exhausted. *)
Definition pool_down : Env := {|
  clock := clock; redis_clock := redis_clock; random_bytes := random_bytes; new_v4 := new_v4;
  jitter_floor := jitter_floor; redis_pool_up _ := false; redis_reply := redis_reply;
  pg_reply := pg_reply; row_order := @row_order _; collate_le := collate_le;
  lower_table := lower_table; pg_clock := pg_clock; gen_range := gen_range; task_ok := task_ok |}.

Lemma rate_limit_fails_open_witness :
  exists w', @check _ pool_down "rl:login:ip:1" 3 (60 * ns_per_sec) world0 = (Ok fail_open, w').
Proof. apply (@rate_limit_fails_open _ pool_down). by left. Defined.
