(* ===== verification/Jwt.v ===== *)
(** * Signing and validating tokens ([common/crypto/jwt.rs])

    The signer and the validator read the key set behind the provider's lock
    ([KeyFiles.v] models the provider itself).  Handlers that rotate or retire keys
    run concurrently, so here the key set is a function of time: what a reader of
    the lock sees at each tick. *)

From stdpp Require Import base tactics list gmap strings.
From Stdlib Require Import ZArith Lia.
From S2P Require Import Prelude RustStr Redis Schema World Ext Demo DemoJwt.

Local Open Scope auth_scope.

(** ** The key set *)

Section KeySet.
Context `{JwtLib}.

Record KeyPair := mkKeyPair { encoding_key : EncodingKey; decoding_key : DecodingKey }.

Record Store := mkStore { by_kid : gmap string KeyPair; active_kid : string }.

Definition panic {A} (msg : string) : res err A := Err (EOther msg).

Definition active_encoding_key (store : Store) : res err (string * EncodingKey) :=
  match by_kid store !! active_kid store with
  | Some kp => Ok (active_kid store, encoding_key kp)
  | None => panic "active kid must point at a loaded pair"
  end.

Definition decoding_key_by_kid (store : Store) (kid : option string) : res err (option DecodingKey) :=
  let active := match by_kid store !! active_kid store with
                | Some kp => Ok (Some (decoding_key kp))
                | None => panic "active kid must be loaded"
                end in
  match kid with
  | Some k => if negb (is_empty k) then Ok (decoding_key <$> by_kid store !! k) else active
  | None => active
  end.
End KeySet.

(** A pure fallible call. *)
Definition lift `{RedisServer} {A} (r : res err A) : io A :=
  match r with Ok a => ret a | Err e => throw e end.

Definition wrap_i64 (n : Z) : Z :=
  let m := (n mod 18446744073709551616)%Z in
  if (m <? 9223372036854775808)%Z then m else (m - 18446744073709551616)%Z.

(** ** JwtSigner *)

Section Jwt.
Context `{RedisServer} `{Env} `{JwtLib} `{Texts}.

Record JwtSigner := mkJwtSigner {
  js_keys : nat -> Store;
  js_issuer : string;
  js_access_ttl : Z;
  js_id_ttl : Z;
}.

(** A system clock before the epoch reads 0. *)
Definition now_seconds : io Z :=
  let! t := utc_now in
  ret (if (t <? 0)%Z then 0%Z else (t / 1000000000)%Z).

Definition access_token_ttl_seconds (s : JwtSigner) : Z := js_access_ttl s.

(** Later [insert]s of a key replace earlier ones. *)
Definition base_claims (s : JwtSigner) (subject audience : string) (ttl : Z) (extra : gmap string Value)
    : io (gmap string Value) :=
  let! now := now_seconds in
  let! jti := uuid_new_v4 in
  ret (extra ∪
    <["exp" := JInt (wrap_i64 (now + wrap_i64 ttl)%Z)]>
    (<["jti" := JStr (uuid_to_string jti)]>
    (<["sub" := JStr subject]>
    (<["aud" := JStr audience]>
    (<["iss" := JStr (js_issuer s)]> ∅))))).

(** [Header::new] has [typ] "JWT". *)
Definition signed_with_type (s : JwtSigner) (claims : gmap string Value) (typ : option string) : io string :=
  let! store := ask (js_keys s) in
  let! ' (kid, key) := lift (active_encoding_key store) in
  let header := mkJwtHeader "RS256" (Some (default "JWT" typ)) (Some kid) in
  match jwt_encode header claims key with
  | Some token => ret token
  | None => throw (EOther "jwt encode")
  end.

Definition sign_access_token (s : JwtSigner) (subject audience : string) (extra : gmap string Value)
    : io string :=
  let! claims := base_claims s subject audience (js_access_ttl s) extra in
  signed_with_type s claims (Some "at+jwt").

Definition sign_id_token (s : JwtSigner) (subject audience : string) (nonce : option string)
    (auth_time : Z) (extra : gmap string Value) : io string :=
  let! claims := base_claims s subject audience (js_id_ttl s) ∅ in
  let claims := <["auth_time" := JInt auth_time]> claims in
  let claims := match nonce with
                | Some n => if negb (is_empty n) then <["nonce" := JStr n]> claims else claims
                | None => claims
                end in
  signed_with_type s (extra ∪ claims) None.

Definition sign_logout_token (s : JwtSigner) (subject : option string) (audience session_id : string)
    : io string :=
  let! jti := uuid_new_v4 in
  let! iat := now_seconds in
  let events := <["http://schemas.openid.net/event/backchannel-logout" := JObj ∅]> ∅ in
  let claims := <["sid" := JStr session_id]>
    (<["events" := JObj events]>
    (<["iat" := JInt iat]>
    (<["jti" := JStr (uuid_to_string jti)]>
    (<["aud" := JStr audience]>
    (<["iss" := JStr (js_issuer s)]> ∅))))) in
  let claims := match subject with
                | Some sub => if negb (is_empty sub) then <["sub" := JStr sub]> claims else claims
                | None => claims
                end in
  signed_with_type s claims None.

(** ** JwtValidator *)

Record JwtValidator := mkJwtValidator { jv_keys : nat -> Store; jv_expected_issuer : string }.

(** [Validation::new(RS256)] and the settings made on it. *)
Definition validation_for (issuer : string) (expected_audience : option string) (allow_expired : bool)
    : Validation :=
  {| val_alg := "RS256";
     val_iss := [issuer];
     val_aud := (fun a => [a]) <$> expected_audience;
     val_validate_exp := negb allow_expired;
     val_validate_nbf := true;
     val_validate_aud := match expected_audience with Some _ => true | None => false end;
     val_leeway := if allow_expired then 0 else 60;
     val_required_spec_claims := ["iss"; "exp"] |}.

Definition validate_internal (v : JwtValidator) (token : string) (expected_audience : option string)
    (allow_expired : bool) : io (option Value) :=
  if is_empty (trim token) then ret None
  else
    match jwt_decode_header token with
    | None => ret None
    | Some header =>
        if negb (bool_decide (hdr_alg header = "RS256")) then ret None
        else
          let! store := ask (jv_keys v) in
          let! key := lift (decoding_key_by_kid store (hdr_kid header)) in
          match key with
          | None => ret None
          | Some key =>
              let! now := now_seconds in
              ret (jwt_decode now token key
                     (validation_for (jv_expected_issuer v) expected_audience allow_expired))
          end
    end.

Definition validate (v : JwtValidator) (token : string) : io (option Value) :=
  validate_internal v token None false.

Definition validate_with (v : JwtValidator) (token : string) (expected_audience : option string)
    : io (option Value) :=
  validate_internal v token expected_audience false.

Definition validate_allow_expired (v : JwtValidator) (token : string) : io (option Value) :=
  validate_internal v token None true.

Definition is_access_token_type (token : string) : bool :=
  match jwt_decode_header token with
  | Some h => match hdr_typ h with Some t => eq_ignore_ascii_case t "at+jwt" | None => false end
  | None => false
  end.
End Jwt.

(** ** What signing and validating do *)

Section Specs.
Context `{RedisServer} `{Env} `{JwtLib} `{Texts}.
Implicit Types w : World.

Definition secs (t : Z) : Z := if (t <? 0)%Z then 0%Z else (t / 1000000000)%Z.

(** The claims every token carries, at the given time. *)
Definition standard (issuer subject audience jti : string) (exp : Z) : gmap string Value :=
  <["exp" := JInt exp]> (<["jti" := JStr jti]> (<["sub" := JStr subject]>
    (<["aud" := JStr audience]> (<["iss" := JStr issuer]> ∅)))).

Lemma base_claims_spec s sub aud ttl extra w :
  wp (base_claims s sub aud ttl extra) (fun r w' => quiet w w' /\
    r = Ok (extra ∪ standard (js_issuer s) sub aud (uuid_to_string (new_v4 (S (tick w))))
              (wrap_i64 (secs (clock (tick w)) + wrap_i64 ttl)%Z))) w.
Proof.
  unfold base_claims, now_seconds. do 6 wp_step. split; [|done]. by do 2 apply quiet_bump; apply quiet_refl.
Qed.

(** A signed token carries the active key's id and the given claims. *)
Lemma signed_spec s claims typ w :
  wp (signed_with_type s claims typ) (fun r w' => quiet w w' /\ tick w < tick w' /\
    forall token, r = Ok token -> exists kp,
      by_kid (js_keys s (tick w)) !! active_kid (js_keys s (tick w)) = Some kp
      /\ jwt_encode (mkJwtHeader "RS256" (Some (default "JWT" typ)) (Some (active_kid (js_keys s (tick w)))))
           claims (encoding_key kp) = Some token) w.
Proof.
  assert (Hq : quiet w (bump w)) by apply quiet_bump, quiet_refl.
  unfold signed_with_type. do 2 wp_step. wp_step. unfold active_encoding_key, lift, panic.
  destruct (by_kid _ !! _) as [kp|] eqn:Hp; [|wp_step; repeat split; simpl; try done; lia].
  wp_step. destruct (jwt_encode _ _ _) as [t|] eqn:He; wp_step; (split; [done|]);
    (split; [simpl; lia|]); [|done].
  intros token [= <-]. eauto.
Qed.

Lemma sign_access_spec s sub aud extra w :
  wp (sign_access_token s sub aud extra) (fun r w' => quiet w w' /\
    forall token, r = Ok token -> exists n kp,
      tick w <= n < tick w'
      /\ by_kid (js_keys s n) !! active_kid (js_keys s n) = Some kp
      /\ jwt_encode (mkJwtHeader "RS256" (Some "at+jwt") (Some (active_kid (js_keys s n))))
           (extra ∪ standard (js_issuer s) sub aud (uuid_to_string (new_v4 (S (tick w))))
              (wrap_i64 (secs (clock (tick w)) + wrap_i64 (js_access_ttl s))%Z))
           (encoding_key kp) = Some token) w.
Proof.
  unfold sign_access_token. wp_step. wp_call base_claims_spec. intros r w1 [Hq ->]. cbn iota.
  wp_call signed_spec. intros r w2 (Hq2 & Ht & Hs). split; [by eapply quiet_trans|].
  intros token ->. destruct (Hs token eq_refl) as (kp & Hp & He). exists (tick w1), kp.
  destruct Hq as (_ & _ & ?). split; [lia|]. done.
Qed.

Lemma sign_id_spec s sub aud nonce auth_time extra w :
  wp (sign_id_token s sub aud nonce auth_time extra) (fun r w' => quiet w w' /\
    forall token, r = Ok token -> exists n kp claims,
      tick w <= n < tick w'
      /\ by_kid (js_keys s n) !! active_kid (js_keys s n) = Some kp
      /\ jwt_encode (mkJwtHeader "RS256" (Some "JWT") (Some (active_kid (js_keys s n))))
           (extra ∪ claims) (encoding_key kp) = Some token
      /\ claims = match nonce with
                  | Some n => if negb (is_empty n) then <["nonce" := JStr n]> else id
                  | None => id
                  end (<["auth_time" := JInt auth_time]>
                    (standard (js_issuer s) sub aud (uuid_to_string (new_v4 (S (tick w))))
                      (wrap_i64 (secs (clock (tick w)) + wrap_i64 (js_id_ttl s))%Z)))) w.
Proof.
  unfold sign_id_token. wp_step. wp_call base_claims_spec. intros r w1 [Hq ->]. cbn iota zeta.
  rewrite map_empty_union. wp_call signed_spec. intros r w2 (Hq2 & Ht & Hs). split; [by eapply quiet_trans|].
  intros token ->. destruct (Hs token eq_refl) as (kp & Hp & He). eexists (tick w1), kp, _.
  destruct Hq as (_ & _ & ?). split; [lia|]. split; [done|]. split; [exact He|].
  destruct nonce as [n|]; [|done]. by destruct (negb (is_empty n)).
Qed.

Lemma validate_spec v token aud expired w :
  wp (validate_internal v token aud expired) (fun r w' => quiet w w' /\
    forall claims, r = Ok (Some claims) -> exists h key n m,
      jwt_decode_header token = Some h /\ hdr_alg h = "RS256"
      /\ tick w <= n <= m /\ m < tick w'
      /\ decoding_key_by_kid (jv_keys v n) (hdr_kid h) = Ok (Some key)
      /\ jwt_decode (secs (clock m)) token key (validation_for (jv_expected_issuer v) aud expired)
         = Some claims) w.
Proof.
  assert (Hq : quiet w (bump w)) by apply quiet_bump, quiet_refl.
  unfold validate_internal. destruct (is_empty _); [wp_step; split; [apply quiet_refl|done]|].
  destruct (jwt_decode_header token) as [h|] eqn:Hh; [|wp_step; split; [apply quiet_refl|done]].
  destruct (bool_decide _) eqn:Ha; cbn [negb]; [|wp_step; split; [apply quiet_refl|done]].
  apply bool_decide_eq_true in Ha. do 2 wp_step. wp_step. unfold lift.
  destruct (decoding_key_by_kid _ _) as [[key|]|e] eqn:Hk; wp_step; [|wp_step; done|done].
  unfold now_seconds. do 5 wp_step. split; [by apply quiet_bump|].
  intros claims [= Hd]. exists h, key, (tick w), (S (tick w)). repeat split; try done; simpl; lia.
Qed.
End Specs.

(** ** Theorems *)

(** The key that decodes is a loaded one: the one named, or the active one. *)
Lemma decoding_key_loaded `{JwtLib} store kid key :
  decoding_key_by_kid store kid = Ok (Some key) ->
  exists kp, by_kid store !! default (active_kid store) (nonempty kid) = Some kp /\ key = decoding_key kp.
Proof.
  unfold decoding_key_by_kid, nonempty. intros Hk.
  assert (Hact : match by_kid store !! active_kid store with
    | Some kp => Ok (Some (decoding_key kp)) | None => panic "active kid must be loaded" end = Ok (Some key) ->
    exists kp, by_kid store !! active_kid store = Some kp /\ key = decoding_key kp).
  { destruct (_ !! _) as [kp|]; [|done]. intros [= <-]. eauto. }
  destruct kid as [k|]; [|exact (Hact Hk)]. destruct (is_empty k); cbn [negb] in Hk; [exact (Hact Hk)|].
  simpl. destruct (by_kid store !! k) as [kp|]; [|done]. injection Hk as <-. eauto.
Qed.

(** What the key provider promises: the active key is loaded under a name that is
    not empty, and its halves belong together. *)
Class KeyProvider `{JwtLaws} (store : Store) := {
  active_loaded : is_Some (by_kid store !! active_kid store);
  active_named : active_kid store <> "";
  pairs_match k kp : by_kid store !! k = Some kp -> key_pair (encoding_key kp) (decoding_key kp);
}.

Lemma access_validates `{RedisServer} `{Env} `{JwtLaws} `{Texts} s v sub aud extra w token w1 w2 :
  (forall n, KeyProvider (js_keys s n)) ->
  (forall n k kp, n < tick w1 -> by_kid (js_keys s n) !! k = Some kp ->
     by_kid (jv_keys v (tick w2)) !! k = Some kp) ->
  js_issuer s = jv_expected_issuer v ->
  extra !! "iss" = None -> extra !! "exp" = None -> extra !! "nbf" = None ->
  sign_access_token s sub aud extra w = (Ok token, w1) ->
  (secs (clock (S (tick w2))) < wrap_i64 (secs (clock (tick w)) + wrap_i64 (js_access_ttl s)))%Z ->
  is_access_token_type token = true
  /\ exists jti, wp (validate v token) (fun r w' => quiet w2 w' /\
       r = Ok (Some (JObj (extra ∪ standard (js_issuer s) sub aud jti
             (wrap_i64 (secs (clock (tick w)) + wrap_i64 (js_access_ttl s))%Z))))) w2.
Proof.
  intros Hkeys Hkept Hiss Hi He Hn Hsign Hlive.
  destruct (wp_run _ _ _ _ _ (sign_access_spec _ _ _ _ w) Hsign) as [_ Hs].
  destruct (Hs token eq_refl) as (n & kp & Hnt & Hkp & Henc). clear Hs.
  pose proof (jwt_header_encode _ _ _ _ Henc) as Hhdr.
  split; [unfold is_access_token_type; by rewrite Hhdr|].
  eexists. unfold validate, validate_internal.
  destruct (jwt_token_text _ _ _ _ Henc) as [Hne Hws]. rewrite trim_clean by done.
  destruct (is_empty token) eqn:E; [by apply is_empty_spec in E|].
  rewrite Hhdr. cbn [hdr_alg hdr_kid]. rewrite bool_decide_true by done. cbn [negb].
  do 2 wp_step. wp_step. unfold decoding_key_by_kid.
  destruct (is_empty (active_kid _)) eqn:Ea; [apply is_empty_spec in Ea; by destruct (Hkeys n)|].
  cbn [negb]. rewrite (Hkept n _ kp) by (done || lia). cbn. wp_step. unfold now_seconds. do 5 wp_step. split; [by do 2 apply quiet_bump; apply quiet_refl|].
  simpl. f_equal. eapply jwt_decode_encode.
  - exact Henc.
  - eapply pairs_match; exact Hkp.
  - done.
  - rewrite lookup_union_r by done. apply lookup_insert_eq.
  - exact Hlive.
  - done.
  - rewrite lookup_union_r by done. reflexivity.
  - simpl. rewrite Hiss. left.
  - rewrite lookup_union_r by done. reflexivity.
  - intros r Hr. simpl in Hr. rewrite elem_of_cons, list_elem_of_singleton in Hr.
    destruct Hr as [->| ->]; rewrite lookup_union_r by done; by eexists.
  - by left.
Qed.

(** C29: An access token validates, under the same issuer, as long as it has not
    expired and the key it was signed with is loaded, also after other keys became
    active; validation returns exactly the claims that were signed, and the token
    has the access-token type. *)
Theorem access_token_roundtrip `{RedisServer} `{Env} `{JwtLaws} `{Texts} s v sub aud extra w token w1 w2 :
  (forall n, KeyProvider (js_keys s n)) ->
  (forall n k kp, n < tick w1 -> by_kid (js_keys s n) !! k = Some kp ->
     by_kid (jv_keys v (tick w2)) !! k = Some kp) ->
  js_issuer s = jv_expected_issuer v ->
  extra !! "iss" = None -> extra !! "exp" = None -> extra !! "nbf" = None ->
  sign_access_token s sub aud extra w = (Ok token, w1) ->
  (secs (clock (S (tick w2))) < wrap_i64 (secs (clock (tick w)) + wrap_i64 (js_access_ttl s)))%Z ->
  is_access_token_type token = true
  /\ exists jti, (validate v token w2).1 =
       Ok (Some (JObj (extra ∪ standard (js_issuer s) sub aud jti
             (wrap_i64 (secs (clock (tick w)) + wrap_i64 (js_access_ttl s))%Z)))).
Proof.
  intros Hkeys Hkept Hiss Hi He Hn Hsign Hlive.
  destruct (access_validates _ _ _ _ _ _ _ _ _ Hkeys Hkept Hiss Hi He Hn Hsign Hlive) as [Ht [jti Hv]].
  split; [done|]. exists jti. by destruct (wp_run _ _ _ _ _ Hv (surjective_pairing _)).
Qed.

(** An id token is never mistaken for an access token: whatever its claims,
    its header does not have the access-token type. *)
Lemma id_token_not_access `{RedisServer} `{Env} `{JwtLaws} `{Texts} s sub aud nonce at_ extra w token w1 :
  sign_id_token s sub aud nonce at_ extra w = (Ok token, w1) -> is_access_token_type token = false.
Proof.
  intros Hsign. destruct (wp_run _ _ _ _ _ (sign_id_spec _ _ _ _ _ _ w) Hsign) as [_ Hs].
  destruct (Hs token eq_refl) as (n & kp & claims & _ & _ & Henc & _).
  unfold is_access_token_type. by rewrite (jwt_header_encode _ _ _ _ Henc).
Qed.

(** C30: Validation accepts only what it should.  Accepted claims come from decoding
    the token, whose header names RS256, with the key that was loaded under the name in
    its header, or with the active key if the header names none; with a clock read
    meanwhile.  The claims carry an issuer that names the expected one and an expiry
    that is a number and, unless expired tokens are allowed, when it is an integer
    lies at most 60 seconds in the past; and if an audience is required and the token
    has an audience claim, the claim names it. *)
Theorem validate_accepts_only `{RedisServer} `{Env} `{JwtLaws} `{Texts} v token aud expired w c w' :
  validate_internal v token aud expired w = (Ok (Some (JObj c)), w') ->
  exists h n m k kp, jwt_decode_header token = Some h /\ hdr_alg h = "RS256" /\ tick w <= n <= m /\ m < tick w'
    /\ by_kid (jv_keys v n) !! k = Some kp /\ k = default (active_kid (jv_keys v n)) (nonempty (hdr_kid h))
    /\ jwt_decode (secs (clock m)) token (decoding_key kp) (validation_for (jv_expected_issuer v) aud expired) = Some (JObj c)
    /\ (exists iss, c !! "iss" = Some iss /\ names (jv_expected_issuer v) iss)
    /\ (exists e, c !! "exp" = Some e /\ is_number e)
    /\ (forall e, expired = false -> c !! "exp" = Some (JInt e) -> (secs (clock m) - 60 <= e)%Z)
    /\ (forall a x, aud = Some a -> c !! "aud" = Some x -> names a x).
Proof.
  intros Hrun. destruct (wp_run _ _ _ _ _ (validate_spec _ _ _ _ w) Hrun) as [_ Hs].
  destruct (Hs _ eq_refl) as (h & key & n & m & Hh & Ha & Hn & Hm & Hk & Hd).
  destruct (decoding_key_loaded _ _ _ Hk) as (kp & Hkp & ->). exists h, n, m.
  eexists _, kp. do 4 (split; [done|]). split; [exact Hkp|]. split; [done|]. split; [exact Hd|].
  split; [|split; [|split]].
  - destruct (jwt_decode_required _ _ _ _ _ "iss" Hd) as [iss Hi]; [left|]. exists iss. split; [done|].
    destruct (jwt_decode_iss _ _ _ _ _ _ Hd Hi) as (i & Hin & Hnames); [done|].
    apply list_elem_of_singleton in Hin as ->. done.
  - apply (jwt_decode_exp_number _ _ _ _ _ Hd). right. left.
  - intros e -> He. exact (jwt_decode_exp _ _ _ _ _ _ Hd eq_refl He).
  - intros a x -> Hx. destruct (jwt_decode_aud _ _ _ _ _ _ _ Hd eq_refl eq_refl Hx) as (a' & Hin & Hnames).
    by apply list_elem_of_singleton in Hin as ->.
Qed.

(** ** Witnesses *)

Import Instances JwtInstance.

Definition demo_store : Store := mkStore {[ "k1" := mkKeyPair "key" "key" ]} "k1".
Definition demo_signer : JwtSigner := mkJwtSigner (fun _ => demo_store) "https://auth" 900 3600.
Definition demo_validator : JwtValidator := mkJwtValidator (fun _ => demo_store) "https://auth".

Lemma demo_store_ok : KeyProvider demo_store.
Proof.
  split; [by eexists|done|]. intros k kp Hk. simpl in Hk. apply lookup_singleton_Some in Hk as [<- <-]. apply demo_key_pair.
Qed.

Definition demo_access : string :=
  default "" (ok (sign_access_token demo_signer "u" "app" ∅ world0).1).

Lemma access_token_roundtrip_witness :
  exists jti, (validate demo_validator demo_access world0).1 =
    Ok (Some (JObj (∅ ∪ standard "https://auth" "u" "app" jti 1700000900%Z))).
Proof.
  assert (Hs : (sign_access_token demo_signer "u" "app" ∅ world0).1 = Ok demo_access)
    by (vm_compute; reflexivity).
  apply (access_token_roundtrip demo_signer demo_validator "u" "app" ∅ world0 demo_access _ world0
    (fun _ => demo_store_ok) (fun _ _ _ _ Hk => Hk) eq_refl (lookup_empty _) (lookup_empty _) (lookup_empty _)
    (run_fst _ _ _ Hs)).
  vm_compute. reflexivity.
Defined.

Definition demo_id : string :=
  default "" (ok (sign_id_token demo_signer "u" "app" (Some "n") 1700000000 ∅ world0).1).

Lemma id_token_not_access_witness : is_access_token_type demo_id = false.
Proof.
  assert (Hs : (sign_id_token demo_signer "u" "app" (Some "n") 1700000000 ∅ world0).1 = Ok demo_id)
    by (vm_compute; reflexivity).
  exact (id_token_not_access _ _ _ _ _ _ _ _ _ (run_fst _ _ _ Hs)).
Defined.

Lemma validate_accepts_only_witness :
  exists c, (validate_internal demo_validator demo_access (Some "app") false world0).1 = Ok (Some (JObj c))
    /\ is_Some (c !! "exp") /\ forall x, c !! "aud" = Some x -> names "app" x.
Proof.
  set (c := match (validate_internal demo_validator demo_access (Some "app") false world0).1 with
            | Ok (Some (JObj c)) => c | _ => ∅ end).
  exists c.
  assert (Hv : (validate_internal demo_validator demo_access (Some "app") false world0).1 = Ok (Some (JObj c)))
    by (vm_compute; reflexivity).
  split; [exact Hv|].
  destruct (validate_accepts_only _ _ _ _ _ _ _ (run_fst _ _ _ Hv))
    as (h & n & m & k & kp & _ & _ & _ & _ & _ & _ & _ & _ & (e & He & _) & _ & Ha).
  split; [by exists e|]. intros x. by apply Ha.
Defined.
