(* ===== verification/KeyFiles.v ===== *)
(** * The signing keys and their files ([common/crypto/rsa_keys.rs])

    The provider keeps the RSA key set in memory, behind a lock, and in a
    directory: two PEM files per key and the name of the active key.  It is loaded
    at start-up, and changed by rotating the active key and by retiring an old one.
    Every file operation may fail; a write that fails may leave anything in the
    file it was writing. *)

From stdpp Require Import base tactics list gmap strings countable sorting.
From Stdlib Require Import ZArith Lia Ascii.
From S2P Require Import Prelude RustStr Redis Schema World Ext Demo DemoJwt Jwt.

Local Open Scope auth_scope.

(** ** The rsa crate *)

Class RsaLib `{JwtLib} := {
  RsaPrivateKey : Type;
  RsaPublicKey : Type;
  (** [RsaPublicKey::from(&private)] *)
  public_from : RsaPrivateKey -> RsaPublicKey;
  to_pkcs8_pem : RsaPrivateKey -> option string;
  to_public_key_pem : RsaPublicKey -> option string;
  to_public_key_der : RsaPublicKey -> option string;
  from_pkcs8_pem : string -> option RsaPrivateKey;
  from_public_key_pem : string -> option RsaPublicKey;
  (** [EncodingKey::from_rsa_pem], [DecodingKey::from_rsa_pem] *)
  encoding_from_rsa_pem : string -> option EncodingKey;
  decoding_from_rsa_pem : string -> option DecodingKey;
  (** [public.n().to_bytes_be()], [public.e().to_bytes_be()] *)
  n_to_bytes_be : RsaPublicKey -> string;
  e_to_bytes_be : RsaPublicKey -> string;
}.

Class RsaLaws `{RsaLib} `{!JwtLaws} := {
  pkcs8_roundtrip k p : to_pkcs8_pem k = Some p -> from_pkcs8_pem p = Some k;
  public_roundtrip k p : to_public_key_pem k = Some p -> from_public_key_pem p = Some k;
  encoding_of_pem k p : to_pkcs8_pem k = Some p -> is_Some (encoding_from_rsa_pem p);
  decoding_of_pem k p : to_public_key_pem k = Some p -> is_Some (decoding_from_rsa_pem p);
  rsa_pair k p q e d :
    to_pkcs8_pem k = Some p -> to_public_key_pem (public_from k) = Some q ->
    encoding_from_rsa_pem p = Some e -> decoding_from_rsa_pem q = Some d -> key_pair e d;
}.

(** ** Files *)

Inductive file :=
| PrivatePem (kid : string)
| PublicPem (kid : string)
| PrivateTmp (kid : string)
| PublicTmp (kid : string)
| ActiveKid
| LegacyPrivate
| LegacyPublic.

(** Its name in the directory. *)
Definition file_name (f : file) : string :=
  match f with
  | PrivatePem kid => kid +:+ ".private.pem"
  | PublicPem kid => kid +:+ ".public.pem"
  | PrivateTmp kid => kid +:+ ".private.pem.tmp"
  | PublicTmp kid => kid +:+ ".public.pem.tmp"
  | ActiveKid => "active.kid"
  | LegacyPrivate => "private.pem"
  | LegacyPublic => "public.pem"
  end.

#[export] Instance file_eq : EqDecision file.
Proof. solve_decision. Defined.
#[export] Instance file_countable : Countable file.
Proof.
  refine (inj_countable'
    (fun f => match f with
      | PrivatePem k => (0, k) | PublicPem k => (1, k) | PrivateTmp k => (2, k) | PublicTmp k => (3, k)
      | ActiveKid => (4, "") | LegacyPrivate => (5, "") | LegacyPublic => (6, "") end)
    (fun p => match p with
      | (0, k) => PrivatePem k | (1, k) => PublicPem k | (2, k) => PrivateTmp k | (3, k) => PublicTmp k
      | (4, _) => ActiveKid | (5, _) => LegacyPrivate | (_, _) => LegacyPublic end) _).
  by intros [].
Defined.

(** What the operating system and the random source answer. *)
Class FsEnv `{RsaLib} := {
  fs_ok : nat -> bool;
  (** What a failed write leaves in the file, if it touched it. *)
  fs_partial : nat -> option string;
  (** The order [read_dir] lists files in. *)
  dir_order : nat -> list file -> list file;
  (** [RsaPrivateKey::new(&mut rng, RSA_BITS)] *)
  rsa_keygen : nat -> option RsaPrivateKey;
}.

Class FsLaws `{FsEnv} := { dir_order_perm n l : dir_order n l ≡ₚ l }.

(** ** The provider *)

Record RsaKeyPair `{RsaLib} := mkRsaKeyPair {
  kp_private : RsaPrivateKey;
  kp_public : RsaPublicKey;
  kp_public_pem : string;
  kp_keys : KeyPair;
}.

Record PublicKeyEntry `{RsaLib} := mkPublicKeyEntry {
  pe_kid : string;
  pe_public : RsaPublicKey;
  pe_public_pem : string;
  pe_decoding_key : DecodingKey;
}.

Global Arguments mkRsaKeyPair {_ _} _ _ _ _.
Global Arguments mkPublicKeyEntry {_ _} _ _ _ _.

Section Provider.
Context `{RsaLib} `{Crypto} `{!FsEnv}.

(** The directory, and what the lock protects. *)
Record Provider := mkProvider {
  pv_tick : nat;
  pv_files : gmap file string;
  pv_by_kid : gmap string RsaKeyPair;
  pv_active_kid : string;
}.

Definition key_io (A : Type) : Type := prog Provider err A.

Definition later (f : gmap file string -> gmap file string) (st : Provider) : Provider :=
  mkProvider (S (pv_tick st)) (f (pv_files st)) (pv_by_kid st) (pv_active_kid st).
Definition io_error : err := EOther "io".

(** *** File operations *)

Definition fs_read (f : file) : key_io string := fun st =>
  match pv_files st !! f with
  | Some s => if fs_ok (pv_tick st) then (Ok s, later id st) else (Err io_error, later id st)
  | None => (Err io_error, later id st)
  end.

(** [path.exists()] is [false] when the answer cannot be had. *)
Definition fs_exists (f : file) : key_io bool := fun st =>
  (Ok (fs_ok (pv_tick st) && bool_decide (is_Some (pv_files st !! f))), later id st).

Definition fs_write (f : file) (bytes : string) : key_io unit := fun st =>
  if fs_ok (pv_tick st) then (Ok tt, later <[f := bytes]> st)
  else (Err io_error, match fs_partial (pv_tick st) with
                      | Some g => later <[f := g]> st
                      | None => later id st
                      end).

(** [set_permissions] on a file just written. *)
Definition fs_chmod : key_io unit := fun st =>
  if fs_ok (pv_tick st) then (Ok tt, later id st) else (Err io_error, later id st).

Definition fs_rename (from to : file) : key_io unit := fun st =>
  match pv_files st !! from with
  | Some s =>
      if fs_ok (pv_tick st) then (Ok tt, later (fun m => <[to := s]> (delete from m)) st)
      else (Err io_error, later id st)
  | None => (Err io_error, later id st)
  end.

Definition fs_remove_file (f : file) : key_io unit := fun st =>
  if fs_ok (pv_tick st) && bool_decide (is_Some (pv_files st !! f)) then (Ok tt, later (delete f) st)
  else (Err io_error, later id st).

Definition fs_read_dir : key_io (list file) := fun st =>
  if fs_ok (pv_tick st) then (Ok (dir_order (pv_tick st) (map_to_list (pv_files st)).*1), later id st)
  else (Err io_error, later id st).

Definition or_context {A} (msg : string) (o : option A) : key_io A :=
  match o with Some a => ret a | None => throw (EOther msg) end.

(** *** Helpers *)

Definition KeyPair_build (private : RsaPrivateKey) (public : RsaPublicKey) : option RsaKeyPair :=
  public_pem ← to_public_key_pem public;
  private_pem ← to_pkcs8_pem private;
  encoding_key ← encoding_from_rsa_pem private_pem;
  decoding_key ← decoding_from_rsa_pem public_pem;
  Some (mkRsaKeyPair private public public_pem (mkKeyPair encoding_key decoding_key)).

Definition generate_keypair : key_io (RsaPrivateKey * RsaPublicKey) := fun st =>
  match rsa_keygen (pv_tick st) with
  | Some private => (Ok (private, public_from private), later id st)
  | None => (Err (EOther "RSA keygen"), later id st)
  end.

(** [full[..16]] *)
Definition compute_kid (public : RsaPublicKey) : option string :=
  der ← to_public_key_der public;
  Some (take_bytes 16 (b64url_encode (sha256_digest der))).

Definition write_atomic (path tmp : file) (bytes : string) (owner_only : bool) : key_io unit :=
  do! fs_write tmp bytes in
  do! (if owner_only then fs_chmod else ret tt) in
  fs_rename tmp path.

Definition write_key_files (kid : string) (private : RsaPrivateKey) (public : RsaPublicKey) : key_io unit :=
  let! priv_pem := or_context "encode private PEM" (to_pkcs8_pem private) in
  let! pub_pem := or_context "encode public PEM" (to_public_key_pem public) in
  do! write_atomic (PrivatePem kid) (PrivateTmp kid) priv_pem true in
  write_atomic (PublicPem kid) (PublicTmp kid) pub_pem false.

(** The [for entry in fs::read_dir(dir)?] loop. *)
Fixpoint load_entries (entries : list file) (into : gmap string RsaKeyPair) : key_io (gmap string RsaKeyPair) :=
  match entries with
  | [] => ret into
  | PrivatePem kid :: rest =>
      let! exists_ := fs_exists (PublicPem kid) in
      if negb exists_ then load_entries rest into
      else
        let! priv_pem := fs_read (PrivatePem kid) in
        let! pub_pem := fs_read (PublicPem kid) in
        let! private := or_context "parse private" (from_pkcs8_pem priv_pem) in
        let! public := or_context "parse public" (from_public_key_pem pub_pem) in
        let! kp := or_context "build" (KeyPair_build private public) in
        load_entries rest (<[kid := kp]> into)
  | _ :: rest => load_entries rest into
  end.

Definition load_existing_keys : key_io (gmap string RsaKeyPair) :=
  let! entries := fs_read_dir in
  load_entries entries ∅.

(** *** Start-up *)

Definition set_store (by_kid : gmap string RsaKeyPair) (active : string) : key_io unit := fun st =>
  (Ok tt, mkProvider (pv_tick st) (pv_files st) by_kid active).

(** A key written to disk and ready to use. *)
Definition new_key (private : RsaPrivateKey) (public : RsaPublicKey) : key_io (string * RsaKeyPair) :=
  let! kid := or_context "encode public DER" (compute_kid public) in
  do! write_key_files kid private public in
  let! kp := or_context "build" (KeyPair_build private public) in
  ret (kid, kp).

Definition migrate_legacy (by_kid : gmap string RsaKeyPair) : key_io (gmap string RsaKeyPair) :=
  let! has_private := if bool_decide (size by_kid = 0) then fs_exists LegacyPrivate else ret false in
  let! has_public := if has_private then fs_exists LegacyPublic else ret false in
  if has_public
  then
    let! priv_pem := fs_read LegacyPrivate in
    let! pub_pem := fs_read LegacyPublic in
    let! private := or_context "parse legacy private.pem" (from_pkcs8_pem priv_pem) in
    let! public := or_context "parse legacy public.pem" (from_public_key_pem pub_pem) in
    let! ' (kid, kp) := new_key private public in
    do! ignore (fs_remove_file LegacyPrivate) in
    do! ignore (fs_remove_file LegacyPublic) in
    ret (<[kid := kp]> by_kid)
  else ret by_kid.

(** The first key in the order of the map, which is the order of the texts. *)
Definition first_kid (by_kid : gmap string RsaKeyPair) : option string := head (sorted (dom by_kid)).

(** [init] when no stored name of an active key is usable. *)
Definition choose_active (by_kid : gmap string RsaKeyPair) : key_io (gmap string RsaKeyPair * string) :=
  let! by_kid := migrate_legacy by_kid in
  let! by_kid :=
    if bool_decide (size by_kid = 0) then
      let! ' (private, public) := generate_keypair in
      let! ' (kid, kp) := new_key private public in
      ret (<[kid := kp]> by_kid)
    else ret by_kid in
  let! first := or_context "key set unexpectedly empty" (first_kid by_kid) in
  do! fs_write ActiveKid first in
  ret (by_kid, first).

(** [RsaKeyProvider::init] in a directory that exists. *)
Definition init : key_io unit :=
  let! by_kid := load_existing_keys in
  let! has_active := fs_exists ActiveKid in
  let! active_kid :=
    if has_active then
      let! stored := fs_read ActiveKid in
      let stored := trim stored in
      ret (if bool_decide (is_Some (by_kid !! stored)) then Some stored else None)
    else ret None in
  match active_kid with
  | Some active => set_store by_kid active
  | None =>
      let! ' (by_kid, active) := choose_active by_kid in
      set_store by_kid active
  end.

(** *** Operations *)

Definition key_id (st : Provider) : string := pv_active_kid st.

(** The key set as the signer and the validator read it. *)
Definition store_view (st : Provider) : Store := mkStore (kp_keys <$> pv_by_kid st) (pv_active_kid st).

Definition all_public_keys (st : Provider) : list PublicKeyEntry :=
  omap (fun kid =>
    (fun p => mkPublicKeyEntry kid (kp_public p) (kp_public_pem p) (decoding_key (kp_keys p))) <$> pv_by_kid st !! kid)
    (sorted (dom (pv_by_kid st))).

Definition retire (kid : string) : key_io bool := fun st =>
  if is_empty kid then (Ok false, st)
  else if bool_decide (kid = pv_active_kid st)
  then (Err (EOther "Cannot retire the active key — rotate first"), st)
  else
    match pv_by_kid st !! kid with
    | None => (Ok false, st)
    | Some _ =>
        (do! ignore (fs_remove_file (PrivatePem kid)) in
         do! ignore (fs_remove_file (PublicPem kid)) in
         ret true)
          (mkProvider (pv_tick st) (pv_files st) (delete kid (pv_by_kid st)) (pv_active_kid st))
    end.

(** [store.by_kid.insert(kid, kp); store.active_kid = kid] *)
Definition activate (kid : string) (kp : RsaKeyPair) : key_io unit := fun st =>
  (Ok tt, mkProvider (pv_tick st) (pv_files st) (<[kid := kp]> (pv_by_kid st)) kid).

Definition rotate : key_io string :=
  let! ' (private, public) := generate_keypair in
  let! ' (kid, kp) := new_key private public in
  do! activate kid kp in
  do! fs_write ActiveKid kid in
  ret kid.

Definition strip_leading_zero (bytes : string) : string :=
  match bytes with
  | String c r => if (byte c =? 0)%N && (1 <? String.length bytes) then r else bytes
  | "" => bytes
  end.

Definition jwk_modulus_exponent (st : Provider) (kid : string) : option (string * string) :=
  kp ← pv_by_kid st !! kid;
  Some (b64url_encode (strip_leading_zero (n_to_bytes_be (kp_public kp))),
        b64url_encode (strip_leading_zero (e_to_bytes_be (kp_public kp)))).
End Provider.

(** ** Names of files *)

Fixpoint bytes_of (s : string) : list ascii := match s with "" => [] | String c r => c :: bytes_of r end.

Lemma bytes_of_app s t : bytes_of (s +:+ t) = bytes_of s ++ bytes_of t.
Proof. induction s as [|c s IH]; [done|]. rewrite string_app_cons. simpl. by rewrite IH. Qed.
Lemma bytes_of_inj s t : bytes_of s = bytes_of t -> s = t.
Proof. revert t. induction s as [|c s IH]; intros [|d t]; try done. simpl. intros [= -> Ht]. by rewrite (IH t Ht). Qed.

(** Different files have different names, whatever the names of the keys. *)
Lemma file_name_inj f g : file_name f = file_name g -> f = g.
Proof.
  intros Heq%(f_equal (fun s => reverse (bytes_of s))).
  destruct f as [k|k|k|k| | |], g as [k'|k'|k'|k'| | |]; cbn [file_name] in Heq; try done;
    rewrite ?bytes_of_app, ?reverse_app in Heq; unfold reverse in Heq; simpl in Heq;
    repeat (simplify_eq Heq; clear Heq; intros Heq); try done.
  all: f_equal; apply bytes_of_inj; change (reverse (bytes_of k) = reverse (bytes_of k')) in Heq;
    apply (f_equal reverse) in Heq; by rewrite !reverse_involutive in Heq.
Qed.

(** ** What the operations do *)

(** The name of a key is 16 base64url characters of a hash of the public key; that
    distinct keys have distinct names is an idealisation. *)
Class KidLaws `{RsaLib} `{Crypto} := {
  kid_inj k k' kid : compute_kid k = Some kid -> compute_kid k' = Some kid -> k = k';
  kid_named k kid : compute_kid k = Some kid -> kid <> "" /\ trim kid = kid;
}.

Section Specs.
Context `{RsaLaws} `{Crypto} `{!KidLaws} `{!FsEnv} `{!FsLaws}.
Implicit Types st : Provider.
Implicit Types m : gmap file string.

(** Nothing fails from now on. *)
Definition good st : Prop := forall n, pv_tick st <= n -> fs_ok n = true.

Lemma good_later f st : good st -> good (later f st).
Proof. intros Hg n Hn. apply Hg. simpl in Hn. lia. Qed.

#[local] Transparent wp.

Lemma wp_fs_read f Q st :
  (forall s, pv_files st !! f = Some s -> Q (Ok s) (later id st)) ->
  (fs_ok (pv_tick st) = false \/ pv_files st !! f = None -> Q (Err io_error) (later id st)) -> wp (fs_read f) Q st.
Proof.
  intros Hok Herr. unfold wp, fs_read. destruct (pv_files st !! f); [|by apply Herr; right].
  destruct (fs_ok (pv_tick st)) eqn:He; [by apply Hok|by apply Herr; left].
Qed.

Lemma wp_fs_exists f Q st :
  (forall b, (b = true -> is_Some (pv_files st !! f)) -> (b = false -> fs_ok (pv_tick st) = false \/ pv_files st !! f = None) ->
     Q (Ok b) (later id st)) -> wp (fs_exists f) Q st.
Proof.
  intros Hok. apply Hok; simpl.
  - by intros [_ Hs%bool_decide_eq_true]%andb_prop.
  - intros [Hf|Hf%bool_decide_eq_false]%andb_false_iff; [by left|right; by apply eq_None_not_Some].
Qed.

Lemma wp_fs_write f bytes Q st :
  Q (Ok tt) (later <[f := bytes]> st) ->
  (fs_ok (pv_tick st) = false -> forall h, (h = id \/ exists g, h = <[f := g]>) -> Q (Err io_error) (later h st)) ->
  wp (fs_write f bytes) Q st.
Proof.
  intros Hok Herr. unfold wp, fs_write. destruct (fs_ok (pv_tick st)) eqn:He; [done|]. simpl.
  destruct (fs_partial (pv_tick st)); apply Herr; eauto.
Qed.

Lemma wp_fs_chmod Q st :
  Q (Ok tt) (later id st) -> Q (Err io_error) (later id st) -> wp fs_chmod Q st.
Proof. intros Hok Herr. unfold wp, fs_chmod. by destruct (fs_ok (pv_tick st)). Qed.

Lemma wp_fs_rename a b Q st :
  (forall s, pv_files st !! a = Some s -> Q (Ok tt) (later (fun m => <[b := s]> (delete a m)) st)) ->
  Q (Err io_error) (later id st) -> wp (fs_rename a b) Q st.
Proof.
  intros Hok Herr. unfold wp, fs_rename. destruct (pv_files st !! a); [|done].
  destruct (fs_ok (pv_tick st)); [by apply Hok|done].
Qed.

Lemma wp_fs_remove f (Q : res err unit -> Provider -> Prop) st :
  (forall r h, (h = id \/ h = delete f) -> Q r (later h st)) -> wp (fs_remove_file f) Q st.
Proof. intros Hq. unfold wp, fs_remove_file. destruct (_ && _); apply Hq; auto. Qed.

Lemma wp_fs_read_dir Q st :
  (forall l, l ≡ₚ (map_to_list (pv_files st)).*1 -> Q (Ok l) (later id st)) ->
  (fs_ok (pv_tick st) = false -> Q (Err io_error) (later id st)) -> wp fs_read_dir Q st.
Proof.
  intros Hok Herr. unfold wp, fs_read_dir. destruct (fs_ok (pv_tick st)) eqn:He; [|by apply Herr].
  apply Hok, dir_order_perm.
Qed.

Lemma wp_generate Q st :
  (forall k, Q (Ok (k, public_from k)) (later id st)) -> (forall e, Q (Err e) (later id st)) -> wp generate_keypair Q st.
Proof. intros Hok Herr. unfold wp, generate_keypair. by destruct (rsa_keygen (pv_tick st)); simpl. Qed.

Lemma wp_set_store keys active Q st :
  Q (Ok tt) (mkProvider (pv_tick st) (pv_files st) keys active) -> wp (set_store keys active) Q st.
Proof. exact id. Qed.

Lemma wp_activate kid kp Q st :
  Q (Ok tt) (mkProvider (pv_tick st) (pv_files st) (<[kid := kp]> (pv_by_kid st)) kid) -> wp (activate kid kp) Q st.
Proof. exact id. Qed.

Lemma wp_retire kid Q st :
  (forall r, (forall b, r = Ok b -> b = false) -> Q r st) ->
  (kid <> pv_active_kid st -> is_Some (pv_by_kid st !! kid) ->
   wp (do! ignore (fs_remove_file (PrivatePem kid)) in do! ignore (fs_remove_file (PublicPem kid)) in ret true) Q
     (mkProvider (pv_tick st) (pv_files st) (delete kid (pv_by_kid st)) (pv_active_kid st))) ->
  wp (retire kid) Q st.
Proof.
  intros Hno Hgo. unfold wp, retire in *. destruct (is_empty kid); [by apply Hno; intros ? [= <-]|].
  case_bool_decide; [by apply Hno|]. destruct (pv_by_kid st !! kid); [by apply Hgo|by apply Hno; intros ? [= <-]].
Qed.

#[local] Opaque wp.

Lemma wp_or_context {A} msg (o : option A) (Q : res err A -> Provider -> Prop) st :
  (forall a, o = Some a -> Q (Ok a) st) -> (o = None -> Q (Err (EOther msg)) st) -> wp (or_context msg o) Q st.
Proof. intros Hok Herr. destruct o; [by apply wp_ret, Hok|by apply wp_throw, Herr]. Qed.

(** *** Invariants *)

(** The files hold keys under their names; a legacy pair belongs together. *)
Definition disk_ok m : Prop :=
  (forall kid p, m !! PrivatePem kid = Some p ->
     exists k, to_pkcs8_pem k = Some p /\ compute_kid (public_from k) = Some kid)
  /\ (forall kid q, m !! PublicPem kid = Some q -> exists k, to_public_key_pem k = Some q /\ compute_kid k = Some kid)
  /\ (forall p q, m !! LegacyPrivate = Some p -> m !! LegacyPublic = Some q ->
        exists k, to_pkcs8_pem k = Some p /\ to_public_key_pem (public_from k) = Some q).

(** Loaded keys are what their PEM texts say, under their names. *)
Definition pairs_ok (keys : gmap string RsaKeyPair) : Prop :=
  forall kid kp, keys !! kid = Some kp ->
    KeyPair_build (kp_private kp) (kp_public kp) = Some kp
    /\ kp_public kp = public_from (kp_private kp) /\ compute_kid (kp_public kp) = Some kid.

Definition stored kid m : Prop := is_Some (m !! PrivatePem kid) /\ is_Some (m !! PublicPem kid).

(** Every loaded key is on disk. *)
Definition on_disk (keys : gmap string RsaKeyPair) m : Prop := forall kid, is_Some (keys !! kid) -> stored kid m.

Definition grows m m' : Prop := forall kid, stored kid m -> stored kid m'.

Definition same_memory st st' : Prop :=
  pv_by_kid st' = pv_by_kid st /\ pv_active_kid st' = pv_active_kid st /\ pv_tick st <= pv_tick st'.

(** Only the file [f] and its temporary file [t] changed, and [f] at most to
    [bytes]. *)
Definition rewrites f t (bytes : string) m m' : Prop :=
  (forall g, g <> f -> g <> t -> m' !! g = m !! g) /\ (m' !! f = m !! f \/ m' !! f = Some bytes).

Lemma write_atomic_spec f t bytes b st :
  f <> t ->
  wp (write_atomic f t bytes b) (fun r st' => same_memory st st' /\ rewrites f t bytes (pv_files st) (pv_files st')
    /\ (r = Ok tt -> pv_files st' !! f = Some bytes)) st.
Proof.
  intros Hne. unfold write_atomic. apply wp_bind, wp_fs_write.
  2:{ intros _ h [->|[g ->]]; (split; [by split_and!; simpl; auto|]); (split; [|done]); split; simpl; auto.
      - intros g' _ Hg. by rewrite lookup_insert_ne.
      - left. by rewrite lookup_insert_ne. }
  assert (Hmid : forall st', st' = later <[t := bytes]> st \/ st' = later id (later <[t := bytes]> st) ->
    same_memory st st' /\ rewrites f t bytes (pv_files st) (pv_files st') /\ pv_files st' !! t = Some bytes).
  { intros st' [-> | ->]; (split; [by split_and!; simpl; auto|]); simpl; rewrite lookup_insert_eq; (split; [|done]);
      (split; [intros g _ Hg; by rewrite lookup_insert_ne|left; by rewrite lookup_insert_ne]). }
  assert (Hren : forall st', st' = later <[t := bytes]> st \/ st' = later id (later <[t := bytes]> st) ->
    wp (fs_rename t f) (fun r st' => same_memory st st' /\ rewrites f t bytes (pv_files st) (pv_files st')
      /\ (r = Ok tt -> pv_files st' !! f = Some bytes)) st').
  { intros st' Hst. destruct (Hmid st' Hst) as ((Hm1 & Hm2 & Hm3) & [Hr1 Hr2] & Ht). apply wp_fs_rename.
    - intros s Hs. rewrite Ht in Hs. injection Hs as <-. split; [by split_and!; simpl; auto|]. simpl.
      rewrite lookup_insert_eq. split; [|done]. split; [|rewrite lookup_insert_eq; by right].
      intros g Hgf Hgt. rewrite lookup_insert_ne, lookup_delete_ne by done. by apply Hr1.
    - split; [by split_and!; simpl; auto|]. by split. }
  apply wp_bind. destruct b; [|apply wp_ret, Hren; auto].
  apply wp_fs_chmod; [apply Hren; auto|]. destruct (Hmid _ (or_intror eq_refl)) as (Hm & Hr & _). by split; [|split].
Qed.

(** The memory is untouched and no key is lost from the disk. *)
Definition key_kept st st' : Prop :=
  same_memory st st' /\ disk_ok (pv_files st') /\ grows (pv_files st) (pv_files st').

Lemma key_kept_refl st : disk_ok (pv_files st) -> key_kept st st.
Proof. intros Hd. split; [by split_and!|]. split; [done|by intros kid Hk]. Qed.

Lemma key_kept_trans st1 st2 st3 : key_kept st1 st2 -> key_kept st2 st3 -> key_kept st1 st3.
Proof.
  intros ((Ha1 & Hb1 & Hc1) & _ & Hg1) ((Ha2 & Hb2 & Hc2) & Hd & Hg2).
  split; [split_and!; [congruence|congruence|lia]|]. split; [done|]. intros kid Hk; auto.
Qed.

Lemma private_written kid k p st st' :
  disk_ok (pv_files st) -> to_pkcs8_pem k = Some p -> compute_kid (public_from k) = Some kid ->
  same_memory st st' -> rewrites (PrivatePem kid) (PrivateTmp kid) p (pv_files st) (pv_files st') -> key_kept st st'.
Proof.
  intros (Hp & Hq & Hl) Hk Hkid Hm [Hr Hf].
  assert (Hpub : forall x, pv_files st' !! PublicPem x = pv_files st !! PublicPem x) by (intros; by apply Hr).
  assert (Hpriv : forall x, pv_files st' !! PrivatePem x = pv_files st !! PrivatePem x
    \/ x = kid /\ pv_files st' !! PrivatePem x = Some p).
  { intros x. destruct (decide (x = kid)) as [->|Hne]; [destruct Hf; auto|]. left. apply Hr; congruence. }
  split; [done|]. split.
  - split; [|split].
    + intros x y Hy. destruct (Hpriv x) as [Hx|[-> Hx]]; rewrite Hx in Hy; [by apply Hp|]. injection Hy as <-. eauto.
    + intros x y. rewrite Hpub. apply Hq.
    + rewrite !Hr by done. apply Hl.
  - intros x [Hx1 Hx2]. split; [|by rewrite Hpub]. destruct (Hpriv x) as [Hx|[_ Hx]]; rewrite Hx; [done|eauto].
Qed.

Lemma public_written kid k q st st' :
  disk_ok (pv_files st) -> to_public_key_pem k = Some q -> compute_kid k = Some kid ->
  same_memory st st' -> rewrites (PublicPem kid) (PublicTmp kid) q (pv_files st) (pv_files st') -> key_kept st st'.
Proof.
  intros (Hp & Hq & Hl) Hk Hkid Hm [Hr Hf].
  assert (Hpriv : forall x, pv_files st' !! PrivatePem x = pv_files st !! PrivatePem x) by (intros; by apply Hr).
  assert (Hpub : forall x, pv_files st' !! PublicPem x = pv_files st !! PublicPem x
    \/ x = kid /\ pv_files st' !! PublicPem x = Some q).
  { intros x. destruct (decide (x = kid)) as [->|Hne]; [destruct Hf; auto|]. left. apply Hr; congruence. }
  split; [done|]. split.
  - split; [|split].
    + intros x y. rewrite Hpriv. apply Hp.
    + intros x y Hy. destruct (Hpub x) as [Hx|[-> Hx]]; rewrite Hx in Hy; [by apply Hq|]. injection Hy as <-. eauto.
    + rewrite !Hr by done. apply Hl.
  - intros x [Hx1 Hx2]. split; [by rewrite Hpriv|]. destruct (Hpub x) as [Hx|[_ Hx]]; rewrite Hx; [done|eauto].
Qed.

Lemma write_key_files_spec kid k st :
  disk_ok (pv_files st) -> compute_kid (public_from k) = Some kid ->
  wp (write_key_files kid k (public_from k)) (fun r st' => key_kept st st' /\
    (r = Ok tt -> stored kid (pv_files st'))) st.
Proof.
  intros Hd Hkid. unfold write_key_files.
  apply wp_bind, wp_or_context; [|by split; [apply key_kept_refl|]]. intros p Hp.
  apply wp_bind, wp_or_context; [|by split; [apply key_kept_refl|]]. intros q Hq.
  apply wp_bind. eapply wp_mono; [by apply write_atomic_spec|]. intros r st1 (Hm1 & Hr1 & Hok1).
  assert (Hw1 : key_kept st st1) by by eapply private_written. destruct r as [[]|e]; [|done].
  eapply wp_mono; [by apply write_atomic_spec|]. intros r st2 (Hm2 & Hr2 & Hok2).
  assert (Hw2 : key_kept st1 st2) by (eapply public_written; [apply Hw1|done..]).
  split; [by eapply key_kept_trans|]. intros ->. split; [|by rewrite Hok2].
  rewrite (proj1 Hr2) by done. rewrite (Hok1 eq_refl). eauto.
Qed.

Lemma build_keys k k' kp : KeyPair_build k k' = Some kp -> kp_private kp = k /\ kp_public kp = k'.
Proof. unfold KeyPair_build. intros Hb. by simplify_option_eq. Qed.

Lemma build_pair k kp :
  KeyPair_build k (public_from k) = Some kp -> key_pair (encoding_key (kp_keys kp)) (decoding_key (kp_keys kp)).
Proof. unfold KeyPair_build. intros Hb. simplify_option_eq. eapply rsa_pair; eassumption. Qed.

(** A key that is ready to use is on disk. *)
Lemma new_key_spec k st :
  disk_ok (pv_files st) ->
  wp (new_key k (public_from k)) (fun r st' => key_kept st st' /\
    forall kid kp, r = Ok (kid, kp) -> stored kid (pv_files st') /\ pairs_ok {[kid := kp]}) st.
Proof.
  intros Hd. unfold new_key.
  apply wp_bind, wp_or_context; [|by split; [apply key_kept_refl|]]. intros kid Hkid.
  apply wp_bind. eapply wp_mono; [by apply write_key_files_spec|]. intros [[]|e] st1 [Hw Hs]; [|done].
  apply wp_bind, wp_or_context; [|done]. intros kp Hkp. apply wp_ret. split; [done|].
  intros ? ? [= <- <-]. split; [auto|]. intros x y [<- <-]%lookup_singleton_Some.
  destruct (build_keys _ _ _ Hkp) as [H1' H2']. by rewrite H1', H2'.
Qed.

(** *** Start-up *)

Definition reads st st' : Prop := same_memory st st' /\ pv_files st' = pv_files st.

Lemma reads_refl st : reads st st.
Proof. by split; [split_and!|]. Qed.
Lemma reads_later st st' : reads st st' -> reads st (later id st').
Proof. intros [(? & ? & ?) ?]. split; [split_and!|]; simpl; auto. Qed.
Lemma reads_trans st1 st2 st3 : reads st1 st2 -> reads st2 st3 -> reads st1 st3.
Proof. intros [(? & ? & ?) ?] [(? & ? & ?) ?]. split; [split_and!|]; try congruence; lia. Qed.
Hint Resolve reads_refl reads_later : core.

Lemma good_reads st st' : reads st st' -> good st -> good st'.
Proof. intros [(_ & _ & Ht) _] Hg n Hn. apply Hg. lia. Qed.

(** The pair two files of one name make. *)
Lemma stored_pair m kid p q :
  disk_ok m -> m !! PrivatePem kid = Some p -> m !! PublicPem kid = Some q ->
  exists k kp, from_pkcs8_pem p = Some k /\ from_public_key_pem q = Some (public_from k)
    /\ KeyPair_build k (public_from k) = Some kp /\ compute_kid (public_from k) = Some kid
    /\ to_public_key_pem (public_from k) = Some q.
Proof.
  intros (Hp & Hq & _) Hmp Hmq. destruct (Hp _ _ Hmp) as (k & Hk & Hkid). destruct (Hq _ _ Hmq) as (k' & Hk' & Hkid').
  assert (k' = public_from k) as -> by by eapply kid_inj.
  destruct (encoding_of_pem _ _ Hk) as [e He]. destruct (decoding_of_pem _ _ Hk') as [d Hd].
  exists k, (mkRsaKeyPair k (public_from k) q (mkKeyPair e d)). split; [by apply pkcs8_roundtrip|].
  split; [by apply public_roundtrip|]. split; [|done]. unfold KeyPair_build. by simplify_option_eq.
Qed.

(** What the loading loop returns, given what it has so far. *)
Definition loads (entries : list file) (into keys : gmap string RsaKeyPair) st : Prop :=
  pairs_ok keys /\ on_disk keys (pv_files st)
  /\ (good st -> forall kid, is_Some (into !! kid) \/ PrivatePem kid ∈ entries /\ stored kid (pv_files st) ->
        is_Some (keys !! kid)).

Lemma loads_cons f rest into into' keys st st1 :
  reads st st1 -> loads rest into' keys st1 ->
  (good st -> forall kid, is_Some (into !! kid) -> is_Some (into' !! kid)) ->
  (good st -> forall kid, f = PrivatePem kid -> stored kid (pv_files st) -> is_Some (into' !! kid)) ->
  loads (f :: rest) into keys st.
Proof.
  intros Hr (Hp & Ho & Hk) Hinto Hf. pose proof Hr as [_ Hfiles]. rewrite Hfiles in Ho, Hk. split; [done|]. split; [done|].
  intros Hg kid Hkid. apply Hk; [by eapply good_reads|]. destruct Hkid as [Hkid|[Hin Hs]]; [left; by apply Hinto|].
  apply elem_of_cons in Hin as [Heq|Hin]; [left; by apply Hf|auto].
Qed.

Lemma pairs_insert kid kp keys : pairs_ok {[kid := kp]} -> pairs_ok keys -> pairs_ok (<[kid := kp]> keys).
Proof.
  intros Hnew Hold x y [[<- <-]|[_ Hx]]%lookup_insert_Some; [|by apply Hold]. by apply Hnew, lookup_singleton_Some.
Qed.
Lemma on_disk_insert kid kp keys m : stored kid m -> on_disk keys m -> on_disk (<[kid := kp]> keys) m.
Proof. intros Hs Ho x [y [[<- _]|[_ Hx]]%lookup_insert_Some]; [done|eauto]. Qed.
Lemma insert_keeps {A} (keys : gmap string A) kid kp x : is_Some (keys !! x) -> is_Some (<[kid := kp]> keys !! x).
Proof. intros Hx. destruct (decide (kid = x)) as [->|]; [by rewrite lookup_insert_eq|by rewrite lookup_insert_ne]. Qed.

Lemma load_entries_spec entries into st :
  disk_ok (pv_files st) -> pairs_ok into -> on_disk into (pv_files st) ->
  (forall kid, PrivatePem kid ∈ entries -> is_Some (pv_files st !! PrivatePem kid)) ->
  wp (load_entries entries into) (fun r st' => reads st st' /\ (good st -> exists keys, r = Ok keys)
    /\ forall keys, r = Ok keys -> loads entries into keys st) st.
Proof.
  revert into st. induction entries as [|f rest IH]; intros into st Hd Hp Ho Hin.
  { apply wp_ret. split; [done|]. split; [eauto|]. intros ? [= <-]. split; [done|]. split; [done|].
    intros _ kid [Hk|[Hk _]]; [done|]. by apply not_elem_of_nil in Hk. }
  assert (Hin' : forall kid, PrivatePem kid ∈ rest -> is_Some (pv_files st !! PrivatePem kid))
    by (intros kid Hk; apply Hin; by right).
  assert (Hskip : forall st1, reads st st1 ->
    (good st -> forall kid, f = PrivatePem kid -> stored kid (pv_files st) -> False) ->
    wp (load_entries rest into) (fun r st' => reads st st' /\ (good st -> exists keys, r = Ok keys)
      /\ forall keys, r = Ok keys -> loads (f :: rest) into keys st) st1).
  { intros st1 Hr Hno. pose proof Hr as [_ Hfiles]. eapply wp_mono; [apply IH; rewrite ?Hfiles; done|].
    intros r st2 (Hr2 & Hg2 & Hk2). split; [by eapply reads_trans|]. split; [intros Hg; apply Hg2; by eapply good_reads|].
    intros keys ->. eapply loads_cons; [exact Hr|by apply Hk2|done|]. intros Hg kid Hf Hs. by destruct (Hno Hg kid Hf Hs). }
  destruct f as [kid| | | | | |]; try (cbn [load_entries]; apply Hskip; [done|by intros ? ? [=]]).
  cbn [load_entries]. apply wp_bind, wp_fs_exists. intros b Hb1 Hb2.
  destruct b; cbn [negb].
  2:{ apply Hskip; [auto|]. intros Hg x [= <-] [_ [y Hy]]. destruct (Hb2 eq_refl) as [Hf|Hf]; [|congruence].
      by rewrite Hg in Hf by lia. }
  destruct (Hb1 eq_refl) as [q Hq]. destruct (Hin kid) as [p Hpp]; [left|].
  destruct (stored_pair _ _ _ _ Hd Hpp Hq) as (k & kp & Hk1 & Hk2 & Hk3 & Hkid & _).
  assert (Hfail : forall e st1, reads st st1 -> ~ good st -> reads st st1 /\
    (good st -> exists keys, @Err err (gmap string RsaKeyPair) e = Ok keys) /\
    forall keys, @Err err (gmap string RsaKeyPair) e = Ok keys -> loads (PrivatePem kid :: rest) into keys st) by done.
  apply wp_bind, wp_fs_read; [|intros [Hf|Hf]; simpl in Hf; [|congruence]; apply Hfail; auto; intros Hg;
    rewrite Hg in Hf by lia; done].
  intros ? Hx. simpl in Hx. rewrite Hpp in Hx. injection Hx as <-.
  apply wp_bind, wp_fs_read; [|intros [Hf|Hf]; simpl in Hf; [|unfold id in Hf; congruence]; apply Hfail; auto; intros Hg;
    rewrite Hg in Hf by lia; done].
  intros ? Hx. simpl in Hx. unfold id in Hx. rewrite Hq in Hx. injection Hx as <-.
  rewrite Hk1, Hk2. do 2 (apply wp_bind, wp_ret). rewrite Hk3. apply wp_bind, wp_ret.
  set (st1 := later id (later id (later id st))). assert (Hr1 : reads st st1) by (unfold st1; auto).
  destruct (build_keys _ _ _ Hk3) as [Hb3 Hb4].
  assert (Hone : pairs_ok {[kid := kp]}) by (intros x y [<- <-]%lookup_singleton_Some; by rewrite Hb3, Hb4).
  eapply wp_mono; [apply IH; [done|by apply pairs_insert|apply on_disk_insert; [by split; eauto|done]|done]|].
  intros r st2 (Hr2 & Hg2 & Hk). split; [by eapply reads_trans|]. split; [intros Hg; apply Hg2; by eapply good_reads|].
  intros keys ->. eapply loads_cons; [exact Hr1|by apply Hk| |].
  - intros _ x Hx. by apply insert_keeps.
  - intros _ x [= <-] _. by rewrite lookup_insert_eq.
Qed.

Lemma load_existing_spec st :
  disk_ok (pv_files st) ->
  wp load_existing_keys (fun r st' => reads st st' /\ (good st -> exists keys, r = Ok keys) /\
    forall keys, r = Ok keys -> pairs_ok keys /\ on_disk keys (pv_files st)
      /\ (good st -> forall kid, stored kid (pv_files st) -> is_Some (keys !! kid))) st.
Proof.
  intros Hd. unfold load_existing_keys. apply wp_bind, wp_fs_read_dir.
  2:{ intros Hf. split; [auto|]. split; [|done]. intros Hg. by rewrite Hg in Hf by lia. }
  intros l Hl. assert (Hin : forall kid, PrivatePem kid ∈ l <-> is_Some (pv_files st !! PrivatePem kid)).
  { intros kid. rewrite Hl, list_elem_of_fmap. split.
    - intros ([f v] & -> & Hm%elem_of_map_to_list). eauto.
    - intros [v Hv]. exists (PrivatePem kid, v). split; [done|]. by apply elem_of_map_to_list. }
  eapply wp_mono; [apply load_entries_spec; [done|by intros ? ?; rewrite lookup_empty|..]|].
  - intros kid. rewrite lookup_empty. by intros [].
  - intros kid. by rewrite Hin.
  - intros r st' (Hr & Hg & Hk). split; [eapply reads_trans; [|done]; auto|].
    split; [intros Hgd; apply Hg; by apply good_later|].
    intros keys ->. destruct (Hk keys eq_refl) as (Hp & Ho & Hall). split; [done|]. split; [done|].
    intros Hgd kid Hs. apply Hall; [by apply good_later|]. right. split; [apply Hin, Hs|done].
Qed.

(** What a start-up may add: keys that are on disk. *)
Definition adds st (keys keys' : gmap string RsaKeyPair) st' : Prop :=
  pairs_ok keys' /\ on_disk keys' (pv_files st') /\ forall kid, is_Some (keys !! kid) -> is_Some (keys' !! kid).

Definition starts (keys : gmap string RsaKeyPair) st (r : res err (gmap string RsaKeyPair)) st' : Prop :=
  key_kept st st' /\ forall keys', r = Ok keys' -> adds st keys keys' st'.

Lemma kept_reads st st' : disk_ok (pv_files st) -> reads st st' -> key_kept st st'.
Proof. intros Hd [Hm Hf]. split; [done|]. rewrite Hf. split; [done|by intros kid Hk]. Qed.

(** Files that are no key files come and go. *)
Lemma kept_file f h st :
  disk_ok (pv_files st) -> f ∈ [ActiveKid; LegacyPrivate; LegacyPublic] ->
  (h = id \/ h = delete f \/ f = ActiveKid /\ exists g, h = <[f := g]>) -> key_kept st (later h st).
Proof.
  intros (Hp & Hq & Hl) Hin Hh.
  assert (Hsame : forall g, g <> f -> h (pv_files st) !! g = pv_files st !! g).
  { intros g Hg. destruct Hh as [->|[->|(-> & x & ->)]]; [done|by rewrite lookup_delete_ne|by rewrite lookup_insert_ne]. }
  assert (Hk : forall kid, PrivatePem kid <> f /\ PublicPem kid <> f) by (intros kid; set_solver).
  split; [split_and!; simpl; auto|]. unfold disk_ok, grows, stored. simpl. split; [split; [|split]|].
  - intros kid. rewrite Hsame by apply Hk. apply Hp.
  - intros kid. rewrite Hsame by apply Hk. apply Hq.
  - intros p q H1' H2'. apply (Hl p q).
    + destruct Hh as [->|[->|(-> & x & ->)]]; [done|by apply lookup_delete_Some in H1' as [_ ?]|].
      by rewrite lookup_insert_ne in H1'.
    + destruct Hh as [->|[->|(-> & x & ->)]]; [done|by apply lookup_delete_Some in H2' as [_ ?]|].
      by rewrite lookup_insert_ne in H2'.
  - intros kid. by rewrite !Hsame by apply Hk.
Qed.

Lemma insert_adds kid kp keys st st0 st1 :
  key_kept st0 st1 -> stored kid (pv_files st1) -> pairs_ok {[kid := kp]} -> pairs_ok keys -> on_disk keys (pv_files st0) ->
  adds st keys (<[kid := kp]> keys) st1.
Proof.
  intros (_ & _ & Hg) Hs Hn Hp Ho. split; [by apply pairs_insert|]. split; [|intros x; apply insert_keeps].
  apply on_disk_insert; [done|]. intros x Hx. apply Hg. by apply Ho.
Qed.

Lemma migrate_spec keys st :
  disk_ok (pv_files st) -> pairs_ok keys -> on_disk keys (pv_files st) ->
  wp (migrate_legacy keys) (starts keys st) st.
Proof.
  intros Hd Hp Ho. unfold migrate_legacy.
  assert (Hno : forall st1, reads st st1 -> starts keys st (Ok keys) st1).
  { intros st1 Hr. split; [by apply kept_reads|]. intros ? [= <-]. split; [done|]. split; [|done].
    destruct Hr as [_ ->]. done. }
  assert (Herr : forall e st1, key_kept st st1 -> starts keys st (Err e) st1) by done.
  apply wp_bind. destruct (bool_decide _); [|by apply wp_ret, wp_bind, wp_ret, wp_ret, Hno].
  apply wp_fs_exists. intros b Hb _. destruct b; [|apply wp_bind, wp_ret, wp_ret, Hno; auto].
  apply wp_bind, wp_fs_exists. intros b Hb' _. destruct b; [|apply wp_ret, Hno; auto].
  destruct (Hb eq_refl) as [p Hpp]. destruct (Hb' eq_refl) as [q Hqq]. simpl in Hqq. unfold id in Hqq.
  destruct (proj2 (proj2 Hd) p q Hpp Hqq) as (k & Hk1 & Hk2).
  apply wp_bind, wp_fs_read; [|intros _; by apply Herr, kept_reads; auto]. intros ? Hx. simpl in Hx. unfold id in Hx.
  rewrite Hpp in Hx. injection Hx as <-.
  apply wp_bind, wp_fs_read; [|intros _; by apply Herr, kept_reads; auto]. intros ? Hx. simpl in Hx. unfold id in Hx.
  rewrite Hqq in Hx. injection Hx as <-.
  rewrite (pkcs8_roundtrip _ _ Hk1), (public_roundtrip _ _ Hk2). do 2 (apply wp_bind, wp_ret).
  set (st0 := later id _). assert (Hr0 : reads st st0) by (unfold st0; auto).
  assert (Hk0 : key_kept st st0) by by apply kept_reads.
  apply wp_bind. eapply wp_mono; [apply new_key_spec; apply Hk0|]. intros [[kid kp]|e] st1 [Hw Hn].
  2:{ apply Herr. by eapply key_kept_trans. }
  destruct (Hn kid kp eq_refl) as [Hs Hone].
  apply wp_bind, wp_ignore, wp_fs_remove. intros _ h1 Hh1.
  assert (Hw1 : key_kept st1 (later h1 st1)) by (apply (kept_file LegacyPrivate); [apply Hw|set_solver|naive_solver]).
  apply wp_bind, wp_ignore, wp_fs_remove. intros _ h2 Hh2.
  assert (Hw2 : key_kept (later h1 st1) (later h2 (later h1 st1)))
    by (apply (kept_file LegacyPublic); [apply Hw1|set_solver|naive_solver]).
  apply wp_ret. assert (Hw3 : key_kept st1 (later h2 (later h1 st1))) by by eapply key_kept_trans.
  split; [eapply key_kept_trans; [exact Hk0|]; by eapply key_kept_trans|]. intros ? [= <-].
  apply (insert_adds kid kp keys st st0); [by eapply key_kept_trans|by apply Hw3|done|done|].
  by destruct Hr0 as [_ ->].
Qed.

Lemma first_kid_spec keys kid : first_kid keys = Some kid -> is_Some (keys !! kid).
Proof.
  unfold first_kid, sorted. destruct (merge_sort String.le (elements (dom keys))) as [|x l] eqn:Hl; [done|].
  intros [= ->]. apply elem_of_dom, elem_of_elements. rewrite <- (merge_sort_Permutation String.le), Hl. left.
Qed.

Lemma choose_active_spec keys st :
  disk_ok (pv_files st) -> pairs_ok keys -> on_disk keys (pv_files st) ->
  wp (choose_active keys) (fun r st' => key_kept st st' /\ forall keys' kid, r = Ok (keys', kid) ->
    adds st keys keys' st' /\ is_Some (keys' !! kid)) st.
Proof.
  intros Hd Hp Ho. unfold choose_active. apply wp_bind. eapply wp_mono; [by apply migrate_spec|].
  intros [keys1|e] st1 [Hk1 Ha1]; [|done]. destruct (Ha1 keys1 eq_refl) as (Hp1 & Ho1 & Hs1).
  apply wp_bind. eapply (wp_mono _ (starts keys1 st1)).
  { destruct (bool_decide _); [|apply wp_ret; split; [by apply key_kept_refl, Hk1|]; by intros ? [= <-]].
    apply wp_bind, wp_generate; [|intros e; split; [by apply kept_reads; [apply Hk1|auto]|done]]. intros k.
    apply wp_bind. eapply wp_mono; [apply new_key_spec, Hk1|]. intros r st2 [Hw Hn].
    assert (Hw' : key_kept st1 st2) by (eapply key_kept_trans; [|exact Hw]; by apply kept_reads; [apply Hk1|auto]).
    destruct r as [[kid kp]|e]; [|done]. destruct (Hn kid kp eq_refl). apply wp_ret. split; [done|]. intros ? [= <-].
    by apply (insert_adds kid kp keys1 st1 st1). }
  intros [keys2|e] st2 [Hk2 Ha2]; [|split; [by eapply key_kept_trans|done]].
  destruct (Ha2 keys2 eq_refl) as (Hp2 & Ho2 & Hs2).
  assert (Hk : key_kept st st2) by by eapply key_kept_trans.
  apply wp_bind, wp_or_context; [|done]. intros first Hf%first_kid_spec.
  assert (Hkf : forall h, (h = id \/ exists g, h = <[ActiveKid := g]>) -> key_kept st (later h st2)).
  { intros h Hh. eapply key_kept_trans; [exact Hk|]. apply (kept_file ActiveKid); [apply Hk|set_solver|naive_solver]. }
  apply wp_bind, wp_fs_write; [|intros _ h Hh; split; [by apply Hkf|done]].
  apply wp_ret. split; [apply Hkf; eauto|]. intros ? ? [= <- <-]. split; [|done]. split; [done|]. split; [|auto].
  intros x Hx. destruct (Ho2 x Hx) as [[a Ha] [b Hb]]. split; simpl; rewrite lookup_insert_ne by done; eauto.
Qed.

(** The provider's promise: memory and disk agree, and the active key is loaded. *)
Definition provider_ok st : Prop :=
  disk_ok (pv_files st) /\ pairs_ok (pv_by_kid st) /\ on_disk (pv_by_kid st) (pv_files st)
  /\ is_Some (pv_by_kid st !! pv_active_kid st).

(** The outcome of a start-up. *)
Definition started st (r : res err unit) st' : Prop :=
  disk_ok (pv_files st') /\ grows (pv_files st) (pv_files st')
  /\ (r = Ok tt -> provider_ok st') /\ (r <> Ok tt -> same_memory st st')
  /\ (good st -> r = Ok tt -> forall kid, stored kid (pv_files st) -> is_Some (pv_by_kid st' !! kid)).

Lemma set_store_started keys active st st3 :
  disk_ok (pv_files st3) -> grows (pv_files st) (pv_files st3) -> pairs_ok keys -> on_disk keys (pv_files st3) ->
  is_Some (keys !! active) -> (good st -> forall kid, stored kid (pv_files st) -> is_Some (keys !! kid)) ->
  wp (set_store keys active) (fun r st' => started st r st' /\ r = Ok tt /\ pv_active_kid st' = active) st3.
Proof. intros Hd Hg Hp Ho Ha Hall. apply wp_set_store. split; [|done]. unfold started. simpl. split_and!; try done. auto. Qed.

Lemma init_spec st :
  disk_ok (pv_files st) ->
  wp init (fun r st' => started st r st'
    /\ (good st -> forall kid, pv_files st !! ActiveKid = Some kid -> trim kid = kid -> stored kid (pv_files st) ->
          r = Ok tt /\ pv_active_kid st' = kid)) st.
Proof.
  intros Hd. unfold init. apply wp_bind. eapply wp_mono; [by apply load_existing_spec|].
  intros r st1 (Hr1 & Hg1 & Hload).
  assert (Hfail : forall e st2, reads st st2 -> ~ good st -> started st (Err e) st2
    /\ (good st -> forall kid, pv_files st !! ActiveKid = Some kid -> trim kid = kid -> stored kid (pv_files st) ->
          @Err err unit e = Ok tt /\ pv_active_kid st2 = kid)).
  { intros e st2 [Hm Hf] Hng. split; [|done]. unfold started. rewrite Hf. split_and!; try done. by intros kid Hk. }
  destruct r as [keys|e]; [|apply Hfail; [done|]; intros Hg; by destruct (Hg1 Hg)].
  destruct (Hload keys eq_refl) as (Hp & Ho & Hall). pose proof Hr1 as [_ Hf1].
  apply wp_bind, wp_fs_exists. intros b Hb1 Hb2. rewrite Hf1 in Hb1, Hb2.
  (* no usable name of an active key *)
  assert (Hchoose : forall st2, reads st st2 ->
    (good st -> forall kid, pv_files st !! ActiveKid = Some kid -> trim kid = kid -> ~ stored kid (pv_files st)) ->
    wp (let! ' (by_kid, active) := choose_active keys in set_store by_kid active) (fun r st' => started st r st'
      /\ (good st -> forall kid, pv_files st !! ActiveKid = Some kid -> trim kid = kid -> stored kid (pv_files st) ->
            r = Ok tt /\ pv_active_kid st' = kid)) st2).
  { intros st2 Hr2 Hno. pose proof Hr2 as [Hm2 Hf2]. apply wp_bind.
    eapply wp_mono; [apply choose_active_spec; rewrite ?Hf2; done|]. intros r st3 [(Hm3 & Hd3 & Hg3) Ha].
    rewrite Hf2 in Hg3. destruct r as [[keys' active]|e].
    - destruct (Ha keys' active eq_refl) as [(Hp' & Ho' & Hs') Hact].
      eapply wp_mono; [apply (set_store_started keys' active st); auto|]. intros r st4 [Hst _]. split; [done|].
      intros Hg kid Hk Ht Hs. by destruct (Hno Hg kid Hk Ht).
    - split; [|intros Hg kid Hk Ht Hs; by destruct (Hno Hg kid Hk Ht)]. unfold started. split_and!; try done.
      destruct Hm2 as (? & ? & ?), Hm3 as (? & ? & ?). intros _. split_and!; try congruence; lia. }
  apply wp_bind. destruct b.
  2:{ apply wp_ret, Hchoose; [auto|]. intros Hg kid Hk _ _. destruct (Hb2 eq_refl) as [Hf|Hf]; [|congruence].
      rewrite (good_reads _ _ Hr1 Hg) in Hf by done. done. }
  apply wp_bind, wp_fs_read; [|].
  2:{ intros [Hf|Hf]; [|destruct (Hb1 eq_refl); simpl in Hf; unfold id in Hf; congruence]. apply Hfail; [auto|].
      intros Hg. rewrite (good_reads _ _ (reads_later _ _ Hr1) Hg) in Hf by done. done. }
  intros s Hs. simpl in Hs. unfold id in Hs. rewrite Hf1 in Hs. apply wp_ret. case_bool_decide as Hk.
  - eapply wp_mono; [apply (set_store_started keys (trim s) st); simpl; unfold id; rewrite ?Hf1; auto; by intros kid Hkid|].
    intros r st4 (Hst & -> & Hact). split; [done|]. intros Hg kid Hkid Ht Hsto. split; [done|]. congruence.
  - apply Hchoose; [auto|]. intros Hg kid Hkid Ht Hsto. apply Hk. assert (kid = s) as -> by congruence. rewrite Ht. by apply Hall.
Qed.

Lemma provider_kept st st' :
  key_kept st st' -> provider_ok st -> provider_ok st'.
Proof.
  intros ((Hk & Ha & _) & Hd & Hg) (_ & Hp & Ho & Hact). unfold provider_ok. rewrite Hk, Ha.
  split; [done|]. split; [done|]. split; [|done]. intros kid Hkid. apply Hg. by apply Ho.
Qed.

(** A rotation that fails before the new key is on disk changes nothing in memory;
    afterwards the new key is active. *)
Lemma key_rotate_spec st :
  provider_ok st ->
  wp rotate (fun r st' => provider_ok st' /\ (forall kid, is_Some (pv_by_kid st !! kid) -> is_Some (pv_by_kid st' !! kid))
    /\ forall kid, r = Ok kid -> pv_active_kid st' = kid /\ pv_files st' !! ActiveKid = Some kid) st.
Proof.
  intros Hok. pose proof Hok as (Hd & Hp & Ho & Hact). unfold rotate. apply wp_bind, wp_generate.
  2:{ intros e. split; [by eapply provider_kept; [apply kept_reads; auto|]|done]. }
  intros k. apply wp_bind. eapply wp_mono; [apply new_key_spec; done|]. intros r st1 [Hw Hn].
  assert (Hw' : key_kept st st1) by (eapply key_kept_trans; [|exact Hw]; by apply kept_reads; auto).
  pose proof Hw' as ((Hk1 & Ha1 & _) & Hd1 & Hg1).
  destruct r as [[kid kp]|e]; [|split; [by eapply provider_kept|by rewrite Hk1]].
  destruct (Hn kid kp eq_refl) as [Hs Hone]. apply wp_bind, wp_activate. set (st2 := mkProvider _ _ _ _).
  assert (Hok2 : provider_ok st2).
  { unfold provider_ok. simpl. rewrite Hk1. split; [done|]. split; [by apply pairs_insert|].
    split; [|by rewrite lookup_insert_eq]. apply on_disk_insert; [done|]. intros x Hx. apply Hg1. by apply Ho. }
  assert (Hkeep : forall x, is_Some (pv_by_kid st !! x) -> is_Some (pv_by_kid st2 !! x))
    by (intros x Hx; simpl; rewrite Hk1; by apply insert_keeps).
  assert (Hkf : forall h, (h = id \/ exists g, h = <[ActiveKid := g]>) -> provider_ok (later h st2)).
  { intros h Hh. eapply provider_kept; [|exact Hok2]. apply (kept_file ActiveKid); [done|set_solver|naive_solver]. }
  apply wp_bind, wp_fs_write; [|intros _ h Hh; split; [by apply Hkf|done]].
  apply wp_ret. split; [apply Hkf; eauto|]. split; [done|]. intros ? [= <-]. simpl. by rewrite lookup_insert_eq.
Qed.

(** *** Retiring *)

Lemma disk_ok_delete f m : disk_ok m -> disk_ok (delete f m).
Proof.
  intros (Hp & Hq & Hl). split; [|split].
  - intros kid p [_ Hx]%lookup_delete_Some. by apply Hp.
  - intros kid q [_ Hx]%lookup_delete_Some. by apply Hq.
  - intros p q [_ Hx]%lookup_delete_Some [_ Hy]%lookup_delete_Some. by apply Hl.
Qed.

Lemma remove_kept kid f h st :
  f = PrivatePem kid \/ f = PublicPem kid -> h = id \/ h = delete f -> pv_by_kid st !! kid = None ->
  provider_ok st -> provider_ok (later h st).
Proof.
  intros Hf Hh Hnone (Hd & Hp & Ho & Hact). split; simpl; [destruct Hh as [->| ->]; [done|by apply disk_ok_delete]|].
  split; [done|]. split; [|done]. intros x Hx. assert (Hne : x <> kid) by (intros ->; rewrite Hnone in Hx; by destruct Hx).
  destruct (Ho x Hx) as [H1' H2']. destruct Hh as [->| ->]; [done|].
  split; rewrite lookup_delete_ne; try done; destruct Hf as [->| ->]; congruence.
Qed.

Lemma retire_spec kid st :
  provider_ok st ->
  wp (retire kid) (fun r st' => provider_ok st' /\ pv_active_kid st' = pv_active_kid st
    /\ pv_by_kid st' = match r with Ok true => delete kid (pv_by_kid st) | _ => pv_by_kid st end
    /\ (r = Ok true -> kid <> pv_active_kid st)) st.
Proof.
  intros Hok. apply wp_retire.
  { intros r Hr. destruct r as [[]|e]; [by discriminate (Hr true eq_refl)|done..]. }
  intros Hne Hk. set (st1 := mkProvider _ _ _ _).
  assert (Hok1 : provider_ok st1).
  { destruct Hok as (Hd & Hp & Ho & Hact). split; [done|]. simpl. split; [|split].
    - intros x kp [_ Hx]%lookup_delete_Some. by apply Hp.
    - intros x [kp [_ Hx]%lookup_delete_Some]. eauto.
    - by rewrite lookup_delete_ne. }
  apply wp_bind, wp_ignore, wp_fs_remove. intros _ h1 Hh1.
  assert (Hok2 : provider_ok (later h1 st1)) by (apply (remove_kept kid (PrivatePem kid)); auto; apply lookup_delete_eq).
  apply wp_bind, wp_ignore, wp_fs_remove. intros _ h2 Hh2. apply wp_ret.
  split; [apply (remove_kept kid (PublicPem kid)); auto; apply lookup_delete_eq|done].
Qed.

(** *** Reachable states *)

Inductive key_op := KInit | KRotate | KRetire (kid : string).

Definition run_key_op (op : key_op) : key_io unit :=
  match op with
  | KInit => init
  | KRotate => do! rotate in ret tt
  | KRetire kid => do! retire kid in ret tt
  end.

Definition key_step st st' : Prop := exists op r, run_key_op op st = (r, st').

Lemma key_step_ok st st' : key_step st st' -> provider_ok st -> provider_ok st'.
Proof.
  intros (op & r & Hrun) Hok. destruct op; simpl in Hrun.
  - destruct (wp_run _ _ _ _ _ (init_spec st (proj1 Hok)) Hrun) as [(Hd & Hg & Hyes & Hno & _) _].
    destruct r as [[]|e]; [by apply Hyes|]. eapply provider_kept; [|exact Hok]. split; [by apply Hno|done].
  - assert (Hwp : wp (do! rotate in ret tt) (fun _ st' => provider_ok st') st).
    { apply wp_bind. eapply wp_mono; [by apply key_rotate_spec|]. intros [kid|e] st1 [Hst1 _]; [by apply wp_ret|done]. }
    exact (wp_run _ _ _ _ _ Hwp Hrun).
  - assert (Hwp : wp (do! retire kid in ret tt) (fun _ st' => provider_ok st') st).
    { apply wp_bind. eapply wp_mono; [by apply retire_spec|]. intros [b|e] st1 [Hst1 _]; [by apply wp_ret|done]. }
    exact (wp_run _ _ _ _ _ Hwp Hrun).
Qed.

Lemma reachable_ok st0 st1 st :
  disk_ok (pv_files st0) -> init st0 = (Ok tt, st1) -> rtc key_step st1 st -> provider_ok st.
Proof.
  intros Hd Hinit Hr. assert (Hok : provider_ok st1).
  { destruct (wp_run _ _ _ _ _ (init_spec st0 Hd) Hinit) as [(_ & _ & Hyes & _) _]. by apply Hyes. }
  clear Hinit. induction Hr as [|x y z Hs _ IH]; [done|]. apply IH. by eapply key_step_ok.
Qed.

(** What the signer and the validator rely on. *)
Lemma provider_ok_provides st : provider_ok st -> KeyProvider (store_view st).
Proof.
  intros (_ & Hp & _ & [kp Hact]). split.
  - simpl. rewrite lookup_fmap, Hact. by eexists.
  - simpl. destruct (Hp _ _ Hact) as (_ & _ & Hkid). by destruct (kid_named _ _ Hkid).
  - simpl. intros kid kp0 (x & <- & Hx)%lookup_fmap_Some. destruct (Hp _ _ Hx) as (Hb & Hpub & _).
    rewrite Hpub in Hb. by eapply build_pair.
Qed.

(** The pair is fixed by its public key, up to the private half. *)
Lemma build_decoding k k' p kp kp' :
  KeyPair_build k p = Some kp -> KeyPair_build k' p = Some kp' -> decoding_key (kp_keys kp) = decoding_key (kp_keys kp').
Proof. unfold KeyPair_build. intros Ha Hb. by simplify_option_eq. Qed.

Lemma pairs_agree keys keys' kid kp kp' :
  pairs_ok keys -> pairs_ok keys' -> keys !! kid = Some kp -> keys' !! kid = Some kp' ->
  decoding_key (kp_keys kp) = decoding_key (kp_keys kp').
Proof.
  intros Hp Hp' Hk Hk'. destruct (Hp _ _ Hk) as (Hb & _ & Hc). destruct (Hp' _ _ Hk') as (Hb' & _ & Hc').
  rewrite (kid_inj _ _ _ Hc Hc') in Hb. by eapply build_decoding.
Qed.
End Specs.

(** ** Theorems *)

(** The provider always has the active key.  From a start-up on, along every
    sequence of rotations, retirements and restarts, with any pattern of failing
    file operations, the active key is loaded under a name that is not empty and
    every loaded pair consists of two halves of one RSA key: what the signer and
    the validator rely on. *)
Theorem keys_always_provided `{RsaLaws} `{Crypto} `{!KidLaws} `{!FsEnv} `{!FsLaws} st0 st1 st :
  disk_ok (pv_files st0) -> init st0 = (Ok tt, st1) -> rtc key_step st1 st -> KeyProvider (store_view st).
Proof.
  intros Hd Hinit Hr. by eapply provider_ok_provides, reachable_ok.
Qed.

(** C19: No key is lost in a restart.  In every state the provider can reach, if the
    process restarts and the files can be read, every key that was loaded is loaded
    again with the same public half, so tokens signed before stay valid; and after
    a rotation that reported success the restart succeeds and the new key is still
    the active one. *)
Theorem keys_survive_restart `{RsaLaws} `{Crypto} `{!KidLaws} `{!FsEnv} `{!FsLaws} st0 st1 st :
  disk_ok (pv_files st0) -> init st0 = (Ok tt, st1) -> rtc key_step st1 st ->
  (forall st2 st3, pv_files st2 = pv_files st -> good st2 -> init st2 = (Ok tt, st3) ->
     forall kid kp, pv_by_kid st !! kid = Some kp ->
       exists kp', pv_by_kid st3 !! kid = Some kp' /\ decoding_key (kp_keys kp') = decoding_key (kp_keys kp))
  /\ (forall kid st' st2, rotate st = (Ok kid, st') -> pv_files st2 = pv_files st' -> good st2 ->
        exists st3, init st2 = (Ok tt, st3) /\ pv_active_kid st3 = kid).
Proof.
  intros Hd Hinit Hr. pose proof (reachable_ok _ _ _ Hd Hinit Hr) as Hok. split.
  - intros st2 st3 Hf Hg Hrun kid kp Hk. destruct Hok as (Hdk & Hp & Ho & _). rewrite <- Hf in Hdk, Ho.
    destruct (wp_run _ _ _ _ _ (init_spec st2 Hdk) Hrun) as [(_ & _ & Hyes & _ & Hall) _].
    destruct (Hall Hg eq_refl kid) as [kp' Hk']; [apply Ho; eauto|]. exists kp'. split; [done|].
    destruct (Hyes eq_refl) as (_ & Hp3 & _). symmetry. exact (pairs_agree _ _ _ _ _ Hp Hp3 Hk Hk').
  - intros kid st' st2 Hrot Hf Hg.
    destruct (wp_run _ _ _ _ _ (key_rotate_spec st Hok) Hrot) as ((Hd' & Hp' & Ho' & [kp Hact]) & _ & Hkid).
    destruct (Hkid kid eq_refl) as [Ha Hfile]. rewrite Ha in Hact. rewrite <- Hf in Hd', Ho', Hfile.
    destruct (init st2) as [r st3] eqn:Hrun. destruct (wp_run _ _ _ _ _ (init_spec st2 Hd') Hrun) as [_ Hact3].
    destruct (Hp' _ _ Hact) as (_ & _ & Hc). destruct (kid_named _ _ Hc) as [_ Htrim].
    destruct (Hact3 Hg kid Hfile Htrim (Ho' kid ltac:(eauto))) as [-> Ha3]. eauto.
Qed.

(** Retiring spares the active key.  A retirement that reports success removes
    that key and no other from the set, so what it signed no longer validates, and
    it was not the active key; in every other case the set is as it was. *)
Theorem retire_spares_active `{RsaLaws} `{Crypto} `{!KidLaws} `{!FsEnv} `{!FsLaws} kid st r st' :
  provider_ok st -> retire kid st = (r, st') ->
  pv_active_kid st' = pv_active_kid st
  /\ pv_by_kid st' = match r with Ok true => delete kid (pv_by_kid st) | _ => pv_by_kid st end
  /\ (r = Ok true -> kid <> pv_active_kid st
        /\ (kid <> "" -> decoding_key_by_kid (store_view st') (Some kid) = Ok None)).
Proof.
  intros Hok Hrun. destruct (wp_run _ _ _ _ _ (retire_spec kid st Hok) Hrun) as (_ & Ha & Hk & Hne).
  split; [done|]. split; [done|]. intros ->. split; [by apply Hne|]. intros Hkid.
  unfold decoding_key_by_kid. simpl. rewrite (is_empty_false _ Hkid). simpl. by rewrite lookup_fmap, Hk, lookup_delete_eq.
Qed.

(** ** Witnesses *)

Import Instances JwtInstance.

(** Two RSA keys. *)
Definition demo_pem (k : bool) : string := if k then "key-one-16-bytes" else "key-two-16-bytes".
Definition demo_unpem (s : string) : option bool :=
  if bool_decide (s = demo_pem true) then Some true
  else if bool_decide (s = demo_pem false) then Some false else None.

#[export] Instance demo_rsa : RsaLib := {|
  RsaPrivateKey := bool; RsaPublicKey := bool; public_from k := k;
  to_pkcs8_pem k := Some (demo_pem k); to_public_key_pem k := Some (demo_pem k);
  to_public_key_der k := Some (demo_pem k);
  from_pkcs8_pem := demo_unpem; from_public_key_pem := demo_unpem;
  encoding_from_rsa_pem s := Some s : option EncodingKey; decoding_from_rsa_pem s := Some s : option DecodingKey;
  n_to_bytes_be k := demo_pem k; e_to_bytes_be k := "AQAB" |}.
#[export] Instance demo_rsa_laws : RsaLaws.
Proof.
  split; simpl.
  - by intros [] p [= <-].
  - by intros [] p [= <-].
  - eauto.
  - eauto.
  - intros k p q e d [= <-] [= <-] [= <-] [= <-]. apply demo_key_pair.
Qed.
#[export] Instance demo_kid : KidLaws.
Proof.
  split; simpl.
  - intros [] [] kid; cbn; intros [= <-]; try done; by intros [=].
  - intros [] kid; cbn; intros [= <-]; split; (discriminate || vm_compute; reflexivity).
Qed.

(** File operations succeed, except at the ticks in [bad]; the keys alternate. *)
Definition demo_fs (bad : list nat) : FsEnv := {|
  fs_ok n := bool_decide (n ∉ bad); fs_partial _ := None; dir_order _ l := l;
  rsa_keygen n := Some (bool_decide (n < 10)) : option RsaPrivateKey |}.
#[export] Instance demo_fs_ok : FsEnv := demo_fs [].
#[export] Instance demo_fs_laws : FsLaws.
Proof. by split. Qed.

Definition provider0 : Provider := mkProvider 0 ∅ ∅ "".
Definition provider1 : Provider := (init provider0).2.
Definition provider2 : Provider := (rotate provider1).2.
Definition restarted (st : Provider) : Provider := mkProvider (pv_tick st) (pv_files st) ∅ "".
Definition provider3 : Provider := (init (restarted provider2)).2.

Lemma provider0_disk : disk_ok (pv_files provider0).
Proof. split; [|split]; intros ? ? Hx; discriminate Hx. Qed.
Lemma provider0_init : init provider0 = (Ok tt, provider1).
Proof. apply run_fst. vm_compute. reflexivity. Qed.
Lemma provider1_rotate : rotate provider1 = (Ok (key_id provider2), provider2).
Proof. apply run_fst. vm_compute. reflexivity. Qed.
Lemma provider1_steps : rtc key_step provider1 provider2.
Proof. apply rtc_once. exists KRotate, (Ok tt). exact (bind_eq _ _ _ _ _ provider1_rotate). Qed.

Lemma restarted_files st : pv_files (restarted st) = pv_files st.
Proof. reflexivity. Qed.
Lemma demo_good st : good st.
Proof. intros n _. reflexivity. Qed.
Lemma provider3_runs : (init (restarted provider2)).1 = Ok tt.
Proof. vm_compute. reflexivity. Qed.
Lemma provider3_init : init (restarted provider2) = (Ok tt, provider3).
Proof. unfold provider3. exact (run_fst init (restarted provider2) (Ok tt) provider3_runs). Qed.

Lemma keys_always_provided_witness : KeyProvider (store_view provider2) /\ key_id provider2 <> key_id provider1.
Proof.
  split; [|vm_compute; discriminate].
  exact (keys_always_provided provider0 provider1 provider2 provider0_disk provider0_init provider1_steps).
Defined.

Lemma keys_survive_restart_witness :
  (forall kid kp, pv_by_kid provider2 !! kid = Some kp -> is_Some (pv_by_kid provider3 !! kid))
  /\ exists st3, init (restarted provider2) = (Ok tt, st3) /\ pv_active_kid st3 = key_id provider2.
Proof.
  split.
  - intros kid kp Hk.
    destruct (keys_survive_restart provider0 provider1 provider2 provider0_disk provider0_init provider1_steps) as [Hall _].
    destruct (Hall (restarted provider2) provider3 (restarted_files _) (demo_good _) provider3_init kid kp Hk)
      as (kp' & Hk' & _). exists kp'. exact Hk'.
  - destruct (keys_survive_restart provider0 provider1 provider1 provider0_disk provider0_init (rtc_refl _ _)) as [_ Hrot].
    exact (Hrot (key_id provider2) provider2 (restarted provider2) provider1_rotate (restarted_files _) (demo_good _)).
Defined.

Lemma retire_spares_active_witness :
  (retire (key_id provider1) provider2).1 = Ok true
  /\ pv_by_kid (retire (key_id provider1) provider2).2 = delete (key_id provider1) (pv_by_kid provider2).
Proof.
  assert (Hr : (retire (key_id provider1) provider2).1 = Ok true) by (vm_compute; reflexivity). split; [exact Hr|].
  exact (proj1 (proj2 (retire_spares_active (key_id provider1) provider2 (Ok true) _
    (reachable_ok _ _ _ provider0_disk provider0_init provider1_steps) (run_fst _ _ _ Hr)))).
Defined.

(** *** Two surprises of a restart

    The removal of a retired key's files is not checked: if it fails, the key comes
    back with the next start.  And a rotation whose last write fails reports an error
    although the new key is in use; the next start goes back to the old one. *)
Definition is_loaded (kid : string) (st : Provider) : bool := bool_decide (is_Some (pv_by_kid st !! kid)).
Definition retire_bad : FsEnv := demo_fs [17; 18].
Definition provider_retired : Provider := (@retire _ _ retire_bad (key_id provider1) provider2).2.

Example retired_key_returns :
  (@retire _ _ retire_bad (key_id provider1) provider2).1 = Ok true
  /\ is_loaded (key_id provider1) provider_retired = false
  /\ is_loaded (key_id provider1) (init (restarted provider_retired)).2 = true.
Proof. split; [|split]; vm_compute; reflexivity. Qed.

Definition rotate_bad : FsEnv := demo_fs [16].
Definition provider_rotated : Provider := (@rotate _ _ _ rotate_bad provider1).2.

Example failed_rotation_is_active :
  (@rotate _ _ _ rotate_bad provider1).1 = Err io_error
  /\ key_id provider_rotated <> key_id provider1
  /\ key_id (init (restarted provider_rotated)).2 = key_id provider1.
Proof. split; [vm_compute; reflexivity|]. split; [vm_compute; discriminate|]. vm_compute. reflexivity. Qed.
