(* ===== verification/Role.v ===== *)
(** * Roles and their hierarchy ([role/mod.rs])

    Roles form a forest through [parent_id].  [set_parent] is the only writer of
    [parent_id]; it walks up from the new parent inside a transaction and
    refuses an edge that would close a cycle.  A user's effective roles are the
    assigned ones and all their ancestors.

    Both walks are loops bounded by the number of roles; the fuel given to them
    is that bound, and [climb_fuel] and [walk_fuel] show it is never used up. *)

From stdpp Require Import base tactics list gmap strings relations.
From Stdlib Require Import ZArith Lia.
From S2P Require Import Prelude RustStr Redis Schema World Demo.

Local Open Scope auth_scope.

(** ** Statements *)

(** [INSERT INTO roles (id, name, description, parent_id, created_at) VALUES ...] *)
Definition insert_role (r : Role) : stmt unit := fun d =>
  let? name := varchar 100 (role_name r) in
  let row := mkRole (role_id r) name (role_description r) (role_parent_id r)
               (pg_ts (role_created_at r)) in
  check! negb (has_row (roles d) (role_id r)) else unique_violation in
  check! no_row (fun x => role_name x = name) (roles d) else unique_violation in
  check! (match role_parent_id r with
          | None => true
          | Some p => bool_decide (p = role_id r) || has_row (roles d) p
          end) else foreign_key_violation in
  Ok (tt, on_roles <[role_id r := row]> d).

(** [INSERT INTO user_roles (user_id, role_id) VALUES ($1, $2) ON CONFLICT DO NOTHING] *)
Definition insert_user_role (user role : Uuid) : stmt unit := fun d =>
  if bool_decide ((user, role) ∈ user_roles d) then Ok (tt, d)
  else
    check! has_row (users d) user && has_row (roles d) role else foreign_key_violation in
    Ok (tt, on_user_roles (fun X => {[(user, role)]} ∪ X) d).

(** [DELETE FROM user_roles WHERE user_id = $1 AND role_id = $2] *)
Definition delete_user_role (user role : Uuid) : stmt Z := fun d =>
  Ok (if bool_decide ((user, role) ∈ user_roles d) then 1%Z else 0%Z,
      on_user_roles (fun X => X ∖ {[(user, role)]}) d).

(** [UPDATE roles SET parent_id = $1 WHERE id = $2] *)
Definition update_role_parent (parent : option Uuid) (id : Uuid) : stmt unit := fun d =>
  check! (match parent with
          | Some p => has_row (roles d) p || no_row (fun r => role_id r = id) (roles d)
          | None => true
          end) else foreign_key_violation in
  Ok (tt, on_roles (update_where (fun r => role_id r = id)
            (fun r => mkRole (role_id r) (role_name r) (role_description r) parent
                        (role_created_at r))) d).

(** ** The walks *)

(** The [while let Some(c) = cursor] loop of [set_parent]; [Some true] is the
    cycle error, [Some false] the end of the loop. *)
Fixpoint climb (fuel : nat) (parent_of : gmap Uuid (option Uuid)) (child : Uuid)
  (cursor : option Uuid) (seen : gset Uuid) : option bool :=
  match cursor with
  | None => Some false
  | Some c =>
      match fuel with
      | O => None
      | S fuel =>
          if bool_decide (c = child) || bool_decide (c ∈ seen) then Some true
          else climb fuel parent_of child (mjoin (parent_of !! c)) ({[c]} ∪ seen)
      end
  end.

Fixpoint walk_ancestors (fuel : nat) (role : Role) (all : gmap Uuid Role)
  (sink : list string) (visited : gset Uuid) : option (list string * gset Uuid) :=
  match fuel with
  | O => None
  | S fuel =>
      if bool_decide (role_id role ∈ visited) then Some (sink, visited)
      else
        let visited := {[role_id role]} ∪ visited in
        let sink := if bool_decide (role_name role ∈ sink) then sink else sink ++ [role_name role] in
        match role_parent_id role with
        | None => Some (sink, visited)
        | Some parent_id =>
            match all !! parent_id with
            | None => Some (sink, visited)
            | Some parent => walk_ancestors fuel parent all sink visited
            end
        end
  end.

(** [for r in direct { walk_ancestors(...) }] *)
Fixpoint walk_all (fuel : nat) (direct : list Role) (all : gmap Uuid Role)
  (sink : list string) (visited : gset Uuid) : option (list string * gset Uuid) :=
  match direct with
  | [] => Some (sink, visited)
  | r :: rest =>
      match walk_ancestors fuel r all sink visited with
      | None => None
      | Some (sink, visited) => walk_all fuel rest all sink visited
      end
  end.

(** [rows.into_iter().collect::<HashMap<_, _>>()] *)
Definition collect_map {A} (l : list (Uuid * A)) : gmap Uuid A :=
  foldl (fun m p => <[p.1 := p.2]> m) ∅ l.

(** ** The repository *)

Section Repository.
Context `{RedisServer} `{Env}.

Definition find_by_name (name : string) : io (option Role) :=
  fetch_optional (fun d => where_ (fun r => role_name r = name) (roles d)).

Definition find_all : io (list Role) :=
  fetch_ordered (fun a b => collate_le (role_name a) (role_name b)) (fun d => rows (roles d)).

Definition assigned_roles (user_id : Uuid) (d : Pg) : list Role :=
  where_ (fun r => (user_id, role_id r) ∈ user_roles d) (roles d).

Definition find_names_by_user_id (user_id : Uuid) : io (list string) :=
  let! rs := fetch_all (assigned_roles user_id) in
  ret (role_name <$> rs).

Definition find_effective_names_by_user_id (user_id : Uuid) : io (list string) :=
  let! direct := fetch_all (assigned_roles user_id) in
  let! all_roles := fetch_all (fun d => rows (roles d)) in
  let by_id := collect_map ((fun r => (role_id r, r)) <$> all_roles) in
  match walk_all (S (size by_id)) direct by_id [] ∅ with
  | None => throw (EOther "unreachable: fuel")
  | Some (effective, _) => ret effective
  end.

Definition is_assigned (user_id role_id : Uuid) : io bool :=
  let! count := fetch_count (fun d =>
    base.filter (fun p => p = (user_id, role_id)) (elements (user_roles d))) in
  ret (0 <? count)%Z.

Definition persist (role : Role) : io unit := execute (insert_role role).

Definition assign_to_user (user_id role_id : Uuid) : io unit :=
  execute (insert_user_role user_id role_id).

Definition unassign_from_user (user_id role_id : Uuid) : io Z :=
  execute (delete_user_role user_id role_id).

Definition set_parent (child_id : Uuid) (parent_id : option Uuid) : io unit :=
  if bool_decide (parent_id = Some child_id)
  then throw (ECycle "role cannot be its own parent")
  else
    let! tx := begin_tx in
    let! tx := match parent_id with
      | None => ret tx
      | Some new_parent =>
          let! ' (all, tx) := tx_fetch_all (fun d =>
            (fun r => (role_id r, role_parent_id r)) <$> rows (roles d)) tx in
          let parent_of := collect_map all in
          match climb (size parent_of + 2) parent_of child_id (Some new_parent) ∅ with
          | None => throw (EOther "unreachable: fuel")
          | Some true => throw (ECycle "cycle detected in role hierarchy")
          | Some false => ret tx
          end
      end in
    let! ' (_, tx) := tx_try (update_role_parent parent_id child_id) tx in
    commit tx.
End Repository.

(** ** The hierarchy as a relation *)

Definition parent_step (rs : gmap Uuid Role) : relation Uuid :=
  fun c p => exists r, rs !! c = Some r /\ role_parent_id r = Some p.

Definition acyclic (rs : gmap Uuid Role) : Prop := forall i, ~ tc (parent_step rs) i i.

Lemma collect_lookup {A} (l : list (Uuid * A)) k v :
  NoDup l.*1 -> collect_map l !! k = Some v <-> (k, v) ∈ l.
Proof.
  unfold collect_map. induction l as [|[j x] l IH] using rev_ind; intros Hd.
  { simpl. rewrite lookup_empty. split; [done|]. by intros ?%not_elem_of_nil. }
  rewrite fmap_app in Hd. apply NoDup_app in Hd as (Hd1 & Hd2 & _).
  rewrite foldl_app. simpl. rewrite lookup_insert_Some, IH by done.
  rewrite elem_of_app, list_elem_of_singleton. split; [naive_solver|].
  intros [Hin|[= -> ->]]; [|by left]. right. split; [|done].
  intros <-. apply (Hd2 j); [|left]. by apply (list_elem_of_fmap_2 fst l (j, v)).
Qed.

Lemma keyed_ids_nodup {R} (id : R -> Uuid) (m : gmap Uuid R) :
  keyed id m -> NoDup (id <$> rows m).
Proof.
  intros Hk. unfold rows. rewrite <- list_fmap_compose.
  replace (list_fmap _ _ (id ∘ snd) (map_to_list m)) with (map_to_list m).*1.
  - apply NoDup_fst_map_to_list.
  - apply list_fmap_ext. intros i [j r] Hin%list_elem_of_lookup_2%elem_of_map_to_list.
    symmetry. by apply Hk.
Qed.

Lemma collect_rows {R A} (id : R -> Uuid) (f : R -> A) (m : gmap Uuid R) l :
  keyed id m -> l ≡ₚ rows m -> collect_map ((fun r => (id r, f r)) <$> l) = f <$> m.
Proof.
  intros Hk Hl. apply map_eq. intros i. apply option_eq. intros v.
  rewrite collect_lookup.
  - rewrite list_elem_of_fmap, lookup_fmap, fmap_Some. split.
    + intros (r & [= -> ->] & Hr). rewrite Hl in Hr. apply elem_of_rows in Hr as [j Hj].
      exists r. split; [|done]. by rewrite (Hk _ _ Hj).
    + intros (r & Hr & ->). exists r. rewrite Hl, elem_of_rows. split; [|eauto].
      by rewrite (Hk _ _ Hr).
  - rewrite <- list_fmap_compose. unfold compose. simpl. rewrite Hl. by apply keyed_ids_nodup.
Qed.

Lemma collect_map_rows {R A} (id : R -> Uuid) (f : R -> A) (m : gmap Uuid R) l :
  keyed id m -> l ≡ₚ (fun r => (id r, f r)) <$> rows m -> collect_map l = f <$> m.
Proof.
  intros Hk Hl. apply map_eq. intros i. apply option_eq. intros v.
  assert (Hnd : NoDup ((fun r => (id r, f r)) <$> rows m).*1).
  { rewrite <- list_fmap_compose. by apply keyed_ids_nodup. }
  rewrite collect_lookup by by rewrite Hl. rewrite Hl, <- collect_lookup by done.
  by rewrite (collect_rows id f m (rows m)).
Qed.

(** *** Climbing *)

Section Climb.
Context (rs : gmap Uuid Role).
Let parent_of : gmap Uuid (option Uuid) := role_parent_id <$> rs.

Lemma parent_of_step c p : mjoin (parent_of !! c) = Some p <-> parent_step rs c p.
Proof.
  unfold parent_of, parent_step. rewrite lookup_fmap.
  destruct (rs !! c) as [r|] eqn:E; simpl; naive_solver.
Qed.

Lemma climb_false fuel child c seen :
  climb fuel parent_of child (Some c) seen = Some false -> ~ rtc (parent_step rs) c child.
Proof.
  revert c seen. induction fuel as [|fuel IH]; intros c seen; [done|]. cbn [climb].
  destruct (bool_decide (c = child)) eqn:Hc; [done|]. apply bool_decide_eq_false in Hc.
  destruct (bool_decide (c ∈ seen)) eqn:Hs; [done|]. cbn [orb]. intros Hcl Hr.
  inversion Hr as [|? p ? Hstep Hrest]; subst; [done|].
  apply parent_of_step in Hstep. rewrite Hstep in Hcl. by eapply IH.
Qed.

Lemma climb_true fuel child c seen :
  acyclic rs -> (forall s, s ∈ seen -> tc (parent_step rs) s c) ->
  climb fuel parent_of child (Some c) seen = Some true -> rtc (parent_step rs) c child.
Proof.
  intros Hac. revert c seen. induction fuel as [|fuel IH]; intros c seen Hseen; [done|]. cbn [climb].
  destruct (bool_decide (c = child)) eqn:Hc.
  { apply bool_decide_eq_true in Hc as ->. done. }
  destruct (bool_decide (c ∈ seen)) eqn:Hs; cbn [orb].
  { apply bool_decide_eq_true in Hs. by destruct (Hac c (Hseen c Hs)). }
  destruct (mjoin (parent_of !! c)) as [p|] eqn:Hp; [|by destruct fuel].
  intros Hcl. pose proof Hp as Hstep. apply parent_of_step in Hstep. econstructor; [done|].
  eapply IH; [|done]. intros s [->%elem_of_singleton|Hin]%elem_of_union; [by apply tc_once|].
  eapply tc_r; [by apply Hseen|done].
Qed.

(** The fuel of [set_parent] is enough. *)
Lemma climb_fuel fuel child cursor seen :
  size (dom parent_of ∖ seen) + 1 <= fuel ->
  exists b, climb fuel parent_of child cursor seen = Some b.
Proof.
  revert cursor seen. induction fuel as [|fuel IH]; intros cursor seen Hf; [lia|].
  destruct cursor as [c|]; [|by exists false]. cbn [climb].
  destruct (_ || _) eqn:Hor; [by exists true|].
  apply orb_false_elim in Hor as [_ Hs%bool_decide_eq_false].
  destruct (parent_of !! c) as [o|] eqn:Hc; [|simpl; destruct fuel; by exists false].
  apply IH. enough (size (dom parent_of ∖ ({[c]} ∪ seen)) < size (dom parent_of ∖ seen)) by lia.
  apply subset_size. assert (c ∈ dom parent_of) by (by eapply elem_of_dom_2). set_solver.
Qed.
End Climb.

(** *** The new edge *)

Lemma update_parent_step d d' parent child c p :
  keyed role_id (roles d) ->
  update_role_parent parent child d = Ok (tt, d') ->
  parent_step (roles d') c p ->
  (parent_step (roles d) c p /\ c <> child) \/ (c = child /\ parent = Some p).
Proof.
  intros Hk Hu (r & Hr & Hp). unfold update_role_parent in Hu.
  destruct (match parent with Some _ => _ | None => _ end); [|done]. simplify_eq/=.
  rewrite lookup_update_where in Hr. apply fmap_Some in Hr as (r0 & Hr0 & ->).
  pose proof (Hk _ _ Hr0). case_decide as Hid; simpl in Hp.
  - right. split; congruence.
  - left. split; [by exists r0|]. congruence.
Qed.

Lemma acyclic_new_edge (step step' : relation Uuid) (child : Uuid) (parent : option Uuid) :
  (forall c p, step' c p -> (step c p /\ c <> child) \/ (c = child /\ parent = Some p)) ->
  (forall p, parent = Some p -> ~ rtc step p child) ->
  (forall i, ~ tc step i i) -> forall i, ~ tc step' i i.
Proof.
  intros Hs Hp Hac.
  assert (Hto : forall x y, rtc step' x y -> y = child -> rtc step x child).
  { intros x y. induction 1 as [x|x y z Hxy _ IH]; intros ->; [done|].
    destruct (Hs _ _ Hxy) as [[Hold _]|[-> _]]; [|done]. eapply rtc_l; [done|by apply IH]. }
  assert (Hdec : forall x y, tc step' x y ->
    tc step x y \/ exists p, parent = Some p /\ rtc step' x child /\ rtc step' p y).
  { intros x y. induction 1 as [x y Hxy|x y z Hxy Hyz IH].
    - destruct (Hs _ _ Hxy) as [[Hold _]|[-> ->]]; [left; by apply tc_once|].
      right. eauto using rtc_refl.
    - destruct (Hs _ _ Hxy) as [[Hold _]|[-> ->]].
      + destruct IH as [IH|(p & -> & H1 & H2)]; [left; by eapply tc_l|].
        right. exists p. split; [done|]. split; [by eapply rtc_l|done].
      + right. exists y. split; [done|]. split; [done|by apply tc_rtc]. }
  intros i Hi. destruct (Hdec _ _ Hi) as [Ho|(p & -> & H1 & H2)]; [by eapply Hac|].
  eapply (Hp p); [done|]. eapply Hto; [|done]. by etrans.
Qed.

(** *** Walking *)

Section Walk.
Context (all : gmap Uuid Role).
Hypothesis all_keyed : keyed role_id all.

(** The names gathered are those of the visited roles, each once. *)
Definition names_of (sink : list string) (V : gset Uuid) : Prop :=
  NoDup sink /\ forall n, n ∈ sink <-> exists v r, v ∈ V /\ all !! v = Some r /\ role_name r = n.

(** Parents of visited roles are visited, up to a pending one. *)
Definition closed_upto (V : gset Uuid) (pending : option Uuid) : Prop :=
  forall v p, v ∈ V -> parent_step all v p -> is_Some (all !! p) -> p ∈ V \/ pending = Some p.

Lemma names_of_visit sink V r :
  all !! role_id r = Some r -> names_of sink V ->
  names_of (if bool_decide (role_name r ∈ sink) then sink else sink ++ [role_name r])
           ({[role_id r]} ∪ V).
Proof.
  intros Hr [Hd Hn]. split.
  - case_bool_decide; [done|]. apply NoDup_app. split; [done|]. split; [|apply NoDup_singleton].
    intros n Hin ->%list_elem_of_singleton. done.
  - intros n. case_bool_decide as Hin; rewrite ?elem_of_app, ?list_elem_of_singleton, Hn; split.
    + intros (v & x & Hv & Hx & Hxn). exists v, x. set_solver.
    + intros (v & x & [->%elem_of_singleton|Hv]%elem_of_union & Hx & Hxn); [|by exists v, x].
      assert (x = r) as -> by congruence. subst. by apply Hn.
    + intros [(v & x & Hv & Hx & Hxn)| ->]; [exists v, x; set_solver|].
      exists (role_id r), r. set_solver.
    + intros (v & x & [->%elem_of_singleton|Hv]%elem_of_union & Hx & Hxn); [|left; by exists v, x].
      right. congruence.
Qed.

Lemma walk_spec fuel r sink V :
  all !! role_id r = Some r -> names_of sink V -> closed_upto V (Some (role_id r)) ->
  size (dom all ∖ V) + 1 <= fuel ->
  exists sink' V', walk_ancestors fuel r all sink V = Some (sink', V')
    /\ names_of sink' V' /\ closed_upto V' None /\ V ⊆ V' /\ role_id r ∈ V'
    /\ (forall v, v ∈ V' -> v ∈ V \/ rtc (parent_step all) (role_id r) v).
Proof.
  revert r sink V. induction fuel as [|fuel IH]; intros r sink V Hr Hn Hc Hf; [lia|]. cbn [walk_ancestors].
  case_bool_decide as Hin.
  { exists sink, V. split; [done|]. split; [done|]. split; [|by eauto].
    intros v p Hv Hs Hp. destruct (Hc v p Hv Hs Hp) as [|[= <-]]; auto. }
  pose proof (names_of_visit sink V r Hr Hn) as Hn'.
  set (sink1 := if bool_decide (role_name r ∈ sink) then sink else sink ++ [role_name r]) in *.
  assert (Hstep : forall p, parent_step all (role_id r) p <-> role_parent_id r = Some p).
  { intros p. unfold parent_step. rewrite Hr. naive_solver. }
  assert (Hclosed : (forall p, role_parent_id r = Some p -> ~ is_Some (all !! p)) ->
    closed_upto ({[role_id r]} ∪ V) None).
  { intros Hno v p [->%elem_of_singleton|Hv]%elem_of_union Hs Hp.
    - apply Hstep in Hs. by destruct (Hno p).
    - left. destruct (Hc v p Hv Hs Hp) as [|[= <-]]; set_solver. }
  assert (Hstop : (forall p, role_parent_id r = Some p -> ~ is_Some (all !! p)) ->
    exists sink' V', Some (sink1, {[role_id r]} ∪ V) = Some (sink', V')
    /\ names_of sink' V' /\ closed_upto V' None /\ V ⊆ V' /\ role_id r ∈ V'
    /\ (forall v, v ∈ V' -> v ∈ V \/ rtc (parent_step all) (role_id r) v)).
  { intros Hno. exists sink1, ({[role_id r]} ∪ V). split; [done|]. split; [done|].
    split; [by apply Hclosed|]. split; [set_solver|]. split; [set_solver|].
    intros v [->%elem_of_singleton|]%elem_of_union; eauto using rtc_refl. }
  destruct (role_parent_id r) as [p|] eqn:Hp; [|by apply Hstop].
  destruct (all !! p) as [parent|] eqn:Hpar; [|apply Hstop; intros ? [= <-]; by rewrite Hpar; intros []].
  assert (Hid : role_id parent = p) by by apply all_keyed.
  destruct (IH parent sink1 ({[role_id r]} ∪ V)) as (sink' & V' & Hw & Hn2 & Hc2 & Hsub & Hinp & Hreach).
  - by rewrite Hid.
  - done.
  - intros v q [->%elem_of_singleton|Hv]%elem_of_union Hs Hq.
    + apply Hstep in Hs. right. congruence.
    + left. destruct (Hc v q Hv Hs Hq) as [|[= <-]]; set_solver.
  - enough (size (dom all ∖ ({[role_id r]} ∪ V)) < size (dom all ∖ V)) by lia.
    apply subset_size. assert (role_id r ∈ dom all) by (by eapply elem_of_dom_2). set_solver.
  - exists sink', V'. split; [done|]. split; [done|]. split; [done|]. split; [set_solver|].
    split; [set_solver|]. intros v Hv. destruct (Hreach v Hv) as [Hu|Hr'].
    + apply elem_of_union in Hu as [->%elem_of_singleton|]; eauto using rtc_refl.
    + right. rewrite Hid in Hr'. eapply rtc_l; [|done]. by apply Hstep.
Qed.

Lemma walk_all_spec fuel direct sink V :
  Forall (fun r => all !! role_id r = Some r) direct ->
  names_of sink V -> closed_upto V None -> size (dom all) + 1 <= fuel ->
  exists sink' V', walk_all fuel direct all sink V = Some (sink', V')
    /\ names_of sink' V' /\ closed_upto V' None /\ V ⊆ V'
    /\ (forall r, r ∈ direct -> role_id r ∈ V')
    /\ (forall v, v ∈ V' -> v ∈ V \/ exists r, r ∈ direct /\ rtc (parent_step all) (role_id r) v).
Proof.
  revert sink V. induction direct as [|r rest IH]; intros sink V Hall Hn Hc Hf; cbn [walk_all].
  { exists sink, V. repeat split; auto; try apply Hn. set_solver. }
  apply Forall_cons in Hall as [Hr Hrest].
  destruct (walk_spec fuel r sink V) as (sink1 & V1 & -> & Hn1 & Hc1 & Hs1 & Hin1 & Hr1); try done.
  { intros v p Hv Hs Hp. left. by destruct (Hc v p Hv Hs Hp). }
  { enough (size (dom all ∖ V) <= size (dom all)) by lia. apply subseteq_size. set_solver. }
  destruct (IH sink1 V1) as (sink2 & V2 & -> & Hn2 & Hc2 & Hs2 & Hin2 & Hr2); try done.
  exists sink2, V2. split; [done|]. split; [done|]. split; [done|]. split; [set_solver|].
  split; [set_solver|]. intros v Hv.
  destruct (Hr2 v Hv) as [[Hv1|Hv1]%Hr1|(x & Hx & Hxv)]; [by left|right; exists r; set_solver|].
  right. exists x. set_solver.
Qed.

(** What the walk from the assigned roles finds: their ancestors, once each. *)
Lemma walk_all_exact fuel direct :
  (forall v p, parent_step all v p -> is_Some (all !! p)) ->
  Forall (fun r => all !! role_id r = Some r) direct -> size (dom all) + 1 <= fuel ->
  exists sink V, walk_all fuel direct all [] ∅ = Some (sink, V) /\ NoDup sink
    /\ forall n, n ∈ sink <-> exists r a, r ∈ direct /\ rtc (parent_step all) (role_id r) (role_id a)
                    /\ all !! role_id a = Some a /\ role_name a = n.
Proof.
  intros Hfk Hall Hf.
  destruct (walk_all_spec fuel direct [] ∅) as (sink & V & Hw & [Hd Hn] & Hc & _ & Hin & Hr); try done.
  { split; [constructor|]. set_solver. }
  exists sink, V. split; [done|]. split; [done|]. intros n. rewrite Hn. split.
  - intros (v & a & Hv & Ha & Han). assert (role_id a = v) as Hid by by apply all_keyed.
    destruct (Hr v Hv) as [?|(r & Hrd & Hrv)]; [set_solver|].
    exists r, a. by rewrite Hid.
  - intros (r & a & Hrd & Hra & Ha & Han). exists (role_id a), a. split; [|done].
    assert (Hcl : forall x y, rtc (parent_step all) x y -> x ∈ V -> y ∈ V).
    { intros x y. induction 1 as [|x y z Hxy _ IH]; [done|]. intros Hx. apply IH.
      destruct (Hc x y Hx Hxy) as [|]; [by eapply Hfk|done..]. }
    eapply Hcl; [done|]. by apply Hin.
Qed.
End Walk.

(** ** Triples *)

Section Triples.
Context `{RedisServer} `{EnvLaws}.

(** What [set_parent] may do: nothing, or exactly the update, and then the new
    edge closes no cycle. *)
Lemma set_parent_spec child parent w :
  keyed role_id (roles (pg w)) ->
  wp (set_parent child parent) (fun r w' =>
    redis w' = redis w /\
    match r with
    | Ok _ => update_role_parent parent child (pg w) = Ok (tt, pg w')
              /\ forall p, parent = Some p -> ~ rtc (parent_step (roles (pg w))) p child
    | Err (ECycle _) => pg w' = pg w
              /\ (acyclic (roles (pg w)) ->
                  exists p, parent = Some p /\ rtc (parent_step (roles (pg w))) p child)
    | Err (EDb _) => pg w' = pg w
              \/ (update_role_parent parent child (pg w) = Ok (tt, pg w')
                  /\ forall p, parent = Some p -> ~ rtc (parent_step (roles (pg w))) p child)
    | Err _ => False
    end) w.
Proof.
  intros Hk. unfold set_parent. case_bool_decide as Hself.
  { wp_step. split; [done|]. split; [done|]. intros _. exists child. by split. }
  do 2 wp_step; [|by auto]. apply wp_bind. destruct parent as [np|].
  - do 2 wp_step; [|by auto].
    set (all := row_order _ _). assert (Hall : all ≡ₚ (fun r => (role_id r, role_parent_id r)) <$> rows (roles (pg w))).
    { apply row_order_perm. }
    assert (Hpo : collect_map all = role_parent_id <$> roles (pg w)) by by apply (collect_map_rows role_id role_parent_id).
    rewrite Hpo. set (po := role_parent_id <$> roles (pg w)) in *.
    destruct (climb_fuel (roles (pg w)) (size po + 2) child (Some np) ∅) as [b Hb].
    { fold po. rewrite difference_empty_L, size_dom. lia. }
    change (role_parent_id <$> roles (pg w)) with po in Hb. rewrite Hb. destruct b; wp_step.
    + split; [done|]. split; [done|]. intros Hac. exists np. split; [done|].
      eapply climb_true; [done| |done]. set_solver.
    + assert (Hno : forall p, Some np = Some p -> ~ rtc (parent_step (roles (pg w))) p child).
      { intros ? [= <-]. by eapply climb_false. }
      do 2 wp_step; [|by auto]. destruct a. wp_step; simpl; auto 6.
  - assert (Hno : forall p, None = Some p -> ~ rtc (parent_step (roles (pg w))) p child) by done.
    wp_step. do 2 wp_step; [|by auto]. destruct a. wp_step; simpl; auto 6.
Qed.

(** The names found are exactly those of the assigned roles and their
    ancestors, and the walk ends. *)
Lemma effective_names_spec user_id w :
  pg_wf (pg w) ->
  wp (find_effective_names_by_user_id user_id) (fun r w' =>
    quiet w w' /\
    match r with
    | Ok names => NoDup names /\ forall n, n ∈ names <->
        exists rid a, (user_id, rid) ∈ user_roles (pg w)
          /\ rtc (parent_step (roles (pg w))) rid (role_id a)
          /\ roles (pg w) !! role_id a = Some a /\ role_name a = n
    | Err (EDb _) => True
    | Err _ => False
    end) w.
Proof.
  intros Hwf. unfold find_effective_names_by_user_id.
  do 2 wp_step; [|auto with wp]. set (direct := row_order _ _).
  assert (Hd : direct ≡ₚ assigned_roles user_id (pg w)) by apply row_order_perm.
  do 2 wp_step; [|auto with wp]. simpl pg. set (all := row_order _ _).
  assert (Hall : all ≡ₚ rows (roles (pg w))) by apply row_order_perm.
  rewrite (collect_rows role_id id (roles (pg w))), map_fmap_id by (apply Hwf || done).
  assert (Hin : forall r, r ∈ direct <-> (user_id, role_id r) ∈ user_roles (pg w)
                  /\ roles (pg w) !! role_id r = Some r).
  { intros r. rewrite Hd. unfold assigned_roles. rewrite elem_of_where.
    split; intros [? Hex]; (split; [done|]); [|by eauto].
    destruct Hex as [i Hi]. by rewrite (wf_roles_key _ Hwf _ _ Hi). }
  destruct (walk_all_exact (roles (pg w)) (wf_roles_key _ Hwf) (S (size (roles (pg w)))) direct)
    as (sink & V & Hw & Hnd & Hn).
  { intros v p (r & Hr & Hp). by eapply wf_roles_parent. }
  { apply Forall_forall. intros r Hr. by apply Hin. }
  { rewrite size_dom. lia. }
  rewrite Hw. wp_step. split; [auto with wp|]. split; [done|]. intros n. rewrite Hn. split.
  - intros (r & a & [Hr _]%Hin & Hra & Ha & Han). eauto 10.
  - intros (rid & a & Hr & Hra & Ha & Han).
    destruct (wf_user_roles _ Hwf _ _ Hr) as [_ [r Hrr]].
    assert (role_id r = rid) as <- by by apply (wf_roles_key _ Hwf).
    exists r, a. split; [by apply Hin|done].
Qed.
End Triples.

(** An edge that closes no cycle keeps the hierarchy a forest. *)
Lemma update_parent_acyclic parent child d d' :
  keyed role_id (roles d) -> acyclic (roles d) -> update_role_parent parent child d = Ok (tt, d') ->
  (forall p, parent = Some p -> ~ rtc (parent_step (roles d)) p child) -> acyclic (roles d').
Proof.
  intros Hk Hac Hu Hno. unfold acyclic. apply (acyclic_new_edge (parent_step (roles d)) _ child parent); [|exact Hno|exact Hac].
  intros c p. by eapply update_parent_step.
Qed.

(** ** Theorems *)

(** C23: Re-parenting keeps the hierarchy a forest.  Starting from an acyclic
    role table, whatever Postgres does, [set_parent] leaves it acyclic; when it
    succeeds the child has the new parent and no other role changed; when it
    reports a cycle nothing was written and the requested edge would indeed have
    closed one; and it never runs out of its loop bound. *)
Theorem set_parent_forest `{RedisServer} `{EnvLaws} child parent w r w' :
  keyed role_id (roles (pg w)) -> acyclic (roles (pg w)) ->
  set_parent child parent w = (r, w') ->
  acyclic (roles (pg w'))
  /\ match r with
     | Ok _ => forall i, roles (pg w') !! i =
         (fun x => if decide (i = child)
                   then mkRole (role_id x) (role_name x) (role_description x) parent (role_created_at x)
                   else x) <$> roles (pg w) !! i
     | Err (ECycle _) => pg w' = pg w
         /\ exists p, parent = Some p /\ rtc (parent_step (roles (pg w))) p child
     | Err e => exists code, e = EDb code
     end.
Proof.
  intros Hk Hac Hrun. pose proof (wp_run _ _ _ _ _ (set_parent_spec child parent w Hk) Hrun) as [_ Hspec].
  assert (Hnew := fun Hu Hno => update_parent_acyclic parent child (pg w) (pg w') Hk Hac Hu Hno).
  destruct r as [[]|[code| | | | | |]]; try done.
  - destruct Hspec as [Hu Hno]. split; [auto|]. intros i. unfold update_role_parent in Hu.
    destruct (match parent with Some _ => _ | None => _ end); [|done].
    injection Hu as <-. simpl. rewrite lookup_update_where.
    destruct (roles (pg w) !! i) as [x|] eqn:Hi; [|done]. simpl. f_equal.
    pose proof (Hk _ _ Hi). repeat case_decide; done || congruence.
  - split; [|eauto]. destruct Hspec as [->|[Hu Hno]]; auto.
  - destruct Hspec as [-> Hc]. eauto.
Qed.

(** C24: Effective roles are exact.  For a database that satisfies its
    constraints, the effective role names of a user are, each once, the names of
    the assigned roles and all their ancestors and nothing else; the walk always
    ends and the only failures are the database's. *)
Theorem effective_roles_exact `{RedisServer} `{EnvLaws} user_id w r w' :
  pg_wf (pg w) -> find_effective_names_by_user_id user_id w = (r, w') ->
  match r with
  | Ok names => NoDup names /\ forall n, n ∈ names <->
      exists rid a, (user_id, rid) ∈ user_roles (pg w)
        /\ rtc (parent_step (roles (pg w))) rid (role_id a)
        /\ roles (pg w) !! role_id a = Some a /\ role_name a = n
  | Err e => exists code, e = EDb code
  end.
Proof.
  intros Hwf Hrun. pose proof (wp_run _ _ _ _ _ (effective_names_spec user_id w Hwf) Hrun) as [_ Hs].
  destruct r as [|[]]; try done. eauto.
Qed.

Import Instances.

(** Two roles, [admin] above [user], and one user assigned [user]. *)
Definition two_roles : Pg :=
  on_user_roles (fun _ => {[(7%N, 2%N)]})
   (on_users <[7%N := mkUser 7 "a@b" true "a" None None true 0 0]>
    (on_roles (fun m => <[1%N := mkRole 1 "admin" None None 0]>
                        (<[2%N := mkRole 2 "user" None (Some 1%N) 0]> m)) pg_empty)).
Definition world_roles : World := mkWorld 0 two_roles (∅ : gmap string rentry).

Lemma two_roles_keyed : keyed role_id (roles two_roles).
Proof. intros i r. simpl. rewrite !lookup_insert_Some, lookup_empty. naive_solver. Qed.

Lemma two_roles_acyclic : acyclic (roles two_roles).
Proof.
  assert (Hs : forall c p, parent_step (roles two_roles) c p -> c = 2%N /\ p = 1%N).
  { intros c p (r & Hr & Hp). simpl in Hr. rewrite !lookup_insert_Some, lookup_empty in Hr. naive_solver. }
  assert (Htc : forall c p, tc (parent_step (roles two_roles)) c p -> c = 2%N /\ p = 1%N).
  { intros c p. induction 1 as [c p [-> ->]%Hs|c m p [-> ->]%Hs _ [? ?]]; done. }
  intros i [-> ?]%Htc. done.
Qed.

Lemma set_parent_forest_witness :
  (set_parent 1 (Some 2%N) world_roles).1 = Err (ECycle "cycle detected in role hierarchy")
  /\ acyclic (roles (pg (set_parent 1 (Some 2%N) world_roles).2)).
Proof.
  split; [vm_compute; reflexivity|].
  apply (set_parent_forest 1 (Some 2%N) world_roles _ _ two_roles_keyed two_roles_acyclic
           (surjective_pairing _)).
Defined.

Lemma two_roles_wf : pg_wf two_roles.
Proof. apply pg_wf_b_ok. vm_compute. reflexivity. Qed.

Lemma effective_roles_exact_witness :
  (find_effective_names_by_user_id 7 world_roles).1 = Ok ["user"; "admin"] /\ NoDup ["user"; "admin"].
Proof.
  assert (Hr : (find_effective_names_by_user_id 7 world_roles).1 = Ok ["user"; "admin"])
    by (vm_compute; reflexivity).
  split; [exact Hr|].
  apply (effective_roles_exact 7 world_roles (Ok ["user"; "admin"]) _ two_roles_wf (run_fst _ _ _ Hr)).
Defined.
