(* ===== verification/User.v ===== *)
(** * Users and credentials ([user/mod.rs])

    [UserRepository] and [CredentialRepository]: the statements on [users] and
    [credentials], with the unique columns and the cascades of a user's
    deletion. *)

From stdpp Require Import base tactics list gmap strings.
From Stdlib Require Import ZArith Lia.
From S2P Require Import Prelude RustStr Redis Schema World Demo.

Local Open Scope auth_scope.

(** ** Statements *)

(** The row of an [INSERT] or [UPDATE], as the columns store it. *)
Definition user_row (u : User) : res string User :=
  let? email := varchar 255 (usr_email u) in
  let? username := varchar 255 (usr_username u) in
  let? first := varchar_opt 255 (usr_first_name u) in
  let? last := varchar_opt 255 (usr_last_name u) in
  Ok (mkUser (usr_id u) email (usr_email_verified u) username first last (usr_enabled u)
        (pg_ts (usr_created_at u)) (pg_ts (usr_updated_at u))).

Definition insert_user (u : User) : stmt unit := fun d =>
  let? row := user_row u in
  check! negb (has_row (users d) (usr_id u)) else unique_violation in
  check! no_row (fun x => usr_email x = usr_email row) (users d) else unique_violation in
  check! no_row (fun x => usr_username x = usr_username row) (users d) else unique_violation in
  Ok (tt, on_users <[usr_id u := row]> d).

(** [UPDATE users SET ... WHERE id = $1 RETURNING *]; [created_at] stays. *)
Definition update_user (u : User) : stmt (option User) := fun d =>
  match users d !! usr_id u with
  | None => Ok (None, d)
  | Some old =>
      let? row := user_row u in
      let row := mkUser (usr_id old) (usr_email row) (usr_email_verified row) (usr_username row)
                   (usr_first_name row) (usr_last_name row) (usr_enabled row)
                   (usr_created_at old) (usr_updated_at row) in
      check! no_row (fun x => usr_email x = usr_email row /\ usr_id x <> usr_id u) (users d)
        else unique_violation in
      check! no_row (fun x => usr_username x = usr_username row /\ usr_id x <> usr_id u) (users d)
        else unique_violation in
      Ok (Some row, on_users <[usr_id u := row]> d)
  end.

(** [DELETE FROM users WHERE id = $1], with [ON DELETE CASCADE] on every table
    that refers to a user; deleting the sessions cascades to their tokens. *)
Definition delete_user (id : Uuid) : stmt Z := fun d =>
  let gone := where_ (fun s => ses_user_id s = id) (user_sessions d) in
  Ok (if has_row (users d) id then 1%Z else 0%Z,
      mkPg (delete id (users d))
        (delete_where (fun c => cred_user_id c = id) (credentials d))
        (roles d)
        (base.filter (fun p => p.1 <> id) (user_roles d))
        (delete_where (fun s => ses_user_id s = id) (user_sessions d))
        (clients d) (redirect_uris d)
        (delete_where (fun t => rt_user_id t = id \/ rt_session_id t ∈ ses_id <$> gone)
           (refresh_tokens d))
        (delete_where (fun c => con_user_id c = id) (user_consents d))
        (delete_where (fun v => ev_user_id v = id) (email_verifications d))
        (delete_where (fun p => pr_user_id p = id) (password_resets d))).

Definition insert_credential (c : Credential) : stmt unit := fun d =>
  let? ty := varchar 50 (cred_type c) in
  let row := mkCredential (cred_id c) ty (cred_secret_data c) (cred_credential_data c)
               (pg_ts (cred_created_at c)) (pg_ts (cred_updated_at c)) (cred_user_id c) in
  check! negb (has_row (credentials d) (cred_id c)) else unique_violation in
  check! has_row (users d) (cred_user_id c) else foreign_key_violation in
  Ok (tt, on_credentials <[cred_id c := row]> d).

Definition update_credential (c : Credential) : stmt (option Credential) := fun d =>
  match credentials d !! cred_id c with
  | None => Ok (None, d)
  | Some old =>
      let? ty := varchar 50 (cred_type c) in
      let row := mkCredential (cred_id old) ty (cred_secret_data c) (cred_credential_data c)
                   (cred_created_at old) (pg_ts (cred_updated_at c)) (cred_user_id c) in
      check! has_row (users d) (cred_user_id c) else foreign_key_violation in
      Ok (Some row, on_credentials <[cred_id c := row]> d)
  end.

(** ** UserRepository *)

Section Users.
Context `{RedisServer} `{Env} `{UnicodeTables}.

(** SQL [LOWER] *)
Definition sql_lower (s : string) : string :=
  if is_ascii s then to_ascii_lowercase s else lower_table s.

Definition find_by_id (id : Uuid) : io (option User) :=
  fetch_optional (fun d => where_ (fun u => usr_id u = id) (users d)).

Definition find_by_email (email : string) : io (option User) :=
  let normalized := to_lowercase (trim email) in
  if is_empty normalized then ret None
  else fetch_optional (fun d => where_ (fun u => sql_lower (usr_email u) = normalized) (users d)).

Definition find_by_username (username : string) : io (option User) :=
  fetch_optional (fun d => where_ (fun u => usr_username u = username) (users d)).

(** [ORDER BY created_at DESC LIMIT $1] *)
Definition find_all (limit : Z) : io (list User) :=
  let! us := fetch_ordered (fun a b => (usr_created_at b <=? usr_created_at a)%Z)
               (fun d => rows (users d)) in
  ret (take (Z.to_nat limit) us).

Definition persist (user : User) : io unit := execute (insert_user user).
Definition update (user : User) : io (option User) := execute (update_user user).
Definition delete_by_id (id : Uuid) : io Z := execute (delete_user id).
End Users.

(** ** CredentialRepository *)

Module Credentials.
Section Credentials.
Context `{RedisServer} `{Env}.

Definition find_by_id (id : Uuid) : io (option Credential) :=
  fetch_optional (fun d => where_ (fun c => cred_id c = id) (credentials d)).

Definition find_by_user_id (user_id : Uuid) : io (list Credential) :=
  fetch_all (fun d => where_ (fun c => cred_user_id c = user_id) (credentials d)).

(** [LIMIT 1] *)
Definition find_first_by_user_id_and_type (user_id : Uuid) (ty : string) : io (option Credential) :=
  fetch_optional (fun d =>
    where_ (fun c => cred_user_id c = user_id /\ cred_type c = ty) (credentials d)).

Definition persist (c : Credential) : io unit := execute (insert_credential c).
Definition update (c : Credential) : io (option Credential) := execute (update_credential c).
End Credentials.
End Credentials.

(** ** Lookups by a unique column *)

Section Lookup.
Context `{RedisServer} `{EnvLaws} `{UnicodeTables}.

Lemma wp_find_user id Q w :
  pg_wf (pg w) ->
  Q (Ok (users (pg w) !! id)) (bump w) -> (forall c, Q (Err (EDb c)) (bump w)) ->
  wp (find_by_id id) Q w.
Proof.
  intros Hwf Hok Herr. unfold find_by_id. wp_step; [|done].
  by rewrite head_where_key by apply Hwf.
Qed.

(** The same with a database that answers. *)
Lemma wp_find_user_ok id Q w :
  pg_wf (pg w) -> pg_ok (tick w) -> Q (Ok (users (pg w) !! id)) (bump w) -> wp (find_by_id id) Q w.
Proof.
  intros Hwf Hpg Hok. unfold find_by_id. apply wp_fetch_optional_ok; [done|]. by rewrite head_where_key by apply Hwf.
Qed.
End Lookup.
