(* ===== verification/Client.v ===== *)
(** * OAuth clients ([client/model.rs], [client/repository.rs])

    The client rows and their redirect URIs, the snapshot they are cached as,
    and the repository: reads go through a Redis cache, writes go to Postgres
    and then invalidate the cache entry.  The theorems show that the cache never
    shows a reader anything the database does not say, as long as writers reach
    Redis. *)

From stdpp Require Import base tactics list gmap strings.
From Stdlib Require Import ZArith Lia.
From S2P Require Import Prelude RustStr Redis Schema World Ext Demo RedisKeys.

Local Open Scope auth_scope.

(** ** Snapshots *)

Record RedirectUriSnapshot := mkRedirectUriSnapshot {
  rus_id : Uuid;
  rus_uri : string;
  rus_created_at : Z;
}.

Record ClientSnapshot := mkClientSnapshot {
  cs_id : Uuid;
  cs_client_id : string;
  cs_client_secret : option string;
  cs_name : option string;
  cs_client_type : option string;
  cs_grant_types : option string;
  cs_response_types : option string;
  cs_scopes : option string;
  cs_pkce_required : bool;
  cs_enabled : bool;
  cs_base_url : option string;
  cs_description : option string;
  cs_access_token_ttl : option Z;
  cs_refresh_token_ttl : option Z;
  cs_frontchannel_logout_uri : option string;
  cs_backchannel_logout_uri : option string;
  cs_created_at : Z;
  cs_updated_at : Z;
  cs_redirect_uris : list RedirectUriSnapshot;
}.

Definition from_entity (c : Client) : ClientSnapshot := {|
  cs_id := cl_id c;
  cs_client_id := cl_client_id c;
  cs_client_secret := cl_client_secret c;
  cs_name := cl_name c;
  cs_client_type := cl_client_type c;
  cs_grant_types := cl_grant_types c;
  cs_response_types := cl_response_types c;
  cs_scopes := cl_scopes c;
  cs_pkce_required := cl_pkce_required c;
  cs_enabled := cl_enabled c;
  cs_base_url := cl_base_url c;
  cs_description := cl_description c;
  cs_access_token_ttl := cl_access_token_ttl c;
  cs_refresh_token_ttl := cl_refresh_token_ttl c;
  cs_frontchannel_logout_uri := cl_frontchannel_logout_uri c;
  cs_backchannel_logout_uri := cl_backchannel_logout_uri c;
  cs_created_at := cl_created_at c;
  cs_updated_at := cl_updated_at c;
  cs_redirect_uris :=
    (fun r => mkRedirectUriSnapshot (ru_id r) (ru_uri r) (ru_created_at r)) <$> cl_redirect_uris c;
|}.

Definition into_entity (s : ClientSnapshot) : Client :=
  let parent_id := cs_id s in
  {|
    cl_id := cs_id s;
    cl_client_id := cs_client_id s;
    cl_client_secret := cs_client_secret s;
    cl_name := cs_name s;
    cl_client_type := cs_client_type s;
    cl_grant_types := cs_grant_types s;
    cl_response_types := cs_response_types s;
    cl_scopes := cs_scopes s;
    cl_pkce_required := cs_pkce_required s;
    cl_enabled := cs_enabled s;
    cl_base_url := cs_base_url s;
    cl_description := cs_description s;
    cl_access_token_ttl := cs_access_token_ttl s;
    cl_refresh_token_ttl := cs_refresh_token_ttl s;
    cl_frontchannel_logout_uri := cs_frontchannel_logout_uri s;
    cl_backchannel_logout_uri := cs_backchannel_logout_uri s;
    cl_created_at := cs_created_at s;
    cl_updated_at := cs_updated_at s;
    cl_redirect_uris :=
      (fun r => mkRedirectUri (rus_id r) parent_id (rus_uri r) (rus_created_at r))
        <$> cs_redirect_uris s;
  |}.

(** [c.redirect_uris = ...] *)
Definition set_redirect_uris (l : list RedirectUri) (c : Client) : Client := {|
  cl_id := cl_id c; cl_client_id := cl_client_id c; cl_client_secret := cl_client_secret c;
  cl_name := cl_name c; cl_client_type := cl_client_type c; cl_grant_types := cl_grant_types c;
  cl_response_types := cl_response_types c; cl_scopes := cl_scopes c;
  cl_pkce_required := cl_pkce_required c; cl_enabled := cl_enabled c; cl_base_url := cl_base_url c;
  cl_description := cl_description c; cl_access_token_ttl := cl_access_token_ttl c;
  cl_refresh_token_ttl := cl_refresh_token_ttl c;
  cl_frontchannel_logout_uri := cl_frontchannel_logout_uri c;
  cl_backchannel_logout_uri := cl_backchannel_logout_uri c;
  cl_created_at := cl_created_at c; cl_updated_at := cl_updated_at c; cl_redirect_uris := l;
|}.

(** ** Statements *)

Definition insert_client (c : Client) : stmt unit := fun d =>
  let? cid := varchar 255 (cl_client_id c) in
  let? name := varchar_opt 255 (cl_name c) in
  let? ty := varchar_opt 50 (cl_client_type c) in
  let row := {|
    cl_id := cl_id c; cl_client_id := cid; cl_client_secret := cl_client_secret c;
    cl_name := name; cl_client_type := ty; cl_grant_types := cl_grant_types c;
    cl_response_types := cl_response_types c; cl_scopes := cl_scopes c;
    cl_pkce_required := cl_pkce_required c; cl_enabled := cl_enabled c; cl_base_url := cl_base_url c;
    cl_description := cl_description c; cl_access_token_ttl := cl_access_token_ttl c;
    cl_refresh_token_ttl := cl_refresh_token_ttl c;
    cl_frontchannel_logout_uri := cl_frontchannel_logout_uri c;
    cl_backchannel_logout_uri := cl_backchannel_logout_uri c;
    cl_created_at := pg_ts (cl_created_at c); cl_updated_at := pg_ts (cl_updated_at c);
    cl_redirect_uris := [] |} in
  check! bool_decide (client_type_ok row) else check_violation in
  check! negb (has_row (clients d) (cl_id c)) else unique_violation in
  check! no_row (fun x => cl_client_id x = cid) (clients d) else unique_violation in
  Ok (tt, on_clients <[cl_id c := row]> d).

(** [UPDATE clients SET ... WHERE id = $1 RETURNING *]; the external
    [client_id] and [created_at] stay. *)
Definition update_client (c : Client) : stmt (option Client) := fun d =>
  match clients d !! cl_id c with
  | None => Ok (None, d)
  | Some old =>
      let? name := varchar_opt 255 (cl_name c) in
      let? ty := varchar_opt 50 (cl_client_type c) in
      let row := {|
        cl_id := cl_id old; cl_client_id := cl_client_id old; cl_client_secret := cl_client_secret c;
        cl_name := name; cl_client_type := ty; cl_grant_types := cl_grant_types c;
        cl_response_types := cl_response_types c; cl_scopes := cl_scopes c;
        cl_pkce_required := cl_pkce_required c; cl_enabled := cl_enabled c;
        cl_base_url := cl_base_url c; cl_description := cl_description c;
        cl_access_token_ttl := cl_access_token_ttl c; cl_refresh_token_ttl := cl_refresh_token_ttl c;
        cl_frontchannel_logout_uri := cl_frontchannel_logout_uri c;
        cl_backchannel_logout_uri := cl_backchannel_logout_uri c;
        cl_created_at := cl_created_at old; cl_updated_at := pg_ts (cl_updated_at c);
        cl_redirect_uris := [] |} in
      check! bool_decide (client_type_ok row) else check_violation in
      Ok (Some row, on_clients <[cl_id c := row]> d)
  end.

(** [UPDATE clients SET client_secret = $2, updated_at = NOW() WHERE id = $1], the
    migration at start-up; the time of the statement is [now]. *)
Definition set_client_secret (secret : string) (now : Z) (c : Client) : Client := {|
  cl_id := cl_id c; cl_client_id := cl_client_id c; cl_client_secret := Some secret;
  cl_name := cl_name c; cl_client_type := cl_client_type c; cl_grant_types := cl_grant_types c;
  cl_response_types := cl_response_types c; cl_scopes := cl_scopes c;
  cl_pkce_required := cl_pkce_required c; cl_enabled := cl_enabled c; cl_base_url := cl_base_url c;
  cl_description := cl_description c; cl_access_token_ttl := cl_access_token_ttl c;
  cl_refresh_token_ttl := cl_refresh_token_ttl c;
  cl_frontchannel_logout_uri := cl_frontchannel_logout_uri c;
  cl_backchannel_logout_uri := cl_backchannel_logout_uri c;
  cl_created_at := cl_created_at c; cl_updated_at := pg_ts now; cl_redirect_uris := cl_redirect_uris c;
|}.

Definition update_client_secret (id : Uuid) (secret : string) (now : Z) : stmt unit := fun d =>
  Ok (tt, on_clients (update_where (fun c => cl_id c = id) (set_client_secret secret now)) d).

(** [DELETE FROM clients WHERE id = $1], with its cascades. *)
Definition delete_client (id : Uuid) : stmt Z := fun d =>
  Ok (if has_row (clients d) id then 1%Z else 0%Z,
      on_user_consents (delete_where (fun c => con_client_id c = id))
        (on_refresh_tokens (delete_where (fun t => rt_client_id t = id))
          (on_redirect_uris (delete_where (fun r => ru_client_id r = id))
            (on_clients (delete id) d)))).

Definition insert_redirect_uri (id client_id : Uuid) (uri : string) (created_at : Z) : stmt unit := fun d =>
  let row := mkRedirectUri id client_id uri (pg_ts created_at) in
  check! negb (has_row (redirect_uris d) id) else unique_violation in
  check! no_row (fun r => ru_client_id r = client_id /\ ru_uri r = uri) (redirect_uris d)
    else unique_violation in
  check! has_row (clients d) client_id else foreign_key_violation in
  Ok (tt, on_redirect_uris <[id := row]> d).

(** [DELETE FROM redirect_uris WHERE id = $1] *)
Definition delete_redirect_uri (id : Uuid) : stmt Z := fun d =>
  Ok (if has_row (redirect_uris d) id then 1%Z else 0%Z, on_redirect_uris (delete id) d).

(** ** The repository *)

Record ClientRepository := mkClientRepository { cache_ttl_seconds : Z }.

(** [cache_ttl.as_secs().max(1)] *)
Definition client_repository_new (cache_ttl : Z) : ClientRepository :=
  mkClientRepository (Z.max (cache_ttl / ns_per_sec) 1).

Section Repository.
Context `{RedisServer} `{Env} `{JsonCodec ClientSnapshot}.
Context (self : ClientRepository).

Definition jittered_ttl (base : Z) : io Z :=
  let! scaled := ask (fun t => jitter_floor t base) in
  ret (Z.max scaled 1).

(** [ORDER BY created_at] *)
Definition fetch_redirect_uris (client_id : Uuid) : io (list RedirectUri) :=
  fetch_ordered (fun a b => (ru_created_at a <=? ru_created_at b)%Z)
    (fun d => where_ (fun r => ru_client_id r = client_id) (redirect_uris d)).

Definition client_id_of (id : Uuid) : io (option string) :=
  fetch_optional (fun d => cl_client_id <$> where_ (fun c => cl_id c = id) (clients d)).

Definition invalidate (client_id : string) : io unit :=
  if is_empty client_id then ret tt
  else
    let! conn := attempt redis_conn in
    match conn with
    | Err _ => ret tt
    | Ok _ => ignore (redis_del (Keys.client client_id))
    end.

Definition read_cache (client_id : string) : io (option Client) :=
  let! conn := attempt redis_conn in
  match conn with
  | Err _ => ret None
  | Ok _ =>
      let! raw := attempt (redis_get (Keys.client client_id)) in
      match raw with
      | Ok (Some raw) =>
          if is_empty raw then ret None
          else match json_from_str raw with
               | Some snap => ret (Some (into_entity snap))
               | None => ret None
               end
      | _ => ret None
      end
  end.

Definition populate_cache (client : Client) : io unit :=
  let snap := from_entity client in
  match json_to_string snap with
  | None => ret tt
  | Some payload =>
      let! conn := attempt redis_conn in
      match conn with
      | Err _ => ret tt
      | Ok _ =>
          let! ttl := jittered_ttl (cache_ttl_seconds self) in
          ignore (redis_set_ex (Keys.client (cl_client_id client)) payload ttl)
      end
  end.

Definition find_by_id (id : Uuid) : io (option Client) :=
  let! client := fetch_optional (fun d => where_ (fun c => cl_id c = id) (clients d)) in
  match client with
  | Some c =>
      let! uris := fetch_redirect_uris (cl_id c) in
      ret (Some (set_redirect_uris uris c))
  | None => ret None
  end.

Definition find_by_client_id (client_id : string) : io (option Client) :=
  if is_empty client_id then ret None
  else
    let! cached := read_cache client_id in
    match cached with
    | Some c => ret (Some c)
    | None =>
        let! row := fetch_optional (fun d => where_ (fun c => cl_client_id c = client_id) (clients d)) in
        match row with
        | None => ret None
        | Some client =>
            let! uris := fetch_redirect_uris (cl_id client) in
            let client := set_redirect_uris uris client in
            do! populate_cache client in
            ret (Some client)
        end
    end.

Definition find_all : io (list Client) :=
  let! cs := fetch_ordered (fun a b => collate_le (cl_client_id a) (cl_client_id b))
               (fun d => rows (clients d)) in
  for_collect cs (fun c =>
    let! uris := fetch_redirect_uris (cl_id c) in
    ret (set_redirect_uris uris c)).

Definition is_redirect_uri_allowed (client_id : Uuid) (redirect_uri : string) : io bool :=
  let! count := fetch_count (fun d =>
    where_ (fun r => ru_client_id r = client_id /\ ru_uri r = redirect_uri) (redirect_uris d)) in
  ret (0 <? count)%Z.

(** The [for r in &client.redirect_uris] loop of [persist]. *)
Fixpoint insert_uris (client_id : Uuid) (l : list RedirectUri) (tx : Tx) : io Tx :=
  match l with
  | [] => ret tx
  | r :: rest =>
      let! ' (_, tx) := tx_try (insert_redirect_uri (ru_id r) client_id (ru_uri r) (ru_created_at r)) tx in
      insert_uris client_id rest tx
  end.

Definition persist (client : Client) : io unit :=
  let! tx := begin_tx in
  let! ' (_, tx) := tx_try (insert_client client) tx in
  let! tx := insert_uris (cl_id client) (cl_redirect_uris client) tx in
  do! commit tx in
  invalidate (cl_client_id client).

Definition update (client : Client) : io (option Client) :=
  let! updated := execute (update_client client) in
  match updated with
  | Some c =>
      do! invalidate (cl_client_id c) in
      ret updated
  | None => ret updated
  end.

Definition delete_by_id (id : Uuid) : io (option string) :=
  let! existing := client_id_of id in
  match existing with
  | None => ret None
  | Some cid =>
      do! execute (delete_client id) in
      do! invalidate cid in
      ret (Some cid)
  end.

Definition add_redirect_uri (uri : RedirectUri) : io unit :=
  do! execute (insert_redirect_uri (ru_id uri) (ru_client_id uri) (ru_uri uri) (ru_created_at uri)) in
  let! owner := client_id_of (ru_client_id uri) in
  match owner with
  | Some cid => invalidate cid
  | None => ret tt
  end.

Definition remove_redirect_uri (redirect_uri_id : Uuid) : io Z :=
  let! owning := fetch_optional (fun d =>
    r ← where_ (fun r => ru_id r = redirect_uri_id) (redirect_uris d);
    cl_client_id <$> where_ (fun c => cl_id c = ru_client_id r) (clients d)) in
  let! affected := execute (delete_redirect_uri redirect_uri_id) in
  do! (if (0 <? affected)%Z
       then match owning with Some cid => invalidate cid | None => ret tt end
       else ret tt) in
  ret affected.
End Repository.

(** ** What the cache may show *)

Section Cache.
Context `{RedisLaws} `{EnvLaws} `{JsonCodecLaws ClientSnapshot}.
Implicit Types w : World.

(** [c] is what Postgres holds for [cid]: the row, with its redirect URIs in
    some order. *)
Definition served_from (cid : string) (d : Pg) (c : Client) : Prop :=
  exists row, clients d !! cl_id c = Some row /\ cl_client_id row = cid
    /\ c = set_redirect_uris (cl_redirect_uris c) row
    /\ cl_redirect_uris c ≡ₚ where_ (fun r => ru_client_id r = cl_id c) (redirect_uris d).

(** The cache holds a readable snapshot for [cid]. *)
Definition cached (cid : string) (w : World) (snap : ClientSnapshot) : Prop :=
  exists v dl raw, rlive (redis_clock (tick w)) (Keys.client cid) (redis w) = Some (v, dl)
    /\ rvalue_text v = Some raw /\ json_from_str raw = Some snap.

(** Reads never ask for the empty [client_id]. *)
Definition coherent (w : World) : Prop :=
  forall cid snap, cid <> "" -> cached cid w snap -> served_from cid (pg w) (into_entity snap).

Lemma into_from_entity c :
  Forall (fun r => ru_client_id r = cl_id c) (cl_redirect_uris c) -> into_entity (from_entity c) = c.
Proof.
  intros Hall. destruct c as [id cid sec nm ty gt rts sc pk en bu ds at_ rt_ fl bl ca ua uris].
  unfold into_entity, from_entity; simpl in *. f_equal.
  rewrite <- list_fmap_compose. etrans; [|apply list_fmap_id]. apply Forall_fmap_ext_1.
  eapply Forall_impl; [done|]. by intros [? ? ? ?] Hr; simpl in *; subst.
Qed.

Lemma served_uris cid d c :
  served_from cid d c -> Forall (fun r => ru_client_id r = cl_id c) (cl_redirect_uris c).
Proof.
  intros (row & _ & _ & _ & Hp). rewrite Hp. apply Forall_forall.
  by intros r [Hr _]%elem_of_where.
Qed.

Lemma cached_frame K cid w w' snap :
  redis_frame K w w' -> ~ K (Keys.client cid) -> cached cid w' snap -> cached cid w snap.
Proof. intros Hf Hk (v & dl & raw & Hl & Hr). exists v, dl, raw. split; [by eapply frame_rlive|done]. Qed.

Lemma cached_later cid w w' snap :
  tick w <= tick w' -> redis w' = redis w -> cached cid w' snap -> cached cid w snap.
Proof.
  intros Ht Hr (v & dl & raw & Hl & Hx). exists v, dl, raw. split; [|done]. rewrite Hr in Hl.
  eapply rlive_some_earlier; [|done]. by apply redis_clock_mono.
Qed.

Lemma coherent_later w w' :
  tick w <= tick w' -> redis w' = redis w -> pg w' = pg w -> coherent w -> coherent w'.
Proof. intros Ht Hr Hp Hc cid snap Hne Hs. rewrite Hp. apply Hc; [done|]. by eapply cached_later. Qed.

Lemma read_cache_spec cid w :
  wp (read_cache cid) (fun r w' => pg w' = pg w /\ redis w' = redis w /\ tick w <= tick w' /\
    exists o, r = Ok o /\ forall c, o = Some c -> exists snap, cached cid w snap /\ c = into_entity snap) w.
Proof.
  unfold read_cache.
  assert (Hnone : forall w', pg w' = pg w -> redis w' = redis w -> tick w <= tick w' ->
    pg w' = pg w /\ redis w' = redis w /\ tick w <= tick w' /\
    exists o : option Client, @Ok err _ None = Ok o /\
      forall c, o = Some c -> exists snap, cached cid w snap /\ c = into_entity snap)
    by (intros w' Hp Hr Ht; repeat split; auto; exists None; split; [done|]; by intros).
  do 3 wp_step; [|wp_step; apply Hnone; simpl; auto].
  do 3 wp_step; [|wp_step; apply Hnone; simpl; auto].
  rewrite r_get_law in Hget. simpl redis in Hget.
  destruct (rlive _ (Keys.client cid) (redis w)) as [[x dl]|] eqn:Hl; simplify_eq/=;
    [|wp_step; apply Hnone; simpl; auto].
  destruct (rvalue_text x) as [raw|] eqn:Hx; simplify_eq/=.
  destruct (is_empty raw) eqn:He; [wp_step; apply Hnone; simpl; auto|].
  destruct (json_from_str raw) as [snap|] eqn:Hj; wp_step; [|apply Hnone; simpl; auto].
  split; [done|]. split; [done|]. split; [simpl; lia|]. eexists. split; [done|].
  intros c [= <-]. exists snap. split; [|done]. exists x, dl, raw. split; [|done].
  eapply rlive_some_earlier; [|done]. apply redis_clock_mono. simpl. lia.
Qed.

Lemma wp_fetch_redirect_uris id Q w :
  (forall l, l ≡ₚ where_ (fun r => ru_client_id r = id) (redirect_uris (pg w)) -> Q (Ok l) (bump w)) ->
  (forall c, Q (Err (EDb c)) (bump w)) ->
  wp (fetch_redirect_uris id) Q w.
Proof.
  intros Hok Herr. unfold fetch_redirect_uris. wp_step; [|done]. apply Hok.
  rewrite sort_by_perm. apply row_order_perm.
Qed.

Lemma populate_cache_spec self c w :
  served_from (cl_client_id c) (pg w) c ->
  wp (populate_cache self c) (fun r w' => r = Ok tt /\ pg w' = pg w
    /\ redis_frame (eq (Keys.client (cl_client_id c))) w w' /\ (coherent w -> coherent w')) w.
Proof.
  intros Hs. unfold populate_cache.
  destruct (json_total (from_entity c)) as (payload & Hp & _). rewrite Hp.
  assert (Hsame : forall w', pg w' = pg w -> redis w' = redis w -> tick w <= tick w' ->
    @Ok err _ tt = Ok tt /\ pg w' = pg w
    /\ redis_frame (eq (Keys.client (cl_client_id c))) w w' /\ (coherent w -> coherent w')).
  { intros w' Hpg Hr Ht. repeat split; auto; [by rewrite Hr|]. by apply coherent_later. }
  do 3 wp_step; [|wp_step; apply Hsame; simpl; auto].
  wp_step. unfold jittered_ttl. do 3 wp_step. wp_step. apply wp_redis_set_ex; [lia| |apply Hsame; simpl; auto].
  intros r s _ Hu. simpl in Hu. set (w' := bump (set_redis s (bump (bump w)))).
  assert (Hf : redis_frame (eq (Keys.client (cl_client_id c))) w w').
  { eapply (frame_cmd _ _ (bump (bump w))); [auto with wp|done|done]. }
  split; [done|]. split; [done|]. split; [done|]. intros Hc cid snap Hcid Hcs.
  destruct (decide (cid = cl_client_id c)) as [->|Hne].
  - destruct Hcs as (v & dl & raw & Hl & Hv & Hj).
    rewrite (rupdate_same _ _ _ _ _ _ Hu) in Hl by (apply redis_clock_mono; simpl; lia).
    simpl in Hl. destruct (_ <? _)%Z; simplify_eq/=.
    rewrite (json_roundtrip _ _ Hp) in Hj. injection Hj as <-.
    rewrite into_from_entity by by eapply served_uris. done.
  - apply (Hc cid); [done|]. eapply cached_frame; [done| |done]. intros Heq. by apply client_key_inj in Heq.
Qed.

(** A read by [client_id]: what it returns is in the cache or in Postgres; it
    writes only the cache entry of that client, and never makes the cache
    incoherent. *)
Lemma find_by_client_id_spec self cid w :
  pg_wf (pg w) ->
  wp (find_by_client_id self cid) (fun r w' => pg w' = pg w
    /\ redis_frame (eq (Keys.client cid)) w w' /\ (coherent w -> coherent w')
    /\ match r with
       | Ok (Some c) => cid <> "" /\
           ((exists snap, cached cid w snap /\ c = into_entity snap) \/ served_from cid (pg w) c)
       | Ok None => cid = "" \/ forall i row, clients (pg w) !! i = Some row -> cl_client_id row <> cid
       | Err e => exists code, e = EDb code
       end) w.
Proof.
  intros Hwf. unfold find_by_client_id. destruct (is_empty cid) eqn:He.
  { wp_step. apply is_empty_spec in He. auto using frame_refl. }
  assert (Hne : cid <> "") by by rewrite <- is_empty_spec, He.
  wp_step. wp_call read_cache_spec. intros r w1 (Hp1 & Hr1 & Ht1 & o & -> & Ho).
  assert (Hf1 : redis_frame (eq (Keys.client cid)) w w1) by (split; [done|]; by rewrite Hr1).
  assert (Hc1 : coherent w -> coherent w1) by by apply coherent_later.
  destruct o as [c|].
  { wp_step. destruct (Ho c) as (snap & Hs & ->); [done|]. eauto 10. }
  assert (Hread : forall w' (P : Prop), pg w' = pg w1 -> redis w' = redis w1 -> tick w1 <= tick w' -> P ->
    pg w' = pg w /\ redis_frame (eq (Keys.client cid)) w w' /\ (coherent w -> coherent w') /\ P).
  { intros w' P Hpg Hr Ht HP. split; [congruence|]. split; [|split; [|done]].
    - eapply frame_trans; [done|]. split; [done|]. by rewrite Hr.
    - intros Hc. eapply coherent_later; [| | |by apply Hc1]; done. }
  do 2 wp_step; [|apply Hread; simpl; eauto].
  pose proof (head_where_unique cl_client_id (clients (pg w1)) (tick w1) cid) as Hh.
  rewrite Hp1 in Hh at 1. specialize (Hh (wf_clients_client_id _ Hwf)).
  destruct (head _) as [row|]; [|wp_step; apply Hread; simpl; auto; rewrite <- Hp1; by right].
  destruct Hh as [Hcid [i Hi]]. wp_step.
  apply wp_fetch_redirect_uris; [|intros; apply Hread; simpl; eauto].
  intros l Hl. set (c := set_redirect_uris l row). simpl pg in Hl.
  assert (Hsf : served_from cid (pg w) c).
  { exists row. rewrite Hp1 in Hi, Hl. assert (cl_id row = i) as Hid by by apply (wf_clients_key _ Hwf).
    simpl. rewrite Hid. split; [done|]. split; [done|]. split; [by destruct row|]. by rewrite <- Hid. }
  wp_step. eapply wp_mono; [apply populate_cache_spec; simpl; by rewrite Hp1, Hcid|].
  intros r w2 (-> & Hp2 & Hf2 & Hc2). wp_step. simpl in Hp2, Hf2. rewrite Hcid in Hf2.
  split; [by rewrite Hp2|]. split; [|split; [|split; [done|by right]]].
  - eapply frame_trans; [|done]. auto with wp.
  - intros Hc. apply Hc2. eapply coherent_later; [| | |by apply Hc1]; simpl; auto.
Qed.

(** *** Lookups as the callers use them *)

(** [uri] is registered for [client]. *)
Definition registered (client : Client) (uri : string) (d : Pg) : Prop :=
  exists i r, redirect_uris d !! i = Some r /\ ru_client_id r = cl_id client /\ ru_uri r = uri.

(** The client the request names, as Postgres has it. *)
Lemma wp_client self cid Q w :
  pg_wf (pg w) -> coherent w ->
  (forall c w1, pg w1 = pg w -> tick w <= tick w1 -> served_from cid (pg w) c -> Q (Ok (Some c)) w1) ->
  (forall w1, pg w1 = pg w -> tick w <= tick w1 -> Q (Ok None) w1) ->
  (forall e w1, pg w1 = pg w -> tick w <= tick w1 -> Q (Err e) w1) ->
  wp (find_by_client_id self cid) Q w.
Proof.
  intros Hwf Hco Hsome Hnone Herr. wp_call (find_by_client_id_spec self cid w Hwf).
  intros r w1 (Hp & [Ht _] & _ & Hr). destruct r as [[c|]|e]; [|auto..].
  destruct Hr as [Hne [(snap & Hs & ->)|Hr]]; apply Hsome; try done. by apply Hco.
Qed.

Lemma wp_uri_allowed client uri Q w :
  (registered client uri (pg w) -> Q (Ok true) (bump w)) -> Q (Ok false) (bump w) ->
  (forall c, Q (Err (EDb c)) (bump w)) -> wp (is_redirect_uri_allowed (cl_id client) uri) Q w.
Proof.
  intros Hyes Hno Herr. unfold is_redirect_uri_allowed. do 2 wp_step; [|done]. wp_step.
  rewrite (Permutation_length (row_order_perm (tick w) _)).
  destruct (0 <? _)%Z eqn:Hc; [|done]. apply Hyes.
  destruct (where_ _ (redirect_uris (pg w))) as [|r l] eqn:Hw; [done|].
  assert (Hin : r ∈ where_ (fun r => ru_client_id r = cl_id client /\ ru_uri r = uri) (redirect_uris (pg w)))
    by (rewrite Hw; left).
  apply elem_of_where in Hin as [[Hc1 Hu] [i Hi]]. by exists i, r.
Qed.

(** A client by its key, with some redirect URIs attached. *)
Lemma find_client_by_id_spec id w :
  pg_wf (pg w) ->
  wp (find_by_id id) (fun r w' => quiet w w' /\ forall c, r = Ok (Some c) ->
    cl_id c = id /\ exists uris row, clients (pg w) !! id = Some row /\ c = set_redirect_uris uris row) w.
Proof.
  intros Hwf. unfold find_by_id. do 2 wp_step; [|split; [auto with wp|done]].
  rewrite head_where_key by apply Hwf. destruct (clients (pg w) !! id) as [row|] eqn:Hrow;
    [|wp_step; split; [auto with wp|done]].
  wp_step. apply wp_fetch_redirect_uris; intros; [|split; [auto with wp|done]].
  wp_step. split; [auto with wp|]. intros c [= <-]. split; [exact (wf_clients_key _ Hwf _ _ Hrow)|eauto].
Qed.

(** *** Writers *)

(** From [d] to [d'] only the client with id [id] and its URIs changed. *)
Definition only_client (id : Uuid) (d d' : Pg) : Prop :=
  (forall i, i <> id -> clients d' !! i = clients d !! i)
  /\ forall i, i <> id -> forall j r, ru_client_id r = i ->
       redirect_uris d !! j = Some r <-> redirect_uris d' !! j = Some r.

Lemma only_client_refl id d : only_client id d d.
Proof. done. Qed.

Lemma only_client_trans id d1 d2 d3 : only_client id d1 d2 -> only_client id d2 d3 -> only_client id d1 d3.
Proof.
  intros [Hc1 Hu1] [Hc2 Hu2]. split.
  - intros i Hi. by rewrite Hc2, Hc1.
  - intros i Hi j r Hr. by rewrite (Hu1 i Hi j r Hr), (Hu2 i Hi j r Hr).
Qed.

Lemma served_local id cid d d' c :
  only_client id d d' -> cl_id c <> id -> served_from cid d c -> served_from cid d' c.
Proof.
  intros [Hc Hu] Hne (row & Hr & Hcid & Heq & Hp). exists row. rewrite Hc by done.
  split; [done|]. split; [done|]. split; [done|]. rewrite Hp. apply where_same. by apply Hu.
Qed.

Lemma insert_client_only c d d' :
  insert_client c d = Ok (tt, d') -> only_client (cl_id c) d d' /\ clients d !! cl_id c = None.
Proof.
  unfold insert_client, rbind. repeat case_match; try done. intros [= <-].
  match goal with Hn : negb (has_row _ _) = true |- _ =>
    apply negb_true_iff, bool_decide_eq_false in Hn; apply eq_None_not_Some in Hn end.
  split; [|done]. split; [|done]. intros i Hi. simpl. by rewrite lookup_insert_ne.
Qed.

Lemma update_client_only c d o d' :
  update_client c d = Ok (o, d') -> only_client (cl_id c) d d'
  /\ match o with
     | Some row => exists old, clients d !! cl_id c = Some old /\ cl_client_id row = cl_client_id old
     | None => d' = d
     end.
Proof.
  unfold update_client, rbind. destruct (clients d !! cl_id c) as [old|] eqn:Ho.
  - repeat case_match; try done. intros [= <- <-]. split; [|by exists old].
    split; [|done]. intros i Hi. simpl. by rewrite lookup_insert_ne.
  - by intros [= <- <-].
Qed.

Lemma delete_client_only id d n d' : delete_client id d = Ok (n, d') -> only_client id d d'.
Proof.
  intros [= _ <-]. split; simpl.
  - intros i Hi. by rewrite lookup_delete_ne.
  - intros i Hi j r Hr. rewrite lookup_delete_where. naive_solver.
Qed.

Lemma insert_uri_only id cid uri t d d' :
  insert_redirect_uri id cid uri t d = Ok (tt, d') ->
  only_client cid d d' /\ clients d' = clients d.
Proof.
  unfold insert_redirect_uri. repeat case_match; try done. intros [= <-].
  match goal with Hn : negb (has_row _ _) = true |- _ =>
    apply negb_true_iff, bool_decide_eq_false in Hn; apply eq_None_not_Some in Hn end.
  split; [|done]. split; [done|]. simpl. intros i Hi j r Hr.
  rewrite lookup_insert_Some. split.
  - intros Hj. right. split; [|done]. intros <-. congruence.
  - intros [[<- <-]|[_ ?]]; done.
Qed.

Lemma delete_uri_only id r d n d' :
  redirect_uris d !! id = Some r ->
  delete_redirect_uri id d = Ok (n, d') -> only_client (ru_client_id r) d d' /\ clients d' = clients d.
Proof.
  intros Hr [= _ <-]. split; [|done]. split; [done|]. simpl. intros i Hi j x Hx.
  rewrite lookup_delete_Some. split; [|naive_solver]. intros Hj. split; [|done]. intros <-. naive_solver.
Qed.

(** Redis answers from tick [n] to tick [m]. *)
Definition redis_reached (n m : nat) : Prop :=
  forall k, n <= k < m -> redis_pool_up k = true /\ redis_reply k = Served.

Lemma redis_ok_reached n m : redis_ok n -> redis_reached n m.
Proof. intros Hup k Hk. apply Hup. lia. Qed.

Lemma reached_from n n' m : n <= n' -> redis_reached n m -> redis_reached n' m.
Proof. intros Hn Hr k Hk. apply Hr. lia. Qed.

Lemma invalidate_spec cid w :
  wp (invalidate cid) (fun r w' => r = Ok tt /\ pg w' = pg w
    /\ redis_frame (eq (Keys.client cid)) w w'
    /\ (cid <> "" -> redis_reached (tick w) (tick w') -> forall snap, ~ cached cid w' snap)) w.
Proof.
  unfold invalidate. destruct (is_empty cid) eqn:He.
  { wp_step. apply is_empty_spec in He. split; [done|]. split; [done|]. split; [apply frame_refl|done]. }
  assert (Hgone : forall s, rupdate (redis_clock (S (tick w))) (Keys.client cid) None (redis w) s ->
    forall snap, ~ cached cid (bump (set_redis s (bump w))) snap).
  { intros s Hu snap (v & dl & raw & Hl & _).
    rewrite (rupdate_same _ _ _ _ _ _ Hu) in Hl by (apply redis_clock_mono; simpl; lia). done. }
  assert (Hframe : forall s, rupdate (redis_clock (S (tick w))) (Keys.client cid) None (redis w) s ->
    redis_frame (eq (Keys.client cid)) w (bump (set_redis s (bump w))))
    by (intros s Hu; eapply (frame_cmd _ _ (bump w)); [auto with wp|exact Hu|done]).
  apply wp_bind, wp_attempt. destruct (redis_pool_up (tick w)) eqn:Hup.
  2:{ apply wp_redis_conn_down; [done|]. wp_step. split; [done|]. split; [done|]. split; [auto with wp|].
      intros _ Hr. destruct (Hr (tick w)) as [Hr' _]; simpl; [lia|congruence]. }
  apply wp_redis_conn_up; [done|]. wp_step. assert (Hcase : redis_reply (S (tick w)) = Served \/ redis_reply (S (tick w)) <> Served)
    by (destruct (redis_reply (S (tick w))); auto). destruct Hcase as [Hs|Hs].
  - apply wp_redis_del_served; [exact Hs|]. intros n s Hu. simpl in Hu. do 2 (split; [done|]). split; [by apply Hframe|].
    intros _ _. by apply Hgone.
  - assert (Hmiss : forall w', S (tick w) < tick w' -> ~ redis_reached (tick w) (tick w')).
    { intros w' Ht Hr. by destruct (Hr (S (tick w))) as [_ ?]; [lia|]. }
    apply wp_redis_del.
    + intros r s Hu _. simpl in Hu. do 2 (split; [done|]). split; [by apply Hframe|].
      intros _ Hr. by destruct (Hmiss (bump (set_redis s (bump w)))); [simpl; lia|].
    + do 2 (split; [done|]). split; [auto with wp|]. intros _ Hr. by destruct (Hmiss (bump (bump w))); [simpl; lia|].
Qed.

(** Invalidation never fails and never writes to Postgres. *)
Lemma invalidate_pg cid w : wp (invalidate cid) (fun r w' => r = Ok tt /\ pg w' = pg w) w.
Proof.
  unfold invalidate. destruct (is_empty cid); [by wp_step|]. do 3 wp_step; [|by wp_step]. wp_step.
  apply wp_redis_del; [|done]. intros r s _ _. done.
Qed.

(** A write to one client, then the invalidation of its entry: it takes effect if
    Redis answers. *)
Lemma invalidate_coherent id cid w w1 :
  tick w <= tick w1 -> redis w1 = redis w -> coherent w ->
  only_client id (pg w) (pg w1) ->
  (forall row, clients (pg w) !! id = Some row -> cl_client_id row = cid) ->
  wp (invalidate cid) (fun r w' => r = Ok tt /\ (redis_reached (tick w) (tick w') -> coherent w')) w1.
Proof.
  intros Ht Hr Hc Hloc Hcid. wp_call invalidate_spec.
  intros r w' (-> & Hp & Hf & Hgone). split; [done|]. intros Hup cid' snap Hne Hs.
  destruct (decide (cid' = cid)) as [->|Hd]; [by destruct (Hgone Hne (reached_from _ _ _ Ht Hup) snap)|].
  assert (Hs1 : cached cid' w1 snap).
  { eapply cached_frame; [done| |done]. intros Heq. by apply client_key_inj in Heq. }
  assert (Hs0 : cached cid' w snap) by by eapply cached_later.
  pose proof (Hc _ _ Hne Hs0) as Hsf. rewrite Hp. eapply served_local; [done| |done].
  destruct Hsf as (row & Hrow & Hrc & _). intros Heq. rewrite Heq in Hrow.
  apply Hd. by rewrite <- (Hcid row).
Qed.

Lemma insert_uris_spec cid l d w :
  wp (insert_uris cid l (TxOpen d)) (fun r w' => pg w' = pg w /\ redis w' = redis w /\ tick w <= tick w'
    /\ match r with Ok tx => exists d', tx = TxOpen d' /\ only_client cid d d' | Err _ => True end) w.
Proof.
  revert d w. induction l as [|u l IH]; intros d w; simpl.
  { wp_step. eauto 10 using only_client_refl. }
  do 2 wp_step; [|simpl; auto]. wp_call IH. simpl. intros r w' (Hp & Hr & Ht & Hres).
  split; [done|]. split; [done|]. split; [lia|]. destruct r as [tx|]; [|done].
  destruct Hres as (d' & -> & Hloc). exists d'. split; [done|]. destruct a.
  eapply only_client_trans; [by eapply insert_uri_only|done].
Qed.

Lemma wp_client_id_of id Q w :
  keyed cl_id (clients (pg w)) ->
  Q (Ok (cl_client_id <$> clients (pg w) !! id)) (bump w) -> (forall c, Q (Err (EDb c)) (bump w)) ->
  wp (client_id_of id) Q w.
Proof.
  intros Hwf Hok Herr. unfold client_id_of. wp_step; [|done].
  rewrite (where_key cl_id _ id Hwf).
  rewrite head_row_order by (destruct (clients (pg w) !! id); simpl; lia).
  by destruct (clients (pg w) !! id).
Qed.

(** The writers of the client tables. *)
Inductive client_op :=
| OpPersist (c : Client)
| OpUpdate (c : Client)
| OpDelete (id : Uuid)
| OpAddUri (u : RedirectUri)
| OpRemoveUri (id : Uuid).

Definition run_op (op : client_op) : io unit :=
  match op with
  | OpPersist c => persist c
  | OpUpdate c => bind (update c) (fun _ => ret tt)
  | OpDelete id => bind (delete_by_id id) (fun _ => ret tt)
  | OpAddUri u => add_redirect_uri u
  | OpRemoveUri id => bind (remove_redirect_uri id) (fun _ => ret tt)
  end.

(** Coherent, if Redis answered on the way. *)
Definition coherent_after w w' : Prop := redis_reached (tick w) (tick w') -> coherent w'.

Lemma persist_coherent c w :
  coherent w -> wp (persist c) (post (fun _ w' => coherent_after w w')) w.
Proof.
  intros Hc. unfold persist. do 2 wp_step; [|done]. do 2 wp_step; [|done]. destruct a.
  destruct (insert_client_only c _ _ Hq) as [Hloc Hnone].
  wp_step. wp_call insert_uris_spec. simpl. intros [tx|] w1 (Hp1 & Hr1 & Ht1 & Hres); [|done].
  destruct Hres as (d' & -> & Hloc'). do 2 wp_step; try done.
  eapply wp_mono; [apply (invalidate_coherent (cl_id c) (cl_client_id c) w); try done; simpl; try lia|].
  - by eapply only_client_trans.
  - intros row. rewrite Hnone. done.
  - intros r w' [-> ?]. done.
Qed.

(** Invalidation only removes. *)
Lemma invalidate_shrinks cid w : wp (invalidate cid) (fun r w' => r = Ok tt /\ pg w' = pg w /\ redis_shrinks w w') w.
Proof.
  unfold invalidate. destruct (is_empty cid); [wp_step; split; [done|]; split; [done|]; auto with wp|].
  do 3 wp_step; [|wp_step; split; [done|]; split; [done|]; auto with wp]. wp_step.
  apply wp_redis_del; [|split; [done|]; split; [done|]; auto with wp].
  intros r s Hu _. split; [done|]. split; [done|]. eapply (shrinks_del w (bump w)); [auto with wp|exact Hu].
Qed.

(** A client that was not there before cannot be in the cache: its insertion keeps
    the cache coherent, also when Redis is away. *)
Lemma only_client_coherent id w w' :
  only_client id (pg w) (pg w') -> clients (pg w) !! id = None -> redis_shrinks w w' -> coherent w -> coherent w'.
Proof.
  intros Hloc Hnone Hsh Hco cid snap Hne (v & dl & raw & Hl & Hx).
  assert (Hsf : served_from cid (pg w) (into_entity snap))
    by (apply Hco; [done|]; exists v, dl, raw; split; [by eapply shrinks_rlive|done]).
  eapply served_local; [done| |done]. intros Heq. destruct Hsf as (row & Hrow & _). rewrite Heq in Hrow. congruence.
Qed.

Lemma same_coherent w w' : pg w' = pg w -> redis_shrinks w w' -> coherent w -> coherent w'.
Proof.
  intros Hp Hsh Hco cid snap Hne (v & dl & raw & Hl & Hx). rewrite Hp. apply Hco; [done|]. exists v, dl, raw.
  split; [by eapply shrinks_rlive|done].
Qed.

(** What [persist] leaves, whatever its outcome: nothing changed, or one new client
    with its URIs. *)
Lemma persist_spec c w :
  coherent w ->
  wp (persist c) (fun r w' => coherent w' /\ (pg w' = pg w /\ r <> Ok tt
    \/ exists d d' wx wy, insert_client c (pg w) = Ok (tt, d)
         /\ insert_uris (cl_id c) (cl_redirect_uris c) (TxOpen d) wx = (Ok (TxOpen d'), wy) /\ pg w' = d')) w.
Proof.
  intros Hco. unfold persist.
  assert (Hsame : forall (e : err) w', pg w' = pg w -> redis_shrinks w w' -> coherent w' /\ (pg w' = pg w /\ @Err err unit e <> Ok tt
    \/ exists d d' wx wy, insert_client c (pg w) = Ok (tt, d)
         /\ insert_uris (cl_id c) (cl_redirect_uris c) (TxOpen d) wx = (Ok (TxOpen d'), wy) /\ pg w' = d'))
    by (intros e w' Hp Hsh; split; [by eapply same_coherent|by left]).
  do 2 wp_step; [|by apply Hsame; auto with wp]. do 2 wp_step; [|by apply Hsame; auto with wp]. destruct a.
  destruct (insert_client_only c _ _ Hq) as [Hloc Hnone]. wp_step. apply run_wp. intros r w1 Huris.
  destruct (wp_run _ _ _ _ _ (insert_uris_spec (cl_id c) (cl_redirect_uris c) d _) Huris) as (Hp1 & Hr1 & Ht1 & Hres).
  simpl in Hp1, Hr1, Ht1. assert (Hsh1 : redis_shrinks w w1) by (split; [lia|]; rewrite Hr1; by left).
  destruct r as [tx|e]; [|by apply Hsame]. destruct Hres as (d' & -> & Hloc').
  assert (Hnew : forall (r : res err unit) w', pg w' = d' -> redis_shrinks w w' -> coherent w' /\ (pg w' = pg w /\ r <> Ok tt
    \/ exists d d' wx wy, insert_client c (pg w) = Ok (tt, d)
         /\ insert_uris (cl_id c) (cl_redirect_uris c) (TxOpen d) wx = (Ok (TxOpen d'), wy) /\ pg w' = d')).
  { intros r w' Hp Hsh. split; [|right; by eexists d, d', _, w1].
    eapply (only_client_coherent (cl_id c)); [|done|done|done]. rewrite Hp. by eapply only_client_trans. }
  do 2 wp_step.
  - wp_call invalidate_shrinks. intros r w2 (-> & Hp2 & Hsh2). apply Hnew; [done|]. eapply shrinks_trans; [|exact Hsh2]. auto with wp.
  - apply Hsame; [done|]. auto with wp.
  - apply Hnew; [done|]. auto with wp.
Qed.

Lemma update_coherent c w :
  coherent w -> wp (update c) (post (fun _ w' => coherent_after w w')) w.
Proof.
  intros Hc. unfold update. do 2 wp_step; try done.
  destruct (update_client_only _ _ _ _ Hq) as [Hloc Ho]. destruct a as [row|].
  - destruct Ho as (old & Hold & Heq). wp_step.
    eapply wp_mono; [apply (invalidate_coherent (cl_id c) (cl_client_id row) w); try done; simpl; try lia|].
      + intros r Hr. congruence.
    + intros r w' [-> ?]. by wp_step.
  - subst d. wp_step. intros _; eapply coherent_later; [..|done]; simpl; auto.
Qed.

Lemma delete_coherent id w :
  pg_wf (pg w) -> coherent w ->
  wp (delete_by_id id) (post (fun _ w' => coherent_after w w')) w.
Proof.
  intros Hwf Hc. unfold delete_by_id. wp_step. apply wp_client_id_of; [apply Hwf| |done].
  destruct (clients (pg w) !! id) as [row|] eqn:Hrow; simpl;
    [|wp_step; intros _; eapply coherent_later; [..|done]; simpl; auto].
  do 2 wp_step; try done. simpl in Hq. wp_step.
  eapply wp_mono; [apply (invalidate_coherent id (cl_client_id row) w); try done; simpl; try lia|].
  - by eapply delete_client_only.
  - intros r. rewrite Hrow. by intros [= <-].
  - intros r w' [-> ?]. by wp_step.
Qed.

Lemma add_uri_coherent u w :
  pg_wf (pg w) -> coherent w ->
  wp (add_redirect_uri u) (post (fun _ w' => coherent_after w w')) w.
Proof.
  intros Hwf Hc. unfold add_redirect_uri. do 2 wp_step; try done. destruct a.
  destruct (insert_uri_only _ _ _ _ _ _ Hq) as [Hloc Hcl].
  wp_step. apply wp_client_id_of; [simpl; rewrite Hcl; apply Hwf| |done]. simpl. rewrite Hcl.
  destruct (clients (pg w) !! ru_client_id u) as [row|] eqn:Hrow; simpl.
  - eapply wp_mono; [apply (invalidate_coherent (ru_client_id u) (cl_client_id row) w); try done; simpl; try lia|].
      + intros r. rewrite Hrow. by intros [= <-].
    + intros r w' [-> ?]. done.
  - wp_step. unfold insert_redirect_uri in Hq. repeat case_match; try done.
    match goal with Hx : has_row (clients _) _ = true |- _ =>
      apply bool_decide_eq_true in Hx; rewrite Hrow in Hx; by destruct Hx end.
Qed.

Lemma remove_uri_coherent id w :
  pg_wf (pg w) -> coherent w ->
  wp (remove_redirect_uri id) (post (fun _ w' => coherent_after w w')) w.
Proof.
  intros Hwf Hc. unfold remove_redirect_uri. do 2 wp_step; [|done].
  rewrite (where_key ru_id _ id (wf_redirects_key _ Hwf)).
  destruct (redirect_uris (pg w) !! id) as [u|] eqn:Hu.
  - destruct (wf_redirects_client _ Hwf _ _ Hu) as [row Hrow].
    assert (Hown : (option_list (Some u) ≫= fun r => cl_client_id <$>
      where_ (fun c => cl_id c = ru_client_id r) (clients (pg w))) = [cl_client_id row]).
    { simpl. rewrite (where_key cl_id _ _ (wf_clients_key _ Hwf)), Hrow. done. }
    rewrite Hown, head_row_order by (simpl; lia). cbn [head].
    do 2 wp_step; try done. simpl in Hq.
    destruct (delete_uri_only _ _ _ _ _ Hu Hq) as [Hloc Hcl].
    assert (a = 1%Z) as ->.
    { injection Hq as <- _. unfold has_row. by rewrite bool_decide_true by (rewrite Hu; eauto). }
    wp_step. eapply wp_mono; [apply (invalidate_coherent (ru_client_id u) (cl_client_id row) w); try done; simpl; try lia|].
      + intros r. rewrite Hrow. by intros [= <-].
    + intros r w' [-> ?]. by wp_step.
  - set (owning := head _). do 2 wp_step; try done. simpl in Hq. injection Hq as <- <-.
    assert (has_row (redirect_uris (pg w)) id = false) as ->.
    { apply bool_decide_eq_false. rewrite Hu. by intros []. }
    wp_step. cbn [Z.ltb Z.compare]. wp_steps. intros _ cid snap Hne Hs.
    assert (Hs0 : cached cid w snap) by (eapply cached_later; [..|done]; simpl; lia || done).
    pose proof (Hc _ _ Hne Hs0) as Hsf.
    assert (Hid : on_redirect_uris (delete id) (pg w) = pg w).
    { unfold on_redirect_uris. rewrite delete_id by done. by destruct (pg w). }
    cbn [pg bump set_pg]. by rewrite Hid.
Qed.

Lemma run_op_coherent op w :
  pg_wf (pg w) -> coherent w ->
  wp (run_op op) (post (fun _ w' => coherent_after w w')) w.
Proof.
  intros Hwf Hc. destruct op as [c|c|id|u|id]; simpl.
  - by apply persist_coherent.
  - wp_step. wp_call update_coherent; [done..|]. intros [o|e] w' Hw'; [by wp_step|done].
  - wp_step. wp_call delete_coherent; [done..|]. intros [o|e] w' Hw'; [by wp_step|done].
  - by apply add_uri_coherent.
  - wp_step. wp_call remove_uri_coherent; [done..|]. intros [o|e] w' Hw'; [by wp_step|done].
Qed.
End Cache.

(** ** Theorems *)

(** The client cache is transparent to readers.  From a coherent cache over
    a database that satisfies its constraints, whatever fails on the way, a
    client found by [client_id] is the database's row with exactly its
    registered redirect URIs; not found means there is no such row; the tables
    are untouched and the cache stays coherent. *)
Theorem client_cache_transparent `{RedisLaws} `{EnvLaws} `{JsonCodecLaws ClientSnapshot} self cid w r w' :
  pg_wf (pg w) -> coherent w -> find_by_client_id self cid w = (r, w') ->
  pg w' = pg w /\ coherent w'
  /\ match r with
     | Ok (Some c) => served_from cid (pg w) c
     | Ok None => cid = "" \/ forall i row, clients (pg w) !! i = Some row -> cl_client_id row <> cid
     | Err e => exists code, e = EDb code
     end.
Proof.
  intros Hwf Hc Hrun.
  destruct (wp_run _ _ _ _ _ (find_by_client_id_spec self cid w Hwf) Hrun) as (Hp & _ & Hk & Hr).
  split; [done|]. split; [auto|]. destruct r as [[c|]|e]; [|done..].
  destruct Hr as [Hne [(snap & Hs & ->)|Hr]]; [by apply Hc|done].
Qed.

(** Writers keep the cache coherent.  If Redis answers meanwhile, every
    successful write to the client tables (insert, update, delete, adding or
    removing a redirect URI) leaves no cache entry that disagrees with the
    database. *)
Theorem client_writes_invalidate `{RedisLaws} `{EnvLaws} `{JsonCodecLaws ClientSnapshot} op w w' :
  pg_wf (pg w) -> coherent w -> run_op op w = (Ok tt, w') -> redis_reached (tick w) (tick w') -> coherent w'.
Proof. intros Hwf Hc Hrun. exact (wp_run _ _ _ _ _ (run_op_coherent op w Hwf Hc) Hrun). Qed.

(** ** Witnesses *)

#[export] Instance redirect_uri_snapshot_eq : EqDecision RedirectUriSnapshot.
Proof. solve_decision. Defined.
#[export] Instance redirect_uri_snapshot_countable : Countable RedirectUriSnapshot.
Proof.
  apply (inj_countable' (fun r => (rus_id r, rus_uri r, rus_created_at r))
    (fun '(a, b, c) => mkRedirectUriSnapshot a b c)). by intros [].
Defined.
#[export] Instance client_snapshot_eq : EqDecision ClientSnapshot.
Proof. solve_decision. Defined.
#[export] Instance client_snapshot_countable : Countable ClientSnapshot.
Proof.
  apply (inj_countable'
    (fun c => (cs_id c, cs_client_id c, cs_client_secret c, cs_name c, cs_client_type c,
      cs_grant_types c, cs_response_types c, cs_scopes c, cs_pkce_required c, cs_enabled c,
      cs_base_url c, cs_description c, cs_access_token_ttl c, cs_refresh_token_ttl c,
      cs_frontchannel_logout_uri c, cs_backchannel_logout_uri c, cs_created_at c, cs_updated_at c,
      cs_redirect_uris c))
    (fun '(a, b, c, d, e, f, g, h, i, j, k, l, m, n, o, p, q, r, s) =>
       mkClientSnapshot a b c d e f g h i j k l m n o p q r s)). by intros [].
Defined.

Import Instances.

Definition demo_client : Client :=
  mkClient 5 "app" None None (Some "public") None None (Some "openid email") true true None None
    None None None None 0 0 [].
Definition demo_uri : RedirectUri := mkRedirectUri 6 5 "https://app/cb" 0.
Definition pg_client : Pg :=
  on_redirect_uris <[6%N := demo_uri]> (on_clients <[5%N := demo_client]> pg_empty).
Definition world_client : World := mkWorld 0 pg_client (∅ : gmap string rentry).

Lemma pg_client_wf : pg_wf pg_client.
Proof. apply pg_wf_b_ok. vm_compute. reflexivity. Qed.

Lemma world_client_coherent : coherent world_client.
Proof. intros cid snap _ (v & dl & raw & Hl & _). done. Qed.

Lemma client_cache_transparent_witness :
  (find_by_client_id (mkClientRepository 60) "app" world_client).1
    = Ok (Some (set_redirect_uris [demo_uri] demo_client))
  /\ served_from "app" pg_client (set_redirect_uris [demo_uri] demo_client).
Proof.
  assert (Hr : (find_by_client_id (mkClientRepository 60) "app" world_client).1
    = Ok (Some (set_redirect_uris [demo_uri] demo_client))) by (vm_compute; reflexivity).
  split; [exact Hr|].
  apply (client_cache_transparent (mkClientRepository 60) "app" world_client _ _ pg_client_wf world_client_coherent (run_fst _ _ _ Hr)).
Defined.

Lemma client_writes_invalidate_witness :
  (run_op (OpUpdate demo_client) world_client).1 = Ok tt
  /\ coherent (run_op (OpUpdate demo_client) world_client).2.
Proof.
  assert (Hr : (run_op (OpUpdate demo_client) world_client).1 = Ok tt) by (vm_compute; reflexivity).
  split; [exact Hr|].
  apply (client_writes_invalidate (OpUpdate demo_client) world_client _ pg_client_wf
           world_client_coherent (run_fst _ _ _ Hr) (redis_ok_reached _ _ (demo_redis_ok _))).
Defined.
