(* ===== verification/RefreshToken.v ===== *)
(** * Refresh tokens at rest ([oauth/token/model.rs], [oauth/token/repository.rs],
    [oauth/token/cleanup.rs])

    The statements on [refresh_tokens]: lookup by hash (with the row lock of the
    rotation), insertion, revocation, and the hourly sweep of expired rows. *)

From stdpp Require Import base tactics list gmap strings.
From Stdlib Require Import ZArith Lia.
From S2P Require Import Prelude RustStr Redis Schema World Demo.

Local Open Scope auth_scope.

(** ** Statements *)

Definition set_revoked (b : bool) (t : RefreshToken) : RefreshToken :=
  mkRefreshToken (rt_id t) (rt_user_id t) (rt_client_id t) (rt_session_id t) (rt_token_hash t)
    (rt_expires_at t) b (rt_created_at t).

Definition refresh_row (t : RefreshToken) : RefreshToken :=
  mkRefreshToken (rt_id t) (rt_user_id t) (rt_client_id t) (rt_session_id t) (rt_token_hash t)
    (pg_ts <$> rt_expires_at t) (rt_revoked t) (pg_ts (rt_created_at t)).

(** [INSERT INTO refresh_tokens (...) VALUES (...)] *)
Definition insert_refresh_token (t : RefreshToken) : stmt unit := fun d =>
  check! negb (has_row (refresh_tokens d) (rt_id t)) else unique_violation in
  check! no_row (fun x => rt_token_hash x = rt_token_hash t) (refresh_tokens d)
    else unique_violation in
  check! has_row (users d) (rt_user_id t) && has_row (clients d) (rt_client_id t)
         && has_row (user_sessions d) (rt_session_id t) else foreign_key_violation in
  Ok (tt, on_refresh_tokens <[rt_id t := refresh_row t]> d).

(** [UPDATE refresh_tokens SET revoked = $2 WHERE id = $1] *)
Definition update_refresh_revoked (id : Uuid) (revoked : bool) : stmt unit := fun d =>
  Ok (tt, on_refresh_tokens (update_where (fun t => rt_id t = id) (set_revoked revoked)) d).

(** [UPDATE refresh_tokens SET revoked = TRUE WHERE P AND revoked = FALSE] *)
Definition revoke_where (P : RefreshToken -> Prop) `{forall t, Decision (P t)} : stmt Z := fun d =>
  Ok (Z.of_nat (length (where_ (fun t => P t /\ rt_revoked t = false) (refresh_tokens d))),
      on_refresh_tokens (update_where (fun t => P t /\ rt_revoked t = false) (set_revoked true)) d).

(** [DELETE FROM refresh_tokens WHERE expires_at IS NOT NULL AND expires_at < $1] *)
Definition expired_at (now : Z) (t : RefreshToken) : Prop :=
  match rt_expires_at t with Some e => (e < now)%Z | None => False end.
#[export] Instance expired_at_dec now t : Decision (expired_at now t).
Proof. unfold expired_at. destruct (rt_expires_at t); apply _. Defined.

Definition delete_expired (now : Z) : stmt Z := fun d =>
  Ok (Z.of_nat (length (where_ (expired_at (pg_ts now)) (refresh_tokens d))),
      on_refresh_tokens (delete_where (expired_at (pg_ts now))) d).

(** ** RefreshTokenRepository *)

Section Repository.
Context `{RedisServer} `{Env}.

Definition find_by_id (id : Uuid) : io (option RefreshToken) :=
  fetch_optional (fun d => where_ (fun t => rt_id t = id) (refresh_tokens d)).

Definition find_by_token_hash (token_hash : string) : io (option RefreshToken) :=
  fetch_optional (fun d => where_ (fun t => rt_token_hash t = token_hash) (refresh_tokens d)).

(** [... FOR UPDATE] on the caller's connection. *)
Definition find_by_token_hash_for_update (token_hash : string) (tx : Tx) : io (option RefreshToken * Tx) :=
  tx_fetch_optional (fun d => where_ (fun t => rt_token_hash t = token_hash) (refresh_tokens d)) tx.

Definition persist_in_tx (tx : Tx) (t : RefreshToken) : io (unit * Tx) :=
  tx_try (insert_refresh_token t) tx.

Definition persist (t : RefreshToken) : io unit := execute (insert_refresh_token t).

Definition update_revoked (id : Uuid) (revoked : bool) : io unit :=
  execute (update_refresh_revoked id revoked).

Definition update_revoked_in_tx (tx : Tx) (id : Uuid) (revoked : bool) : io (unit * Tx) :=
  tx_try (update_refresh_revoked id revoked) tx.

(** Its caller discards the result and goes on with the transaction. *)
Definition revoke_by_session_id_in_tx (tx : Tx) (session_id : Uuid) : io (res err Z * Tx) :=
  tx_execute (revoke_where (fun t => rt_session_id t = session_id)) tx.

(** [SELECT DISTINCT client_id FROM refresh_tokens WHERE session_id = $1] *)
Definition find_client_ids_by_session_id (session_id : Uuid) : io (list Uuid) :=
  fetch_all (fun d =>
    remove_dups (rt_client_id <$> where_ (fun t => rt_session_id t = session_id) (refresh_tokens d))).

(** ** The sweep *)

Definition sweep_once : io Z :=
  let! now := utc_now in
  execute (delete_expired now).
End Repository.

(** ** Theorems *)

(** The sweep removes exactly the expired tokens.  Whether it succeeds or
    its answer is lost, the rows it removed are rows whose expiry lies before
    the time it read; revoked but unexpired tokens stay, so that their replay can
    be detected; nothing else in the database changes, and when it succeeds all
    expired rows are gone and were counted. *)
Theorem sweep_exact `{RedisServer} `{Env} w r w' :
  sweep_once w = (r, w') ->
  redis w' = redis w
  /\ (pg w' = pg w \/ pg w' = on_refresh_tokens (delete_where (expired_at (pg_ts (clock (tick w))))) (pg w))
  /\ (forall i t, refresh_tokens (pg w) !! i = Some t -> ~ expired_at (pg_ts (clock (tick w))) t ->
        refresh_tokens (pg w') !! i = Some t)
  /\ (forall n, r = Ok n ->
        n = Z.of_nat (length (where_ (expired_at (pg_ts (clock (tick w)))) (refresh_tokens (pg w))))
        /\ forall i t, refresh_tokens (pg w') !! i = Some t -> ~ expired_at (pg_ts (clock (tick w))) t).
Proof.
  assert (Hdel : forall i t, refresh_tokens (pg w) !! i = Some t -> ~ expired_at (pg_ts (clock (tick w))) t ->
    delete_where (expired_at (pg_ts (clock (tick w)))) (refresh_tokens (pg w)) !! i = Some t).
  { intros i t Hi Hn. by apply lookup_delete_where. }
  intros Hrun. run_wp Hrun. unfold sweep_once. do 3 wp_step.
  - injection Hq as <- <-. simpl. split; [done|]. split; [by right|]. split; [exact Hdel|].
    intros n [= <-]. split; [done|]. intros i t Hi. by apply lookup_delete_where in Hi as [_ ?].
  - split; [done|]. split; [by left|]. by split.
  - injection Hq as <- <-. simpl. split; [done|]. split; [by right|]. split; [exact Hdel|done].
Qed.

Import Instances.

Definition demo_token (id : Uuid) (exp : Z) (rev : bool) : RefreshToken :=
  mkRefreshToken id 1 2 3 (String (Ascii.ascii_of_N id) "") (Some exp) rev 0.
Definition world_sweep : World :=
  mkWorld 0 (on_refresh_tokens (fun m => <[1%N := demo_token 1 1000 true]>
    (<[2%N := demo_token 2 1800000000000000000 true]> m)) pg_empty) (∅ : gmap string rentry).

Lemma sweep_exact_witness :
  (sweep_once world_sweep).1 = Ok 1%Z
  /\ refresh_tokens (pg (sweep_once world_sweep).2) !! 2%N = Some (demo_token 2 1800000000000000000 true).
Proof.
  split; [vm_compute; reflexivity|].
  apply (sweep_exact world_sweep _ _ (surjective_pairing _)); [done|].
  vm_compute. intros Hlt. discriminate Hlt.
Defined.
