(* ===== verification/Session.v ===== *)
(** * Login sessions ([session/model.rs], [session/repository.rs],
    [session/service.rs])

    A session is a row of [user_sessions] and, while it is fresh, a snapshot in
    Redis under the hash of its token.  Lookups are served from the snapshot, so
    a deletion must reach Redis first: if the cache entry cannot be removed the
    row is kept.  The theorems state that discipline: under any pattern of
    failures no live cache entry is left without its row, and a session that was
    logged out is not served again. *)

From stdpp Require Import base tactics list gmap strings.
From Stdlib Require Import ZArith Lia.
From S2P Require Import Prelude RustStr Redis Schema World Ext Demo RedisKeys Hashing RefreshToken.

Local Open Scope auth_scope.

(** ** Snapshots *)

Record SessionSnapshot := mkSessionSnapshot {
  ss_id : Uuid;
  ss_user_id : Uuid;
  ss_user_email : string;
  ss_user_username : string;
  ss_user_email_verified : bool;
  ss_user_enabled : bool;
  ss_ip_address : option string;
  ss_user_agent : option string;
  ss_expires_at : option Z;
  ss_created_at : Z;
}.

Record SessionWithUser := mkSessionWithUser {
  swu_session : UserSession;
  swu_user_email : string;
  swu_user_username : string;
  swu_user_email_verified : bool;
  swu_user_enabled : bool;
}.

(** The snapshot has no token and no last access: they come back empty. *)
Definition into_session_with_user (s : SessionSnapshot) : SessionWithUser := {|
  swu_session := {|
    ses_id := ss_id s;
    ses_user_id := ss_user_id s;
    ses_session_token := "";
    ses_ip_address := ss_ip_address s;
    ses_user_agent := ss_user_agent s;
    ses_expires_at := ss_expires_at s;
    ses_last_accessed_at := None;
    ses_created_at := ss_created_at s;
  |};
  swu_user_email := ss_user_email s;
  swu_user_username := ss_user_username s;
  swu_user_email_verified := ss_user_email_verified s;
  swu_user_enabled := ss_user_enabled s;
|}.

Definition from_session_with_user (s : SessionWithUser) : SessionSnapshot := {|
  ss_id := ses_id (swu_session s);
  ss_user_id := ses_user_id (swu_session s);
  ss_user_email := swu_user_email s;
  ss_user_username := swu_user_username s;
  ss_user_email_verified := swu_user_email_verified s;
  ss_user_enabled := swu_user_enabled s;
  ss_ip_address := ses_ip_address (swu_session s);
  ss_user_agent := ses_user_agent (swu_session s);
  ss_expires_at := ses_expires_at (swu_session s);
  ss_created_at := ses_created_at (swu_session s);
|}.

(** ** Statements *)

(** [INSERT INTO user_sessions (...) VALUES (...)] *)
Definition insert_session (s : UserSession) : stmt unit := fun d =>
  let? ip := varchar_opt 100 (ses_ip_address s) in
  let row := mkUserSession (ses_id s) (ses_user_id s) (ses_session_token s) ip (ses_user_agent s)
               (pg_ts <$> ses_expires_at s) (pg_ts <$> ses_last_accessed_at s)
               (pg_ts (ses_created_at s)) in
  check! negb (has_row (user_sessions d) (ses_id s)) else unique_violation in
  check! no_row (fun x => ses_session_token x = ses_session_token s) (user_sessions d)
    else unique_violation in
  check! has_row (users d) (ses_user_id s) else foreign_key_violation in
  Ok (tt, on_user_sessions <[ses_id s := row]> d).

(** [UPDATE user_sessions SET last_accessed_at = $2 WHERE id = $1] *)
Definition update_session_access (id : Uuid) (at_ : Z) : stmt unit := fun d =>
  Ok (tt, on_user_sessions (update_where (fun s => ses_id s = id)
        (fun s => mkUserSession (ses_id s) (ses_user_id s) (ses_session_token s) (ses_ip_address s)
                    (ses_user_agent s) (ses_expires_at s) (Some (pg_ts at_)) (ses_created_at s))) d).

(** [DELETE FROM user_sessions WHERE P]; refresh tokens follow their session. *)
Definition delete_sessions_where (P : UserSession -> Prop) `{forall s, Decision (P s)} : stmt Z := fun d =>
  let gone := ses_id <$> where_ P (user_sessions d) in
  Ok (Z.of_nat (length gone),
      on_refresh_tokens (delete_where (fun t => rt_session_id t ∈ gone))
        (on_user_sessions (delete_where P) d)).

(** ** The repository *)

Section Repository.
Context `{RedisServer} `{Env} `{Crypto} `{JsonCodec SessionSnapshot}.

Definition find_by_id (id : Uuid) : io (option UserSession) :=
  fetch_optional (fun d => where_ (fun s => ses_id s = id) (user_sessions d)).

Definition read_cache (token_hash : string) : io (option SessionWithUser) :=
  let! conn := attempt redis_conn in
  match conn with
  | Err _ => ret None
  | Ok _ =>
      let! raw := attempt (redis_get (Keys.session token_hash)) in
      match raw with
      | Ok (Some raw) =>
          if is_empty raw then ret None
          else match json_from_str raw with
               | Some snap => ret (Some (into_session_with_user snap))
               | None => ret None
               end
      | _ => ret None
      end
  end.

(** [expires_at.and_utc().signed_duration_since(Utc::now()).num_seconds()] *)
Definition ttl_seconds (expires_at : Z) : io Z :=
  let! now := utc_now in
  ret (num_seconds (expires_at - now)).

Definition populate_cache_with_ttl (token_hash : string) (hydrated : SessionWithUser) (ttl : Z) : io unit :=
  let snap := from_session_with_user hydrated in
  match json_to_string snap with
  | None => ret tt
  | Some payload =>
      let! conn := attempt redis_conn in
      match conn with
      | Err _ => ret tt
      | Ok _ => ignore (redis_set_ex (Keys.session token_hash) payload ttl)
      end
  end.

Definition populate_cache (token_hash : string) (hydrated : SessionWithUser) : io unit :=
  match ses_expires_at (swu_session hydrated) with
  | None => ret tt
  | Some expires_at =>
      let! ttl := ttl_seconds expires_at in
      if (ttl <=? 0)%Z then ret tt
      else populate_cache_with_ttl token_hash hydrated ttl
  end.

(** The rows of [user_sessions s JOIN users u ON u.id = s.user_id WHERE P]. *)
Definition join_user (P : UserSession -> Prop) `{forall s, Decision (P s)} (d : Pg)
  : list (UserSession * User) :=
  s ← where_ P (user_sessions d);
  (fun u => (s, u)) <$> where_ (fun u => usr_id u = ses_user_id s) (users d).

Definition find_by_token (session_token : string) : io (option SessionWithUser) :=
  if is_empty session_token then ret None
  else
    let token_hash := base64_url session_token in
    let! hit := read_cache token_hash in
    match hit with
    | Some hit => ret (Some hit)
    | None =>
        let! row := fetch_optional (join_user (fun s => ses_session_token s = session_token)) in
        match row with
        | None => ret None
        | Some (s, u) =>
            let hydrated := mkSessionWithUser s (usr_email u) (usr_username u)
                              (usr_email_verified u) (usr_enabled u) in
            do! populate_cache token_hash hydrated in
            ret (Some hydrated)
        end
    end.

(** [expires_at IS NULL OR expires_at > $now] *)
Definition unexpired (now : Z) (s : UserSession) : Prop :=
  match ses_expires_at s with None => True | Some e => (pg_ts now < e)%Z end.
#[global] Instance unexpired_dec now s : Decision (unexpired now s).
Proof. unfold unexpired. destruct (ses_expires_at s); apply _. Defined.

(** [ORDER BY last_accessed_at DESC NULLS LAST] *)
Definition recent_first (a b : UserSession) : bool :=
  match ses_last_accessed_at a, ses_last_accessed_at b with
  | Some x, Some y => (y <=? x)%Z
  | Some _, None => true
  | None, Some _ => false
  | None, None => true
  end.

Definition find_all_active : io (list UserSession) :=
  let! now := utc_now in
  let! rs := fetch_ordered recent_first (fun d => where_ (unexpired now) (user_sessions d)) in
  ret (take 200 rs).

Definition find_all_active_with_user : io (list (UserSession * string * string)) :=
  let! now := utc_now in
  let! rs := fetch_ordered (fun a b => recent_first a.1 b.1) (join_user (unexpired now)) in
  ret ((fun p => (p.1, usr_username p.2, usr_email p.2)) <$> take 200 rs).

Definition find_active_by_user_id (user_id : Uuid) : io (list UserSession) :=
  let! now := utc_now in
  fetch_ordered recent_first
    (fun d => where_ (fun s => ses_user_id s = user_id /\ unexpired now s) (user_sessions d)).

Definition find_active_by_user_id_with_user (user_id : Uuid) : io (list (UserSession * string * string)) :=
  let! now := utc_now in
  let! rs := fetch_ordered (fun a b => recent_first a.1 b.1)
               (join_user (fun s => ses_user_id s = user_id /\ unexpired now s)) in
  ret ((fun p => (p.1, usr_username p.2, usr_email p.2)) <$> rs).

Definition persist (session : UserSession) (email username : string) (verified enabled : bool) : io unit :=
  do! execute (insert_session session) in
  match ses_expires_at session with
  | None => ret tt
  | Some expires_at =>
      let! ttl := ttl_seconds expires_at in
      if (0 <? ttl)%Z
      then populate_cache_with_ttl (base64_url (ses_session_token session))
             (mkSessionWithUser session email username verified enabled) ttl
      else ret tt
  end.

Definition update_last_accessed (session_id : Uuid) (at_ : Z) : io unit :=
  execute (update_session_access session_id at_).

Definition invalidate_now_or_abort (session_token : string) : io unit :=
  let hash := base64_url session_token in
  let key := Keys.session hash in
  let! conn := attempt redis_conn in
  match conn with
  | Err _ => throw ERedisUnavailable
  | Ok _ =>
      let! r := attempt (redis_del key) in
      match r with Err _ => throw ERedisUnavailable | Ok _ => ret tt end
  end.

Definition delete_by_id (id : Uuid) : io Z :=
  let! token := fetch_optional (fun d =>
    ses_session_token <$> where_ (fun s => ses_id s = id) (user_sessions d)) in
  do! (match token with Some token => invalidate_now_or_abort token | None => ret tt end) in
  do! execute (revoke_where (fun t => rt_session_id t = id)) in
  execute (delete_sessions_where (fun s => ses_id s = id)).

(** Best effort: failures are ignored. *)
Definition invalidate_cache_by_user_id (user_id : Uuid) : io unit :=
  let! tokens := fetch_all (fun d =>
    ses_session_token <$> where_ (fun s => ses_user_id s = user_id) (user_sessions d)) in
  for_each tokens (fun token =>
    let! conn := attempt redis_conn in
    match conn with
    | Ok _ => ignore (redis_del (Keys.session (base64_url token)))
    | Err _ => ret tt
    end).

(** The [for] loop of the bulk deletions: every token is tried, the number of
    failures is returned. *)
Fixpoint invalidate_tokens (tokens : list string) : io nat :=
  match tokens with
  | [] => ret 0
  | token :: rest =>
      let! conn := attempt redis_conn in
      let! failed := match conn with
        | Err _ => ret 1
        | Ok _ =>
            let! r := attempt (redis_del (Keys.session (base64_url token))) in
            match r with Err _ => ret 1 | Ok _ => ret 0 end
        end in
      let! more := invalidate_tokens rest in
      ret (failed + more)
  end.

Definition delete_all_by_user_id (user_id : Uuid) : io Z :=
  let! tokens := fetch_all (fun d =>
    ses_session_token <$> where_ (fun s => ses_user_id s = user_id) (user_sessions d)) in
  let! failed := invalidate_tokens tokens in
  if bool_decide (failed <> 0) then throw ERedisUnavailable
  else
    do! execute (revoke_where (fun t => rt_user_id t = user_id)) in
    execute (delete_sessions_where (fun s => ses_user_id s = user_id)).

Definition delete_all_by_user_id_except (user_id keep_session_id : Uuid) : io Z :=
  let! tokens := fetch_all (fun d =>
    ses_session_token <$>
      where_ (fun s => ses_user_id s = user_id /\ ses_id s <> keep_session_id) (user_sessions d)) in
  let! failed := invalidate_tokens tokens in
  if bool_decide (failed <> 0) then throw ERedisUnavailable
  else
    do! execute (revoke_where (fun t => rt_user_id t = user_id /\ rt_session_id t <> keep_session_id)) in
    execute (delete_sessions_where (fun s => ses_user_id s = user_id /\ ses_id s <> keep_session_id)).

(** ** The service *)

Definition SESSION_TTL_HOURS : Z := 8.

Definition create_session (user_id : Uuid) (email username : string) (verified enabled : bool)
  (ip_address user_agent : option string) : io UserSession :=
  let! now := utc_now in
  let! id := uuid_new_v4 in
  let! token := url_safe 32 in
  let session := mkUserSession id user_id token ip_address user_agent
    (Some (now + seconds (SESSION_TTL_HOURS * 3600)))%Z (Some now) now in
  do! persist session email username verified enabled in
  ret session.

Definition find_active_session (session_token : string) : io (option SessionWithUser) :=
  if is_empty (trim session_token) then ret None
  else
    let! hydrated := find_by_token session_token in
    match hydrated with
    | None => ret None
    | Some hydrated =>
        let! fresh := match ses_expires_at (swu_session hydrated) with
          | Some exp => let! now := utc_now in ret (negb (exp <? now)%Z)
          | None => ret true
          end in
        if negb fresh then ret None
        else if negb (swu_user_enabled hydrated) then ret None
        else
          let! now := utc_now in
          do! ignore (update_last_accessed (ses_id (swu_session hydrated)) now) in
          ret (Some hydrated)
    end.

Definition logout (session_token : string) : io bool :=
  let! hit := find_active_session session_token in
  match hit with
  | None => ret false
  | Some hit =>
      let! affected := delete_by_id (ses_id (swu_session hit)) in
      ret (0 <? affected)%Z
  end.
End Repository.

(** ** Lookup by id *)

Section SessionLookup.
Context `{RedisServer} `{EnvLaws}.

Lemma wp_find_session id Q w :
  pg_wf (pg w) -> Q (Ok (user_sessions (pg w) !! id)) (bump w) -> (forall c, Q (Err (EDb c)) (bump w)) ->
  wp (find_by_id id) Q w.
Proof.
  intros Hwf Hok Herr. unfold find_by_id. wp_step; [|done]. by rewrite head_where_key by apply Hwf.
Qed.

(** The same with a database that answers. *)
Lemma wp_find_session_ok id Q w :
  pg_wf (pg w) -> pg_ok (tick w) -> Q (Ok (user_sessions (pg w) !! id)) (bump w) -> wp (find_by_id id) Q w.
Proof.
  intros Hwf Hpg Hok. unfold find_by_id. apply wp_fetch_optional_ok; [done|]. by rewrite head_where_key by apply Hwf.
Qed.
End SessionLookup.

(** ** Every cached session has its row *)

Section Backed.
Context `{RedisLaws} `{EnvLaws} `{Crypto} `{JsonCodecLaws SessionSnapshot}.
Implicit Types w : World.

(** The cache holds a readable snapshot under [hash]. *)
Definition cached (hash : string) (w : World) (snap : SessionSnapshot) : Prop :=
  exists v dl raw, rlive (redis_clock (tick w)) (Keys.session hash) (redis w) = Some (v, dl)
    /\ rvalue_text v = Some raw /\ json_from_str raw = Some snap.

(** [row] is the row a snapshot under [hash] stands for. *)
Definition backs (hash : string) (snap : SessionSnapshot) (row : UserSession) : Prop :=
  base64_url (ses_session_token row) = hash
  /\ ss_id snap = ses_id row /\ ss_user_id snap = ses_user_id row.

Definition backed (w : World) : Prop :=
  forall hash snap, cached hash w snap ->
    exists i row, user_sessions (pg w) !! i = Some row /\ backs hash snap row.

(** The sessions of [d] are still there in [d']. *)
Definition sessions_kept (d d' : Pg) : Prop :=
  forall i row, user_sessions d !! i = Some row ->
    exists row', user_sessions d' !! i = Some row' /\ ses_id row' = ses_id row
      /\ ses_user_id row' = ses_user_id row /\ ses_session_token row' = ses_session_token row.

Lemma kept_same d d' : user_sessions d' = user_sessions d -> sessions_kept d d'.
Proof. intros Heq i row Hi. rewrite Heq. eauto. Qed.

Lemma cached_shrinks hash w w' snap : redis_shrinks w w' -> cached hash w' snap -> cached hash w snap.
Proof. intros Hs (v & dl & raw & Hl & Hr). exists v, dl, raw. split; [by eapply shrinks_rlive|done]. Qed.

Lemma backed_kept w w' :
  redis_shrinks w w' -> sessions_kept (pg w) (pg w') -> backed w -> backed w'.
Proof.
  intros Hs Hk Hb hash snap Hc. destruct (Hb hash snap) as (i & row & Hi & Hh & Hid & Hu).
  { by eapply cached_shrinks. }
  destruct (Hk i row Hi) as (row' & Hi' & Hid' & Hu' & Ht'). exists i, row'. split; [done|].
  unfold backs. by rewrite Hid', Hu', Ht'.
Qed.

(** Deleting rows whose cache entries are gone. *)
Lemma backed_delete (P : UserSession -> Prop) `{forall s, Decision (P s)} w w' n :
  redis_shrinks w w' -> delete_sessions_where P (pg w) = Ok (n, pg w') -> backed w ->
  (forall i row, user_sessions (pg w) !! i = Some row -> P row ->
     stores w (Keys.session (base64_url (ses_session_token row))) None) ->
  backed w'.
Proof.
  intros Hs Hd Hb Hgone hash snap Hc. injection Hd as _ Hd.
  destruct (Hb hash snap) as (i & row & Hi & Hh & Hids); [by eapply cached_shrinks|].
  exists i, row. split; [|done]. rewrite <- Hd. simpl. apply lookup_delete_where. split; [done|].
  intros HP. pose proof (shrinks_gone _ _ _ Hs (Hgone i row Hi HP)) as Hg. rewrite Hh in Hg.
  destruct Hc as (v & dl & raw & Hl & _). rewrite Hg in Hl by done. done.
Qed.

Lemma backed_set hash w w' payload dl i row s h :
  redis w' = s -> (redis_clock (tick w) <= redis_clock (tick w'))%Z -> pg w' = pg w ->
  rupdate (redis_clock (tick w)) (Keys.session hash) (Some (RStr payload, dl)) (redis w) s ->
  json_to_string (from_session_with_user h) = Some payload ->
  user_sessions (pg w) !! i = Some row -> backs hash (from_session_with_user h) row ->
  backed w -> backed w'.
Proof.
  intros Hr Ht Hp Hu Hj Hi Hb Hw hash' snap (v & d & raw & Hl & Hv & Hs). rewrite Hr in Hl.
  destruct (decide (hash' = hash)) as [->|Hne].
  - rewrite (rupdate_same _ _ _ _ _ _ Hu) in Hl by done.
    assert (v = RStr payload) as -> by (destruct dl; simpl in Hl; repeat case_match; naive_solver).
    simpl in Hv. injection Hv as <-. rewrite (json_roundtrip _ _ Hj) in Hs. injection Hs as <-.
    rewrite Hp. eauto.
  - rewrite Hp. apply (Hw hash' snap). exists v, d, raw. split; [|done].
    rewrite (rupdate_other _ _ _ _ _ _ _ Hu) in Hl; [|done|by intros ?%session_key_inj].
    by eapply rlive_some_earlier.
Qed.

(** *** Triples *)

Lemma session_read_cache_spec hash w :
  wp (read_cache hash) (fun r w' => pg w' = pg w /\ redis w' = redis w /\ tick w <= tick w' /\
    exists o, r = Ok o /\ (forall h, o = Some h ->
      exists snap, cached hash w snap /\ h = into_session_with_user snap)
      /\ (stores w (Keys.session hash) None -> o = None)) w.
Proof.
  unfold read_cache.
  assert (Hnone : forall w', pg w' = pg w -> redis w' = redis w -> tick w <= tick w' ->
    pg w' = pg w /\ redis w' = redis w /\ tick w <= tick w' /\
    exists o : option SessionWithUser, @Ok err _ None = Ok o /\ (forall h, o = Some h ->
      exists snap, cached hash w snap /\ h = into_session_with_user snap)
      /\ (stores w (Keys.session hash) None -> o = None))
    by (intros w' Hp Hr Ht; repeat split; auto; exists None; split; [done|]; by split).
  do 3 wp_step; [|wp_step; apply Hnone; simpl; auto].
  do 3 wp_step; [|wp_step; apply Hnone; simpl; auto].
  rewrite r_get_law in Hget. simpl redis in Hget.
  destruct (rlive _ (Keys.session hash) (redis w)) as [[x dl]|] eqn:Hl; simplify_eq/=;
    [|wp_step; apply Hnone; simpl; auto].
  destruct (rvalue_text x) as [raw|] eqn:Hx; simplify_eq/=.
  destruct (is_empty raw) eqn:He; [wp_step; apply Hnone; simpl; auto|].
  destruct (json_from_str raw) as [snap|] eqn:Hj; wp_step; [|apply Hnone; simpl; auto].
  assert (Hle : (redis_clock (tick w) <= redis_clock (S (tick w)))%Z) by (apply redis_clock_mono; lia).
  split; [done|]. split; [done|]. split; [simpl; lia|]. eexists. split; [done|]. split.
  - intros h [= <-]. exists snap. split; [|done]. exists x, dl, raw. split; [|done].
    by eapply rlive_some_earlier.
  - intros Hst. rewrite Hst in Hl by done. done.
Qed.

Lemma populate_spec hash h ttl i row w :
  (0 < ttl)%Z -> user_sessions (pg w) !! i = Some row -> backs hash (from_session_with_user h) row ->
  wp (populate_cache_with_ttl hash h ttl) (fun r w' => r = Ok tt /\ pg w' = pg w
    /\ redis_frame (eq (Keys.session hash)) w w' /\ (backed w -> backed w')) w.
Proof.
  intros Httl Hi Hb. unfold populate_cache_with_ttl.
  destruct (json_total (from_session_with_user h)) as (payload & Hp & _). rewrite Hp.
  assert (Hsame : forall w', pg w' = pg w -> redis w' = redis w -> tick w <= tick w' ->
    @Ok err _ tt = Ok tt /\ pg w' = pg w
    /\ redis_frame (eq (Keys.session hash)) w w' /\ (backed w -> backed w')).
  { intros w' Hpg Hr Ht. split; [done|]. split; [done|]. split; [split; [done|by rewrite Hr]|].
    apply backed_kept; [|by apply kept_same; rewrite Hpg]. split; [done|]. rewrite Hr. by left. }
  do 3 wp_step; [|wp_step; apply Hsame; simpl; auto].
  wp_step. apply wp_redis_set_ex; [done| |apply Hsame; simpl; auto].
  intros r s _ Hu. simpl in Hu. split; [done|]. split; [done|]. split.
  - eapply (frame_cmd _ _ (bump w)); [auto with wp|done|done].
  - intros Hw. eapply (backed_set hash (bump w)); try done; simpl.
    + apply redis_clock_mono. simpl. lia.
    + apply (backed_kept w (bump w)); [auto with wp|by apply kept_same|done].
Qed.

Lemma session_populate_cache_spec hash h i row w :
  user_sessions (pg w) !! i = Some row -> backs hash (from_session_with_user h) row ->
  wp (populate_cache hash h) (fun r w' => r = Ok tt /\ pg w' = pg w
    /\ redis_frame (eq (Keys.session hash)) w w' /\ (backed w -> backed w')) w.
Proof.
  intros Hi Hb. unfold populate_cache.
  assert (Hbump : backed w -> backed (bump w)).
  { apply backed_kept; [auto with wp|by apply kept_same]. }
  destruct (ses_expires_at (swu_session h)) as [exp|];
    [|wp_step; split; [done|]; split; [done|]; split; [apply frame_refl|done]].
  wp_step. unfold ttl_seconds. do 3 wp_step.
  destruct (num_seconds _ <=? 0)%Z eqn:E.
  - wp_step. split; [done|]. split; [done|]. split; [auto with wp|done].
  - eapply wp_mono; [apply (populate_spec hash h _ i row); [lia|done|done]|].
    simpl. intros r w' (-> & Hp & Hf & Hk). split; [done|]. split; [done|]. split; [|auto].
    eapply frame_trans; [|done]. auto with wp.
Qed.

Lemma elem_of_join_user (P : UserSession -> Prop) `{forall s, Decision (P s)} d s u :
  (s, u) ∈ join_user P d <-> P s /\ (exists i, user_sessions d !! i = Some s)
    /\ usr_id u = ses_user_id s /\ exists j, users d !! j = Some u.
Proof.
  unfold join_user. rewrite list_elem_of_bind. split.
  - intros (s' & (u' & [= -> ->] & Hu)%list_elem_of_fmap & Hs).
    apply elem_of_where in Hu, Hs. naive_solver.
  - intros (HP & Hs & Hid & Hu). exists s. split; [|by apply elem_of_where].
    apply list_elem_of_fmap. exists u. split; [done|]. by apply elem_of_where.
Qed.

Lemma head_elem {A} (l : list A) x : head l = Some x -> x ∈ l.
Proof. destruct l; simpl; [done|]. intros [= ->]. left. Qed.

(** The row of a token as Postgres serves it. *)
Definition row_of_token (tok : string) (d : Pg) (h : SessionWithUser) : Prop :=
  (exists i, user_sessions d !! i = Some (swu_session h)) /\ ses_session_token (swu_session h) = tok
  /\ exists j u, users d !! j = Some u /\ usr_id u = ses_user_id (swu_session h)
       /\ swu_user_enabled h = usr_enabled u.

Lemma find_by_token_spec tok w :
  wp (find_by_token tok) (fun r w' => pg w' = pg w
    /\ redis_frame (eq (Keys.session (base64_url tok))) w w' /\ (backed w -> backed w')
    /\ match r with
       | Ok (Some h) => tok <> "" /\
           ((exists snap, cached (base64_url tok) w snap /\ h = into_session_with_user snap
               /\ ~ stores w (Keys.session (base64_url tok)) None)
            \/ row_of_token tok (pg w) h)
       | Ok None => True
       | Err e => exists code, e = EDb code
       end) w.
Proof.
  unfold find_by_token. destruct (is_empty tok) eqn:He.
  { wp_step. split; [done|]. split; [apply frame_refl|]. by split. }
  assert (Hne : tok <> "") by by rewrite <- is_empty_spec, He.
  wp_step. wp_call session_read_cache_spec. intros r w1 (Hp1 & Hr1 & Ht1 & o & -> & Ho & Hnone).
  assert (Hread : forall w' (P : Prop), pg w' = pg w1 -> redis w' = redis w1 -> tick w1 <= tick w' -> P ->
    pg w' = pg w /\ redis_frame (eq (Keys.session (base64_url tok))) w w' /\ (backed w -> backed w') /\ P).
  { intros w' P Hpg Hr Ht HP. split; [congruence|]. split; [|split; [|done]].
    - split; [lia|]. by rewrite Hr, Hr1.
    - apply backed_kept; [|apply kept_same; congruence]. split; [lia|]. rewrite Hr, Hr1. by left. }
  destruct o as [h|].
  { wp_step. apply Hread; auto. split; [done|]. left. destruct (Ho h) as (snap & Hs & ->); [done|].
    exists snap. split; [done|]. split; [done|]. intros Hst. by apply Hnone in Hst. }
  do 2 wp_step; [|apply Hread; simpl; eauto].
  destruct (head _) as [[s u]|] eqn:Hh; [|wp_step; apply Hread; simpl; auto].
  apply head_elem in Hh. rewrite row_order_perm in Hh.
  apply elem_of_join_user in Hh as (Htok & [i Hi] & Hu & [j Hj]).
  wp_step. eapply wp_mono; [apply (session_populate_cache_spec _ _ i s); [done|by rewrite <- Htok]|].
  intros r w2 (-> & Hp2 & Hf2 & Hb2). simpl in Hp2. wp_step.
  assert (Hb1 : backed w -> backed (bump w1)).
  { apply backed_kept; [|by apply kept_same; simpl; congruence].
    split; [simpl; lia|]. simpl. rewrite Hr1. by left. }
  split; [congruence|]. split; [|split; [auto|split; [done|right]]].
  - eapply frame_trans; [|done]. split; [simpl; lia|]. simpl. by rewrite Hr1.
  - rewrite <- Hp1. split; [by exists i|]. split; [done|]. exists j, u. done.
Qed.

(** *** Deletion *)

Lemma session_invalidate_spec tok w :
  wp (invalidate_now_or_abort tok) (fun r w' => pg w' = pg w /\ redis_shrinks w w'
    /\ match r with
       | Ok _ => stores w' (Keys.session (base64_url tok)) None
       | Err e => e = ERedisUnavailable
       end) w.
Proof.
  unfold invalidate_now_or_abort. do 3 wp_step; [|wp_step; auto with wp].
  do 2 wp_step. apply wp_redis_del; [|wp_step; auto with wp].
  intros r s Hu Hr. simpl in Hu.
  assert (Hs : redis_shrinks w (bump (set_redis s (bump w)))).
  { apply (shrinks_del w (bump w) (Keys.session (base64_url tok))); [auto with wp|done]. }
  destruct r as [n|e]; wp_step; (split; [done|]); (split; [done|]); [|done].
  by apply (stores_update (bump w)).
Qed.

Lemma invalidate_tokens_spec toks w :
  wp (invalidate_tokens toks) (fun r w' => pg w' = pg w /\ redis_shrinks w w'
    /\ exists n, r = Ok n /\ (n = 0 -> forall tok, tok ∈ toks ->
         stores w' (Keys.session (base64_url tok)) None)) w.
Proof.
  revert w. induction toks as [|tok toks IH]; intros w; cbn [invalidate_tokens].
  { wp_step. split; [done|]. split; [auto with wp|]. exists 0. split; [done|].
    intros _ tok []%not_elem_of_nil. }
  assert (Hmore : forall failed w1, pg w1 = pg w -> redis_shrinks w w1 ->
    (failed = 0 -> stores w1 (Keys.session (base64_url tok)) None) ->
    wp (let! more := invalidate_tokens toks in ret (failed + more)) (fun r w' => pg w' = pg w
      /\ redis_shrinks w w' /\ exists n, r = Ok n /\ (n = 0 -> forall tok', tok' ∈ tok :: toks ->
         stores w' (Keys.session (base64_url tok')) None)) w1).
  { intros failed w1 Hp1 Hs1 Hst. wp_step. wp_call IH. intros r w2 (Hp2 & Hs2 & n & -> & Hn).
    wp_step. split; [congruence|]. split; [by eapply shrinks_trans|]. exists (failed + n).
    split; [done|]. intros Hz tok' [->|Hin]%elem_of_cons; [|apply Hn; [lia|done]].
    eapply shrinks_gone; [done|]. apply Hst. lia. }
  do 3 wp_step; [|do 2 wp_step; apply Hmore; [done|auto with wp|done]].
  do 3 wp_step. apply wp_redis_del; [|wp_step; apply Hmore; [done|auto with wp|done]].
  intros r s Hu Hr. simpl in Hu.
  assert (Hs : redis_shrinks w (bump (set_redis s (bump w)))).
  { apply (shrinks_del w (bump w) (Keys.session (base64_url tok))); [auto with wp|done]. }
  destruct r as [n|e]; wp_step; apply Hmore; auto; [|done].
  intros _. by apply (stores_update (bump w)).
Qed.

(** The two statements that end every deletion. *)
Definition purge (Q : RefreshToken -> Prop) `{forall t, Decision (Q t)}
  (P : UserSession -> Prop) `{forall s, Decision (P s)} : io Z :=
  do! execute (revoke_where Q) in
  execute (delete_sessions_where P).

(** What [purge] leaves when it succeeds. *)
Definition purged (P : UserSession -> Prop) `{forall s, Decision (P s)} (d d' : Pg) : Prop :=
  users d' = users d
  /\ user_sessions d' = delete_where P (user_sessions d)
  /\ (forall i t, refresh_tokens d' !! i = Some t ->
        forall j s, user_sessions d !! j = Some s -> P s -> rt_session_id t <> ses_id s).

Lemma purge_spec (Q : RefreshToken -> Prop) `{forall t, Decision (Q t)}
  (P : UserSession -> Prop) `{forall s, Decision (P s)} w0 w :
  pg w = pg w0 -> backed w ->
  (forall i row, user_sessions (pg w) !! i = Some row -> P row ->
     stores w (Keys.session (base64_url (ses_session_token row))) None) ->
  wp (purge Q P) (fun r w' => redis_shrinks w w' /\ backed w' /\ user_sessions (pg w') ⊆ user_sessions (pg w0)
    /\ match r with
       | Ok n => n = Z.of_nat (length (where_ P (user_sessions (pg w0)))) /\ purged P (pg w0) (pg w')
       | Err e => exists code, e = EDb code
       end) w.
Proof.
  intros Hp0 Hb Hgone. unfold purge.
  assert (Hkeep : forall d, user_sessions d = user_sessions (pg w) -> backed (bump (set_pg d w))).
  { intros d Hd. eapply backed_kept; [| |done]; [auto with wp|by apply kept_same]. }
  assert (Hkeep0 : backed (bump w)).
  { eapply backed_kept; [| |done]; [auto with wp|by apply kept_same]. }
  do 2 wp_step.
  - injection Hq as <- <-. set (d1 := on_refresh_tokens _ (pg w)) in *.
    assert (Hb1 : backed (bump (set_pg d1 w))) by by apply Hkeep.
    assert (Hdel : forall n d2, delete_sessions_where P d1 = Ok (n, d2) ->
      backed (bump (set_pg d2 (bump (set_pg d1 w))))).
    { intros n d2 Hd. eapply (backed_delete P (bump (set_pg d1 w))); [auto with wp|done|done|].
      intros i row Hi HP. apply stores_bump. by eapply Hgone. }
    assert (Hsub : forall n d2, delete_sessions_where P d1 = Ok (n, d2) ->
      user_sessions d2 ⊆ user_sessions (pg w0)).
    { intros n d2 [= _ <-]. rewrite <- Hp0. apply delete_where_subset. }
    wp_step; simpl in *.
    + split; [auto 10 with wp|]. split; [by eapply Hdel|]. split; [by eapply Hsub|].
      injection Hq as <- <-. rewrite <- Hp0. rewrite length_fmap. split; [done|].
      split; [done|]. split; [done|]. simpl. intros i t [_ Ht]%lookup_delete_where j s Hj HP Heq.
      apply Ht. rewrite Heq. apply list_elem_of_fmap. exists s. split; [done|].
      apply elem_of_where. eauto.
    + split; [auto 10 with wp|]. split; [|by rewrite <- Hp0; eauto].
      eapply backed_kept; [| |exact Hb1]; [auto with wp|by apply kept_same].
    + split; [auto 10 with wp|]. split; [by eapply Hdel|]. split; [by eapply Hsub|eauto].
  - split; [auto with wp|]. split; [done|]. simpl. rewrite Hp0. eauto.
  - injection Hq as <- <-. split; [auto with wp|]. split; [by apply Hkeep|]. simpl. rewrite Hp0. eauto.
Qed.

(** The contract of a deletion of the sessions in [P]. *)
Definition deleted (P : UserSession -> Prop) `{forall s, Decision (P s)} (w : World)
  (r : res err Z) (w' : World) : Prop :=
  redis_shrinks w w' /\ backed w' /\ user_sessions (pg w') ⊆ user_sessions (pg w)
  /\ match r with
     | Ok n => n = Z.of_nat (length (where_ P (user_sessions (pg w))))
         /\ purged P (pg w) (pg w')
         /\ forall i row, user_sessions (pg w) !! i = Some row -> P row ->
              stores w' (Keys.session (base64_url (ses_session_token row))) None
     | Err ERedisUnavailable => pg w' = pg w
     | Err (EDb _) => True
     | Err _ => False
     end.

(** Once the tokens of the sessions in [P] are out of the cache, purging fulfils
    the contract. *)
Lemma purge_deleted (Q : RefreshToken -> Prop) `{forall t, Decision (Q t)}
  (P : UserSession -> Prop) `{forall s, Decision (P s)} w w1 :
  redis_shrinks w w1 -> pg w1 = pg w -> backed w ->
  (forall i row, user_sessions (pg w) !! i = Some row -> P row ->
     stores w1 (Keys.session (base64_url (ses_session_token row))) None) ->
  wp (purge Q P) (deleted P w) w1.
Proof.
  intros Hs Hp Hb Hgone.
  eapply wp_mono; [apply (purge_spec Q P w w1 Hp)|].
  - eapply backed_kept; [done| |done]. by apply kept_same; rewrite Hp.
  - by rewrite Hp.
  - intros r w' (Hs' & Hb' & Hsub & Hres). split; [by eapply shrinks_trans|].
    split; [done|]. split; [done|].
    destruct r as [n|e]; [|destruct Hres as [code ->]; done]. destruct Hres as [Hn Hpu].
    split; [done|]. split; [done|]. intros i row Hi HP. eapply shrinks_gone; [done|]. by eapply Hgone.
Qed.

Lemma deleted_abort (P : UserSession -> Prop) `{forall s, Decision (P s)} w w' :
  redis_shrinks w w' -> pg w' = pg w -> backed w -> deleted P w (Err ERedisUnavailable) w'.
Proof.
  intros Hs Hp Hb. split; [done|]. split; [|by rewrite Hp].
  eapply backed_kept; [done| |done]. by apply kept_same; rewrite Hp.
Qed.

Lemma deleted_db (P : UserSession -> Prop) `{forall s, Decision (P s)} c w :
  backed w -> deleted P w (Err (EDb c)) (bump w).
Proof.
  intros Hb. split; [auto with wp|]. split; [|done].
  apply (backed_kept w); [auto with wp|by apply kept_same|done].
Qed.

Lemma delete_by_id_spec id w :
  keyed ses_id (user_sessions (pg w)) -> backed w ->
  wp (delete_by_id id) (deleted (fun s => ses_id s = id) w) w.
Proof.
  intros Hk Hb. unfold delete_by_id. do 2 wp_step; [|by apply deleted_db].
  rewrite (where_key ses_id _ id Hk).
  rewrite head_row_order by (destruct (user_sessions (pg w) !! id); simpl; lia).
  wp_step. destruct (user_sessions (pg w) !! id) as [row|] eqn:Hrow.
  - change (head _) with (Some (ses_session_token row)). cbv iota.
    wp_call session_invalidate_spec. intros r w1 (Hp1 & Hs1 & Hr1).
    assert (Hs : redis_shrinks w w1) by (eapply shrinks_trans; [|done]; auto with wp).
    destruct r as [[]|e]; [|subst e; by apply deleted_abort].
    apply (purge_deleted _ (fun s => ses_id s = id) w w1 Hs Hp1 Hb).
    intros i x Hx Hid. assert (x = row) as -> by (rewrite (Hk _ _ Hx) in Hid; congruence). done.
  - change (head _) with (@None string). cbv iota.
    wp_step. apply (purge_deleted _ (fun s => ses_id s = id) w); [auto with wp|done|done|].
    intros i x Hx Hid. rewrite (Hk _ _ Hx) in Hid. congruence.
Qed.

(** The bulk deletions: all tokens first, then the purge. *)
Lemma delete_bulk_spec (Q : RefreshToken -> Prop) `{forall t, Decision (Q t)}
  (P : UserSession -> Prop) `{forall s, Decision (P s)} w :
  backed w ->
  wp (let! tokens := fetch_all (fun d => ses_session_token <$> where_ P (user_sessions d)) in
      let! failed := invalidate_tokens tokens in
      if bool_decide (failed <> 0) then throw ERedisUnavailable else purge Q P) (deleted P w) w.
Proof.
  intros Hb. do 2 wp_step; [|by apply deleted_db]. set (toks := row_order _ _).
  assert (Htoks : toks ≡ₚ ses_session_token <$> where_ P (user_sessions (pg w))) by apply row_order_perm.
  wp_step. wp_call invalidate_tokens_spec. intros r w1 (Hp1 & Hs1 & n & -> & Hn).
  assert (Hs : redis_shrinks w w1) by (eapply shrinks_trans; [|done]; auto with wp).
  case_bool_decide as Hz; [wp_step; by apply deleted_abort|].
  apply (purge_deleted Q P w w1 Hs Hp1 Hb). intros i row Hi HP.
  apply Hn; [lia|]. rewrite Htoks. apply list_elem_of_fmap.
  exists row. split; [done|]. apply elem_of_where. eauto.
Qed.

(** *** Lookup and logout *)

(** The tables after a lookup: as they were, or with one access time moved. *)
Definition touched (d d' : Pg) : Prop :=
  d' = d \/ exists id t, update_session_access id t d = Ok (tt, d').

Lemma touched_kept d d' : touched d d' -> sessions_kept d d'.
Proof.
  intros [->|(id & t & [= <-])]; [by apply kept_same|]. intros i row Hi. simpl.
  rewrite lookup_update_where, Hi. eexists. split; [done|]. by case_decide.
Qed.

Lemma touched_keyed d d' : touched d d' -> keyed ses_id (user_sessions d) -> keyed ses_id (user_sessions d').
Proof. intros [->|(id & t & [= <-])]; [done|]. intros Hk. simpl. by apply keyed_update. Qed.

Lemma touched_unique d d' :
  touched d d' -> unique_on ses_session_token (user_sessions d) -> unique_on ses_session_token (user_sessions d').
Proof. intros [->|(id & t & [= <-])]; [done|]. intros Hk. simpl. by apply unique_update. Qed.

(** Where a lookup of [tok] from [w] may have found [h]. *)
Definition source (tok : string) (w : World) (h : SessionWithUser) : Prop :=
  (exists snap, cached (base64_url tok) w snap /\ h = into_session_with_user snap
     /\ ~ stores w (Keys.session (base64_url tok)) None)
  \/ row_of_token tok (pg w) h.

(** The expiry was checked against a clock reading between [w] and [w']. *)
Definition fresh_between (w w' : World) (h : SessionWithUser) : Prop :=
  exists n, tick w <= n < tick w' /\
    forall exp, ses_expires_at (swu_session h) = Some exp -> (clock n <= exp)%Z.

Definition looked_up (tok : string) (w : World) (r : res err (option SessionWithUser)) (w' : World) : Prop :=
  touched (pg w) (pg w') /\ redis_frame (eq (Keys.session (base64_url tok))) w w'
  /\ (backed w -> backed w')
  /\ match r with
     | Ok (Some h) => trim tok <> "" /\ source tok w h /\ swu_user_enabled h = true /\ fresh_between w w' h
     | Ok None => True
     | Err e => exists code, e = EDb code
     end.

(** The tail of [find_active_session]: the enabled check and the access time. *)
Definition accept (h : SessionWithUser) : io (option SessionWithUser) :=
  if negb (swu_user_enabled h) then ret None
  else
    let! now := utc_now in
    do! ignore (update_last_accessed (ses_id (swu_session h)) now) in
    ret (Some h).

Lemma looked_up_later tok w w1 w2 r :
  redis_frame (eq (Keys.session (base64_url tok))) w w1 -> (backed w -> backed w1) -> pg w1 = pg w ->
  tick w1 <= tick w2 -> redis w2 = redis w1 -> touched (pg w1) (pg w2) ->
  match r with
  | Ok (Some h) => trim tok <> "" /\ source tok w h /\ swu_user_enabled h = true /\ fresh_between w w2 h
  | Ok None => True
  | Err e => exists code, e = EDb code
  end -> looked_up tok w r w2.
Proof.
  intros Hf Hb Hp Ht Hr Htd Hres. split; [by rewrite <- Hp|]. split; [|split; [|done]].
  - eapply frame_trans; [done|]. split; [done|]. by rewrite Hr.
  - intros Hw. apply (backed_kept w1); [|by apply touched_kept|auto].
    split; [done|]. rewrite Hr. by left.
Qed.

Lemma accept_spec tok w w1 w2 h n :
  redis_frame (eq (Keys.session (base64_url tok))) w w1 -> (backed w -> backed w1) -> pg w1 = pg w ->
  tick w1 <= tick w2 -> redis w2 = redis w1 -> pg w2 = pg w1 ->
  trim tok <> "" -> source tok w h -> tick w <= n <= tick w2 ->
  (forall exp, ses_expires_at (swu_session h) = Some exp -> (clock n <= exp)%Z) ->
  wp (accept h) (looked_up tok w) w2.
Proof.
  intros Hf Hb Hp Ht Hr Hp2 Htr Hsrc Hn Hexp. unfold accept.
  destruct (swu_user_enabled h) eqn:Hen; cbn [negb].
  - assert (Hgo : forall w3, tick w2 < tick w3 -> redis w3 = redis w1 -> touched (pg w1) (pg w3) ->
      looked_up tok w (Ok (Some h)) w3).
    { intros w3 Ht3 Hr3 Htd. eapply looked_up_later; try done; [lia|]. split; [done|].
      split; [done|]. split; [done|]. exists n. split; [lia|done]. }
    do 4 wp_step. unfold update_last_accessed. wp_step; wp_step; (apply Hgo; simpl; [lia|done|]).
    + right. simpl in Hq. rewrite Hp2 in Hq. destruct a. eauto.
    + left. done.
    + right. simpl in Hq. rewrite Hp2 in Hq. destruct a. eauto.
  - wp_step. eapply looked_up_later; try done. left. congruence.
Qed.

Lemma find_active_spec tok w : wp (find_active_session tok) (looked_up tok w) w.
Proof.
  unfold find_active_session. destruct (is_empty (trim tok)) eqn:Htr.
  { wp_step. split; [by left|]. split; [apply frame_refl|]. by split. }
  assert (Htrim : trim tok <> "") by by rewrite <- is_empty_spec, Htr.
  wp_step. wp_call find_by_token_spec. intros r w1 (Hp1 & Hf1 & Hb1 & Hr).
  assert (Ht1 : tick w <= tick w1) by apply Hf1.
  destruct r as [[h|]|e]; [|wp_step|]; try (eapply looked_up_later; try done; by left).
  destruct Hr as [_ Hsrc]. wp_step. destruct (ses_expires_at (swu_session h)) as [exp|] eqn:Hexp.
  - do 2 wp_step. wp_step. destruct (exp <? clock (tick w1))%Z eqn:Hlt; cbn [negb].
    + wp_step. eapply looked_up_later; simpl; try done; [lia|by left].
    + apply (accept_spec tok w w1 (bump w1) h (tick w1)); simpl; auto. intros e He. simplify_eq. lia.
  - wp_step. cbn [negb]. apply (accept_spec tok w w1 w1 h (tick w)); auto. intros e He. simplify_eq.
Qed.

(** *** Creation *)

Lemma insert_session_kept s d d' :
  insert_session s d = Ok (tt, d') ->
  sessions_kept d d' /\ (keyed ses_id (user_sessions d) -> keyed ses_id (user_sessions d'))
  /\ exists row, user_sessions d' !! ses_id s = Some row /\ ses_id row = ses_id s
       /\ ses_user_id row = ses_user_id s /\ ses_session_token row = ses_session_token s.
Proof.
  unfold insert_session, rbind. repeat case_match; try done. intros [= <-].
  match goal with Hn : negb (has_row _ _) = true |- _ =>
    apply negb_true_iff, bool_decide_eq_false in Hn; apply eq_None_not_Some in Hn end.
  simpl. split; [|split].
  - intros i row Hi. exists row. split; [|done]. simpl. rewrite lookup_insert_ne; congruence.
  - intros Hk. by apply keyed_insert_at.
  - eexists. by rewrite lookup_insert_eq.
Qed.

(** What every operation on sessions keeps. *)
Definition session_inv (w : World) : Prop := keyed ses_id (user_sessions (pg w)) /\ backed w.

Lemma session_inv_bump w : session_inv w -> session_inv (bump w).
Proof. intros [Hk Hb]. split; [done|]. by apply (backed_kept w); [auto with wp|by apply kept_same|]. Qed.

Lemma session_inv_same w w' : session_inv w -> pg w' = pg w -> backed w' -> session_inv w'.
Proof. intros [Hk _] Hp Hb. split; [by rewrite Hp|done]. Qed.

Lemma persist_inv s email username verified enabled w :
  session_inv w -> wp (persist s email username verified enabled) (always session_inv) w.
Proof.
  intros Hinv. unfold persist.
  assert (Hins : forall a d, insert_session s (pg w) = Ok (a, d) -> session_inv (bump (set_pg d w))).
  { intros [] d Hq. destruct (insert_session_kept _ _ _ Hq) as (Hkp & Hk & _). destruct Hinv as [Hk0 Hb].
    split; [by apply Hk|]. by apply (backed_kept w); [auto with wp| |]. }
  do 2 wp_step; [|by apply session_inv_bump|by eapply Hins].
  specialize (Hins _ _ Hq). destruct a.
  destruct (insert_session_kept _ _ _ Hq) as (_ & _ & row & Hrow & Hid & Hu & Ht).
  destruct (ses_expires_at s) as [exp|]; [|by wp_step].
  wp_step. unfold ttl_seconds. do 3 wp_step. apply session_inv_bump in Hins.
  destruct (0 <? _)%Z eqn:E; [|by wp_step].
  eapply wp_mono; [eapply (populate_spec _ _ _ (ses_id s) row); [lia|done|]|].
  - unfold backs. simpl. by rewrite Ht.
  - intros r w' (-> & Hp & _ & Hb). eapply session_inv_same; [exact Hins|done|]. apply Hb, Hins.
Qed.

Lemma create_session_inv u email username verified enabled ip ua w :
  session_inv w -> wp (create_session u email username verified enabled ip ua) (always session_inv) w.
Proof.
  intros Hinv. unfold create_session. do 4 wp_step. wp_step. unfold url_safe. do 3 wp_step. wp_step.
  wp_call persist_inv; [by repeat apply session_inv_bump|].
  intros [[]|e] w' Hw'; [by wp_step|done].
Qed.

Lemma find_active_inv tok w : session_inv w -> wp (find_active_session tok) (always session_inv) w.
Proof.
  intros [Hk Hb]. wp_call find_active_spec. intros r w' (Ht & _ & Hb' & _).
  split; [by eapply touched_keyed|auto].
Qed.

Lemma deleted_inv (P : UserSession -> Prop) `{forall s, Decision (P s)} (m : io Z) w :
  session_inv w -> wp m (deleted P w) w -> wp m (always session_inv) w.
Proof.
  intros [Hk _] Hd. eapply wp_mono; [done|]. intros r w' (_ & Hb & Hsub & _).
  split; [|done]. by eapply subset_keyed.
Qed.

Lemma invalidate_user_inv u w : session_inv w -> wp (invalidate_cache_by_user_id u) (always session_inv) w.
Proof.
  intros Hinv. unfold invalidate_cache_by_user_id. do 2 wp_step; [|by apply session_inv_bump].
  apply wp_for_each; [|by apply session_inv_bump]. intros tok w1 _ Hw1.
  do 3 wp_step; [|wp_step; by apply session_inv_bump]. wp_step.
  apply wp_redis_del; [|by repeat apply session_inv_bump]. intros r s Hu _. destruct Hw1 as [Hk Hb].
  split; [done|]. apply (backed_kept w1); [|by apply kept_same|done].
  apply (shrinks_del w1 (bump w1) (Keys.session (base64_url tok))); [auto with wp|done].
Qed.

Lemma logout_inv tok w : session_inv w -> wp (logout tok) (always session_inv) w.
Proof.
  intros Hinv. unfold logout. wp_step. wp_call find_active_inv; [done|].
  intros [[h|]|e] w1 Hw1; [|by wp_step|done]. wp_step.
  eapply wp_mono; [apply (deleted_inv (fun s => ses_id s = ses_id (swu_session h))); [done|];
    by apply delete_by_id_spec; apply Hw1|].
  intros [n|e] w' Hw'; [by wp_step|done].
Qed.

(** *** Sequences of operations *)

Inductive session_op :=
| SCreate (user_id : Uuid) (email username : string) (verified enabled : bool) (ip ua : option string)
| SLookup (tok : string)
| STouch (id : Uuid) (t : Z)
| SDelete (id : Uuid)
| SDeleteAll (user_id : Uuid)
| SDeleteAllExcept (user_id keep : Uuid)
| SInvalidate (user_id : Uuid)
| SLogout (tok : string).

Definition run_session_op (op : session_op) : io unit :=
  match op with
  | SCreate u e n v en ip ua => bind (create_session u e n v en ip ua) (fun _ => ret tt)
  | SLookup tok => bind (find_active_session tok) (fun _ => ret tt)
  | STouch id t => update_last_accessed id t
  | SDelete id => bind (delete_by_id id) (fun _ => ret tt)
  | SDeleteAll u => bind (delete_all_by_user_id u) (fun _ => ret tt)
  | SDeleteAllExcept u k => bind (delete_all_by_user_id_except u k) (fun _ => ret tt)
  | SInvalidate u => invalidate_cache_by_user_id u
  | SLogout tok => bind (logout tok) (fun _ => ret tt)
  end.

(** One operation, with whatever outcome, from one world to the next. *)
Definition session_step (w w' : World) : Prop := exists op r, run_session_op op w = (r, w').

Lemma wp_discard {A} (m : io A) (I : World -> Prop) w :
  wp m (always I) w -> wp (bind m (fun _ => ret tt)) (always I) w.
Proof. intros Hm. wp_step. wp_call Hm. intros [a|e] w' Hw'; [by wp_step|done]. Qed.

Lemma run_session_op_inv op w : session_inv w -> wp (run_session_op op) (always session_inv) w.
Proof.
  intros Hinv. pose proof Hinv as [Hk Hb].
  destruct op as [u e n v en ip ua|tok|id t|id|u|u k|u|tok]; simpl; try apply wp_discard.
  - by apply create_session_inv.
  - by apply find_active_inv.
  - assert (Htd : forall a d, update_session_access id t (pg w) = Ok (a, d) -> session_inv (bump (set_pg d w))).
    { intros [] d Hq. assert (Ht : touched (pg w) d) by (right; eauto).
      split; [by apply (touched_keyed (pg w))|].
      apply (backed_kept w); [auto with wp|by apply touched_kept|done]. }
    unfold update_last_accessed. wp_step; [by eapply Htd|by apply session_inv_bump|by eapply Htd].
  - apply (deleted_inv (fun s => ses_id s = id)); [done|]. by apply delete_by_id_spec.
  - apply (deleted_inv (fun s => ses_user_id s = u)); [done|].
    by apply (delete_bulk_spec (fun t => rt_user_id t = u)).
  - apply (deleted_inv (fun s => ses_user_id s = u /\ ses_id s <> k)); [done|].
    by apply (delete_bulk_spec (fun t => rt_user_id t = u /\ rt_session_id t <> k)).
  - by apply invalidate_user_inv.
  - by apply logout_inv.
Qed.

(** *** What the session operations leave alone *)

(** All tables but [user_sessions] and [refresh_tokens] are as they were. *)
Definition only_sessions (d d' : Pg) : Prop :=
  d' = mkPg (users d) (credentials d) (roles d) (user_roles d) (user_sessions d') (clients d)
         (redirect_uris d) (refresh_tokens d') (user_consents d) (email_verifications d) (password_resets d).

Lemma only_sessions_refl d : only_sessions d d.
Proof. by destruct d. Qed.

Lemma only_sessions_trans d1 d2 d3 : only_sessions d1 d2 -> only_sessions d2 d3 -> only_sessions d1 d3.
Proof. unfold only_sessions. intros H12 H23. rewrite H12 in H23. exact H23. Qed.

Lemma purge_only (Q : RefreshToken -> Prop) `{forall t, Decision (Q t)}
  (P : UserSession -> Prop) `{forall s, Decision (P s)} w0 w :
  only_sessions (pg w0) (pg w) -> wp (purge Q P) (fun _ w' => only_sessions (pg w0) (pg w')) w.
Proof.
  intros Ho. unfold purge.
  assert (Hrev : forall d a d', only_sessions (pg w0) d -> revoke_where Q d = Ok (a, d') -> only_sessions (pg w0) d').
  { intros d a d' Hd [= _ <-]. by eapply only_sessions_trans; [|unfold only_sessions]. }
  assert (Hdel : forall d a d', only_sessions (pg w0) d -> delete_sessions_where P d = Ok (a, d') ->
    only_sessions (pg w0) d').
  { intros d a d' Hd [= _ <-]. by eapply only_sessions_trans; [|unfold only_sessions]. }
  do 2 wp_step; simpl in *; eauto. wp_step; simpl in *; eauto.
Qed.

Lemma delete_bulk_only (Q : RefreshToken -> Prop) `{forall t, Decision (Q t)}
  (P : UserSession -> Prop) `{forall s, Decision (P s)} w :
  wp (let! tokens := fetch_all (fun d => ses_session_token <$> where_ P (user_sessions d)) in
      let! failed := invalidate_tokens tokens in
      if bool_decide (failed <> 0) then throw ERedisUnavailable else purge Q P)
    (fun _ w' => only_sessions (pg w) (pg w')) w.
Proof.
  do 2 wp_step; [|apply only_sessions_refl]. wp_step. wp_call invalidate_tokens_spec.
  intros r w1 (Hp & _ & n & -> & _). simpl in Hp.
  assert (Ho : only_sessions (pg w) (pg w1)) by (rewrite Hp; apply only_sessions_refl).
  case_bool_decide; [by wp_step|]. by apply purge_only.
Qed.

Lemma delete_by_id_only id w : wp (delete_by_id id) (fun _ w' => only_sessions (pg w) (pg w')) w.
Proof.
  unfold delete_by_id. do 2 wp_step; [|apply only_sessions_refl]. wp_step.
  destruct (head _) as [tok|].
  - wp_call session_invalidate_spec. intros r w1 (Hp & _ & _). simpl in Hp.
    assert (Ho : only_sessions (pg w) (pg w1)) by (rewrite Hp; apply only_sessions_refl).
    destruct r as [[]|e]; [|done]. by apply purge_only.
  - wp_step. apply purge_only, only_sessions_refl.
Qed.
(** *** The deletion of one session, exactly *)

(** The tables without the session and its refresh tokens. *)
Definition without_session (id : Uuid) (d : Pg) : Pg :=
  on_refresh_tokens (delete_where (fun t => rt_session_id t = id)) (on_user_sessions (delete id) d).

(** The tables with the refresh tokens of the session revoked. *)
Definition with_revoked (id : Uuid) (d : Pg) : Pg :=
  on_refresh_tokens (update_where (fun t => rt_session_id t = id /\ rt_revoked t = false) (set_revoked true)) d.

Lemma delete_where_updated {R} (P Q : R -> Prop) `{forall r, Decision (P r), forall r, Decision (Q r)} (f : R -> R)
  (m : gmap Uuid R) : (forall r, P (f r) <-> P r) -> (forall r, Q r -> P r) -> delete_where P (update_where Q f m) = delete_where P m.
Proof.
  intros Hf Hqp. apply map_eq. intros i. apply option_eq. intros x. rewrite !lookup_delete_where, lookup_update_where.
  destruct (m !! i) as [y|]; [|naive_solver]. simpl. case_decide as Hq; [|done]. split.
  - intros [[= <-] Hn]. destruct Hn. apply Hf. auto.
  - intros [[= <-] Hn]. destruct Hn. auto.
Qed.

Lemma delete_where_key {R} (key : R -> Uuid) (m : gmap Uuid R) id :
  keyed key m -> delete_where (fun r => key r = id) m = delete id m.
Proof.
  intros Hk. apply map_eq. intros i. apply option_eq. intros x. rewrite lookup_delete_where, lookup_delete_Some.
  split; intros [Hx Hy]; split; try done.
  - intros ->. apply Hy. by apply Hk.
  - intros Heq. apply Hx. by rewrite <- (Hk _ _ Hy).
Qed.

Lemma delete_where_ext {R} (P Q : R -> Prop) `{forall r, Decision (P r), forall r, Decision (Q r)} (m : gmap Uuid R) :
  (forall r, P r <-> Q r) -> delete_where P m = delete_where Q m.
Proof.
  intros Heq. apply map_eq. intros i. apply option_eq. intros x. rewrite !lookup_delete_where. by rewrite Heq.
Qed.

Lemma delete_after_revoke id row d n d' :
  keyed ses_id (user_sessions d) -> user_sessions d !! id = Some row ->
  delete_sessions_where (fun s => ses_id s = id) (with_revoked id d) = Ok (n, d') -> n = 1%Z /\ d' = without_session id d.
Proof.
  intros Hk Hrow [= <- <-]. simpl. rewrite (where_key ses_id _ id Hk), Hrow. simpl. split; [done|].
  unfold without_session, on_refresh_tokens, on_user_sessions. simpl. rewrite (delete_where_key ses_id _ id Hk). f_equal.
  rewrite (delete_where_ext _ (fun t => rt_session_id t = id)).
  - apply delete_where_updated; [done|]. by intros t [? _].
  - intros t. rewrite list_elem_of_singleton. by rewrite (Hk _ _ Hrow).
Qed.

Lemma delete_by_id_exact id row w :
  keyed ses_id (user_sessions (pg w)) -> user_sessions (pg w) !! id = Some row ->
  let key := Keys.session (base64_url (ses_session_token row)) in
  wp (delete_by_id id) (fun r w' => redis_frame (eq key) w w'
    /\ match r with
       | Ok n => n = 1%Z /\ pg w' = without_session id (pg w) /\ stores w' key None
       | Err ERedisUnavailable => pg w' = pg w
       | Err (EDb _) => pg w' = pg w
           \/ stores w' key None /\ (pg w' = without_session id (pg w) \/ pg w' = with_revoked id (pg w))
       | Err _ => False
       end) w.
Proof.
  intros Hk Hrow key. unfold delete_by_id. do 2 wp_step; [|split; [auto with wp|by left]].
  rewrite (where_key ses_id _ id Hk), Hrow, head_row_order by (simpl; lia).
  change (head _) with (Some (ses_session_token row)). wp_step. unfold invalidate_now_or_abort. cbv iota. do 3 wp_step; [|wp_step; split; [auto with wp|done]].
  do 2 wp_step. apply wp_redis_del; [|wp_step; split; [auto with wp|done]]. intros r s Hu Hr. simpl in Hu.
  set (w1 := bump (set_redis s (bump (bump w)))).
  assert (Hf : redis_frame (eq key) w w1).
  { eapply (frame_cmd _ _ (bump (bump w))); [auto with wp|exact Hu|done]. }
  assert (Hst : stores w1 key None) by (by apply (stores_update (bump (bump w)))).
  destruct r as [n|e]; wp_step; [|by split]. do 2 wp_step.
  - injection Hq as <- <-. wp_step.
    + destruct (delete_after_revoke id row (pg w) _ _ Hk Hrow Hq) as [-> ->]. split; [by do 2 apply frame_bump|].
      split; [done|]. split; [done|]. by do 2 apply stores_bump.
    + split; [by do 2 apply frame_bump|]. right. split; [by do 2 apply stores_bump|by right].
    + destruct (delete_after_revoke id row (pg w) _ _ Hk Hrow Hq) as [_ ->]. split; [by do 2 apply frame_bump|]. right.
      split; [by do 2 apply stores_bump|by left].
  - split; [by apply frame_bump|by left].
  - injection Hq as <- <-. split; [by apply frame_bump|]. right. split; [by apply stores_bump|by right].
Qed.
End Backed.

(** ** Theorems *)

(** C6: No session is served from the cache without its row.  Along every
    sequence of session operations (create, lookup, touch, delete one, delete
    all, delete all but one, best-effort invalidation, logout), with any pattern
    of Redis and Postgres failures, each readable cache entry belongs to a row
    of [user_sessions] with that token hash, id and user. *)
Theorem sessions_always_backed `{RedisLaws} `{EnvLaws} `{Crypto} `{JsonCodecLaws SessionSnapshot} w w' :
  rtc session_step w w' -> keyed ses_id (user_sessions (pg w)) -> backed w ->
  keyed ses_id (user_sessions (pg w')) /\ backed w'.
Proof.
  intros Hr Hk Hb. assert (Hinv : session_inv w) by done. clear Hk Hb.
  induction Hr as [w|w1 w2 w3 (op & r & Hrun) _ IH]; [done|].
  apply IH. exact (wp_run _ _ _ _ _ (run_session_op_inv op w1 Hinv) Hrun).
Qed.

(** C20: Deleting a session fails closed.  The outcome says what happened.  On success
    exactly the session's row and its refresh tokens are gone from the tables, and
    exactly its entry from the cache.  If Redis cannot confirm the removal of the entry,
    the deletion reports it and the tables are unchanged.  If Postgres fails, the tables
    are unchanged, or the cache entry is gone and what the deletion does to the tables
    has been done in full or has stopped after the session's refresh tokens were
    revoked; nothing else is touched in any case. *)
Theorem session_delete_fails_closed `{RedisLaws} `{EnvLaws} `{Crypto} id row w r w' :
  keyed ses_id (user_sessions (pg w)) -> user_sessions (pg w) !! id = Some row -> delete_by_id id w = (r, w') ->
  let key := Keys.session (base64_url (ses_session_token row)) in
  redis_frame (eq key) w w'
  /\ match r with
     | Ok n => n = 1%Z /\ pg w' = without_session id (pg w) /\ stores w' key None
     | Err ERedisUnavailable => pg w' = pg w
     | Err (EDb _) => pg w' = pg w
         \/ stores w' key None /\ (pg w' = without_session id (pg w) \/ pg w' = with_revoked id (pg w))
     | Err _ => False
     end.
Proof. intros Hk Hrow Hrun key. run_wp Hrun. by apply delete_by_id_exact. Qed.

(** C21: Logout ends the session.  If hashes do not collide, after a logout that
    reports success no lookup of that token finds an active session, whatever
    fails on the way. *)
Theorem logout_ends_session `{RedisLaws} `{EnvLaws} `{CryptoLaws} `{!DigestInjective}
  `{JsonCodecLaws SessionSnapshot} tok w w' r w'' :
  pg_wf (pg w) -> backed w -> logout tok w = (Ok true, w') ->
  find_active_session tok w' = (r, w'') -> forall h, r <> Ok (Some h).
Proof.
  intros Hwf Hb Hlo Hfind h ->. unfold logout in Hlo.
  apply bind_ok in Hlo as (o & w1 & Hf1 & Hlo).
  destruct (wp_run _ _ _ _ _ (find_active_spec tok w) Hf1) as (Htd & _ & Hb1 & Hres).
  destruct o as [h0|]; [|done]. destruct Hres as (_ & Hsrc & _ & _).
  (* the session found is the row of the token *)
  assert (Hrow : exists i row, user_sessions (pg w1) !! i = Some row
    /\ ses_session_token row = tok /\ ses_id row = ses_id (swu_session h0)).
  { assert (Hold : exists i row, user_sessions (pg w) !! i = Some row
      /\ ses_session_token row = tok /\ ses_id row = ses_id (swu_session h0)).
    { destruct Hsrc as [(snap & Hc & -> & _)|([i Hi] & Ht & _)]; [|eauto].
      destruct (Hb _ _ Hc) as (i & row & Hi & Hh & Hid & _). exists i, row.
      split; [done|]. split; [by apply base64_url_inj|done]. }
    destruct Hold as (i & row & Hi & Ht & Hid).
    destruct (touched_kept _ _ Htd i row Hi) as (row' & Hi' & Hid' & _ & Ht').
    exists i, row'. split; [done|]. split; congruence. }
  destruct Hrow as (i & row & Hi & Htok & Hid).
  apply bind_ok in Hlo as (n & w2 & Hdel & [= _ ->]).
  pose proof (touched_keyed _ _ Htd (wf_sessions_key _ Hwf)) as Hk1.
  pose proof (touched_unique _ _ Htd (wf_sessions_token _ Hwf)) as Hu1.
  destruct (wp_run _ _ _ _ _ (delete_by_id_spec _ w1 Hk1 (Hb1 Hb)) Hdel)
    as (_ & _ & _ & (_ & (_ & Hs & _) & Hst)).
  destruct (wp_run _ _ _ _ _ (find_active_spec tok w') Hfind) as (_ & _ & _ & (_ & Hsrc' & _)).
  destruct Hsrc' as [(snap & _ & _ & Hn)|([j Hj] & Ht & _)].
  - apply Hn. rewrite <- Htok. by eapply Hst.
  - rewrite Hs in Hj. apply lookup_delete_where in Hj as [Hj Hne].
    assert (j = i) as -> by (eapply Hu1; [done|done|congruence]). naive_solver.
Qed.

(** An active session is fresh and its user enabled.  A session that a
    lookup returns has a token that is not blank, was marked enabled by the
    source it came from (a cache entry of that token or its row in Postgres),
    and its expiry was not before the clock at the check. *)
Theorem active_session_fresh `{RedisLaws} `{EnvLaws} `{Crypto} `{JsonCodecLaws SessionSnapshot} tok w h w' :
  find_active_session tok w = (Ok (Some h), w') ->
  trim tok <> "" /\ source tok w h /\ swu_user_enabled h = true /\ fresh_between w w' h.
Proof. intros Hrun. apply (wp_run _ _ _ _ _ (find_active_spec tok w) Hrun). Qed.

(** Ending all other sessions.  When [delete_all_by_user_id_except]
    succeeds, the user's sessions other than the kept one are gone from
    Postgres and from the cache and so are their refresh tokens, the kept session
    and every other user's sessions are untouched; when it reports Redis as
    unavailable nothing was deleted. *)
Theorem other_sessions_end `{RedisLaws} `{EnvLaws} `{Crypto} `{JsonCodecLaws SessionSnapshot}
  user keep w r w' :
  backed w -> delete_all_by_user_id_except user keep w = (r, w') ->
  match r with
  | Ok _ =>
      (forall i s, user_sessions (pg w') !! i = Some s <->
         user_sessions (pg w) !! i = Some s /\ ~ (ses_user_id s = user /\ ses_id s <> keep))
      /\ (forall i s, user_sessions (pg w) !! i = Some s -> ses_user_id s = user -> ses_id s <> keep ->
            stores w' (Keys.session (base64_url (ses_session_token s))) None
            /\ forall j t, refresh_tokens (pg w') !! j = Some t -> rt_session_id t <> ses_id s)
  | Err ERedisUnavailable => pg w' = pg w
  | Err e => exists code, e = EDb code
  end.
Proof.
  intros Hb Hrun.
  pose proof (delete_bulk_spec (fun t => rt_user_id t = user /\ rt_session_id t <> keep)
    (fun s => ses_user_id s = user /\ ses_id s <> keep) w Hb) as Hwp.
  destruct (wp_run _ _ _ _ _ Hwp Hrun) as (_ & _ & _ & Hres).
  destruct r as [n|[]]; try done; [|by eauto]. destruct Hres as (_ & (_ & Hs & Ht) & Hst). split.
  - intros i s. rewrite Hs. by rewrite lookup_delete_where.
  - intros i s Hi Hu Hne. split; [by eapply Hst|]. intros j t Hj. by eapply Ht.
Qed.

(** ** Witnesses *)

#[export] Instance session_snapshot_eq : EqDecision SessionSnapshot.
Proof. solve_decision. Defined.
#[export] Instance session_snapshot_countable : Countable SessionSnapshot.
Proof.
  apply (inj_countable'
    (fun s => (ss_id s, ss_user_id s, ss_user_email s, ss_user_username s, ss_user_email_verified s,
      ss_user_enabled s, ss_ip_address s, ss_user_agent s, ss_expires_at s, ss_created_at s))
    (fun '(a, b, c, d, e, f, g, h, i, j) => mkSessionSnapshot a b c d e f g h i j)). by intros [].
Defined.

Import Instances.

(** Two sessions of one user. *)
Definition demo_user : User := mkUser 7 "a@b" true "a" None None true 0 0.
Definition demo_session (id : Uuid) (tok : string) : UserSession :=
  mkUserSession id 7 tok None None (Some 1800000000000000000%Z) None 0.
Definition pg_sessions : Pg :=
  on_user_sessions (fun m => <[8%N := demo_session 8 "tok"]> (<[9%N := demo_session 9 "other"]> m))
    (on_users <[7%N := demo_user]> pg_empty).
Definition world_sessions : World := mkWorld 0 pg_sessions (∅ : gmap string rentry).

Lemma pg_sessions_wf : pg_wf pg_sessions.
Proof. apply pg_wf_b_ok. vm_compute. reflexivity. Qed.
Lemma world_sessions_backed : backed world_sessions.
Proof. intros hash snap (v & dl & raw & Hl & _). done. Qed.

Lemma sessions_always_backed_witness :
  backed (run_session_op (SLogout "tok") (run_session_op (SLookup "tok") world_sessions).2).2.
Proof.
  apply (sessions_always_backed world_sessions);
    [|exact (wf_sessions_key _ pg_sessions_wf)|exact world_sessions_backed].
  eapply rtc_l; [exists (SLookup "tok"); eexists; apply surjective_pairing|].
  apply rtc_once. exists (SLogout "tok"). eexists. apply surjective_pairing.
Defined.

Lemma session_delete_fails_closed_witness :
  (delete_by_id 8 world_sessions).1 = Ok 1%Z
  /\ pg (delete_by_id 8 world_sessions).2 = without_session 8 pg_sessions.
Proof.
  assert (Hr : (delete_by_id 8 world_sessions).1 = Ok 1%Z) by (vm_compute; reflexivity).
  split; [exact Hr|].
  apply (session_delete_fails_closed 8 (demo_session 8 "tok") world_sessions (Ok 1%Z) _
    (wf_sessions_key _ pg_sessions_wf) eq_refl (run_fst _ _ _ Hr)).
Defined.

Definition world_logged_out : World := (logout "tok" world_sessions).2.

Lemma logout_ends_session_witness :
  (logout "tok" world_sessions).1 = Ok true
  /\ forall h, (find_active_session "tok" world_logged_out).1 <> Ok (Some h).
Proof.
  assert (Hr : (logout "tok" world_sessions).1 = Ok true) by (vm_compute; reflexivity).
  split; [exact Hr|].
  exact (logout_ends_session "tok" world_sessions _ _ _ pg_sessions_wf world_sessions_backed
    (run_fst _ _ _ Hr) (surjective_pairing _)).
Defined.

Lemma active_session_fresh_witness :
  exists h, (find_active_session "tok" world_sessions).1 = Ok (Some h) /\ swu_user_enabled h = true.
Proof.
  assert (Hr : (find_active_session "tok" world_sessions).1
    = Ok (Some (mkSessionWithUser (demo_session 8 "tok") "a@b" "a" true true))) by (vm_compute; reflexivity).
  eexists. split; [exact Hr|].
  apply (active_session_fresh "tok" world_sessions _ _ (run_fst _ _ _ Hr)).
Defined.

Lemma other_sessions_end_witness :
  (delete_all_by_user_id_except 7 8 world_sessions).1 = Ok 1%Z
  /\ user_sessions (pg (delete_all_by_user_id_except 7 8 world_sessions).2) !! 8%N
     = Some (demo_session 8 "tok").
Proof.
  assert (Hr : (delete_all_by_user_id_except 7 8 world_sessions).1 = Ok 1%Z) by (vm_compute; reflexivity).
  split; [exact Hr|].
  apply (other_sessions_end 7 8 world_sessions (Ok 1%Z) _ world_sessions_backed (run_fst _ _ _ Hr)).
  split; [done|]. intros [_ Hne]. by apply Hne.
Defined.
