(* ===== verification/Consent.v ===== *)
(** * User consent ([oauth/consent/model.rs], [oauth/consent/repository.rs],
    [oauth/consent/service.rs], [oauth/consent/pending_store.rs])

    A consent row records, per user and client, the scopes the user granted, as
    a sorted space-joined string.  [granted] is the abstract view: a set of scope
    tokens per user and client; the service's operations are shown to implement
    union and inclusion on it.  While the user is on the consent screen the
    request waits in Redis and can be taken once. *)

From stdpp Require Import base tactics list gmap strings sorting.
From Stdlib Require Import ZArith Lia.
From S2P Require Import Prelude RustStr Redis Schema World Ext Demo RedisKeys Scopes.

Local Open Scope auth_scope.

(** ** Statements *)

Definition insert_consent (c : UserConsent) : stmt unit := fun d =>
  let row := mkUserConsent (con_id c) (con_user_id c) (con_client_id c) (con_scopes c)
               (pg_ts (con_granted_at c)) (pg_ts (con_updated_at c)) in
  check! negb (has_row (user_consents d) (con_id c)) else unique_violation in
  check! no_row (fun x => (con_user_id x, con_client_id x) = (con_user_id c, con_client_id c))
           (user_consents d) else unique_violation in
  check! has_row (users d) (con_user_id c) && has_row (clients d) (con_client_id c)
    else foreign_key_violation in
  Ok (tt, on_user_consents <[con_id c := row]> d).

(** [UPDATE user_consents SET scopes = $2, updated_at = $3 WHERE id = $1] *)
Definition update_consent (id : Uuid) (scopes : string) (updated_at : Z) : stmt unit := fun d =>
  Ok (tt, on_user_consents (update_where (fun c => con_id c = id)
        (fun c => mkUserConsent (con_id c) (con_user_id c) (con_client_id c) scopes
                    (con_granted_at c) (pg_ts updated_at))) d).

Definition delete_consents (P : UserConsent -> Prop) `{forall c, Decision (P c)} : stmt Z := fun d =>
  Ok (Z.of_nat (length (where_ P (user_consents d))), on_user_consents (delete_where P) d).

(** ** UserConsentRepository *)

Section Repository.
Context `{RedisServer} `{Env}.

Definition find (user_id client_id : Uuid) : io (option UserConsent) :=
  fetch_optional (fun d =>
    where_ (fun c => (con_user_id c, con_client_id c) = (user_id, client_id)) (user_consents d)).

Definition find_by_id (id : Uuid) : io (option UserConsent) :=
  fetch_optional (fun d => where_ (fun c => con_id c = id) (user_consents d)).

(** [ORDER BY granted_at DESC] *)
Definition find_by_user_id (user_id : Uuid) : io (list UserConsent) :=
  fetch_ordered (fun a b => (con_granted_at b <=? con_granted_at a)%Z)
    (fun d => where_ (fun c => con_user_id c = user_id) (user_consents d)).

Definition delete_by_id (id : Uuid) : io Z := execute (delete_consents (fun c => con_id c = id)).

Definition persist (c : UserConsent) : io unit := execute (insert_consent c).

Definition update (c : UserConsent) : io unit :=
  execute (update_consent (con_id c) (con_scopes c) (con_updated_at c)).

Definition repo_revoke (user_id client_id : Uuid) : io Z :=
  execute (delete_consents (fun c => (con_user_id c, con_client_id c) = (user_id, client_id))).

(** ** ConsentService *)

Definition has_consent (user_id client_id : Uuid) (requested_scope_raw : option string) : io bool :=
  let requested := parse requested_scope_raw in
  if bool_decide (requested = ∅) then ret true
  else
    let! existing := find user_id client_id in
    match existing with
    | None => ret false
    | Some existing =>
        let granted := parse (Some (con_scopes existing)) in
        ret (bool_decide (requested ⊆ granted))
    end.

Definition grant (user_id client_id : Uuid) (requested_scope_raw : option string) : io unit :=
  let requested := parse requested_scope_raw in
  let! now := utc_now in
  let! existing := find user_id client_id in
  match existing with
  | None =>
      let scopes_str := join " " (sorted requested) in
      let! id := uuid_new_v4 in
      persist (mkUserConsent id user_id client_id scopes_str now now)
  | Some existing =>
      (* union of existing and newly-requested scopes *)
      let merged := parse (Some (con_scopes existing)) ∪ requested in
      update (mkUserConsent (con_id existing) (con_user_id existing) (con_client_id existing)
                (join " " (sorted merged)) (con_granted_at existing) now)
  end.

Definition revoke (user_id client_id : Uuid) : io Z := repo_revoke user_id client_id.
End Repository.

(** ** Pending authorizations *)

Record PendingAuthorization := mkPendingAuthorization {
  pa_request_id : string;
  pa_session_id : Uuid;
  pa_user_id : Uuid;
  pa_client_id : string;
  pa_redirect_uri : string;
  pa_response_type : string;
  pa_scope : option string;
  pa_state : option string;
  pa_nonce : option string;
  pa_prompt : option string;
  pa_max_age : option Z;
  pa_code_challenge : option string;
  pa_code_challenge_method : option string;
  pa_claims_requested : option string;
  pa_expires_at : Z;
}.

Section Pending.
Context `{RedisServer} `{Env} `{JsonCodec PendingAuthorization}.

(** [default_ttl] in nanoseconds; the Unix epoch as expiry stands for "unset". *)
Definition put (default_ttl : Z) (pending : PendingAuthorization) : io unit :=
  if is_empty (pa_request_id pending)
  then throw (EOther "PendingAuthorization.request_id is required")
  else
    let! now := utc_now in
    let ttl_from_expires := num_seconds (pa_expires_at pending - now) in
    let ttl := if (0 <? ttl_from_expires)%Z then Some ttl_from_expires
               else if (pa_expires_at pending =? 0)%Z then Some (default_ttl / ns_per_sec)%Z
               else None in
    match ttl with
    | None => ret tt
    | Some ttl =>
        match json_to_string pending with
        | None => throw EJson
        | Some payload =>
            do! redis_conn in
            redis_set_ex (Keys.pending_auth (pa_request_id pending)) payload ttl
        end
    end.

Definition decode (raw : string) : io (option PendingAuthorization) :=
  if is_empty raw then ret None
  else match json_from_str raw with
       | None => ret None
       | Some p =>
           let! now := utc_now in
           if (pa_expires_at p <? now)%Z then ret None else ret (Some p)
       end.

Definition and_then_decode (raw : option string) : io (option PendingAuthorization) :=
  match raw with None => ret None | Some s => decode s end.

Definition get (request_id : string) : io (option PendingAuthorization) :=
  if is_empty request_id then ret None
  else
    do! redis_conn in
    let! raw := redis_get (Keys.pending_auth request_id) in
    and_then_decode raw.

Definition take (request_id : string) : io (option PendingAuthorization) :=
  if is_empty request_id then ret None
  else
    do! redis_conn in
    let! raw := GET_AND_DEL (Keys.pending_auth request_id) in
    and_then_decode raw.
End Pending.

(** ** The abstract view *)

Definition granted (d : Pg) (user client : Uuid) : gset string :=
  match where_ (fun c => (con_user_id c, con_client_id c) = (user, client)) (user_consents d) with
  | c :: _ => parse (Some (con_scopes c))
  | [] => ∅
  end.

Section View.
Context `{RedisServer} `{EnvLaws}.

Abbreviation pair c := (con_user_id c, con_client_id c).

Lemma granted_some d i c :
  unique_on (fun c => pair c) (user_consents d) -> user_consents d !! i = Some c ->
  granted d (con_user_id c) (con_client_id c) = parse (Some (con_scopes c)).
Proof.
  intros Hu Hi. unfold granted. pose proof (where_unique _ _ _ _ Hu Hi) as Hw. by rewrite Hw.
Qed.

Lemma granted_none d u cl :
  (forall i c, user_consents d !! i = Some c -> pair c <> (u, cl)) -> granted d u cl = ∅.
Proof.
  intros Hn. unfold granted.
  by rewrite (proj2 (where_nil (fun c => pair c = (u, cl)) (user_consents d)) Hn).
Qed.

Lemma granted_same d d' u cl :
  (forall i c, pair c = (u, cl) -> user_consents d !! i = Some c <-> user_consents d' !! i = Some c) ->
  unique_on (fun c => pair c) (user_consents d) -> granted d' u cl = granted d u cl.
Proof.
  intros Heq Hu. unfold granted.
  pose proof (where_same _ _ _ Heq) as Hp.
  destruct (where_ _ (user_consents d)) as [|c l] eqn:E.
  - by apply Permutation_nil_l in Hp as <-.
  - assert (Hc : c ∈ where_ (fun c => pair c = (u, cl)) (user_consents d)) by (rewrite E; left).
    apply elem_of_where in Hc as [Hc [i Hi]].
    pose proof (where_unique _ _ _ _ Hu Hi) as Hw. simpl in Hw. rewrite Hc, E in Hw.
    injection Hw as ->. by apply Permutation_singleton_l in Hp as <-.
Qed.

Lemma wp_find u cl Q w :
  unique_on (fun c => pair c) (user_consents (pg w)) ->
  (forall o, match o with
             | Some c => pair c = (u, cl) /\ exists i, user_consents (pg w) !! i = Some c
             | None => forall i c, user_consents (pg w) !! i = Some c -> pair c <> (u, cl)
             end -> Q (Ok o) (bump w)) ->
  (forall c, Q (Err (EDb c)) (bump w)) ->
  wp (find u cl) Q w.
Proof.
  intros Hu Hok Herr. unfold find. wp_step; [|done].
  pose proof (head_where_unique (fun c => pair c) (user_consents (pg w)) (tick w) (u, cl) Hu) as Hh.
  by apply Hok.
Qed.

(** [has_consent] decides inclusion in the granted set. *)
Lemma has_consent_spec u cl raw w :
  unique_on (fun c => pair c) (user_consents (pg w)) ->
  wp (has_consent u cl raw) (fun r w' => pg w' = pg w /\ redis w' = redis w /\ tick w <= tick w' /\
    match r with
    | Ok b => b = bool_decide (parse raw ⊆ granted (pg w) u cl)
    | Err e => exists code, e = EDb code
    end) w.
Proof.
  intros Hu. unfold has_consent.
  case_bool_decide as He.
  { wp_step. repeat split; auto. rewrite He. symmetry. apply bool_decide_eq_true. set_solver. }
  wp_step. apply wp_find; [done| |intros c; repeat split; simpl; eauto].
  intros [c|] Hc; wp_step; simpl; (split; [done|]); (split; [done|]); (split; [lia|]).
  - destruct Hc as [[= <- <-] [i Hi]]. by rewrite (granted_some _ _ _ Hu Hi).
  - rewrite (granted_none _ _ _ Hc). symmetry. apply bool_decide_eq_false. set_solver.
Qed.

Lemma sorted_parse_join (X : gset string) raw raw' :
  X = parse raw ∪ parse raw' -> parse (Some (join " " (sorted X))) = X.
Proof.
  intros ->. apply parse_sorted_join. intros t [Ht|Ht]%elem_of_union; by eapply parse_token.
Qed.

Lemma insert_consent_granted c d d' :
  unique_on (fun c => pair c) (user_consents d) ->
  insert_consent c d = Ok (tt, d') ->
  unique_on (fun c => pair c) (user_consents d')
  /\ granted d' (con_user_id c) (con_client_id c) = parse (Some (con_scopes c))
  /\ forall u cl, (u, cl) <> pair c -> granted d' u cl = granted d u cl.
Proof.
  intros Hu. unfold insert_consent.
  destruct (negb _) eqn:Hn; [|done]. destruct (no_row _ _) eqn:Hnr; [|done].
  destruct (_ && _); [|done]. intros [= <-].
  apply negb_true_iff, bool_decide_eq_false in Hn. apply eq_None_not_Some in Hn.
  rewrite no_row_spec in Hnr. set (row := mkUserConsent _ _ _ _ _ _).
  assert (Hu' : unique_on (fun c => pair c) (<[con_id c := row]> (user_consents d))).
  { apply unique_insert; [done|]. intros j x Hx _. by apply (Hnr j). }
  split; [done|]. split.
  - by apply (granted_some (on_user_consents <[con_id c := row]> d) (con_id c) row Hu'), lookup_insert_eq.
  - intros u cl Hne. apply granted_same; [|done]. intros i x Hx. simpl.
    rewrite lookup_insert_Some. split.
    + intros Hi. right. split; [|done]. intros <-. congruence.
    + intros [[<- <-]|[_ ?]]; [|done]. by destruct Hne.
Qed.

Lemma update_consent_granted i c scopes t d d' :
  keyed con_id (user_consents d) -> unique_on (fun c => pair c) (user_consents d) ->
  user_consents d !! i = Some c -> update_consent (con_id c) scopes t d = Ok (tt, d') ->
  unique_on (fun c => pair c) (user_consents d')
  /\ granted d' (con_user_id c) (con_client_id c) = parse (Some scopes)
  /\ forall u cl, (u, cl) <> pair c -> granted d' u cl = granted d u cl.
Proof.
  intros Hk Hu Hi [= <-]. set (f := fun c => mkUserConsent _ _ _ scopes _ _).
  assert (Hu' : unique_on (fun c => pair c) (update_where (fun x => con_id x = con_id c) f (user_consents d))).
  { by apply unique_update. }
  split; [done|]. split.
  - assert (Hi' : update_where (fun x => con_id x = con_id c) f (user_consents d) !! i = Some (f c)).
    { rewrite lookup_update_where, Hi. simpl. by rewrite decide_True. }
    by apply (granted_some (on_user_consents (update_where (fun x => con_id x = con_id c) f) d) i (f c)).
  - intros u cl Hne. apply granted_same; [|done]. intros j x Hx. simpl. rewrite lookup_update_where.
    destruct (user_consents d !! j) as [y|] eqn:Hj; simpl; [|done]. case_decide as Hid; [|done].
    assert (y = c) as ->.
    { rewrite (Hk _ _ Hj), (Hk _ _ Hi) in Hid. congruence. }
    split; intros [= <-]; by destruct Hne.
Qed.

(** [grant] adds the requested scopes to the granted set of that user and
    client, and changes no other. *)
Definition granted_plus (u cl : Uuid) (X : gset string) (d d' : Pg) : Prop :=
  unique_on (fun c => pair c) (user_consents d')
  /\ granted d' u cl = granted d u cl ∪ X
  /\ forall u' cl', (u', cl') <> (u, cl) -> granted d' u' cl' = granted d u' cl'.

Lemma grant_spec u cl raw w :
  pg_wf (pg w) ->
  wp (grant u cl raw) (fun r w' => redis w' = redis w /\
    match r with
    | Ok _ => granted_plus u cl (parse raw) (pg w) (pg w')
    | Err e => (exists code, e = EDb code)
        /\ (pg w' = pg w \/ granted_plus u cl (parse raw) (pg w) (pg w'))
    end) w.
Proof.
  intros Hwf. pose proof (wf_consents_pair _ Hwf) as Hu. unfold grant. do 3 wp_step.
  apply wp_find; [done| |intros c; simpl; eauto]. intros [c|] Hc.
  - destruct Hc as [[= <- <-] [i Hi]].
    assert (Hup : forall d scopes t, scopes = join " " (sorted (parse (Some (con_scopes c)) ∪ parse raw)) ->
      update_consent (con_id c) scopes t (pg w) = Ok (tt, d) ->
      granted_plus (con_user_id c) (con_client_id c) (parse raw) (pg w) d).
    { intros d scopes t -> Hq.
      destruct (update_consent_granted i c _ _ _ _ (wf_consents_key _ Hwf) Hu Hi Hq) as (Hun & Hg & Ho).
      split; [done|]. split; [|done]. rewrite Hg, (granted_some _ _ _ Hu Hi). by eapply sorted_parse_join. }
    unfold update. wp_step; simpl in *; split; eauto; destruct a; eauto.
  - assert (Hin : forall d id t, insert_consent (mkUserConsent id u cl (join " " (sorted (parse raw))) t t) (pg w)
        = Ok (tt, d) -> granted_plus u cl (parse raw) (pg w) d).
    { intros d id t Hq. destruct (insert_consent_granted _ _ _ Hu Hq) as (Hun & Hg & Ho). simpl in *.
      split; [done|]. split; [|done]. rewrite Hg, (granted_none _ _ _ Hc), union_empty_l_L.
      apply parse_sorted_join. intros x. apply parse_token. }
    do 2 wp_step. unfold persist. wp_step; simpl in *; split; eauto; destruct a; eauto.
Qed.
End View.

(** ** One-shot pending requests *)

Section OneShot.
Context `{RedisLaws} `{EnvLaws} `{JsonCodec PendingAuthorization}.

Lemma and_then_decode_frame raw w :
  wp (and_then_decode raw) (fun r w' => pg w' = pg w /\ redis w' = redis w /\ tick w <= tick w'
    /\ exists o, r = Ok o /\ (raw = None -> o = None)
        /\ forall p, o = Some p -> exists s, raw = Some s /\ json_from_str s = Some p
             /\ exists n, tick w <= n < tick w' /\ (clock n <= pa_expires_at p)%Z) w.
Proof.
  destruct raw as [s|]; simpl; [|wp_step; repeat split; auto; exists None; by repeat split].
  assert (Hnone : forall w', pg w' = pg w -> redis w' = redis w -> tick w <= tick w' ->
    pg w' = pg w /\ redis w' = redis w /\ tick w <= tick w'
    /\ exists o, @Ok err _ (@None PendingAuthorization) = Ok o /\ (Some s = None -> o = None)
        /\ forall p, o = Some p -> exists s', Some s = Some s' /\ json_from_str s' = Some p
             /\ exists n, tick w <= n < tick w' /\ (clock n <= pa_expires_at p)%Z)
    by (intros w' Hp Hr Ht; repeat split; auto; exists None; by repeat split).
  unfold decode. destruct (is_empty s); [wp_step; by apply Hnone|].
  destruct (json_from_str s) as [p|] eqn:Hj; [|wp_step; by apply Hnone].
  do 2 wp_step. destruct (_ <? _)%Z eqn:He; wp_step; [apply Hnone; simpl; auto|].
  split; [done|]. split; [done|]. split; [simpl; lia|]. exists (Some p). split; [done|]. split; [done|].
  intros q [= <-]. exists s. split; [done|]. split; [done|]. exists (tick w). simpl. split; lia.
Qed.

(** After an answered [take] the request is gone; what it returned was stored
    and had not expired. *)
Lemma take_spec req w :
  wp (take req) (fun r w' => pg w' = pg w /\ redis_shrinks w w'
    /\ match r with
       | Ok o => (req <> "" -> stores w' (Keys.pending_auth req) None)
           /\ (stores w (Keys.pending_auth req) None -> o = None)
           /\ forall p, o = Some p -> req <> "" /\ exists x d s,
                rlive (redis_clock (tick w)) (Keys.pending_auth req) (redis w) = Some (x, d)
                /\ rvalue_text x = Some s /\ json_from_str s = Some p
       | Err _ => True
       end) w.
Proof.
  unfold take. destruct (is_empty req) eqn:He.
  { apply is_empty_spec in He. wp_step. split; [done|]. split; [auto with wp|]. by repeat split. }
  assert (Hne : req <> "") by by rewrite <- is_empty_spec, He.
  do 2 wp_step; [|split; [done|]; split; [auto with wp|done]].
  assert (Hsh : forall s, rupdate (redis_clock (S (tick w))) (Keys.pending_auth req) None (redis w) s ->
    redis_shrinks w (bump (set_redis s (bump w)))).
  { intros s Hu. apply (shrinks_del w (bump w) (Keys.pending_auth req)); [auto with wp|done]. }
  wp_step. apply wp_get_and_del; simpl.
  - intros v s Hu Hv. wp_call and_then_decode_frame. intros r w' (Hp & Hr & Ht & o & -> & Hon & Hos).
    assert (Hs' : redis_shrinks (bump (set_redis s (bump w))) w').
    { split; [done|]. rewrite Hr. by left. }
    split; [done|]. split; [eapply shrinks_trans; [by apply Hsh|done]|].
    split; [intros _; eapply shrinks_gone; [done|]; by apply (stores_update (bump w))|]. split.
    + intros Hst. apply Hon. destruct v as [raw|]; [|done]. destruct Hv as (x & d & Hl & _).
      rewrite Hst in Hl by (apply redis_clock_mono; lia). done.
    + intros p Hop. split; [done|]. destruct (Hos p Hop) as (raw & -> & Hj & _).
      destruct Hv as (x & d & Hl & Hx). exists x, d, raw. split; [|done].
      eapply rlive_some_earlier; [|done]. apply redis_clock_mono. lia.
  - intros s Hu. split; [done|]. split; [by apply Hsh|done].
  - split; [done|]. split; [auto with wp|done].
Qed.
End OneShot.

(** ** Theorems *)

(** C32: Consent is recorded exactly.  After a successful grant, a check for any
    user, client and scope string answers yes if and only if the requested
    tokens were granted before, or, for that same user and client, are among the
    ones just granted; consents of other users and clients are unaffected. *)
Theorem consent_exact `{RedisServer} `{EnvLaws} u cl raw w w' u2 cl2 raw2 b w'' :
  pg_wf (pg w) -> grant u cl raw w = (Ok tt, w') -> has_consent u2 cl2 raw2 w' = (Ok b, w'') ->
  b = true <-> parse raw2 ⊆ granted (pg w) u2 cl2
                            ∪ (if decide ((u2, cl2) = (u, cl)) then parse raw else ∅).
Proof.
  intros Hwf Hg Hh.
  destruct (wp_run _ _ _ _ _ (grant_spec u cl raw w Hwf) Hg) as (_ & Hun & Hsame & Hother).
  destruct (wp_run _ _ _ _ _ (has_consent_spec u2 cl2 raw2 w' Hun) Hh) as (_ & _ & _ & ->).
  rewrite bool_decide_eq_true. destruct (decide ((u2, cl2) = (u, cl))) as [Heq|Heq].
  - injection Heq as -> ->. by rewrite Hsame.
  - by rewrite (Hother _ _ Heq), union_empty_r_L.
Qed.

(** A pending authorization can be taken once.  After a [take] that got an
    answer, a second [take] of the same request id returns nothing, whatever
    fails; and what a [take] returns is the stored request. *)
Theorem pending_single_use `{RedisLaws} `{EnvLaws} `{JsonCodec PendingAuthorization} req w o w' o' w'' :
  take req w = (Ok o, w') -> take req w' = (Ok o', w'') ->
  o' = None
  /\ forall p, o = Some p -> exists x d s,
       rlive (redis_clock (tick w)) (Keys.pending_auth req) (redis w) = Some (x, d)
       /\ rvalue_text x = Some s /\ json_from_str s = Some p.
Proof.
  intros Hr1 Hr2.
  destruct (wp_run _ _ _ _ _ (take_spec req w) Hr1) as (_ & _ & Hgone & _ & Hstored).
  destruct (wp_run _ _ _ _ _ (take_spec req w') Hr2) as (_ & _ & _ & Hnone & Hsome).
  split; [|intros p Hp; by apply Hstored]. destruct o' as [p|]; [|done]. destruct (Hsome p) as [Hne _]; [done|]. by apply Hnone, Hgone.
Qed.

(** ** Witnesses *)

#[export] Instance pending_eq : EqDecision PendingAuthorization.
Proof. solve_decision. Defined.
#[export] Instance pending_countable : Countable PendingAuthorization.
Proof.
  apply (inj_countable'
    (fun p => (pa_request_id p, pa_session_id p, pa_user_id p, pa_client_id p, pa_redirect_uri p,
      pa_response_type p, pa_scope p, pa_state p, pa_nonce p, pa_prompt p, pa_max_age p,
      pa_code_challenge p, pa_code_challenge_method p, pa_claims_requested p, pa_expires_at p))
    (fun '(a, b, c, d, e, f, g, h, i, j, k, l, m, n, o) =>
       mkPendingAuthorization a b c d e f g h i j k l m n o)). by intros [].
Defined.

Import Instances.

Definition pg_consent : Pg :=
  on_clients <[5%N := mkClient 5 "app" None None (Some "public") None None (Some "openid email") true
                 true None None None None None None 0 0 []]>
    (on_users <[7%N := mkUser 7 "a@b" true "a" None None true 0 0]> pg_empty).
Definition world_consent : World := mkWorld 0 pg_consent (∅ : gmap string rentry).

Lemma pg_consent_wf : pg_wf pg_consent.
Proof. apply pg_wf_b_ok. vm_compute. reflexivity. Qed.

Lemma consent_exact_witness :
  (grant 7 5 (Some "email openid") world_consent).1 = Ok tt
  /\ (has_consent 7 5 (Some "openid") (grant 7 5 (Some "email openid") world_consent).2).1 = Ok true
  /\ parse (Some "openid") ⊆ granted pg_consent 7 5 ∪ parse (Some "email openid").
Proof.
  assert (Hg : (grant 7 5 (Some "email openid") world_consent).1 = Ok tt) by (vm_compute; reflexivity).
  assert (Hh : (has_consent 7 5 (Some "openid") (grant 7 5 (Some "email openid") world_consent).2).1 = Ok true)
    by (vm_compute; reflexivity).
  split; [exact Hg|]. split; [exact Hh|].
  exact (proj1 (consent_exact 7 5 (Some "email openid") world_consent _ 7 5 (Some "openid") true _
    pg_consent_wf (run_fst _ _ _ Hg) (run_fst _ _ _ Hh)) eq_refl).
Defined.

Definition demo_pending : PendingAuthorization :=
  mkPendingAuthorization "r1" 8 7 "app" "https://app/cb" "code" None None None None None None None None
    1800000000000000000.
Definition world_pending : World := (put 0 demo_pending world_consent).2.

Lemma pending_single_use_witness :
  (take "r1" world_pending).1 = Ok (Some demo_pending)
  /\ (take "r1" (take "r1" world_pending).2).1 = Ok None.
Proof.
  assert (H1 : (take "r1" world_pending).1 = Ok (Some demo_pending)) by (vm_compute; reflexivity).
  split; [exact H1|].
  assert (H2 : exists o, (take "r1" (take "r1" world_pending).2).1 = Ok o)
    by (eexists; vm_compute; reflexivity).
  destruct H2 as [o H2]. rewrite H2. f_equal.
  exact (proj1 (pending_single_use "r1" world_pending _ _ _ _ (run_fst _ _ _ H1) (run_fst _ _ _ H2))).
Defined.
