(* ===== verification/AccountTokens.v ===== *)
(** * Single-use tokens of an account ([password/repository.rs],
    [signup/repository.rs])

    The tables [password_resets] and [email_verifications]: their statements and
    repositories, with the two statements of [SignupFlow::verify_email]. *)

From stdpp Require Import base tactics list gmap strings.
From Stdlib Require Import ZArith Lia.
From S2P Require Import Prelude RustStr Redis Schema World.

Local Open Scope auth_scope.

(** ** Statements on password_resets *)

Definition set_reset_consumed (t : Z) (r : PasswordReset) : PasswordReset :=
  mkPasswordReset (pr_id r) (pr_user_id r) (pr_token_hash r) (pr_expires_at r) (Some t) (pr_created_at r).

(** [INSERT INTO password_resets (...) VALUES (...)] *)
Definition insert_reset (r : PasswordReset) : stmt unit := fun d =>
  let row := mkPasswordReset (pr_id r) (pr_user_id r) (pr_token_hash r) (pg_ts (pr_expires_at r))
               (pg_ts <$> pr_consumed_at r) (pg_ts (pr_created_at r)) in
  check! negb (has_row (password_resets d) (pr_id r)) else unique_violation in
  check! no_row (fun x => pr_token_hash x = pr_token_hash r) (password_resets d) else unique_violation in
  check! has_row (users d) (pr_user_id r) else foreign_key_violation in
  Ok (tt, on_password_resets <[pr_id r := row]> d).

(** [UPDATE password_resets SET consumed_at = NOW() WHERE id = $1] *)
Definition consume_reset_row (id : Uuid) (now : Z) : stmt unit := fun d =>
  Ok (tt, on_password_resets (update_where (fun r => pr_id r = id) (set_reset_consumed (pg_ts now))) d).

(** [... WHERE user_id = $1 AND id <> $2 AND consumed_at IS NULL] *)
Definition sibling (user_id keep_id : Uuid) (r : PasswordReset) : Prop :=
  pr_user_id r = user_id /\ pr_id r <> keep_id /\ pr_consumed_at r = None.
#[export] Instance sibling_dec u k r : Decision (sibling u k r).
Proof. apply _. Defined.

Definition consume_siblings (user_id keep_id : Uuid) (now : Z) : stmt Z := fun d =>
  Ok (Z.of_nat (length (where_ (sibling user_id keep_id) (password_resets d))),
      on_password_resets (update_where (sibling user_id keep_id) (set_reset_consumed (pg_ts now))) d).

(** ** Statements on email_verifications *)

(** [INSERT INTO email_verifications (...) VALUES (...)] *)
Definition insert_verification (v : EmailVerification) : stmt unit := fun d =>
  let row := mkEmailVerification (ev_id v) (ev_user_id v) (ev_token_hash v) (pg_ts (ev_expires_at v))
               (pg_ts <$> ev_consumed_at v) (pg_ts (ev_created_at v)) in
  check! negb (has_row (email_verifications d) (ev_id v)) else unique_violation in
  check! no_row (fun x => ev_token_hash x = ev_token_hash v) (email_verifications d) else unique_violation in
  check! has_row (users d) (ev_user_id v) else foreign_key_violation in
  Ok (tt, on_email_verifications <[ev_id v := row]> d).

Definition set_verification_consumed (t : Z) (v : EmailVerification) : EmailVerification :=
  mkEmailVerification (ev_id v) (ev_user_id v) (ev_token_hash v) (ev_expires_at v) (Some t) (ev_created_at v).

(** [UPDATE email_verifications SET consumed_at = NOW() WHERE id = $1] *)
Definition consume_verification (id : Uuid) (now : Z) : stmt unit := fun d =>
  Ok (tt, on_email_verifications (update_where (fun v => ev_id v = id) (set_verification_consumed (pg_ts now))) d).

Definition set_verified (t : Z) (u : User) : User :=
  mkUser (usr_id u) (usr_email u) true (usr_username u) (usr_first_name u) (usr_last_name u) (usr_enabled u)
    (usr_created_at u) t.

(** [UPDATE users SET email_verified = TRUE, updated_at = NOW() WHERE id = $1] *)
Definition verify_user_email (id : Uuid) (now : Z) : stmt unit := fun d =>
  Ok (tt, on_users (update_where (fun u => usr_id u = id) (set_verified (pg_ts now))) d).

(** ** PasswordResetRepository *)

Section Resets.
Context `{RedisServer} `{Env}.

Definition find_reset_by_token_hash (token_hash : string) : io (option PasswordReset) :=
  fetch_optional (fun d => where_ (fun r => pr_token_hash r = token_hash) (password_resets d)).

Definition persist_reset (r : PasswordReset) : io unit := execute (insert_reset r).

Definition mark_reset_consumed (id : Uuid) : io unit := execute_now (consume_reset_row id).

Definition consume_sibling_tokens (user_id keep_id : Uuid) : io Z := execute_now (consume_siblings user_id keep_id).
End Resets.

(** ** EmailVerificationRepository *)

Section Verifications.
Context `{RedisServer} `{Env}.

Definition find_verification_by_token_hash (token_hash : string) : io (option EmailVerification) :=
  fetch_optional (fun d => where_ (fun v => ev_token_hash v = token_hash) (email_verifications d)).

Definition persist_verification (v : EmailVerification) : io unit := execute (insert_verification v).

Definition mark_verification_consumed (id : Uuid) : io unit := execute_now (consume_verification id).
End Verifications.
