(* ===== verification/Integrity.v ===== *)
(** * Integrity of the tables

    Every SQL statement the repositories issue, in one type, and the proof that
    each of them keeps the schema's constraints ([pg_wf]): keys, unique columns,
    foreign keys with their cascades, the client-type check.  Components that
    assume [pg_wf] of the tables they read get it from here. *)

From stdpp Require Import base tactics list gmap strings.
From Stdlib Require Import ZArith Lia.
From S2P Require Import Prelude RustStr Schema World Role User Client RefreshToken Session Consent AccountTokens.

Local Open Scope auth_scope.

(** ** One lemma per kind of change *)

Section Changes.
Context {R : Type}.
Implicit Types m : gmap Uuid R.

Lemma unique_fresh {K} (f : R -> K) `{EqDecision K} m i r :
  no_row (fun x => f x = f r) m = true -> unique_on f m -> unique_on f (<[i := r]> m).
Proof. rewrite no_row_spec. intros Hn Hu. apply unique_insert; [done|]. intros j x Hx _. by apply (Hn j). Qed.

(** The new value of an updated row is not taken by another row. *)
Lemma unique_replace {K} (f : R -> K) `{EqDecision K} (id : R -> Uuid) m i r :
  no_row (fun x => f x = f r /\ id x <> i) m = true -> keyed id m -> unique_on f m ->
  unique_on f (<[i := r]> m).
Proof.
  rewrite no_row_spec. intros Hn Hk Hu. apply unique_insert; [done|]. intros j x Hx Hj Hf.
  apply (Hn j x Hx). split; [done|]. by rewrite (Hk _ _ Hx).
Qed.

Lemma unique_same {K} (f : R -> K) m i old r :
  m !! i = Some old -> f r = f old -> unique_on f m -> unique_on f (<[i := r]> m).
Proof.
  intros Hi Hf Hu. apply unique_insert; [done|]. intros j x Hx Hj Hx'. apply Hj.
  eapply Hu; [exact Hx|exact Hi|congruence].
Qed.

Lemma is_Some_insert m i r j : is_Some (m !! j) -> is_Some (<[i := r]> m !! j).
Proof. destruct (decide (i = j)) as [->|]; [by rewrite lookup_insert_eq|by rewrite lookup_insert_ne]. Qed.

Lemma refers_grow {P} (fk : R -> Uuid) (parent : gmap Uuid P) m i p :
  refers fk parent m -> refers fk (<[i := p]> parent) m.
Proof.
  intros Hr. eapply refers_parent_grow; [|exact Hr]. intros j Hj.
  destruct (decide (i = j)) as [->|]; [by rewrite lookup_insert_eq|by rewrite lookup_insert_ne].
Qed.

Lemma refers_parent_update {P} (fk : R -> Uuid) (parent : gmap Uuid P) (Q : P -> Prop)
  `{forall p, Decision (Q p)} f m :
  refers fk parent m -> refers fk (update_where Q f parent) m.
Proof. apply refers_parent_grow. intros j. by apply is_Some_update. Qed.

(** A cascade: the rows that point at deleted rows go with them. *)
Lemma refers_cascade {P} (fk : R -> Uuid) (parent : gmap Uuid P) m (D : R -> Prop)
  `{forall r, Decision (D r)} (parent' : gmap Uuid P) :
  (forall r, ~ D r -> is_Some (parent !! fk r) -> is_Some (parent' !! fk r)) ->
  refers fk parent m -> refers fk parent' (delete_where D m).
Proof. intros Hc Hr i r [Hi Hn]%lookup_delete_where. apply Hc; [done|]. by eapply Hr. Qed.

Lemma keyed_delete id m (D : R -> Prop) `{forall r, Decision (D r)} : keyed id m -> keyed id (delete_where D m).
Proof. apply subset_keyed, delete_where_subset. Qed.
Lemma unique_delete {K} (f : R -> K) m (D : R -> Prop) `{forall r, Decision (D r)} :
  unique_on f m -> unique_on f (delete_where D m).
Proof. apply subset_unique, delete_where_subset. Qed.
Lemma refers_delete {P} (fk : R -> Uuid) (parent : gmap Uuid P) m (D : R -> Prop) `{forall r, Decision (D r)} :
  refers fk parent m -> refers fk parent (delete_where D m).
Proof. apply subset_refers, delete_where_subset. Qed.

Lemma keyed_delete_row id m i : keyed id m -> keyed id (delete i m).
Proof. apply subset_keyed, delete_subseteq. Qed.
Lemma unique_delete_row {K} (f : R -> K) m i : unique_on f m -> unique_on f (delete i m).
Proof. apply subset_unique, delete_subseteq. Qed.
Lemma refers_delete_row {P} (fk : R -> Uuid) (parent : gmap Uuid P) m i :
  refers fk parent m -> refers fk parent (delete i m).
Proof. apply subset_refers, delete_subseteq. Qed.
End Changes.

#[export] Hint Resolve has_row_spec unique_fresh is_Some_insert refers_grow refers_parent_update keyed_delete
  unique_delete refers_delete keyed_delete_row unique_delete_row refers_delete_row : pg.

(** ** The statements *)

Inductive statement :=
| SInsertUser (u : User)
| SUpdateUser (u : User)
| SDeleteUser (id : Uuid)
| SInsertCredential (c : Credential)
| SUpdateCredential (c : Credential)
| SInsertRole (r : Role)
| SInsertUserRole (user role : Uuid)
| SDeleteUserRole (user role : Uuid)
| SUpdateRoleParent (parent : option Uuid) (id : Uuid)
| SInsertClient (c : Client)
| SUpdateClient (c : Client)
| SUpdateClientSecret (id : Uuid) (secret : string) (now : Z)
| SDeleteClient (id : Uuid)
| SInsertRedirectUri (id client : Uuid) (uri : string) (created_at : Z)
| SDeleteRedirectUri (id : Uuid)
| SInsertRefreshToken (t : RefreshToken)
| SUpdateRevoked (id : Uuid) (revoked : bool)
| SRevokeSession (session_id : Uuid)
| SRevokeUser (user : Uuid)
| SRevokeOthers (user keep : Uuid)
| SDeleteExpired (now : Z)
| SInsertSession (s : UserSession)
| STouchSession (id : Uuid) (at_ : Z)
| SDeleteSession (id : Uuid)
| SDeleteUserSessions (user : Uuid)
| SDeleteOtherSessions (user keep : Uuid)
| SInsertConsent (c : UserConsent)
| SUpdateConsent (id : Uuid) (scopes : string) (at_ : Z)
| SDeleteConsent (user client : Uuid)
| SDeleteConsentById (id : Uuid)
| SInsertReset (r : PasswordReset)
| SConsumeReset (id : Uuid) (now : Z)
| SConsumeSiblings (user keep : Uuid) (now : Z)
| SInsertVerification (v : EmailVerification)
| SConsumeVerification (id : Uuid) (now : Z)
| SVerifyUserEmail (id : Uuid) (now : Z).

(** The tables after a statement that succeeds. *)
Definition after {A} (r : res string (A * Pg)) : option Pg := snd <$> ok r.

Definition run_statement (st : statement) (d : Pg) : option Pg :=
  match st with
  | SInsertUser u => after (insert_user u d)
  | SUpdateUser u => after (update_user u d)
  | SDeleteUser id => after (delete_user id d)
  | SInsertCredential c => after (insert_credential c d)
  | SUpdateCredential c => after (update_credential c d)
  | SInsertRole r => after (insert_role r d)
  | SInsertUserRole u r => after (insert_user_role u r d)
  | SDeleteUserRole u r => after (delete_user_role u r d)
  | SUpdateRoleParent p id => after (update_role_parent p id d)
  | SInsertClient c => after (insert_client c d)
  | SUpdateClient c => after (update_client c d)
  | SUpdateClientSecret id secret now => after (update_client_secret id secret now d)
  | SDeleteClient id => after (delete_client id d)
  | SInsertRedirectUri id c uri t => after (insert_redirect_uri id c uri t d)
  | SDeleteRedirectUri id => after (delete_redirect_uri id d)
  | SInsertRefreshToken t => after (insert_refresh_token t d)
  | SUpdateRevoked id b => after (update_refresh_revoked id b d)
  | SRevokeSession s => after (revoke_where (fun t => rt_session_id t = s) d)
  | SRevokeUser u => after (revoke_where (fun t => rt_user_id t = u) d)
  | SRevokeOthers u k => after (revoke_where (fun t => rt_user_id t = u /\ rt_session_id t <> k) d)
  | SDeleteExpired now => after (delete_expired now d)
  | SInsertSession s => after (insert_session s d)
  | STouchSession id t => after (update_session_access id t d)
  | SDeleteSession id => after (delete_sessions_where (fun s => ses_id s = id) d)
  | SDeleteUserSessions u => after (delete_sessions_where (fun s => ses_user_id s = u) d)
  | SDeleteOtherSessions u k => after (delete_sessions_where (fun s => ses_user_id s = u /\ ses_id s <> k) d)
  | SInsertConsent c => after (insert_consent c d)
  | SUpdateConsent id s t => after (update_consent id s t d)
  | SDeleteConsent u c => after (delete_consents (fun x => (con_user_id x, con_client_id x) = (u, c)) d)
  | SDeleteConsentById id => after (delete_consents (fun x => con_id x = id) d)
  | SInsertReset r => after (insert_reset r d)
  | SConsumeReset id now => after (consume_reset_row id now d)
  | SConsumeSiblings u k now => after (consume_siblings u k now d)
  | SInsertVerification v => after (insert_verification v d)
  | SConsumeVerification id now => after (consume_verification id now d)
  | SVerifyUserEmail id now => after (verify_user_email id now d)
  end.

(** ** Each statement keeps the constraints *)

(** The constraints one by one; those the statement does not touch are found. *)
Ltac wf_fields Hwf :=
  destruct Hwf; split; simpl; eauto with pg;
  try match goal with
  | Hur : forall u r, (u, r) ∈ user_roles ?d -> _ |- forall u r, (u, r) ∈ user_roles ?d -> _ =>
      intros ? ? Hin; destruct (Hur _ _ Hin); split; solve [eauto with pg]
  end.

Lemma user_row_id u row : user_row u = Ok row -> usr_id row = usr_id u.
Proof. intros Hr. unfold user_row in Hr. by stmt_inv Hr. Qed.

Lemma insert_user_wf u d a d' : pg_wf d -> insert_user u d = Ok (a, d') -> pg_wf d'.
Proof.
  intros Hwf Hs. unfold insert_user in Hs. stmt_inv Hs. bools.
  match goal with Hr : user_row u = Ok _ |- _ => apply user_row_id in Hr end. wf_fields Hwf.
Qed.

Lemma update_user_wf u d a d' : pg_wf d -> update_user u d = Ok (a, d') -> pg_wf d'.
Proof.
  intros Hwf Hs. unfold update_user in Hs. stmt_inv Hs; [|done]. wf_fields Hwf.
  - apply keyed_insert_at; [|done]. simpl. by apply wf_users_key.
  - by eapply (unique_replace usr_email usr_id).
  - by eapply (unique_replace usr_username usr_id).
Qed.

Lemma delete_user_wf id d a d' : pg_wf d -> delete_user id d = Ok (a, d') -> pg_wf d'.
Proof.
  intros Hwf Hs. unfold delete_user in Hs. stmt_inv Hs.
  assert (Hdel : forall i, i <> id -> is_Some (users d !! i) -> is_Some (delete id (users d) !! i))
    by (intros i Hi Hu; by rewrite lookup_delete_ne).
  wf_fields Hwf; try (eapply refers_cascade; [|eassumption]; intros r Hr; apply Hdel; tauto).
  - intros x r [Hn Hx]%elem_of_filter. destruct (wf_user_roles _ _ Hx). simpl in Hn. split; [by apply Hdel|done].
  - eapply refers_cascade; [|eassumption]. intros t Ht [s Hss]. exists s. apply lookup_delete_where.
    split; [done|]. intros Hsu. apply Ht. right. apply list_elem_of_fmap. exists s.
    split; [by rewrite (wf_sessions_key _ _ Hss)|]. apply elem_of_where. eauto.
Qed.

Lemma insert_credential_wf c d a d' : pg_wf d -> insert_credential c d = Ok (a, d') -> pg_wf d'.
Proof. intros Hwf Hs. unfold insert_credential in Hs. stmt_inv Hs. bools. wf_fields Hwf. Qed.

Lemma update_credential_wf c d a d' : pg_wf d -> update_credential c d = Ok (a, d') -> pg_wf d'.
Proof.
  intros Hwf Hs. unfold update_credential in Hs. stmt_inv Hs; [|done]. bools. wf_fields Hwf.
  apply keyed_insert_at; [|done]. simpl. by apply wf_credentials_key.
Qed.

Lemma insert_role_wf r d a d' : pg_wf d -> insert_role r d = Ok (a, d') -> pg_wf d'.
Proof.
  intros Hwf Hs. unfold insert_role in Hs. stmt_inv Hs. bools. wf_fields Hwf.
  intros i x q [[<- <-]|[_ Hx]]%lookup_insert_Some Hq; simpl in Hq; [|by eapply is_Some_insert, wf_roles_parent].
  rewrite Hq in *. match goal with Hb : orb _ _ = true |- _ => apply orb_prop in Hb as [Hb|Hb] end.
  - match goal with Hb : bool_decide (q = _) = true |- _ => apply bool_decide_eq_true in Hb as -> end.
    by rewrite lookup_insert_eq.
  - eauto with pg.
Qed.

Lemma insert_user_role_wf u r d a d' : pg_wf d -> insert_user_role u r d = Ok (a, d') -> pg_wf d'.
Proof.
  intros Hwf Hs. unfold insert_user_role in Hs. destruct (bool_decide _); [by inversion Hs; subst|].
  stmt_inv Hs. bools. wf_fields Hwf.
  intros x y [[= -> ->]%elem_of_singleton|Hx]%elem_of_union; [done|auto].
Qed.

Lemma delete_user_role_wf u r d a d' : pg_wf d -> delete_user_role u r d = Ok (a, d') -> pg_wf d'.
Proof. intros Hwf Hs. unfold delete_user_role in Hs. stmt_inv Hs. wf_fields Hwf. intros x y Hx. apply wf_user_roles. set_solver. Qed.

Lemma update_role_parent_wf p id d a d' : pg_wf d -> update_role_parent p id d = Ok (a, d') -> pg_wf d'.
Proof.
  intros Hwf Hs. unfold update_role_parent in Hs.
  destruct (match p with Some _ => _ | None => _ end) eqn:Hp; [|done]. stmt_inv Hs. wf_fields Hwf.
  intros i x q. rewrite lookup_update_where. intros (r & Hr & ->)%fmap_Some Hq. apply is_Some_update.
  case_decide as Hid; [|by eapply wf_roles_parent]. simpl in Hq. subst p.
  apply orb_prop in Hp as [Hp|Hp]; [by apply has_row_spec|].
  rewrite no_row_spec in Hp. by destruct (Hp _ _ Hr).
Qed.

Lemma insert_client_wf c d a d' : pg_wf d -> insert_client c d = Ok (a, d') -> pg_wf d'.
Proof.
  intros Hwf Hs. unfold insert_client in Hs. stmt_inv Hs. bools. wf_fields Hwf.
  intros i x [[<- <-]|[_ Hx]]%lookup_insert_Some; [|by eapply wf_clients_type].
  by match goal with Hb : bool_decide _ = true |- _ => apply bool_decide_eq_true in Hb end.
Qed.

Lemma update_client_wf c d a d' : pg_wf d -> update_client c d = Ok (a, d') -> pg_wf d'.
Proof.
  intros Hwf Hs. unfold update_client in Hs. stmt_inv Hs; [|done]. bools. wf_fields Hwf.
  - apply keyed_insert_at; [|done]. simpl. by apply wf_clients_key.
  - by eapply unique_same.
  - intros i x [[<- <-]|[_ Hx]]%lookup_insert_Some; [|by eapply wf_clients_type].
    by match goal with Hb : bool_decide _ = true |- _ => apply bool_decide_eq_true in Hb end.
Qed.

Lemma update_client_secret_wf id s t d a d' : pg_wf d -> update_client_secret id s t d = Ok (a, d') -> pg_wf d'.
Proof.
  intros Hwf Hs. unfold update_client_secret in Hs. stmt_inv Hs. wf_fields Hwf.
  intros i x Hx. rewrite lookup_update_where in Hx. destruct (clients d !! i) as [y|] eqn:Hy; [|done]. injection Hx as <-.
  pose proof (wf_clients_type _ _ Hy) as Hty. by case_decide.
Qed.

Lemma delete_client_wf id d a d' : pg_wf d -> delete_client id d = Ok (a, d') -> pg_wf d'.
Proof.
  intros Hwf Hs. unfold delete_client in Hs. stmt_inv Hs.
  assert (Hdel : forall i, i <> id -> is_Some (clients d !! i) -> is_Some (delete id (clients d) !! i))
    by (intros i Hi Hu; by rewrite lookup_delete_ne).
  wf_fields Hwf; try (eapply refers_cascade; [|eassumption]; intros r Hr; apply Hdel; tauto).
  intros i c [_ Hi]%lookup_delete_Some. by eapply wf_clients_type.
Qed.

Lemma insert_redirect_uri_wf id c uri t d a d' : pg_wf d -> insert_redirect_uri id c uri t d = Ok (a, d') -> pg_wf d'.
Proof.
  intros Hwf Hs. unfold insert_redirect_uri in Hs. stmt_inv Hs. bools. wf_fields Hwf.
  apply unique_insert; [done|]. intros j x Hx _ [= H1 H2].
  match goal with Hn : no_row _ _ = true |- _ => rewrite no_row_spec in Hn; by apply (Hn j x Hx) end.
Qed.

Lemma delete_redirect_uri_wf id d a d' : pg_wf d -> delete_redirect_uri id d = Ok (a, d') -> pg_wf d'.
Proof. intros Hwf Hs. unfold delete_redirect_uri in Hs. stmt_inv Hs. wf_fields Hwf. Qed.

Lemma insert_refresh_token_wf t d a d' : pg_wf d -> insert_refresh_token t d = Ok (a, d') -> pg_wf d'.
Proof. intros Hwf Hs. unfold insert_refresh_token in Hs. stmt_inv Hs. bools. wf_fields Hwf. Qed.

(** Marking rows revoked changes no column a constraint reads. *)
Lemma set_revoked_wf (P : RefreshToken -> Prop) `{forall t, Decision (P t)} b d :
  pg_wf d -> pg_wf (on_refresh_tokens (update_where P (set_revoked b)) d).
Proof. intros Hwf. wf_fields Hwf. Qed.

Lemma delete_expired_wf now d a d' : pg_wf d -> delete_expired now d = Ok (a, d') -> pg_wf d'.
Proof. intros Hwf Hs. unfold delete_expired in Hs. stmt_inv Hs. wf_fields Hwf. Qed.

Lemma insert_session_wf s d a d' : pg_wf d -> insert_session s d = Ok (a, d') -> pg_wf d'.
Proof. intros Hwf Hs. unfold insert_session in Hs. stmt_inv Hs. bools. wf_fields Hwf. Qed.

Lemma touch_session_wf id t d a d' : pg_wf d -> update_session_access id t d = Ok (a, d') -> pg_wf d'.
Proof. intros Hwf Hs. unfold update_session_access in Hs. stmt_inv Hs. wf_fields Hwf. Qed.

Lemma delete_sessions_wf (P : UserSession -> Prop) `{forall s, Decision (P s)} d a d' :
  pg_wf d -> delete_sessions_where P d = Ok (a, d') -> pg_wf d'.
Proof.
  intros Hwf Hs. unfold delete_sessions_where in Hs. stmt_inv Hs. wf_fields Hwf.
  eapply refers_cascade; [|eassumption]. intros t Ht [s Hss]. exists s. apply lookup_delete_where.
  split; [done|]. intros Hsu. apply Ht. apply list_elem_of_fmap. exists s.
  split; [by rewrite (wf_sessions_key _ _ Hss)|]. apply elem_of_where. eauto.
Qed.

Lemma insert_consent_wf c d a d' : pg_wf d -> insert_consent c d = Ok (a, d') -> pg_wf d'.
Proof. intros Hwf Hs. unfold insert_consent in Hs. stmt_inv Hs. bools. wf_fields Hwf. Qed.

Lemma update_consent_wf id s t d a d' : pg_wf d -> update_consent id s t d = Ok (a, d') -> pg_wf d'.
Proof. intros Hwf Hs. unfold update_consent in Hs. stmt_inv Hs. wf_fields Hwf. Qed.

Lemma delete_consents_wf (P : UserConsent -> Prop) `{forall c, Decision (P c)} d a d' :
  pg_wf d -> delete_consents P d = Ok (a, d') -> pg_wf d'.
Proof. intros Hwf Hs. unfold delete_consents in Hs. stmt_inv Hs. wf_fields Hwf. Qed.

Lemma insert_reset_wf r d a d' : pg_wf d -> insert_reset r d = Ok (a, d') -> pg_wf d'.
Proof. intros Hwf Hs. unfold insert_reset in Hs. stmt_inv Hs. bools. wf_fields Hwf. Qed.

(** Using a token up changes no column a constraint reads. *)
Lemma set_reset_consumed_wf (P : PasswordReset -> Prop) `{forall r, Decision (P r)} t d :
  pg_wf d -> pg_wf (on_password_resets (update_where P (set_reset_consumed t)) d).
Proof. intros Hwf. wf_fields Hwf. Qed.

Lemma consume_reset_row_wf id now d a d' : pg_wf d -> consume_reset_row id now d = Ok (a, d') -> pg_wf d'.
Proof. intros Hwf [= _ <-]. by apply set_reset_consumed_wf. Qed.

Lemma consume_siblings_wf u k now d a d' : pg_wf d -> consume_siblings u k now d = Ok (a, d') -> pg_wf d'.
Proof. intros Hwf [= _ <-]. by apply set_reset_consumed_wf. Qed.

Lemma insert_verification_wf v d a d' : pg_wf d -> insert_verification v d = Ok (a, d') -> pg_wf d'.
Proof. intros Hwf Hs. unfold insert_verification in Hs. stmt_inv Hs. bools. wf_fields Hwf. Qed.

Lemma consume_verification_wf id now d a d' : pg_wf d -> consume_verification id now d = Ok (a, d') -> pg_wf d'.
Proof. intros Hwf Hs. unfold consume_verification in Hs. stmt_inv Hs. wf_fields Hwf. Qed.

Lemma verify_user_email_wf id now d a d' : pg_wf d -> verify_user_email id now d = Ok (a, d') -> pg_wf d'.
Proof. intros Hwf Hs. unfold verify_user_email in Hs. stmt_inv Hs. wf_fields Hwf. Qed.

Create HintDb stmts discriminated.
#[export] Hint Constants Opaque : stmts.
#[export] Hint Resolve insert_user_wf update_user_wf delete_user_wf insert_credential_wf update_credential_wf
  insert_role_wf insert_user_role_wf delete_user_role_wf update_role_parent_wf insert_client_wf
  update_client_wf update_client_secret_wf delete_client_wf insert_redirect_uri_wf delete_redirect_uri_wf insert_refresh_token_wf
  delete_expired_wf insert_session_wf touch_session_wf insert_consent_wf
  update_consent_wf insert_reset_wf consume_reset_row_wf consume_siblings_wf insert_verification_wf
  consume_verification_wf verify_user_email_wf : stmts.

Lemma after_wf {A} (st : stmt A) d d' :
  (forall a d'', st d = Ok (a, d'') -> pg_wf d'') -> after (st d) = Some d' -> pg_wf d'.
Proof. unfold after. destruct (st d) as [[a d'']|e]; simpl; [|done]. intros Hs [= <-]. by eapply Hs. Qed.

Lemma run_statement_wf st d d' : pg_wf d -> run_statement st d = Some d' -> pg_wf d'.
Proof.
  intros Hwf.
  assert (Hdel : forall (P : UserSession -> Prop) `{forall s, Decision (P s)},
    after (delete_sessions_where P d) = Some d' -> pg_wf d').
  { intros P HP. apply after_wf. intros. by eapply delete_sessions_wf. }
  destruct st; cbn [run_statement];
    try (apply after_wf; intros ? ?; eauto 3 with stmts nocore; fail); try apply Hdel.
  1-4: intros [= <-]; by apply set_revoked_wf.
  - apply after_wf. intros. by eapply delete_consents_wf.
  - apply after_wf. intros. by eapply delete_consents_wf.
Qed.

(** ** Reachable tables *)

(** One statement of the server, with any arguments. *)
Inductive pg_step : Pg -> Pg -> Prop :=
| pg_step_intro st d d' : run_statement st d = Some d' -> pg_step d d'.

(** ** Theorems *)

(** The tables always satisfy the schema's constraints.  Starting from empty
    tables, after any sequence of the server's statements with any arguments,
    every row is stored under its id, unique columns are unique, every reference
    points at a row that exists (the cascades of a deletion remove all others),
    and client types are legal. *)
Theorem tables_always_wf d : rtc pg_step pg_empty d -> pg_wf d.
Proof.
  intros Hr. assert (Hgen : forall d0, rtc pg_step d0 d -> pg_wf d0 -> pg_wf d); [|by apply (Hgen pg_empty), pg_empty_wf].
  clear Hr. intros d0 Hr. induction Hr as [|d1 d2 d3 [st x y Hs] _ IH]; [done|].
  intros Hwf. apply IH. by eapply run_statement_wf.
Qed.

Definition demo_client_row : Client :=
  mkClient 5 "app" None None (Some "public") None None (Some "openid") true true None None None None None None 0 0 [].
Definition demo_step1 : Pg := default pg_empty (run_statement (SInsertClient demo_client_row) pg_empty).
Definition demo_step2 : Pg := default pg_empty (run_statement (SInsertRedirectUri 6 5 "https://app/cb" 0) demo_step1).
Definition demo_step3 : Pg := default pg_empty (run_statement (SDeleteClient 5) demo_step2).

Lemma tables_always_wf_witness : pg_wf demo_step3 /\ redirect_uris demo_step3 = ∅.
Proof.
  split; [|vm_compute; reflexivity]. apply tables_always_wf.
  apply (rtc_l _ _ demo_step1); [apply (pg_step_intro (SInsertClient demo_client_row)); vm_compute; reflexivity|].
  apply (rtc_l _ _ demo_step2);
    [apply (pg_step_intro (SInsertRedirectUri 6 5 "https://app/cb" 0)); vm_compute; reflexivity|].
  apply rtc_once, (pg_step_intro (SDeleteClient 5)). vm_compute. reflexivity.
Defined.
