(* ===== verification/AuthCode.v ===== *)
(** * Authorization codes ([oauth/authorize/code.rs])

    A code lives in Redis under the hash of its value until it is consumed or
    expires.  Consuming reads and deletes it in one script, so a code that was
    answered once is never answered again. *)

From stdpp Require Import base tactics list gmap strings.
From Stdlib Require Import ZArith Lia.
From S2P Require Import Prelude RustStr Redis Schema World Ext Demo RedisKeys Hashing.

Local Open Scope auth_scope.

Record AuthorizationCode := mkAuthorizationCode {
  ac_code : string;
  ac_client_id : string;
  ac_user_id : Uuid;
  ac_session_id : Uuid;
  ac_redirect_uri : string;
  ac_scope : option string;
  ac_state : option string;
  ac_nonce : option string;
  ac_code_challenge : option string;
  ac_code_challenge_method : option string;
  ac_claims_requested : option string;
  ac_expires_at : Z;
  ac_created_at : option Z;
}.

(** [code.created_at = Some(now)] *)
Definition stamp (now : Z) (c : AuthorizationCode) : AuthorizationCode :=
  mkAuthorizationCode (ac_code c) (ac_client_id c) (ac_user_id c) (ac_session_id c) (ac_redirect_uri c)
    (ac_scope c) (ac_state c) (ac_nonce c) (ac_code_challenge c) (ac_code_challenge_method c)
    (ac_claims_requested c) (ac_expires_at c) (Some now).

Section Store.
Context `{RedisServer} `{Env} `{Crypto} `{JsonCodec AuthorizationCode}.

Definition code_key (code : string) : string := Keys.auth_code (base64_url code).

Definition put (code : AuthorizationCode) : io unit :=
  let! now := utc_now in
  let ttl := num_seconds (ac_expires_at code - now) in
  if (ttl <=? 0)%Z then ret tt
  else
    let code := stamp now code in
    match json_to_string code with
    | None => throw EJson
    | Some payload =>
        do! redis_conn in
        (* a code that exists already is not overwritten, and that is not an error *)
        do! redis_set_ex_nx (code_key (ac_code code)) payload ttl in
        ret tt
    end.

Definition consume (code : string) : io (option AuthorizationCode) :=
  if is_empty code then ret None
  else
    do! redis_conn in
    let! raw := GET_AND_DEL (code_key code) in
    match raw with
    | None => ret None
    | Some raw =>
        if is_empty raw then ret None
        else match json_from_str raw with
             | None => throw EJson
             | Some stored =>
                 let! now := utc_now in
                 if (ac_expires_at stored <? now)%Z then ret None else ret (Some stored)
             end
    end.
End Store.

Section Spec.
Context `{RedisLaws} `{EnvLaws} `{Crypto} `{JsonCodec AuthorizationCode}.

(** Redis holds [stored] for [code]. *)
Definition holds (w : World) (code : string) (stored : AuthorizationCode) : Prop :=
  exists x d raw, rlive (redis_clock (tick w)) (code_key code) (redis w) = Some (x, d)
    /\ rvalue_text x = Some raw /\ json_from_str raw = Some stored.

(** What an attempt to redeem a code may do.  [JsonError] is an answer too: the
    code is gone. *)
Lemma consume_spec code w :
  wp (consume code) (fun r w' => pg w' = pg w /\ redis_shrinks w w'
    /\ redis_frame (eq (code_key code)) w w'
    /\ match r with
       | Ok o => (code <> "" -> stores w' (code_key code) None)
           /\ (stores w (code_key code) None -> o = None)
           /\ forall c, o = Some c -> code <> "" /\ holds w code c
                /\ exists n, tick w <= n < tick w' /\ (clock n <= ac_expires_at c)%Z
       | Err _ => True
       end) w.
Proof.
  unfold consume. destruct (is_empty code) eqn:He.
  { apply is_empty_spec in He. wp_step. split; [done|]. split; [auto with wp|].
    split; [auto with wp|]. by repeat split. }
  assert (Hne : code <> "") by by rewrite <- is_empty_spec, He.
  do 2 wp_step; [|split; [done|]; split; [auto with wp|]; split; [auto with wp|done]].
  assert (Hsh : forall s, rupdate (redis_clock (S (tick w))) (code_key code) None (redis w) s ->
    redis_shrinks w (bump (set_redis s (bump w)))
    /\ redis_frame (eq (code_key code)) w (bump (set_redis s (bump w)))).
  { intros s Hu. split.
    - apply (shrinks_del w (bump w) (code_key code)); [auto with wp|done].
    - eapply (frame_cmd _ _ (bump w)); [auto with wp|done|done]. }
  wp_step. apply wp_get_and_del; simpl.
  - intros v s Hu Hv. destruct (Hsh s Hu) as [Hs Hf].
    pose proof (stores_update (bump w) _ _ _ Hu) as Hst.
    assert (Hnone : forall o w', pg w' = pg w -> redis w' = s -> tick w + 2 <= tick w' ->
      (v = None -> o = None) ->
      (forall c, o = Some c -> code <> "" /\ holds w code c
         /\ exists n, tick w <= n < tick w' /\ (clock n <= ac_expires_at c)%Z) ->
      pg w' = pg w /\ redis_shrinks w w' /\ redis_frame (eq (code_key code)) w w'
      /\ (code <> "" -> stores w' (code_key code) None)
      /\ (stores w (code_key code) None -> o = None)
      /\ forall c, o = Some c -> code <> "" /\ holds w code c
           /\ exists n, tick w <= n < tick w' /\ (clock n <= ac_expires_at c)%Z).
    { intros o w' Hp Hr Ht Hv0 Ho.
      assert (Hs' : redis_shrinks (bump (set_redis s (bump w))) w').
      { split; [simpl; lia|]. rewrite Hr. by left. }
      split; [done|]. split; [by eapply shrinks_trans|]. split.
      { eapply frame_trans; [done|]. split; [simpl; lia|]. by rewrite Hr. }
      split; [intros _; by eapply shrinks_gone|]. split; [|done].
      intros Habs. apply Hv0. destruct v as [raw|]; [|done]. destruct Hv as (x & d & Hl & _).
      rewrite Habs in Hl by (apply redis_clock_mono; lia). done. }
    destruct v as [raw|]; [|wp_step; apply Hnone; simpl; done || lia].
    destruct (is_empty raw); [wp_step; apply Hnone; simpl; done || lia|].
    destruct (json_from_str raw) as [stored|] eqn:Hj; [|wp_step; done].
    do 2 wp_step. destruct (_ <? _)%Z eqn:Hexp; wp_step; [apply Hnone; simpl; done || lia|].
    apply Hnone; simpl; [done|done|lia|done|]. intros c [= <-]. split; [done|]. split.
    + destruct Hv as (x & d & Hl & Hx). exists x, d, raw. split; [|done].
      eapply rlive_some_earlier; [|done]. apply redis_clock_mono. lia.
    + exists (tick w + 2). split; [lia|]. simpl in Hexp.
      replace (tick w + 2) with (S (S (tick w))) by lia. lia.
  - intros s Hu. destruct (Hsh s Hu). done.
  - split; [done|]. split; [auto with wp|]. split; [auto with wp|done].
Qed.
End Spec.

(** ** Storing a code *)

Section Issue.
Context `{RedisLaws} `{EnvLaws} `{Crypto} `{!JsonCodec AuthorizationCode} `{!JsonCodecLaws AuthorizationCode}.

(** When Redis answers, a code that is not taken yet is stored for the time it
    has left, in whole seconds, if there is any. *)
Lemma put_spec c w :
  redis_ok (tick w) -> stores w (code_key (ac_code c)) None ->
  wp (put c) (fun r w' => r = Ok tt /\ pg w' = pg w /\ tick w < tick w'
    /\ redis_frame (eq (code_key (ac_code c))) w w'
    /\ let ttl := num_seconds (ac_expires_at c - clock (tick w)) in
       ((0 < ttl)%Z -> exists payload n, json_to_string (stamp (clock (tick w)) c) = Some payload /\ tick w <= n < tick w'
         /\ stores w' (code_key (ac_code c)) (Some (RStr payload, Some (redis_clock n + ttl * ns_per_sec)%Z)))) w.
Proof.
  intros Hup Hfree. unfold put. do 2 wp_step. cbv zeta.
  destruct (_ <=? 0)%Z eqn:Hle.
  { wp_step. split; [done|]. split; [done|]. split; [simpl; lia|]. split; [auto with wp|lia]. }
  destruct (json_total (stamp (clock (tick w)) c)) as (payload & Hj & _). rewrite Hj.
  wp_step. wp_up. wp_step. unfold redis_set_ex_nx. set (w2 := bump (bump w)).
  pose proof (r_set_ex_nx_law (redis_clock (tick w2)) (code_key (ac_code c)) payload
    (num_seconds (ac_expires_at c - clock (tick w))) (redis w2)) as Hl.
  replace (0 <? _)%Z with true in Hl by lia.
  rewrite Hfree in Hl by (apply redis_clock_mono; simpl; lia). simpl in Hl. destruct Hl as (s & Hs & Hu).
  eapply wp_redis_cmd_ok; [unfold w2; still_up|exact Hs|].
  wp_step. split; [done|]. split; [done|]. split; [simpl; lia|].
  split; [eapply (frame_cmd _ _ w2); [unfold w2; auto with wp|exact Hu|done]|]. intros _.
  exists payload, (tick w2). split; [done|]. split; [simpl; lia|]. by apply (stores_update w2).
Qed.

(** The entry's deadline, or the code's expiry, had passed when it was looked at. *)
Definition too_late (dl exp : Z) (w w' : World) : Prop :=
  S (tick w) < tick w' /\ (dl <= redis_clock (S (tick w)))%Z
  \/ S (S (tick w)) < tick w' /\ (exp < clock (S (S (tick w))))%Z.

(** When Redis answers, a stored code is answered, unless its time is up. *)
Lemma consume_stored code payload dl stored w :
  redis_ok (tick w) -> code <> "" -> payload <> "" -> json_from_str payload = Some stored ->
  stores w (code_key code) (Some (RStr payload, Some dl)) ->
  wp (consume code) (fun r w' => r = Ok (Some stored) \/ r = Ok None /\ too_late dl (ac_expires_at stored) w w') w.
Proof.
  intros Hup Hne Hpne Hj Hst. unfold consume. rewrite (is_empty_false code) by done. wp_step. wp_up. wp_step.
  assert (Hl : rlive (redis_clock (S (tick w))) (code_key code) (redis w) =
    still_live (redis_clock (S (tick w))) (Some (RStr payload, Some dl))) by (apply Hst, redis_clock_mono; lia).
  cbn [still_live] in Hl. unfold GET_AND_DEL. destruct (redis_clock (S (tick w)) <? dl)%Z eqn:Hd.
  - eapply (wp_redis_cmd_ok (get_and_del_script _) (Some payload)); [still_up| |].
    { unfold get_and_del_script. rewrite r_get_law. simpl. by rewrite Hl. }
    rewrite (is_empty_false payload), Hj by done. do 2 wp_step.
    destruct (ac_expires_at stored <? _)%Z eqn:Hc; [|wp_step; by left]. wp_step. right. split; [done|]. right. simpl in *. split; lia.
  - eapply (wp_redis_cmd_ok (get_and_del_script _) None); [still_up| |].
    { unfold get_and_del_script. rewrite r_get_law. simpl. by rewrite Hl. }
    wp_step. right. split; [done|]. left. simpl. split; lia.
Qed.
End Issue.

(** ** Theorems *)

(** An authorization code is redeemed at most once.  Once an attempt to
    consume a code was answered, then as long as nothing writes under that
    code's key, whatever else happens in between and whatever fails, no later
    attempt gets the code; and the one attempt that got it got the code that was
    stored, before its expiry. *)
Lemma auth_code_single_use `{RedisLaws} `{EnvLaws} `{Crypto} `{JsonCodec AuthorizationCode}
  code w o w1 w2 o' w3 :
  code <> "" ->
  consume code w = (Ok o, w1) ->
  redis_frame (fun k => k <> code_key code) w1 w2 ->
  consume code w2 = (Ok o', w3) ->
  o' = None
  /\ forall c, o = Some c -> holds w code c
       /\ exists n, tick w <= n < tick w1 /\ (clock n <= ac_expires_at c)%Z.
Proof.
  intros Hne Hr1 Hf Hr2.
  destruct (wp_run _ _ _ _ _ (consume_spec code w) Hr1) as (_ & _ & _ & Hgone & _ & Hsome).
  destruct (wp_run _ _ _ _ _ (consume_spec code w2) Hr2) as (_ & _ & _ & _ & Hnone & _).
  split; [|intros c Hc; by apply Hsome].
  apply Hnone. eapply frame_stores; [done|by intros Hk; apply Hk|by apply Hgone].
Qed.

(** A stored code is redeemable under its own value and comes back as it was
    stored.  If Redis answers and the code's value is unused, then after [put]
    a [consume] that runs before the code's time is up returns the code itself,
    with its creation time stamped on it. *)
Theorem auth_code_roundtrip `{RedisLaws} `{EnvLaws} `{Crypto} `{!JsonCodec AuthorizationCode}
  `{!JsonCodecLaws AuthorizationCode} c w w' :
  redis_ok (tick w) ->
  ac_code c <> "" ->
  (0 < num_seconds (ac_expires_at c - clock (tick w)))%Z ->
  stores w (code_key (ac_code c)) None ->
  w' = (put c w).2 ->
  (redis_clock (tick w' + 1) < redis_clock (tick w)
     + num_seconds (ac_expires_at c - clock (tick w)) * ns_per_sec)%Z ->
  (clock (tick w' + 2) <= ac_expires_at c)%Z ->
  (put c w).1 = Ok tt /\ (consume (ac_code c) w').1 = Ok (Some (stamp (clock (tick w)) c)).
Proof.
  intros Hup Hne Httl Hfree -> Hlive Hexp.
  destruct (wp_run _ _ _ _ _ (put_spec c w Hup Hfree) (surjective_pairing _)) as (Hok & _ & Ht & _ & Hput).
  destruct (Hput Httl) as (payload & n & Hj & Hn & Hst). clear Hput.
  split; [done|]. set (w' := (put c w).2) in *. clearbody w'.
  destruct (json_total (stamp (clock (tick w)) c)) as (p & Hj' & Hpne).
  rewrite Hj in Hj'. injection Hj' as <-.
  destruct (wp_run _ _ _ _ _ (consume_stored _ payload _ _ w' (redis_ok_later _ _ (Nat.lt_le_incl _ _ Ht) Hup) Hne Hpne (json_roundtrip _ _ Hj) Hst)
    (surjective_pairing _)) as [Hr|[_ [[_ Hlate]|[_ Hlate]]]]; [done| |].
  - pose proof (redis_clock_mono (tick w) n ltac:(lia)). replace (tick w' + 1) with (S (tick w')) in Hlive by lia. lia.
  - replace (tick w' + 2) with (S (S (tick w'))) in Hexp by lia. simpl in Hlate. lia.
Qed.

(** ** Witnesses *)

#[export] Instance code_eq : EqDecision AuthorizationCode.
Proof. solve_decision. Defined.
#[export] Instance code_countable : Countable AuthorizationCode.
Proof.
  apply (inj_countable'
    (fun c => (ac_code c, ac_client_id c, ac_user_id c, ac_session_id c, ac_redirect_uri c, ac_scope c,
      ac_state c, ac_nonce c, ac_code_challenge c, ac_code_challenge_method c, ac_claims_requested c,
      ac_expires_at c, ac_created_at c))
    (fun '(a, b, c, d, e, f, g, h, i, j, k, l, m) => mkAuthorizationCode a b c d e f g h i j k l m)).
  by intros [].
Defined.

Import Instances.

Definition demo_code : AuthorizationCode :=
  mkAuthorizationCode "c0de" "app" 7 9 "https://app/cb" (Some "openid") None None None None None
    1700000180000000000 None.
Definition world_code : World := (put demo_code world0).2.

Lemma auth_code_single_use_witness :
  (consume "c0de" world_code).1 = Ok (Some (stamp 1700000000000000000 demo_code))
  /\ (consume "c0de" (consume "c0de" world_code).2).1 = Ok None.
Proof.
  assert (H1 : (consume "c0de" world_code).1 = Ok (Some (stamp 1700000000000000000 demo_code)))
    by (vm_compute; reflexivity).
  assert (H2 : (consume "c0de" (consume "c0de" world_code).2).1 = Ok None) by (vm_compute; reflexivity).
  split; [exact H1|].
  destruct (auth_code_single_use "c0de" world_code _ _ _ _ _ ltac:(discriminate) (run_fst _ _ _ H1)
    (frame_refl _ _) (run_fst _ _ _ H2)) as [_ _]. exact H2.
Defined.

Lemma auth_code_roundtrip_witness :
  (consume (ac_code demo_code) (put demo_code world0).2).1 = Ok (Some (stamp 1700000000000000000 demo_code)).
Proof.
  apply (auth_code_roundtrip demo_code world0 _ (demo_redis_ok _) ltac:(discriminate)
    ltac:(vm_compute; reflexivity) ltac:(intros t Ht; reflexivity) eq_refl).
  - vm_compute. reflexivity.
  - vm_compute. discriminate.
Defined.
