(* ===== verification/Secrets.v ===== *)
(** * Password and client-secret hashing ([common/crypto/argon2.rs],
    [client/secret.rs])

    A hash is stored as two JSON texts (the digest with its salt, the cost
    parameters); a client secret joins them with a pipe in one column.  The
    parameters are read back from the stored text, with fallbacks. *)

From stdpp Require Import base tactics list gmap strings.
From Stdlib Require Import ZArith Lia Ascii.
From S2P Require Import Prelude RustStr Redis Schema World Ext Demo DemoJson.

Local Open Scope auth_scope.

(** ** Argon2 *)

Definition ITERATIONS : Z := 3.
Definition MEMORY_KB : Z := 12288.
Definition PARALLELISM : Z := 1.
Definition HASH_LENGTH : Z := 32.

Record Hashed := mkHashed { secret_data : string; credential_data : string }.

(** [n as u32], [n as usize] *)
Definition as_u32 (n : Z) : Z := n mod 4294967296.
Definition as_usize (n : Z) : Z := n mod 18446744073709551616.

Definition first_str (parent : Value) (key : string) : option string :=
  n ← value_get parent key;
  arr ← as_array n;
  v ← head arr;
  as_str v.

Definition first_int (parent : Value) (key : string) (fallback : Z) : Z :=
  default fallback (first_str parent key ≫= parse_i64).

Definition first_text (parent : Value) (key : string) (fallback : string) : string :=
  default fallback (first_str parent key).

Section Argon2.
Context `{Argon2Lib} `{Crypto} `{ValueParser}.

Definition argon2_compute (password salt : string) (iterations memory_kb parallelism hash_length : Z)
    (algorithm : Argon2Algorithm) : option string :=
  if argon2_params_ok memory_kb iterations parallelism hash_length
  then argon2_hash algorithm memory_kb iterations parallelism hash_length password salt
  else None.

(** The texts, with the quotes written out. *)
Definition secret_text (output salt : string) : string :=
  "{" +:+ quoted "value" +:+ ":" +:+ quoted (b64_encode output) +:+ ","
  +:+ quoted "salt" +:+ ":" +:+ quoted (b64_encode salt) +:+ ","
  +:+ quoted "additionalParameters" +:+ ":{}}".

Definition credential_text : string :=
  "{" +:+ quoted "hashIterations" +:+ ":3," +:+ quoted "algorithm" +:+ ":" +:+ quoted "argon2" +:+ ","
  +:+ quoted "additionalParameters" +:+ ":{" +:+ quoted "hashLength" +:+ ":[" +:+ quoted "32" +:+ "],"
  +:+ quoted "memory" +:+ ":[" +:+ quoted "12288" +:+ "]," +:+ quoted "type" +:+ ":[" +:+ quoted "id" +:+ "],"
  +:+ quoted "parallelism" +:+ ":[" +:+ quoted "1" +:+ "]}}".

(** The panic of [expect] is an error of the call. *)
Definition hash `{RedisServer} `{Env} (raw_password : string) : io Hashed :=
  let! salt := fill_bytes 16 in
  match argon2_compute raw_password salt ITERATIONS MEMORY_KB PARALLELISM HASH_LENGTH Argon2id with
  | None => throw (EOther "argon2 hash failed")
  | Some output => ret (mkHashed (secret_text output salt) credential_text)
  end.

Definition verify_inner (raw secret_json credential_json : string) : option bool :=
  secret ← value_from_str secret_json;
  credential ← value_from_str credential_json;
  value ← value_get secret "value";
  value ← as_str value;
  expected ← b64_decode value;
  salt ← value_get secret "salt";
  salt ← as_str salt;
  salt ← b64_decode salt;
  let iterations := as_u32 (default ITERATIONS (value_get credential "hashIterations" ≫= as_u64)) in
  let params := default JNull (value_get credential "additionalParameters") in
  let hash_length := as_usize (first_int params "hashLength" HASH_LENGTH) in
  let memory := as_u32 (first_int params "memory" MEMORY_KB) in
  let parallelism := as_u32 (first_int params "parallelism" PARALLELISM) in
  let ty := first_text params "type" "id" in
  let algo := if bool_decide (ty = "d") then Argon2d
              else if bool_decide (ty = "i") then Argon2i else Argon2id in
  actual ← argon2_compute raw salt iterations memory parallelism hash_length algo;
  Some (bool_decide (expected = actual)).

Definition verify (raw_password secret_data_json credential_data_json : string) : bool :=
  default false (verify_inner raw_password secret_data_json credential_data_json).

(** Off the async executor; [false] if the task does not finish. *)
Definition verify_async `{RedisServer} `{Env} (raw_password secret_data_json credential_data_json : string)
    : io bool :=
  run_bounded (verify raw_password secret_data_json credential_data_json).
End Argon2.

(** ** ClientSecretHasher *)

Module ClientSecretHasher.
Section Hasher.
Context `{Argon2Lib} `{Crypto} `{ValueParser}.

Definition hash `{RedisServer} `{Env} (raw_secret : string) : io string :=
  let! parts := hash raw_secret in
  ret (secret_data parts +:+ "|" +:+ credential_data parts).

Definition verify (presented stored : string) : bool :=
  let plaintext := bool_decide (presented = stored) in
  match find_byte "|"%char stored with
  | Some sep =>
      if starts_with "{" stored && bool_decide (0 < sep)
      then verify presented (take_bytes sep stored) (drop_bytes (sep + 1) stored)
      else plaintext
  | None => plaintext
  end.

Definition is_hashed (stored : string) : bool := starts_with "{" stored && contains_byte "|"%char stored.

Definition verify_async `{RedisServer} `{Env} (presented stored : string) : io bool :=
  if negb (is_hashed stored) then ret (verify presented stored)
  else run_bounded (verify presented stored).
End Hasher.
End ClientSecretHasher.

(** ** The stored texts *)

Section Texts.
Context `{Argon2Lib} `{CryptoLaws} `{ValueParserLaws}.

Definition secret_tree (output salt : string) : JText :=
  TObj [("value", TStr (b64_encode output)); ("salt", TStr (b64_encode salt));
        ("additionalParameters", TObj [])].
Definition credential_tree : JText :=
  TObj [("hashIterations", TNum "3"); ("algorithm", TStr "argon2");
        ("additionalParameters",
          TObj [("hashLength", TArr [TStr "32"]); ("memory", TArr [TStr "12288"]);
                ("type", TArr [TStr "id"]); ("parallelism", TArr [TStr "1"])])].

Lemma all_bytes_mono (p q : ascii -> bool) s :
  (forall c, p c = true -> q c = true) -> all_bytes p s = true -> all_bytes q s = true.
Proof.
  intros Hpq. induction s as [|c s IH]; [done|]. cbn [all_bytes]. intros [Hc Hs]%andb_prop.
  by rewrite (Hpq _ Hc), IH.
Qed.

Lemma b64_plain c : is_b64 c = true -> plain_byte c = true.
Proof. destruct c as [[] [] [] [] [] [] [] []]; vm_compute; done. Qed.

Lemma secret_text_value output salt :
  value_from_str (secret_text output salt) = Some (json_value (secret_tree output salt)).
Proof.
  replace (secret_text output salt) with (json_text (secret_tree output salt)).
  - apply value_from_text. simpl.
    assert (Hp : forall s, all_bytes plain_byte (b64_encode s) = true)
      by (intros s; eapply all_bytes_mono; [apply b64_plain|apply b64_alphabet]).
    repeat split; auto.
    + repeat (constructor; [set_solver|]). constructor.
    + constructor.
  - unfold secret_text. cbn [json_text secret_tree map join fst snd].
    by rewrite <- !string_app_assoc.
Qed.

Lemma credential_text_value : value_from_str credential_text = Some (json_value credential_tree).
Proof.
  replace credential_text with (json_text credential_tree) by reflexivity.
  apply value_from_text. simpl. repeat split; try done.
  all: repeat (constructor; [set_solver|]); constructor.
Qed.

(** Verifying against a hash recomputes it with the stored salt and the
    parameters it was made with. *)
Lemma verify_texts raw output salt :
  verify raw (secret_text output salt) credential_text
  = match argon2_compute raw salt ITERATIONS MEMORY_KB PARALLELISM HASH_LENGTH Argon2id with
    | Some actual => bool_decide (output = actual)
    | None => false
    end.
Proof.
  unfold verify, verify_inner. rewrite secret_text_value, credential_text_value. cbn [mbind option_bind].
  change (value_get (json_value (secret_tree output salt)) "value") with (Some (JStr (b64_encode output))).
  change (value_get (json_value (secret_tree output salt)) "salt") with (Some (JStr (b64_encode salt))).
  cbn [mbind option_bind as_str]. rewrite !b64_decode_encode. cbn [mbind option_bind].
  change (value_get (json_value credential_tree) "hashIterations") with (Some (JInt 3)).
  change (as_u32 (default ITERATIONS (Some (JInt 3) ≫= as_u64))) with ITERATIONS.
  set (params := default JNull (value_get (json_value credential_tree) "additionalParameters")).
  change (as_usize (first_int params "hashLength" HASH_LENGTH)) with HASH_LENGTH.
  change (as_u32 (first_int params "memory" MEMORY_KB)) with MEMORY_KB.
  change (as_u32 (first_int params "parallelism" PARALLELISM)) with PARALLELISM.
  change (first_text params "type" "id") with "id". simpl.
  by destruct (argon2_compute _ _ _ _ _ _ _).
Qed.

Lemma find_byte_app c s t :
  contains_byte c s = false -> find_byte c (s +:+ String c t) = Some (String.length s).
Proof.
  induction s as [|d s IH]; simpl.
  - intros _. by rewrite bool_decide_true.
  - intros [Hd Hs]%orb_false_iff. fold (s +:+ String c t). rewrite Hd. by rewrite IH.
Qed.

Lemma contains_all c p s : all_bytes p s = true -> p c = false -> contains_byte c s = false.
Proof.
  intros Hs Hc. induction s as [|d s IH]; [done|]. simpl in *. apply andb_prop in Hs as [Hd Hs].
  rewrite (IH Hs), orb_false_r. apply bool_decide_eq_false. intros ->. congruence.
Qed.

Lemma secret_text_no_pipe output salt : contains_byte "|"%char (secret_text output salt) = false.
Proof.
  unfold secret_text, quoted. rewrite !contains_byte_app.
  assert (Hb : forall s, contains_byte "|"%char (b64_encode s) = false)
    by (intros s; eapply contains_all; [apply b64_alphabet|done]).
  by rewrite !Hb.
Qed.

(** Joining with the pipe and splitting at the first one are inverse. *)
Lemma client_verify_texts presented output salt :
  let stored := secret_text output salt +:+ "|" +:+ credential_text in
  ClientSecretHasher.is_hashed stored = true
  /\ ClientSecretHasher.verify presented stored = verify presented (secret_text output salt) credential_text.
Proof.
  intros stored. assert (Hst : starts_with "{" stored = true) by done.
  assert (Hf : find_byte "|"%char stored = Some (String.length (secret_text output salt)))
    by apply find_byte_app, secret_text_no_pipe.
  split.
  - unfold ClientSecretHasher.is_hashed. rewrite Hst. unfold stored. rewrite !contains_byte_app.
    by rewrite orb_true_r.
  - unfold ClientSecretHasher.verify. rewrite Hf, Hst. rewrite bool_decide_true by (simpl; lia).
    cbn [andb]. f_equal.
    + by apply take_bytes_all.
    + unfold stored. rewrite string_app_assoc. apply drop_bytes_all. rewrite string_length_app. simpl. lia.
Qed.

Lemma is_hashed_find stored :
  ClientSecretHasher.is_hashed stored = true <->
  starts_with "{" stored = true /\ exists sep, find_byte "|"%char stored = Some sep.
Proof.
  unfold ClientSecretHasher.is_hashed. rewrite andb_true_iff.
  assert (Hc : contains_byte "|"%char stored = true <-> exists sep, find_byte "|"%char stored = Some sep); [|tauto].
  induction stored as [|d s IH]; simpl; [naive_solver|]. case_bool_decide; simpl; [naive_solver|].
  rewrite IH. split; [intros [n ->]; by eexists|]. destruct (find_byte _ s); naive_solver.
Qed.
End Texts.

(** The texts of a hash accept the password it was made from, and no other. *)
Lemma hash_texts_exact `{Argon2Laws} `{!Argon2Injective} `{CryptoLaws} `{ValueParserLaws} raw salt :
  (Z.of_nat (String.length raw) < 4294967296)%Z -> String.length salt = 16 ->
  exists out,
    argon2_compute raw salt ITERATIONS MEMORY_KB PARALLELISM HASH_LENGTH Argon2id = Some out
    /\ forall raw', verify raw' (secret_text out salt) credential_text = true <-> raw' = raw.
Proof.
  intros Hlen Hsalt. destruct (argon2_default_hash raw salt Hlen Hsalt) as [out Hout].
  assert (Hc : argon2_compute raw salt ITERATIONS MEMORY_KB PARALLELISM HASH_LENGTH Argon2id = Some out)
    by (unfold argon2_compute, MEMORY_KB, ITERATIONS, PARALLELISM, HASH_LENGTH;
        by rewrite argon2_default_params).
  exists out. split; [done|]. intros raw'. rewrite verify_texts. split.
  - destruct (argon2_compute raw' _ _ _ _ _ _) as [out'|] eqn:E; [|done].
    rewrite bool_decide_eq_true. intros <-. unfold argon2_compute in E.
    destruct (argon2_params_ok _ _ _ _); [|done]. symmetry. by eapply argon2_inj.
  - intros ->. rewrite Hc. by apply bool_decide_eq_true.
Qed.

(** ** Theorems *)

(** C31: A password hash accepts exactly its password.  Hashing a password (of
    less than 2^32 bytes) succeeds, and the stored texts verify a password if and
    only if it is the one that was hashed, provided that Argon2 with one salt
    does not collide; texts that are not JSON never verify. *)
Theorem password_hash_exact `{RedisServer} `{EnvLaws} `{Argon2Laws} `{!Argon2Injective} `{CryptoLaws}
  `{ValueParserLaws} raw w :
  (Z.of_nat (String.length raw) < 4294967296)%Z ->
  exists h, hash raw w = (Ok h, bump w)
    /\ (forall raw', verify raw' (secret_data h) (credential_data h) = true <-> raw' = raw)
    /\ forall raw' s c, value_from_str s = None \/ value_from_str c = None -> verify raw' s c = false.
Proof.
  intros Hlen. set (salt := random_bytes (tick w) 16).
  destruct (hash_texts_exact raw salt Hlen (random_bytes_length _ _)) as (out & Hc & Hv).
  exists (mkHashed (secret_text out salt) credential_text). split; [|split; [exact Hv|]].
  - unfold hash. rewrite (bind_eq _ _ w salt (bump w)) by done. by rewrite Hc.
  - intros raw' s c [Hs|Hs]; unfold verify, verify_inner; rewrite Hs; [done|].
    by destruct (value_from_str s).
Qed.

(** A client secret column accepts exactly the right secret, in both of its
    formats.  What [hash] stores is recognised as hashed and verifies a presented
    secret if and only if it is the one hashed; a column that is not in the
    hashed format verifies exactly itself; and the asynchronous check never
    accepts what the check itself rejects, whether or not its task finishes. *)
Theorem client_secret_exact `{RedisServer} `{EnvLaws} `{Argon2Laws} `{!Argon2Injective} `{CryptoLaws}
  `{ValueParserLaws} secret w :
  (Z.of_nat (String.length secret) < 4294967296)%Z ->
  (exists stored, ClientSecretHasher.hash secret w = (Ok stored, bump w)
    /\ ClientSecretHasher.is_hashed stored = true
    /\ forall presented, ClientSecretHasher.verify presented stored = true <-> presented = secret)
  /\ (forall presented stored, ClientSecretHasher.is_hashed stored = false ->
        ClientSecretHasher.verify presented stored = true <-> presented = stored)
  /\ (forall presented stored w1 b w2, ClientSecretHasher.verify_async presented stored w1 = (Ok b, w2) ->
        b = true -> ClientSecretHasher.verify presented stored = true).
Proof.
  intros Hlen. split; [|split].
  - set (salt := random_bytes (tick w) 16).
    destruct (hash_texts_exact secret salt Hlen (random_bytes_length _ _)) as (out & Hc & Hv).
    exists (secret_text out salt +:+ "|" +:+ credential_text). split; [|split].
    + unfold ClientSecretHasher.hash, hash. rewrite bind_assoc, (bind_eq _ _ w salt (bump w)) by done.
      rewrite Hc. by rewrite bind_ret_l.
    + apply (client_verify_texts "").
    + intros presented. rewrite (proj2 (client_verify_texts presented out salt)). apply Hv.
  - intros presented stored Hh. unfold ClientSecretHasher.verify.
    destruct (find_byte _ stored) as [sep|] eqn:Hf; [|apply bool_decide_eq_true].
    destruct (starts_with "{" stored) eqn:Hs; [|apply bool_decide_eq_true].
    assert (ClientSecretHasher.is_hashed stored = true) by (apply is_hashed_find; eauto). congruence.
  - intros presented stored w1 b w2. unfold ClientSecretHasher.verify_async, run_bounded.
    destruct (negb _); intros Hrun ->.
    + by injection Hrun.
    + assert (Hw : wp (run_bounded (ClientSecretHasher.verify presented stored))
        (fun r _ => r = Ok true -> ClientSecretHasher.verify presented stored = true) w1).
      { wp_step. intros [= Heq]. by destruct (task_ok (tick w1)). }
      exact (wp_run _ _ _ _ _ Hw Hrun eq_refl).
Qed.

(** ** Witnesses *)

Import Instances JsonInstance.

Lemma password_hash_exact_witness :
  exists h, hash "pw" world0 = (Ok h, bump world0)
    /\ verify "pw" (secret_data h) (credential_data h) = true
    /\ verify "px" (secret_data h) (credential_data h) = false.
Proof.
  destruct (password_hash_exact "pw" world0 ltac:(reflexivity)) as (h & Hh & Hv & _).
  exists h. split; [exact Hh|]. split; [by apply Hv|]. apply not_true_iff_false.
  intros Hf. apply Hv in Hf. discriminate Hf.
Defined.

Lemma client_secret_exact_witness :
  exists stored, ClientSecretHasher.hash "s3cret" world0 = (Ok stored, bump world0)
    /\ ClientSecretHasher.verify "s3cret" stored = true
    /\ ClientSecretHasher.verify "guess" stored = false
    /\ ClientSecretHasher.verify "legacy" "legacy" = true.
Proof.
  destruct (client_secret_exact "s3cret" world0 ltac:(reflexivity)) as ((stored & Hh & _ & Hv) & Hl & _).
  exists stored. split; [exact Hh|]. split; [by apply Hv|]. split.
  - apply not_true_iff_false. intros Hf. apply Hv in Hf. discriminate Hf.
  - by apply (Hl "legacy" "legacy").
Defined.
