(* ===== verification/Password.v ===== *)
(** * Passwords ([password/flow.rs], [login/service.rs])

    Logging in with a password, asking for a reset token, redeeming it, and
    changing the password while logged in.  Redeeming a token replaces the
    password, spends every outstanding token of the user and ends all of the
    user's sessions. *)

From stdpp Require Import base tactics list gmap strings.
From Stdlib Require Import ZArith Lia Ascii.
From S2P Require Import Prelude RustStr Redis Schema World Ext Demo DemoJson RedisKeys Hashing.
From S2P Require Import User RefreshToken Session AccountTokens Integrity Secrets.

Local Open Scope auth_scope.

(** ** PasswordFlow *)

Definition RESET_TOKEN_TTL_MINUTES : Z := 30.
Definition RESET_TOKEN_BYTES : nat := 32.
Definition MIN_PASSWORD_LEN : nat := 8.

Inductive ResetError := InvalidToken | ResetWeakPassword.
Inductive ChangeError := WrongPassword | ChangeWeakPassword.

Record PasswordFlow := mkPasswordFlow { pf_hmac : HmacSha256 }.

(** The user an identifier names: by e-mail if it has an [@], otherwise by
    username and then by e-mail. *)
Definition resolve_user `{RedisServer} `{Env} `{UnicodeTables} (identifier : string) : io (option User) :=
  if contains_byte "@"%char identifier then find_by_email identifier
  else
    let! u := find_by_username identifier in
    match u with
    | Some u => ret (Some u)
    | None => find_by_email identifier
    end.

Section Flow.
Context `{RedisServer} `{Env} `{UnicodeTables} `{Crypto} `{Argon2Lib} `{ValueParser} `{!JsonCodec SessionSnapshot}.

Definition request_reset (self : PasswordFlow) (identifier : string) : io (option string) :=
  let trimmed := trim identifier in
  if is_empty trimmed then ret None
  else
    let! user := resolve_user trimmed in
    match user with
    | None => ret None
    | Some u =>
        if negb (usr_enabled u) then ret None
        else
          let! token_raw := url_safe RESET_TOKEN_BYTES in
          let token_hash := compute (pf_hmac self) token_raw in
          let! now := utc_now in
          let! id := uuid_new_v4 in
          do! persist_reset (mkPasswordReset id (usr_id u) token_hash
                (now + seconds (RESET_TOKEN_TTL_MINUTES * 60))%Z None now) in
          ret (Some token_raw)
    end.

Definition rotate_password (user_id : Uuid) (new_password : string) : io unit :=
  let! hashed := hash new_password in
  let! now := utc_now in
  let! existing := Credentials.find_first_by_user_id_and_type user_id "password" in
  match existing with
  | Some c =>
      do! Credentials.update (mkCredential (cred_id c) (cred_type c) (Some (secret_data hashed))
            (Some (credential_data hashed)) (cred_created_at c) now (cred_user_id c)) in
      ret tt
  | None =>
      let! id := uuid_new_v4 in
      Credentials.persist (mkCredential id "password" (Some (secret_data hashed))
        (Some (credential_data hashed)) now now user_id)
  end.

Definition consume_reset (self : PasswordFlow) (token_raw new_password : string) : io (res ResetError unit) :=
  if String.length new_password <? MIN_PASSWORD_LEN then ret (Err ResetWeakPassword)
  else if is_empty (trim token_raw) then ret (Err InvalidToken)
  else
    let hash := compute (pf_hmac self) token_raw in
    let! reset := find_reset_by_token_hash hash in
    match reset with
    | None => ret (Err InvalidToken)
    | Some r =>
        let! valid := match pr_consumed_at r with
          | None => let! now := utc_now in ret (now <=? pr_expires_at r)%Z
          | Some _ => ret false
          end in
        if negb valid then ret (Err InvalidToken)
        else
          do! rotate_password (pr_user_id r) new_password in
          do! mark_reset_consumed (pr_id r) in
          do! consume_sibling_tokens (pr_user_id r) (pr_id r) in
          do! delete_all_by_user_id (pr_user_id r) in
          ret (Ok tt)
    end.

Definition change_password (user_id : Uuid) (current_session_id : option Uuid) (old_password new_password : string)
    : io (res ChangeError unit) :=
  if String.length new_password <? MIN_PASSWORD_LEN then ret (Err ChangeWeakPassword)
  else
    let! user := User.find_by_id user_id in
    match user with
    | None => ret (Err WrongPassword)
    | Some _ =>
        let! credential := Credentials.find_first_by_user_id_and_type user_id "password" in
        match credential with
        | None => ret (Err WrongPassword)
        | Some c =>
            if negb (verify old_password (default "" (cred_secret_data c)) (default "" (cred_credential_data c)))
            then ret (Err WrongPassword)
            else
              do! rotate_password user_id new_password in
              do! (match current_session_id with
                   | Some sid => delete_all_by_user_id_except user_id sid
                   | None => delete_all_by_user_id user_id
                   end) in
              ret (Ok tt)
        end
    end.

(** ** LoginService *)

(** [DUMMY_HASH]: made once per process, verified against when there is no
    credential, so that the work done does not tell whether there is one. *)
Record LoginService := mkLoginService { dummy_hash : Hashed }.

Definition authenticate (self : LoginService) (identifier raw_password : option string) : io (option User) :=
  let identifier := trim (default "" identifier) in
  let raw_password := default "" raw_password in
  if is_empty identifier then ret None
  else if is_empty raw_password then ret None
  else
    let! user := resolve_user identifier in
    let! credential := match user with
      | Some u => Credentials.find_first_by_user_id_and_type (usr_id u) "password"
      | None => ret None
      end in
    let secret := match credential with
      | Some c => default "" (cred_secret_data c) | None => secret_data (dummy_hash self) end in
    let params := match credential with
      | Some c => default "" (cred_credential_data c) | None => credential_data (dummy_hash self) end in
    let! ok := verify_async raw_password secret params in
    match user, credential with
    | Some u, Some _ =>
        if usr_enabled u && usr_email_verified u && ok then ret (Some u) else ret None
    | _, _ => ret None
    end.
End Flow.

(** ** What they do *)

Section Specs.
Context `{RedisLaws} `{EnvLaws} `{UnicodeTables} `{Argon2Laws} `{!Argon2Injective} `{CryptoLaws} `{ValueParserLaws}
  `{!JsonCodec SessionSnapshot} `{!JsonCodecLaws SessionSnapshot}.
Implicit Types w : World.
Implicit Types d : Pg.

(** The credential opens with [pw] and nothing else. *)
Definition opens (pw : string) (c : Credential) : Prop :=
  forall raw, verify raw (default "" (cred_secret_data c)) (default "" (cred_credential_data c)) = true <-> raw = pw.

Definition password_of d (u : Uuid) (c : Credential) : Prop :=
  (exists i, credentials d !! i = Some c) /\ cred_user_id c = u /\ cred_type c = "password".

Definition one_password d (u : Uuid) : Prop := forall c c', password_of d u c -> password_of d u c' -> c = c'.

(** [d'] is [d] with one password credential of [u] written. *)
Definition rotated (u : Uuid) (pw : string) d d' : Prop :=
  exists c, d' = on_credentials <[cred_id c := c]> d /\ cred_user_id c = u /\ cred_type c = "password" /\ opens pw c
    /\ ((forall c', ~ password_of d u c') \/ exists old, password_of d u old /\ cred_id old = cred_id c).

Lemma rotated_opens u pw d d' c :
  keyed cred_id (credentials d) -> one_password d u -> rotated u pw d d' -> password_of d' u c -> opens pw c.
Proof.
  intros Hk Hone (c0 & -> & Hu & Ht & Ho & Hold) ([i Hi] & Hcu & Hct). simpl in Hi.
  apply lookup_insert_Some in Hi as [[<- <-]|[Hne Hi]]; [done|].
  assert (Hc : password_of d u c) by (split; [eauto|done]).
  destruct Hold as [Hno|(old & Hold & Hid)]; [by destruct (Hno c)|].
  rewrite (Hone c old Hc Hold) in Hi. rewrite (Hk _ _ Hi) in Hid. congruence.
Qed.

Lemma hash_spec pw w :
  (Z.of_nat (String.length pw) < 4294967296)%Z ->
  wp (hash pw) (fun r w' => w' = bump w /\ exists h, r = Ok h
    /\ forall raw, verify raw (secret_data h) (credential_data h) = true <-> raw = pw) w.
Proof.
  intros Hlen. unfold hash. do 2 wp_step.
  destruct (hash_texts_exact pw _ Hlen (random_bytes_length (tick w) 16)) as (out & -> & Hv).
  wp_step. split; [done|]. by eexists.
Qed.

Lemma head_password d u n :
  match head (row_order n (where_ (fun c => cred_user_id c = u /\ cred_type c = "password") (credentials d))) with
  | Some c => password_of d u c
  | None => forall c, ~ password_of d u c
  end.
Proof.
  set (l := where_ _ _). pose proof (row_order_perm n l) as Hp.
  destruct (row_order n l) as [|c r]; simpl.
  - intros c ([i Hi] & Hu & Ht). assert (Hin : c ∈ l) by (apply elem_of_where; eauto).
    rewrite <- Hp in Hin. by apply not_elem_of_nil in Hin.
  - assert (Hin : c ∈ l) by (rewrite <- Hp; left). apply elem_of_where in Hin as [[Hu Ht] Hi]. by split.
Qed.

Lemma wp_find_password u Q w :
  (forall o, match o with
             | Some c => password_of (pg w) u c
             | None => forall c, ~ password_of (pg w) u c
             end -> Q (Ok o) (bump w)) ->
  (forall c, Q (Err (EDb c)) (bump w)) ->
  wp (Credentials.find_first_by_user_id_and_type u "password") Q w.
Proof. intros Hok Herr. unfold Credentials.find_first_by_user_id_and_type. wp_step; [|done]. apply Hok, head_password. Qed.

Lemma updated_rotated u pw c h now d a d' :
  keyed cred_id (credentials d) -> password_of d u c ->
  (forall raw, verify raw (secret_data h) (credential_data h) = true <-> raw = pw) ->
  update_credential (mkCredential (cred_id c) (cred_type c) (Some (secret_data h)) (Some (credential_data h))
    (cred_created_at c) now (cred_user_id c)) d = Ok (a, d') -> rotated u pw d d'.
Proof.
  intros Hk ([i Hi] & Hu & Ht) Hv. pose proof (Hk _ _ Hi) as Hid. subst i. unfold update_credential. simpl.
  rewrite Hi, Ht. cbn -[has_row]. destruct (has_row _ _); [|done]. intros [= _ <-].
  exists (mkCredential (cred_id c) "password" (Some (secret_data h)) (Some (credential_data h))
    (cred_created_at c) (pg_ts now) (cred_user_id c)).
  split; [done|]. split; [done|]. split; [done|]. split; [done|].
  right. exists c. split; [|done]. split; [eauto|done].
Qed.

Lemma inserted_rotated u pw id h now d a d' :
  (forall c, ~ password_of d u c) ->
  (forall raw, verify raw (secret_data h) (credential_data h) = true <-> raw = pw) ->
  insert_credential (mkCredential id "password" (Some (secret_data h)) (Some (credential_data h)) now now u) d
    = Ok (a, d') -> rotated u pw d d'.
Proof.
  intros Hno Hv. unfold insert_credential. cbn -[has_row]. destruct (negb _); [|done].
  destruct (has_row _ _); [|done]. intros [= _ <-].
  exists (mkCredential id "password" (Some (secret_data h)) (Some (credential_data h)) (pg_ts now) (pg_ts now) u).
  split; [done|]. split; [done|]. split; [done|]. split; [exact Hv|by left].
Qed.

Lemma rotate_password_spec u pw w :
  (Z.of_nat (String.length pw) < 4294967296)%Z -> pg_wf (pg w) ->
  wp (rotate_password u pw) (fun r w' => redis w' = redis w /\ tick w <= tick w'
    /\ (pg w' = pg w \/ rotated u pw (pg w) (pg w')) /\ (r = Ok tt -> rotated u pw (pg w) (pg w'))) w.
Proof.
  intros Hlen Hwf. unfold rotate_password. wp_step. wp_call (hash_spec pw w Hlen).
  intros r w1 (-> & h & -> & Hv). do 3 wp_step. apply wp_find_password; [|intros ?; split_and!; simpl; auto; done].
  intros [c|] Hc.
  - assert (Hrot : forall a d' now, update_credential (mkCredential (cred_id c) (cred_type c) (Some (secret_data h))
        (Some (credential_data h)) (cred_created_at c) now (cred_user_id c)) (pg w) = Ok (a, d') ->
      rotated u pw (pg w) d') by (intros; eapply updated_rotated; [exact (wf_credentials_key _ Hwf)|..]; done).
    unfold Credentials.update. do 2 wp_step; simpl in *; [wp_step|..]; simpl; split_and!; eauto; try lia; done.
  - assert (Hrot : forall a d' id now, insert_credential (mkCredential id "password" (Some (secret_data h))
        (Some (credential_data h)) now now u) (pg w) = Ok (a, d') -> rotated u pw (pg w) d')
      by (intros; by eapply inserted_rotated).
    unfold Credentials.persist. do 3 wp_step; simpl in *; split_and!; eauto; try lia; done.
Qed.

(** *** Redeeming a reset token *)

Lemma wp_find_reset hash Q w :
  pg_wf (pg w) ->
  (forall o, match o with
             | Some r => pr_token_hash r = hash /\ password_resets (pg w) !! pr_id r = Some r
             | None => True
             end -> Q (Ok o) (bump w)) ->
  (forall c, Q (Err (EDb c)) (bump w)) ->
  wp (find_reset_by_token_hash hash) Q w.
Proof.
  intros Hwf Hok Herr. unfold find_reset_by_token_hash. wp_step; [|done]. apply Hok.
  pose proof (head_where_unique pr_token_hash (password_resets (pg w)) (tick w) hash (wf_resets_hash _ Hwf)) as Hh.
  destruct (head _) as [r|]; [|done]. destruct Hh as [Hh [i Hi]]. split; [done|].
  by rewrite (wf_resets_key _ Hwf _ _ Hi).
Qed.

(** Every token of [u] is used up, the others' are as they were. *)
Definition spent (u : Uuid) d d' : Prop :=
  (forall i r, password_resets d' !! i = Some r -> pr_user_id r = u -> is_Some (pr_consumed_at r))
  /\ (forall i r, pr_user_id r <> u -> password_resets d' !! i = Some r <-> password_resets d !! i = Some r).

Lemma spent_same u d d' e e' :
  password_resets e = password_resets d -> password_resets e' = password_resets d' -> spent u d d' -> spent u e e'.
Proof. unfold spent. by intros -> ->. Qed.

Lemma consume_rows_spent r t1 t2 d a1 d1 a2 d2 :
  keyed pr_id (password_resets d) -> password_resets d !! pr_id r = Some r ->
  consume_reset_row (pr_id r) t1 d = Ok (a1, d1) ->
  consume_siblings (pr_user_id r) (pr_id r) t2 d1 = Ok (a2, d2) -> spent (pr_user_id r) d d2.
Proof.
  intros Hk Hr [= _ <-] [= _ <-]. split; simpl; intros i x.
  - rewrite !lookup_update_where. destruct (password_resets d !! i) as [y|] eqn:Hy; [|done]. simpl.
    intros [= <-]. repeat case_decide; simpl; try by eauto. intros Hu.
    match goal with H : ~ sibling _ _ _ |- _ => destruct (pr_consumed_at y) eqn:?; [by eauto|by destruct H] end.
  - intros Hne. rewrite !lookup_update_where. destruct (password_resets d !! i) as [y|] eqn:Hy; [|done]. simpl.
    assert (Hid : pr_id y = pr_id r -> y = r) by (rewrite (Hk _ _ Hy); congruence).
    unfold sibling. split; intros [= <-]; repeat case_decide; simpl in *; naive_solver.
Qed.

(** What a redeemed token leaves: the password replaced, the tokens used up,
    the sessions ended. *)
Definition reset_done (u : Uuid) (pw : string) w w' : Prop :=
  users (pg w') = users (pg w)
  /\ (exists d1, rotated u pw (pg w) d1 /\ credentials (pg w') = credentials d1)
  /\ spent u (pg w) (pg w')
  /\ purged (fun s => ses_user_id s = u) (pg w) (pg w')
  /\ (forall i s, user_sessions (pg w) !! i = Some s -> ses_user_id s = u ->
        stores w' (Keys.session (base64_url (ses_session_token s))) None).

Lemma end_sessions_spec u w :
  backed w ->
  wp (delete_all_by_user_id u) (fun r w' => deleted (fun s => ses_user_id s = u) w r w'
    /\ only_sessions (pg w) (pg w')) w.
Proof. intros Hb. apply wp_conj; [by apply (delete_bulk_spec (fun t => rt_user_id t = u))|apply delete_bulk_only]. Qed.

Lemma consume_reset_spec self token pw w :
  (Z.of_nat (String.length pw) < 4294967296)%Z -> pg_wf (pg w) -> backed w ->
  wp (consume_reset self token pw) (fun r w' =>
    match r with
    | Ok (Err _) => pg w' = pg w /\ redis w' = redis w
    | Ok (Ok _) => MIN_PASSWORD_LEN <= String.length pw /\ exists reset n,
        password_resets (pg w) !! pr_id reset = Some reset /\ pr_token_hash reset = compute (pf_hmac self) token
        /\ pr_consumed_at reset = None /\ tick w <= n < tick w' /\ (clock n <= pr_expires_at reset)%Z
        /\ reset_done (pr_user_id reset) pw w w'
    | Err _ => True
    end) w.
Proof.
  intros Hlen Hwf Hb. unfold consume_reset. do 2 (wp_step; [by wp_step|]). wp_step.
  apply wp_find_reset; [done| |done]. intros [r|]; [|by intros; wp_step]. intros [Hh Hr].
  destruct (pr_consumed_at r) eqn:Hcon; [by do 3 wp_step|]. do 4 wp_step. wp_step; [by wp_step|].
  wp_step. eapply wp_mono; [apply rotate_password_spec; [done|by simpl]|]. simpl.
  intros [[]|e] w1 (Hred & Ht & _ & Hrot); [|done]. specialize (Hrot eq_refl).
  destruct Hrot as (c & Hd1 & Hrot).
  unfold mark_reset_consumed, consume_sibling_tokens. do 2 wp_step; [|done..]. do 2 wp_step; [|done..].
  assert (Hsp : spent (pr_user_id r) (pg w1) d0)
    by (eapply consume_rows_spent; [..|done|done]; rewrite Hd1; [apply Hwf|done]).
  injection Hq as <- <-. injection Hq0 as <- <-. simpl in *.
  wp_step. eapply wp_mono; [apply end_sessions_spec|].
  { eapply (backed_kept w); [|by apply kept_same; simpl; rewrite Hd1|done].
    split; simpl; [lia|]. intros. rewrite Hred. by left. }
  intros [n|e] w2 [(Hs & _ & _ & Hdel) Ho]; [|done]. wp_step. destruct Hdel as (_ & (Hpu1 & Hpu2 & Hpu3) & Hst).
  simpl in *. rewrite Hd1 in Hpu1, Hpu2, Hpu3, Hst. simpl in *.
  rewrite negb_false_iff, Nat.ltb_ge in *. split; [done|].
  exists r, (S (tick w)). split; [done|]. split; [done|]. split; [done|]. destruct Hs as [Hs _]. simpl in Hs.
  split; [lia|]. split; [lia|].
  split; [done|]. split; [|split; [|split; [split; [done|split; [done|]]|done]]].
  - exists (pg w1). rewrite Ho, Hd1. simpl. split; [by exists c|done].
  - eapply spent_same; [| |exact Hsp]; [by rewrite Hd1|by rewrite Ho].
  - done.
Qed.

(** *** Logging in *)

(** An identifier names [u]: its username, or its e-mail up to case. *)
Definition named d (id : string) (u : User) : Prop :=
  (exists i, users d !! i = Some u)
  /\ (usr_username u = id \/ sql_lower (usr_email u) = to_lowercase (trim id)).

Lemma wp_find_email id Q w :
  (forall o, match o with Some u => named (pg w) id u | None => True end -> forall w', quiet w w' -> Q (Ok o) w') ->
  (forall c, Q (Err (EDb c)) (bump w)) -> wp (find_by_email id) Q w.
Proof.
  intros Hok Herr. unfold find_by_email. wp_step; [wp_step; by apply (Hok None); auto with wp|].
  wp_step; [|done]. apply Hok; [|auto with wp].
  destruct (head _) as [u|] eqn:Hu; [|done]. apply head_elem in Hu. rewrite row_order_perm in Hu.
  apply elem_of_where in Hu as [He Hi]. split; auto.
Qed.

Lemma wp_resolve_user id Q w :
  (forall o, match o with Some u => named (pg w) id u | None => True end -> forall w', quiet w w' -> Q (Ok o) w') ->
  (forall c w', quiet w w' -> Q (Err (EDb c)) w') -> wp (resolve_user id) Q w.
Proof.
  intros Hok Herr. unfold resolve_user. wp_step; [apply wp_find_email; auto with wp|].
  wp_step. unfold find_by_username. wp_step; [|auto with wp].
  destruct (head _) as [u|] eqn:Hu.
  - wp_step. apply Hok; [|auto with wp]. apply head_elem in Hu. rewrite row_order_perm in Hu.
    apply elem_of_where in Hu as [He Hi]. split; auto.
  - apply wp_find_email; [|auto with wp]. intros o Ho w' Hq. apply Hok; [done|].
    eapply quiet_trans; [|done]. auto with wp.
Qed.

Lemma login_spec self id raw w :
  wp (authenticate self id raw) (fun r w' => quiet w w' /\
    forall u, r = Ok (Some u) -> exists name pw c, id = Some name /\ raw = Some pw
      /\ named (pg w) (trim name) u /\ usr_enabled u = true /\ usr_email_verified u = true
      /\ password_of (pg w) (usr_id u) c
      /\ verify pw (default "" (cred_secret_data c)) (default "" (cred_credential_data c)) = true) w.
Proof.
  unfold authenticate. do 2 (wp_step; [wp_step; split; [auto with wp|done]|]).
  assert (Hid : exists name, id = Some name) by (destruct id; [eauto|done]). destruct Hid as [name ->].
  assert (Hpw : exists pw, raw = Some pw) by (destruct raw; [eauto|done]). destruct Hpw as [pw ->]. simpl.
  wp_step. apply wp_resolve_user; [|done]. intros [u|] Hu w1 Hq.
  - wp_step. apply wp_find_password; [|intros; split; [auto with wp|done]].
    destruct Hq as (Hp & Hr & Ht). rewrite Hp. intros [c|] Hc.
    + unfold verify_async. do 2 wp_step. simpl.
      assert (Hq : quiet w (bump (bump w1))) by (split_and!; simpl; auto).
      wp_step; wp_step; (split; [done|]); [|done]. intros u' [= <-].
      rewrite !andb_true_iff in *. destruct_and!. destruct (task_ok _); [|done]. naive_solver.
    + unfold verify_async. do 3 wp_step. split; [|done]. split_and!; simpl; auto.
  - wp_step. wp_step. unfold verify_async. do 3 wp_step. split; [auto with wp|done].
Qed.

(** *** Changing the password *)

(** [change_password]'s deletion: every session of [u] but the one to keep. *)
Definition end_sessions_but (u : Uuid) (keep : option Uuid) : io Z :=
  match keep with
  | Some sid => delete_all_by_user_id_except u sid
  | None => delete_all_by_user_id u
  end.

Definition ended (u : Uuid) (keep : option Uuid) w w' : Prop :=
  purged (fun s => ses_user_id s = u /\ Some (ses_id s) <> keep) (pg w) (pg w')
  /\ forall i s, user_sessions (pg w) !! i = Some s -> ses_user_id s = u -> Some (ses_id s) <> keep ->
       stores w' (Keys.session (base64_url (ses_session_token s))) None.

Lemma purged_ext (P P' : UserSession -> Prop) `{forall s, Decision (P s)} `{forall s, Decision (P' s)} d d' :
  (forall s, P s <-> P' s) -> purged P d d' -> purged P' d d'.
Proof.
  intros Heq (Hu & Hs & Ht). split; [done|]. split.
  - rewrite Hs. apply map_eq. intros i. apply option_eq. intros x. rewrite !lookup_delete_where. by rewrite Heq.
  - intros i t Hi j s Hj Hp. eapply Ht; [done..|]. by apply Heq.
Qed.

Lemma end_sessions_but_spec u keep w :
  backed w ->
  wp (end_sessions_but u keep) (fun r w' => only_sessions (pg w) (pg w') /\ forall n, r = Ok n -> ended u keep w w') w.
Proof.
  intros Hb. destruct keep as [sid|]; simpl.
  - apply wp_conj; [apply delete_bulk_only|]. eapply wp_mono.
    { by apply (delete_bulk_spec (fun t => rt_user_id t = u /\ rt_session_id t <> sid)
        (fun s => ses_user_id s = u /\ ses_id s <> sid)). }
    intros [n|e] w' (_ & _ & _ & Hr) m [= <-]. destruct Hr as (_ & Hp & Hst). split.
    + eapply purged_ext; [|exact Hp]. naive_solver.
    + intros i s Hi Hu Hne. eapply Hst; [done|]. split; [done|congruence].
  - eapply wp_mono; [by apply end_sessions_spec|]. intros [n|e] w' [(_ & _ & _ & Hr) Ho]; (split; [done|]); [|done].
    intros m [= <-]. destruct Hr as (_ & Hp & Hst). split; [|by eauto].
    eapply purged_ext; [|exact Hp]. naive_solver.
Qed.

Lemma change_password_spec u keep old new w :
  (Z.of_nat (String.length new) < 4294967296)%Z -> pg_wf (pg w) -> backed w ->
  wp (change_password u keep old new) (fun r w' =>
    match r with
    | Ok (Err _) => pg w' = pg w /\ redis w' = redis w
    | Ok (Ok _) => MIN_PASSWORD_LEN <= String.length new
        /\ (exists c, password_of (pg w) u c
              /\ verify old (default "" (cred_secret_data c)) (default "" (cred_credential_data c)) = true)
        /\ (exists d1, rotated u new (pg w) d1 /\ credentials (pg w') = credentials d1)
        /\ ended u keep w w'
    | Err _ => True
    end) w.
Proof.
  intros Hlen Hwf Hb. unfold change_password. wp_step; [by wp_step|]. wp_step. apply wp_find_user; [done| |done].
  destruct (users (pg w) !! u) as [usr|]; [|by wp_step]. wp_step. apply wp_find_password; [|done].
  intros [c|]; [|by intros; wp_step]. intros Hc. wp_step; [by wp_step|].
  wp_step. eapply wp_mono; [apply rotate_password_spec; [done|by simpl]|]. simpl.
  intros [[]|e] w1 (Hred & Ht & _ & Hrot); [|done]. specialize (Hrot eq_refl).
  assert (Hses : user_sessions (pg w1) = user_sessions (pg w) /\ users (pg w1) = users (pg w))
    by (by destruct Hrot as (? & -> & _)). destruct Hses as [Hses Hus].
  assert (Hb1 : backed w1).
  { eapply (backed_kept w); [|by apply kept_same; rewrite Hses|done].
    split; [lia|]. intros. rewrite Hred. by left. }
  rewrite negb_false_iff, Nat.ltb_ge in *.
  wp_step. fold (end_sessions_but u keep). wp_call end_sessions_but_spec; [done|].
  intros [n|e] w2 [Ho Hend]; [|done]. wp_step. destruct (Hend n eq_refl) as [(Hp1 & Hp2 & Hp3) Hst].
  rewrite Hses in *. rewrite Hus in Hp1. split; [done|]. split; [by exists c|]. split; [|done].
  exists (pg w1). split; [done|]. by rewrite Ho.
Qed.
End Specs.

(** ** Theorems *)

(** C12: A password reset takes the account over from whoever held it.  A reset
    that reports success used a token of the user that was stored, unused and not
    expired, and a new password of at least 8 bytes; afterwards, and before the tables
    change again, a login as that user succeeds with the new password only, if the
    user had at most one password credential; none of the user's reset tokens can
    be redeemed any more, and the user has no session left, neither in Postgres
    nor in the cache, and no refresh token of one. *)
Theorem reset_takes_over `{RedisLaws} `{EnvLaws} `{UnicodeTables} `{Argon2Laws} `{!Argon2Injective} `{CryptoLaws}
  `{ValueParserLaws} `{!JsonCodec SessionSnapshot} `{!JsonCodecLaws SessionSnapshot} self token pw w w' :
  (Z.of_nat (String.length pw) < 4294967296)%Z -> pg_wf (pg w) -> backed w ->
  consume_reset self token pw w = (Ok (Ok tt), w') ->
  exists r n, password_resets (pg w) !! pr_id r = Some r /\ pr_token_hash r = compute (pf_hmac self) token
    /\ pr_consumed_at r = None /\ tick w <= n < tick w' /\ (clock n <= pr_expires_at r)%Z
    /\ MIN_PASSWORD_LEN <= String.length pw
    /\ (one_password (pg w) (pr_user_id r) -> forall login id raw w2 w3 user, pg w2 = pg w' ->
          authenticate login id raw w2 = (Ok (Some user), w3) -> usr_id user = pr_user_id r -> raw = Some pw)
    /\ (forall i x, password_resets (pg w') !! i = Some x -> pr_user_id x = pr_user_id r ->
          pr_consumed_at x <> None)
    /\ (forall i s, user_sessions (pg w') !! i = Some s <->
          user_sessions (pg w) !! i = Some s /\ ses_user_id s <> pr_user_id r)
    /\ (forall i s, user_sessions (pg w) !! i = Some s -> ses_user_id s = pr_user_id r ->
          stores w' (Keys.session (base64_url (ses_session_token s))) None
          /\ forall j t, refresh_tokens (pg w') !! j = Some t -> rt_session_id t <> ses_id s).
Proof.
  intros Hlen Hwf Hb Hrun.
  destruct (wp_run _ _ _ _ _ (consume_reset_spec self token pw w Hlen Hwf Hb) Hrun)
    as (Hmin & r & n & Hr & Hh & Hc & Hn & Hexp & _ & (d1 & Hrot & Hcr) & Hsp & (_ & Hs & Ht) & Hst).
  exists r, n. do 6 (split; [done|]). split; [|split; [|split]].
  - intros Hone login id raw w2 w3 user Hp Hauth Hu.
    destruct (wp_run _ _ _ _ _ (login_spec login id raw w2) Hauth) as [_ Hok].
    destruct (Hok _ eq_refl) as (name & pw' & c & _ & -> & _ & _ & _ & (Hci & Hcu & Hct) & Hv). f_equal.
    eapply (rotated_opens _ pw (pg w) d1 c (wf_credentials_key _ Hwf) Hone Hrot); [|exact Hv].
    split; [|split; congruence]. by rewrite <- Hcr, <- Hp.
  - intros i x Hi Hu Hnone. destruct (proj1 Hsp i x Hi Hu) as [t Hsome]. congruence.
  - intros i s. rewrite Hs. by rewrite lookup_delete_where.
  - intros i s Hi Hu. split; [by eapply Hst|]. intros j t Hj. by eapply Ht.
Qed.

(** Login succeeds for the right people only, and changes nothing.  A user
    that [authenticate] returns is stored, is enabled and has a verified e-mail
    address, is named by the identifier given (username, or e-mail up to case),
    and the password given verifies against a password credential of that user;
    whatever happens, Postgres and Redis are as they were. *)
Theorem login_sound `{RedisServer} `{EnvLaws} `{UnicodeTables} `{Argon2Lib} `{Crypto} `{ValueParser}
  self id raw w r w' :
  authenticate self id raw w = (r, w') ->
  pg w' = pg w /\ redis w' = redis w
  /\ forall u, r = Ok (Some u) -> exists name pw c, id = Some name /\ raw = Some pw
      /\ named (pg w) (trim name) u /\ usr_enabled u = true /\ usr_email_verified u = true
      /\ password_of (pg w) (usr_id u) c
      /\ verify pw (default "" (cred_secret_data c)) (default "" (cred_credential_data c)) = true.
Proof.
  intros Hrun. destruct (wp_run _ _ _ _ _ (login_spec self id raw w) Hrun) as [(Hp & Hr & _) Hu]. done.
Qed.

(** C34: Login is available.  When Postgres answers and the hashing task
    finishes, a stored user that is enabled and verified, has one password credential,
    and whose username has no blanks around it and no [@], is logged in with its
    username and its password; so the check never locks out the rightful user. *)
Theorem login_available `{RedisServer} `{EnvLaws} `{UnicodeTables} `{Argon2Lib} `{Crypto} `{ValueParser}
  self u c pw w :
  pg_wf (pg w) -> pg_ok (tick w) -> (forall n, tick w <= n -> task_ok n = true) ->
  users (pg w) !! usr_id u = Some u -> usr_enabled u = true -> usr_email_verified u = true ->
  trim (usr_username u) = usr_username u -> usr_username u <> "" -> contains_byte "@"%char (usr_username u) = false ->
  one_password (pg w) (usr_id u) -> password_of (pg w) (usr_id u) c -> opens pw c -> pw <> "" ->
  exists w', authenticate self (Some (usr_username u)) (Some pw) w = (Ok (Some u), w').
Proof.
  intros Hwf Hpg Htask Hu Hen Hver Htrim Hne Hat Hone Hc Ho Hpw.
  assert (Hwp : wp (authenticate self (Some (usr_username u)) (Some pw)) (fun r _ => r = Ok (Some u)) w).
  { unfold authenticate. simpl. rewrite Htrim.
    rewrite (is_empty_false _ Hne), (is_empty_false _ Hpw).
    apply wp_bind. unfold resolve_user. rewrite Hat. apply wp_bind, wp_fetch_optional_ok; [done|].
    rewrite (where_unique usr_username _ _ _ (wf_users_username _ Hwf) Hu), head_row_order by done. simpl. wp_step. wp_step.
    apply wp_fetch_optional_ok; [by eapply pg_ok_later; [|done]; simpl; lia|].
    pose proof (head_password (pg w) (usr_id u) (tick (bump w))) as Hh. simpl in Hh |- *.
    destruct (head _) as [c'|]; [|by destruct (Hh c)]. rewrite (Hone c' c Hh Hc).
    unfold verify_async. do 2 wp_step. rewrite Htask by (simpl; lia). rewrite (proj2 (Ho pw) eq_refl), Hen, Hver.
    by wp_step. }
  destruct (authenticate self _ _ w) as [r w'] eqn:E. exists w'. f_equal. exact (wp_run _ _ _ _ _ Hwp E).
Qed.

(** Changing the password needs the old one and ends the other sessions.  A
    change that reports success was given the password of a credential of the
    user and a new one of at least 8 bytes; afterwards the user's password
    credential opens with the new password only, and the user's sessions other
    than the current one are gone from Postgres and from the cache, with their
    refresh tokens; a change that is refused leaves everything as it was. *)
Theorem change_password_effect `{RedisLaws} `{EnvLaws} `{UnicodeTables} `{Argon2Laws} `{!Argon2Injective}
  `{CryptoLaws} `{ValueParserLaws} `{!JsonCodec SessionSnapshot} `{!JsonCodecLaws SessionSnapshot}
  u keep old new w r w' :
  (Z.of_nat (String.length new) < 4294967296)%Z -> pg_wf (pg w) -> backed w -> one_password (pg w) u ->
  change_password u keep old new w = (Ok r, w') ->
  match r with
  | Ok _ => MIN_PASSWORD_LEN <= String.length new
      /\ (exists c, password_of (pg w) u c
            /\ verify old (default "" (cred_secret_data c)) (default "" (cred_credential_data c)) = true)
      /\ (exists c, password_of (pg w') u c) /\ (forall c, password_of (pg w') u c -> opens new c)
      /\ (forall i s, user_sessions (pg w') !! i = Some s <->
            user_sessions (pg w) !! i = Some s /\ ~ (ses_user_id s = u /\ Some (ses_id s) <> keep))
      /\ (forall i s, user_sessions (pg w) !! i = Some s -> ses_user_id s = u -> Some (ses_id s) <> keep ->
            stores w' (Keys.session (base64_url (ses_session_token s))) None
            /\ forall j t, refresh_tokens (pg w') !! j = Some t -> rt_session_id t <> ses_id s)
  | Err _ => pg w' = pg w /\ redis w' = redis w
  end.
Proof.
  intros Hlen Hwf Hb Hone Hrun.
  pose proof (wp_run _ _ _ _ _ (change_password_spec u keep old new w Hlen Hwf Hb) Hrun) as Hspec.
  destruct r as [[]|e]; [|done].
  destruct Hspec as (Hmin & Hold & (d1 & Hrot & Hcr) & (_ & Hs & Ht) & Hst).
  split; [done|]. split; [done|]. split; [|split; [|split]].
  - destruct Hrot as (c & -> & Hu & Hty & _). exists c. split; [|done]. exists (cred_id c).
    rewrite Hcr. apply lookup_insert_eq.
  - intros c (Hi & Hu & Hty). eapply rotated_opens; [exact (wf_credentials_key _ Hwf)|done|done|].
    split; [by rewrite <- Hcr|done].
  - intros i s. rewrite Hs. by rewrite lookup_delete_where.
  - intros i s Hi Hu Hne. split; [by eapply Hst|]. intros j t Hj. eapply Ht; [done..|]. done.
Qed.

(** ** Witnesses *)

Import Instances JsonInstance.

Definition demo_flow : PasswordFlow := mkPasswordFlow (mkHmacSha256 "pepper").
Definition demo_login : LoginService := mkLoginService (mkHashed "" "").

(** The user of [world_sessions] with a password, who has asked for a reset. *)
Definition world_password : World := (rotate_password 7 "old password" world_sessions).2.
Definition world_asked : World := (request_reset demo_flow "a" world_password).2.
Definition demo_reset_token : string :=
  match (request_reset demo_flow "a" world_password).1 with Ok (Some t) => t | _ => "" end.
Definition demo_credential : Credential :=
  default (mkCredential 0 "" None None 0 0 0) (head (rows (credentials (pg world_password)))).

Lemma world_asked_wf : pg_wf (pg world_asked).
Proof. apply pg_wf_b_ok. vm_compute. reflexivity. Qed.
Lemma world_password_wf : pg_wf (pg world_password).
Proof. apply pg_wf_b_ok. vm_compute. reflexivity. Qed.

Lemma empty_backed w : redis w = (∅ : gmap string rentry) -> backed w.
Proof. intros Hr hash snap (v & dl & raw & Hl & _). by rewrite Hr in Hl. Qed.
Lemma world_asked_backed : backed world_asked.
Proof. apply empty_backed. vm_compute. reflexivity. Qed.
Lemma world_password_backed : backed world_password.
Proof. apply empty_backed. vm_compute. reflexivity. Qed.

Lemma one_password_rows d u c : rows (credentials d) = [c] -> one_password d u.
Proof.
  intros Hr x y [Hx _] [Hy _]. apply elem_of_rows in Hx, Hy. rewrite Hr in Hx, Hy. set_solver.
Qed.
Lemma world_password_one u : one_password (pg world_password) u.
Proof. apply (one_password_rows _ u demo_credential). vm_compute. reflexivity. Qed.
Lemma world_asked_one u : one_password (pg world_asked) u.
Proof. apply (one_password_rows _ u demo_credential). vm_compute. reflexivity. Qed.

Lemma demo_credential_of : password_of (pg world_password) 7 demo_credential.
Proof. split; [|split; vm_compute; reflexivity]. exists (cred_id demo_credential). vm_compute. reflexivity. Qed.

Lemma demo_credential_opens : opens "old password" demo_credential.
Proof.
  apply (rotated_opens 7 "old password" (pg world_sessions) (pg world_password) demo_credential).
  - apply keyed_empty.
  - intros c c' [[i Hi] _]. discriminate Hi.
  - assert (Hr : (rotate_password 7 "old password" world_sessions).1 = Ok tt) by (vm_compute; reflexivity).
    refine (proj2 (proj2 (proj2 (wp_run _ _ _ _ _ (rotate_password_spec 7 "old password" world_sessions _ pg_sessions_wf)
      (run_fst _ _ _ Hr)))) eq_refl). reflexivity.
  - exact demo_credential_of.
Qed.

Definition world_reset : World := (consume_reset demo_flow demo_reset_token "new password" world_asked).2.

Lemma reset_takes_over_witness :
  (consume_reset demo_flow demo_reset_token "new password" world_asked).1 = Ok (Ok tt)
  /\ user_sessions (pg world_reset) !! 8%N = None
  /\ exists r, password_resets (pg world_asked) !! pr_id r = Some r /\ pr_consumed_at r = None
      /\ forall id raw user w3, authenticate demo_login id raw world_reset = (Ok (Some user), w3) ->
           usr_id user = pr_user_id r -> raw = Some "new password".
Proof.
  assert (Hr : (consume_reset demo_flow demo_reset_token "new password" world_asked).1 = Ok (Ok tt))
    by (vm_compute; reflexivity).
  split; [exact Hr|].
  destruct (reset_takes_over demo_flow demo_reset_token "new password" world_asked _ ltac:(reflexivity)
    world_asked_wf world_asked_backed (run_fst _ _ _ Hr))
    as (r & n & Hrow & _ & Hc & _ & _ & _ & Hlogin & _).
  split; [vm_compute; reflexivity|]. exists r. split; [exact Hrow|]. split; [exact Hc|].
  intros id raw user w3. by apply (Hlogin (world_asked_one _)).
Defined.

Lemma login_sound_witness :
  (authenticate demo_login (Some " A@B ") (Some "old password") world_password).1 = Ok (Some demo_user)
  /\ exists c, password_of (pg world_password) 7 c.
Proof.
  assert (Hr : (authenticate demo_login (Some " A@B ") (Some "old password") world_password).1
    = Ok (Some demo_user)) by (vm_compute; reflexivity).
  split; [exact Hr|].
  destruct (login_sound demo_login _ _ world_password _ _ (run_fst _ _ _ Hr)) as (_ & _ & Hu).
  destruct (Hu demo_user eq_refl) as (name & pw & c & _ & _ & _ & _ & _ & Hc & _). by exists c.
Defined.

Lemma login_available_witness :
  exists w', authenticate demo_login (Some "a") (Some "old password") world_password = (Ok (Some demo_user), w').
Proof.
  assert (Hu : users (pg world_password) !! 7%N = Some demo_user) by (vm_compute; reflexivity).
  exact (login_available demo_login demo_user demo_credential "old password" world_password world_password_wf
    (demo_pg_ok _) (fun _ _ => eq_refl) Hu eq_refl eq_refl eq_refl ltac:(discriminate) eq_refl
    (world_password_one 7) demo_credential_of demo_credential_opens ltac:(discriminate)).
Defined.

Lemma change_password_effect_witness :
  (change_password 7 (Some 8%N) "old password" "new password" world_password).1 = Ok (Ok tt)
  /\ user_sessions (pg (change_password 7 (Some 8%N) "old password" "new password" world_password).2) !! 8%N
     = Some (demo_session 8 "tok").
Proof.
  assert (Hr : (change_password 7 (Some 8%N) "old password" "new password" world_password).1 = Ok (Ok tt))
    by (vm_compute; reflexivity).
  split; [exact Hr|].
  destruct (change_password_effect 7 (Some 8%N) "old password" "new password" world_password (Ok tt) _
    ltac:(reflexivity) world_password_wf world_password_backed (world_password_one 7) (run_fst _ _ _ Hr))
    as (_ & _ & _ & _ & Hs & _).
  apply Hs. split; [vm_compute; reflexivity|]. intros [_ Hne]. by apply Hne.
Defined.
