(* ===== verification/LoginHttp.v ===== *)
(** * Logging in over HTTP ([login/resource.rs], [login/dto.rs], [login/page.rs])

    The JSON endpoints [/auth/login], [/auth/me] and [/auth/logout], and the login
    page with its CSRF cookie. *)

From stdpp Require Import base tactics list gmap strings.
From Stdlib Require Import ZArith Lia Ascii.
From S2P Require Import Prelude RustStr Redis Schema World Ext Demo DemoJson RedisKeys Http Config Hashing RateLimit.
From S2P Require Import Role User RefreshToken Session Integrity Secrets Password.

Local Open Scope auth_scope.

(** ** Requests and payloads ([login/dto.rs]) *)

Record LoginRequest := mkLoginRequest {
  lq_identifier : option string;
  lq_email : option string;
  lq_password : option string;
}.

Definition resolve_identifier (self : LoginRequest) : option string :=
  match lq_identifier self with
  | Some s => if negb (is_empty (trim s)) then Some s else lq_email self
  | None => lq_email self
  end.

Section Dto.
Context `{Texts}.

Definition session_payload (s : UserSession) : Value :=
  obj [("sessionToken", JStr (ses_session_token s)); ("expiresAt", opt_str (dt_to_string <$> ses_expires_at s));
       ("lastAccessedAt", opt_str (dt_to_string <$> ses_last_accessed_at s))].

Definition user_payload (id : Uuid) (email username : string) (email_verified : bool) (roles : list string) : Value :=
  obj [("id", JStr (uuid_to_string id)); ("email", JStr email); ("username", JStr username);
       ("emailVerified", JBool email_verified); ("roles", JArr (JStr <$> roles))].

Definition user_payload_of_session (s : SessionWithUser) (roles : list string) : Value :=
  user_payload (ses_user_id (swu_session s)) (swu_user_email s) (swu_user_username s) (swu_user_email_verified s) roles.
End Dto.

(** [Cookie::build(SESSION_COOKIE, value)...max_age(ttl)] *)
Definition session_cookie (value : string) (secure : bool) (ttl_seconds : Z) : Cookie :=
  mkCookie SESSION_COOKIE value "/" true secure true ttl_seconds.

Record LoginState := mkLoginState { lg_config : Config; lg_login_service : LoginService }.

Definition invalid_session : HttpResponse := message 401 "invalid session".

(** ** The JSON endpoints *)

Section Resource.
Context `{RedisServer} `{Env} `{Crypto} `{Texts} `{UnicodeTables} `{Argon2Lib} `{ValueParser} `{!JsonCodec SessionSnapshot}.

(** [apply_limit(..).await?], then the rest of the handler. *)
Definition apply_limit (key : string) (max window : Z) (k : io answer) : io answer :=
  let! d := RateLimit.check key max window in
  if negb (allowed d) then ret (Err (RateLimited (retry_after_seconds d))) else k.

Definition limit_identifier (cfg : RateLimitConfig) (identifier : option string) (k : io answer) : io answer :=
  match identifier with
  | Some id =>
      if negb (is_empty (trim id))
      then apply_limit (Keys.rl_login_email (to_lowercase (trim id))) (login_email_max cfg) (login_email_window cfg) k
      else k
  | None => k
  end.

Definition limit_ip (key : string -> string) (ip : option string) (max window : Z) (k : io answer) : io answer :=
  match nonempty ip with
  | Some ip_addr => apply_limit (key ip_addr) max window k
  | None => k
  end.

Definition user_agent (req : HttpRequest) : option string := header req "User-Agent" ≫= to_str.

(** The part of [login] after the limits. *)
Definition login_open (state : LoginState) (req : HttpRequest) (identifier password : option string) : io answer :=
  let! user := authenticate (lg_login_service state) identifier password in
  match user with
  | None => ret (Ok (message 401 "invalid credentials"))
  | Some u =>
      let! session := create_session (usr_id u) (usr_email u) (usr_username u) (usr_email_verified u) (usr_enabled u)
                        (client_ip req) (user_agent req) in
      let! roles := find_effective_names_by_user_id (usr_id u) in
      ret (Ok (add_cookie (session_cookie (ses_session_token session) (cc_secure (cfg_cookie (lg_config state)))
                             (SESSION_TTL_HOURS * 3600))
        (json_response 200 (obj [("message", JStr "login success"); ("session", session_payload session);
           ("user", user_payload (usr_id u) (usr_email u) (usr_username u) (usr_email_verified u) roles)]))))
  end.

Definition login (state : LoginState) (body : LoginRequest) (req : HttpRequest) : io answer :=
  let cfg := cfg_ratelimit (lg_config state) in
  let identifier := resolve_identifier body in
  limit_identifier cfg identifier
    (limit_ip Keys.rl_login_ip (client_ip req) (login_ip_max cfg) (login_ip_window cfg)
      (login_open state req identifier (lq_password body))).

Definition me (req : HttpRequest) : io answer :=
  match extract req with
  | None => ret (Ok invalid_session)
  | Some token =>
      let! hydrated := find_active_session token in
      match hydrated with
      | None => ret (Ok invalid_session)
      | Some hydrated =>
          let! roles := find_effective_names_by_user_id (ses_user_id (swu_session hydrated)) in
          ret (Ok (json_response 200 (obj [("session", session_payload (swu_session hydrated));
                                           ("user", user_payload_of_session hydrated roles)])))
      end
  end.

Definition auth_logout (state : LoginState) (req : HttpRequest) : io answer :=
  match extract req with
  | None => ret (Ok invalid_session)
  | Some token =>
      let! done := attempt (Session.logout token) in
      match done with
      | Err ERedisUnavailable => ret (Err (Internal (EOther "logout failed: redis unavailable")))
      | Err e => ret (Err (Internal e))
      | Ok false => ret (Ok invalid_session)
      | Ok true =>
          ret (Ok (add_cookie (mkCookie SESSION_COOKIE "" "/" true (cc_secure (cfg_cookie (lg_config state))) true 0)
            (message 200 "logout success")))
      end
  end.
End Resource.

(** ** The login page ([login/page.rs]) *)

Definition CSRF_COOKIE : string := "csrf_token".
Definition CSRF_TOKEN_BYTES : nat := 24.
Definition CSRF_COOKIE_MAX_AGE_SECONDS : Z := 3600.

Record LoginPage := mkLoginPage { lp_return_to : string; lp_email : string; lp_csrf : string; lp_error : option string }.

Record LoginForm := mkLoginForm {
  lf_email : option string;
  lf_password : option string;
  lf_return_to : option string;
  lf_csrf_token : option string;
}.

Definition normalize_error (error : option string) : option string :=
  match error with
  | Some s =>
      if negb (is_empty (trim s))
      then Some (if bool_decide (s = "session_expired") then "Your session expired. Please try again." else s)
      else None
  | None => None
  end.

Definition build_csrf_cookie (value : string) (secure : bool) : Cookie :=
  mkCookie CSRF_COOKIE value "/login" true secure true CSRF_COOKIE_MAX_AGE_SECONDS.

(** [ct_eq] compares like [=]. *)
Definition csrf_matches (form_value cookie_value : option string) : bool :=
  match form_value, cookie_value with
  | Some a, Some b =>
      if is_empty a || is_empty b then false
      else (String.length a =? String.length b) && bool_decide (a = b)
  | _, _ => false
  end.

(** [s.as_bytes()[1]] *)
Definition second_byte (s : string) : option ascii := match s with String _ (String c _) => Some c | _ => None end.

Definition safe_redirect `{UrlLib} (return_to : option string) : string :=
  match return_to with
  | None => "/"
  | Some s =>
      if is_empty (trim s) then "/"
      else if negb (starts_with "/" s) then "/"
      else if bool_decide (second_byte s = Some "/"%char) || bool_decide (second_byte s = Some "\"%char) then "/"
      else match url_parse s with
           | Some parsed => if bool_decide (is_Some (url_host parsed)) then "/" else s
           | None => s
           end
  end.

Section Page.
Context `{RedisServer} `{Env} `{Crypto} `{Texts} `{UnicodeTables} `{Argon2Lib} `{ValueParser} `{!JsonCodec SessionSnapshot}
  `{!Askama LoginPage} `{UrlLib}.

(** [app_data]: the state the application was started with, if it is there. *)
Definition render_login (app_data : option LoginState) (return_to error : option string) (req : HttpRequest) : io answer :=
  let existing := cookie req CSRF_COOKIE in
  let page_for csrf := render_page (mkLoginPage (default "" return_to) "" csrf (normalize_error error)) in
  match nonempty existing with
  | Some csrf => ret (page_for csrf)
  | None =>
      let! csrf := url_safe CSRF_TOKEN_BYTES in
      let secure := match app_data with Some state => cc_secure (cfg_cookie (lg_config state)) | None => false end in
      ret (match page_for csrf with
           | Ok resp => Ok (add_cookie (build_csrf_cookie csrf secure) resp)
           | Err e => Err e
           end)
  end.

Definition submit_login (state : LoginState) (form : LoginForm) (req : HttpRequest) : io answer :=
  let csrf_cookie := cookie req CSRF_COOKIE in
  if negb (csrf_matches (lf_csrf_token form) csrf_cookie)
  then ret (Ok (see_other "/login?error=session_expired"))
  else
    let! user := authenticate (lg_login_service state) (lf_email form) (lf_password form) in
    match user with
    | None =>
        ret (render_page (mkLoginPage (default "" (lf_return_to form)) (default "" (lf_email form))
               (default "" csrf_cookie) (Some "Invalid email or password")))
    | Some u =>
        let! session := create_session (usr_id u) (usr_email u) (usr_username u) (usr_email_verified u) (usr_enabled u)
                          (client_ip req) (user_agent req) in
        ret (Ok (see_other_with [session_cookie (ses_session_token session) (cc_secure (cfg_cookie (lg_config state)))
                                   (SESSION_TTL_HOURS * 3600)]
          (safe_redirect (lf_return_to form))))
    end.
End Page.

(** ** Sessions that are opened *)

Section Opening.
Context `{RedisLaws} `{EnvLaws} `{CryptoLaws} `{!DigestInjective} `{!JsonCodec SessionSnapshot} `{!JsonCodecLaws SessionSnapshot}.
Implicit Types w : World.

(** From [w] to [w'], [s] has been opened for the user: its row is the only change
    of the tables, and the cache shows nothing else under its token. *)
Definition opened (user : Uuid) (enabled : bool) (s : UserSession) w w' : Prop :=
  insert_session s (pg w) = Ok (tt, pg w')
  /\ exists row n, user_sessions (pg w) !! ses_id s = None /\ pg w' = on_user_sessions <[ses_id s := row]> (pg w)
    /\ ses_id row = ses_id s /\ ses_user_id row = user /\ ses_session_token row = ses_session_token s
    /\ ses_expires_at row = pg_ts <$> ses_expires_at s
    /\ tick w <= n < tick w' /\ ses_expires_at s = Some (clock n + seconds (SESSION_TTL_HOURS * 3600))%Z
    /\ forall snap, cached (base64_url (ses_session_token s)) w' snap ->
         ss_user_id snap = user /\ ss_user_enabled snap = enabled /\ ss_expires_at snap = ses_expires_at s.

Lemma insert_session_inv s d a d' :
  insert_session s d = Ok (a, d') ->
  exists row, user_sessions d !! ses_id s = None /\ d' = on_user_sessions <[ses_id s := row]> d
    /\ ses_id row = ses_id s /\ ses_user_id row = ses_user_id s /\ ses_session_token row = ses_session_token s
    /\ ses_expires_at row = pg_ts <$> ses_expires_at s
    /\ forall i x, user_sessions d !! i = Some x -> ses_session_token x <> ses_session_token s.
Proof.
  unfold insert_session. intros Hq. stmt_inv Hq. bools.
  match goal with Hn : has_row (user_sessions d) _ = false |- _ => apply has_row_none in Hn end.
  match goal with Hn : no_row _ _ = true |- _ => rewrite no_row_spec in Hn end. eexists. by split.
Qed.

Lemma cached_bump hash w snap : cached hash (bump w) snap -> cached hash w snap.
Proof. apply cached_shrinks. auto with wp. Qed.

Lemma populate_cached hash h ttl w :
  (0 < ttl)%Z -> (forall snap, ~ cached hash w snap) ->
  wp (populate_cache_with_ttl hash h ttl) (fun r w' => r = Ok tt /\ pg w' = pg w /\ tick w <= tick w'
    /\ forall snap, cached hash w' snap -> snap = from_session_with_user h) w.
Proof.
  intros Httl Hno. unfold populate_cache_with_ttl.
  destruct (json_total (from_session_with_user h)) as (payload & Hp & _). rewrite Hp.
  assert (Hb : forall snap, ~ cached hash (bump w) snap) by (intros snap Hc%cached_bump; by eapply Hno).
  do 3 wp_step; [|wp_step; do 2 (split; [done|]); split; [simpl; lia|intros snap Hc; by apply Hb in Hc]].
  wp_step. apply wp_redis_set_ex; [done| |].
  - intros r s _ Hu. do 2 (split; [done|]). split; [simpl; lia|]. intros snap (v & dl & raw & Hl & Hv & Hs).
    simpl in Hl, Hu. rewrite (rupdate_same _ _ _ _ _ _ Hu) in Hl by (apply redis_clock_mono; simpl; lia).
    assert (v = RStr payload) as -> by (simpl in Hl; repeat case_match; naive_solver).
    simpl in Hv. injection Hv as <-. rewrite (json_roundtrip _ _ Hp) in Hs. by injection Hs as <-.
  - do 2 (split; [done|]). split; [simpl; lia|]. intros snap Hc%cached_bump. by apply Hb in Hc.
Qed.

(** One new row of [user] is the only change of the tables. *)
Definition new_session (user : Uuid) (d d' : Pg) : Prop :=
  exists i row, user_sessions d !! i = None /\ d' = on_user_sessions <[i := row]> d /\ ses_user_id row = user.

Lemma opened_new user enabled s w w' : opened user enabled s w w' -> new_session user (pg w) (pg w').
Proof. intros (_ & row & n & Hn & Hp & _ & Hu & _). by exists (ses_id s), row. Qed.

Lemma create_session_spec user email username verified enabled ip ua w :
  backed w ->
  wp (create_session user email username verified enabled ip ua) (fun r w' =>
    match r with
    | Ok s => opened user enabled s w w'
    | Err _ => pg w' = pg w \/ new_session user (pg w) (pg w')
    end) w.
Proof.
  intros Hb. unfold create_session. do 4 wp_step. wp_step. unfold url_safe. do 3 wp_step. wp_step.
  set (s := mkUserSession _ _ _ _ _ _ _ _). unfold persist. do 2 wp_step.
  2:{ by left. }
  2:{ right. destruct (insert_session_inv _ _ _ _ Hq) as (row & Hn & -> & _ & Hu & _). by exists (ses_id s), row. }
  destruct a. pose proof Hq as Hins. destruct (insert_session_inv _ _ _ _ Hq) as (row & Hn & -> & Hid & Hu & Ht & Hexp & Hfresh). clear Hq.
  set (w1 := bump (set_pg _ _)).
  assert (Hno : forall snap, ~ cached (base64_url (ses_session_token s)) w1 snap).
  { intros snap Hc. assert (Hc0 : cached (base64_url (ses_session_token s)) w snap)
      by (eapply cached_shrinks; [|exact Hc]; unfold w1; auto 10 with wp).
    destruct (Hb _ _ Hc0) as (i & x & Hi & Hh & _). apply base64_url_inj in Hh. by eapply Hfresh. }
  assert (Hend : forall w', pg w' = pg w1 -> tick w1 <= tick w' ->
    (forall snap, cached (base64_url (ses_session_token s)) w' snap ->
       snap = from_session_with_user (mkSessionWithUser s email username verified enabled)) -> opened user enabled s w w').
  { intros w' Hp Ht' Hc. split; [by rewrite Hp|]. exists row, (tick w). split; [done|]. split; [by rewrite Hp|]. do 4 (split; [done|]).
    split; [unfold w1 in Ht'; simpl in Ht'; lia|]. split; [done|]. intros snap ->%Hc. done. }
  simpl ses_expires_at. cbv iota. wp_step. unfold ttl_seconds. do 3 wp_step. destruct (0 <? _)%Z eqn:E.
  - eapply wp_mono; [apply populate_cached; [lia|]; intros snap Hc%cached_bump; by eapply Hno|].
    intros r w' (-> & Hp & Ht' & Hc). wp_step. apply Hend; [done| |done]. change (S (tick w1) <= tick w') in Ht'. lia.
  - wp_step. wp_step. apply Hend; [done|change (tick (bump w1)) with (S (tick w1)); lia|]. intros snap Hc%cached_bump. by apply Hno in Hc.
Qed.

(** The end of a session, as the cache or (in microseconds) Postgres has it. *)
Definition ends (e : Z) : Z := Z.min e (pg_ts e).

(** Rounding to microseconds costs less than one. *)
Lemma ends_ge e : (pg_epoch <= e)%Z -> (e - 1000 < ends e)%Z.
Proof.
  intros He. unfold ends, pg_ts. rewrite Z.quot_div_nonneg by lia.
  pose proof (Z.div_mod (e - pg_epoch) 1000). pose proof (Z.mod_pos_bound (e - pg_epoch) 1000). lia.
Qed.

(** The end passed on the clock between [w] and [w']. *)
Definition expired (e : Z) w w' : Prop := exists n, tick w <= n < tick w' /\ (ends e < clock n)%Z.

Lemma expired_later e w w1 w2 w3 : tick w <= tick w1 -> tick w2 <= tick w3 -> expired e w1 w2 -> expired e w w3.
Proof. intros Ha Hb (n & Hn & He). exists n. split; [lia|done]. Qed.

(** What a lookup may return for a session of [user] that ends at [e]. *)
Definition shows (user : Uuid) (e : Z) (h : SessionWithUser) : Prop :=
  ses_user_id (swu_session h) = user /\ swu_user_enabled h = true
  /\ forall x, ses_expires_at (swu_session h) = Some x -> (ends e <= x)%Z.

(** The state of a session that can be looked up with [tok]. *)
Definition findable (tok : string) (user : Uuid) (e : Z) w : Prop :=
  trim tok <> ""
  /\ (exists i row, user_sessions (pg w) !! i = Some row /\ ses_session_token row = tok /\ ses_user_id row = user
        /\ ses_expires_at row = Some (pg_ts e))
  /\ (exists u, users (pg w) !! user = Some u /\ usr_enabled u = true)
  /\ forall snap, cached (base64_url tok) w snap -> shows user e (into_session_with_user snap).

Lemma find_by_token_findable tok user e w :
  pg_wf (pg w) -> pg_ok (tick w) -> findable tok user e w ->
  wp (find_by_token tok) (fun r w' => pg w' = pg w /\ tick w <= tick w' /\ exists h, r = Ok (Some h) /\ shows user e h) w.
Proof.
  intros Hwf Hpg (Hne & (i & row & Hi & Ht & Hu & Hexp) & (u & Hus & Hen) & Hc). unfold find_by_token.
  rewrite is_empty_false by (by intros ->). wp_step. wp_call session_read_cache_spec.
  intros r w1 (Hp1 & Hr1 & Ht1 & o & -> & Ho & _). destruct o as [h|].
  { wp_step. split; [done|]. split; [done|]. destruct (Ho h eq_refl) as (snap & Hs & ->). eauto. }
  apply wp_bind, wp_fetch_optional_ok; [by eapply pg_ok_later|]. rewrite Hp1.
  assert (Hin : forall s x, (s, x) ∈ join_user (fun s => ses_session_token s = tok) (pg w) -> s = row /\ x = u).
  { intros s x (Hst & [j Hj] & Hx & [k Hk])%elem_of_join_user.
    assert (j = i) as -> by (eapply (wf_sessions_token _ Hwf); [done|done|congruence]).
    assert (s = row) as -> by congruence. split; [done|]. rewrite (wf_users_key _ Hwf _ _ Hk) in Hx. congruence. }
  assert (Hrow : (row, u) ∈ join_user (fun s => ses_session_token s = tok) (pg w)).
  { apply elem_of_join_user. split; [done|]. split; [eauto|]. split; [|eauto].
    rewrite (wf_users_key _ Hwf _ _ Hus). done. }
  destruct (head _) as [[s x]|] eqn:Hh.
  2:{ apply head_None in Hh. rewrite <- (row_order_perm (tick w1)), Hh in Hrow. by apply not_elem_of_nil in Hrow. }
  apply head_elem in Hh. rewrite row_order_perm in Hh. destruct (Hin _ _ Hh) as [-> ->].
  wp_step. eapply wp_mono; [apply (session_populate_cache_spec _ _ i row); [by simpl; rewrite Hp1|by rewrite <- Ht]|].
  intros r w2 (-> & Hp2 & [Ht2 _] & _). wp_step. simpl in *. split; [congruence|]. split; [lia|].
  eexists. split; [done|]. split; [done|]. split; [done|]. simpl. rewrite Hexp. intros ? [= <-]. unfold ends. lia.
Qed.

(** A session that can be looked up is found, unless it has expired. *)
Lemma find_active_findable tok user e w :
  pg_wf (pg w) -> pg_ok (tick w) -> findable tok user e w ->
  wp (find_active_session tok) (fun r w' => touched (pg w) (pg w') /\ tick w <= tick w' /\
    ((exists h, r = Ok (Some h) /\ ses_user_id (swu_session h) = user) \/ expired e w w')) w.
Proof.
  intros Hwf Hpg Hf. unfold find_active_session. rewrite is_empty_false by apply Hf.
  wp_step. wp_call find_by_token_findable; [done|done|done|]. intros r w1 (Hp1 & Ht1 & h & -> & Hu & Hen & Hx).
  assert (Haccept : forall w2, pg w2 = pg w -> tick w <= tick w2 ->
    wp (accept h) (fun r w' => touched (pg w) (pg w') /\ tick w <= tick w' /\
      ((exists h, r = Ok (Some h) /\ ses_user_id (swu_session h) = user) \/ expired e w w')) w2).
  { intros w2 Hp2 Ht2. unfold accept. rewrite Hen. cbn [negb]. do 4 wp_step. unfold update_last_accessed.
    rewrite <- Hp2. wp_step; wp_step; simpl in *; (split; [|split; [lia|left; eauto]]).
    - right. destruct a. eauto.
    - by left.
    - right. destruct a. eauto. }
  wp_step. destruct (ses_expires_at (swu_session h)) as [x|]; [|wp_step; cbn [negb]; by apply Haccept].
  specialize (Hx x eq_refl). do 3 wp_step. destruct (x <? clock (tick w1))%Z eqn:Hlt; cbn [negb].
  - wp_step. split; [left; done|]. split; [simpl; lia|]. right. exists (tick w1). simpl. split; [lia|lia].
  - apply Haccept; [done|simpl; lia].
Qed.

Lemma opened_findable user s u w w' :
  opened user true s w w' -> trim (ses_session_token s) <> "" ->
  users (pg w) !! user = Some u -> usr_enabled u = true ->
  exists e, ses_expires_at s = Some e /\ findable (ses_session_token s) user e w'.
Proof.
  intros (_ & row & n & Hn & Hp & Hid & Hu & Ht & Hexp & _ & He & Hc) Hne Hus Hen. eexists. split; [exact He|].
  split; [done|]. split; [|split].
  - exists (ses_id s), row. rewrite Hp. simpl. rewrite lookup_insert_eq, Hexp, He. done.
  - exists u. by rewrite Hp.
  - intros snap (Hus' & Hen' & Hx)%Hc. split; [done|]. split; [done|]. simpl. rewrite Hx, He. intros ? [= <-]. unfold ends. lia.
Qed.
End Opening.

(** ** The endpoints *)

Section Endpoints.
Context `{RedisLaws} `{EnvLaws} `{CryptoLaws} `{!DigestInjective} `{Texts} `{UnicodeTables} `{Argon2Lib} `{ValueParser}
  `{!JsonCodec SessionSnapshot} `{!JsonCodecLaws SessionSnapshot}.
Implicit Types w : World.

Definition not_session_key (key : string) : Prop := forall hash, key <> Keys.session hash.

Lemma backed_frame key w w' :
  not_session_key key -> redis_frame (eq key) w w' -> pg w' = pg w -> backed w -> backed w'.
Proof.
  intros Hk Hf Hp Hb hash snap (v & dl & raw & Hl & Hr). rewrite Hp. apply (Hb hash snap). exists v, dl, raw.
  split; [|done]. eapply frame_rlive; [exact Hf|apply Hk|done].
Qed.

Lemma wp_apply_limit key max window k Q w :
  not_session_key key -> backed w ->
  (forall w1, pg w1 = pg w -> tick w <= tick w1 -> backed w1 -> wp k Q w1) ->
  (forall n w1, pg w1 = pg w -> Q (Ok (Err (RateLimited n))) w1) ->
  wp (apply_limit key max window k) Q w.
Proof.
  intros Hk Hb Hgo Hstop. unfold apply_limit. wp_step. wp_call check_frame. intros r w1 (Hp & Hf & d & ->).
  destruct (allowed d); cbn [negb]; [|wp_step; by apply Hstop].
  apply Hgo; [done|apply Hf|by eapply backed_frame].
Qed.

Lemma wp_limits cfg id req k Q w :
  backed w ->
  (forall w1, pg w1 = pg w -> tick w <= tick w1 -> backed w1 -> wp k Q w1) ->
  (forall n w1, pg w1 = pg w -> Q (Ok (Err (RateLimited n))) w1) ->
  wp (limit_identifier cfg id (limit_ip Keys.rl_login_ip (client_ip req) (login_ip_max cfg) (login_ip_window cfg) k)) Q w.
Proof.
  intros Hb Hgo Hstop.
  assert (Hip : forall w1, pg w1 = pg w -> tick w <= tick w1 -> backed w1 ->
    wp (limit_ip Keys.rl_login_ip (client_ip req) (login_ip_max cfg) (login_ip_window cfg) k) Q w1).
  { intros w1 Hp Ht Hb1. unfold limit_ip. destruct (nonempty _); [|by apply Hgo].
    apply wp_apply_limit; [by intros hash ?|done| |].
    - intros w2 Hp2 Ht2 Hb2. apply Hgo; [congruence|lia|done].
    - intros n w2 Hp2. apply Hstop. congruence. }
  unfold limit_identifier. destruct id as [id|]; [|by apply Hip]. destruct (negb _); [|by apply Hip].
  by apply wp_apply_limit; [intros hash ?|..].
Qed.

Lemma opened_between user enabled s w w1 w2 w' :
  pg w1 = pg w -> tick w <= tick w1 -> quiet w2 w' -> opened user enabled s w1 w2 -> opened user enabled s w w'.
Proof.
  intros Hp Ht (Hp2 & Hr2 & Ht2) (Hins & row & n & Hn & Hq & Hid & Hu & Htok & Hexp & Hb & He & Hc). split; [congruence|]. exists row, n.
  rewrite <- Hp, Hp2. do 6 (split; [done|]). split; [lia|]. split; [done|]. intros snap Hs. apply Hc.
  eapply cached_shrinks; [|exact Hs]. split; [done|]. rewrite Hr2. by left.
Qed.

(** The credentials of a request name [u]. *)
Definition credentials_of d (id raw : option string) (u : User) : Prop :=
  exists name pw c, id = Some name /\ raw = Some pw /\ named d (trim name) u /\ usr_enabled u = true
    /\ usr_email_verified u = true /\ password_of d (usr_id u) c
    /\ verify pw (default "" (cred_secret_data c)) (default "" (cred_credential_data c)) = true.

(** The answer to a login that succeeded. *)
Definition logged_in (state : LoginState) (id raw : option string) w (resp : HttpResponse) w' : Prop :=
  exists u s, credentials_of (pg w) id raw u /\ opened (usr_id u) true s w w'
    /\ rs_cookies resp = [session_cookie (ses_session_token s) (cc_secure (cfg_cookie (lg_config state)))
                            (SESSION_TTL_HOURS * 3600)].

(** What a login that was not answered may leave: nothing, or a session of the user
    whose credentials were right. *)
Definition left_behind d (id raw : option string) d' : Prop :=
  d' = d \/ exists u, credentials_of d id raw u /\ new_session (usr_id u) d d'.

(** The outcomes of a login, and what they leave. *)
Definition login_outcome (state : LoginState) (id raw : option string) w (r : res err answer) w' : Prop :=
  match r with
  | Ok (Ok resp) => (rs_status resp = 200%Z /\ logged_in state id raw w resp w')
      \/ (rs_status resp = 401%Z /\ rs_cookies resp = [] /\ pg w' = pg w)
  | Ok (Err (RateLimited _)) => pg w' = pg w
  | Ok (Err _) => False
  | Err _ => left_behind (pg w) id raw (pg w')
  end.

Lemma login_open_spec state req id raw w :
  pg_wf (pg w) -> backed w -> wp (login_open state req id raw) (login_outcome state id raw w) w.
Proof.
  intros Hwf Hb. unfold login_open. wp_step. wp_call login_spec. intros r w1 [Hq Hu].
  destruct r as [[u|]|e]; [|wp_step; right; split; [done|]; split; [done|apply Hq]|left; apply Hq].
  pose proof (Hu u eq_refl) as Hcred. assert (Hen : usr_enabled u = true) by (by destruct Hcred as (? & ? & ? & _ & _ & _ & ? & _)).
  destruct Hq as (Hp & Hr & Ht).
  assert (Hb1 : backed w1) by (eapply backed_kept; [|apply kept_same; by rewrite Hp|done]; split; [done|]; rewrite Hr; by left).
  assert (Hleft : forall w', new_session (usr_id u) (pg w1) (pg w') -> left_behind (pg w) id raw (pg w')).
  { intros w' Hnew. rewrite Hp in Hnew. right. by exists u. }
  wp_step. wp_call create_session_spec; [done|]. intros [s|e] w2 Hs; [|destruct Hs as [Hs|Hs]; [left; congruence|by apply Hleft]].
  pose proof (opened_new _ _ _ _ _ Hs) as Hnew. rewrite Hen in Hs.
  wp_step. unfold find_effective_names_by_user_id. do 2 wp_step; [|by apply Hleft]. do 2 wp_step; [|by apply Hleft].
  destruct (walk_all _ _ _ _ _) as [[names V]|]; [|wp_step; by apply Hleft]. do 2 wp_step. left. split; [done|]. exists u, s. split; [done|].
  split; [|done]. eapply opened_between; [done|done| |done]. auto with wp.
Qed.

Lemma login_handler_spec state body req w :
  pg_wf (pg w) -> backed w ->
  wp (login state body req) (login_outcome state (resolve_identifier body) (lq_password body) w) w.
Proof.
  intros Hwf Hb. unfold login. apply wp_limits; [done| |done]. intros w1 Hp Ht Hb1.
  eapply wp_mono; [apply login_open_spec; [by rewrite Hp|done]|]. intros r w' Hr. unfold login_outcome, left_behind, logged_in in *.
  rewrite Hp in Hr. destruct r as [[resp|[]]|e]; try done.
  destruct Hr as [(Hst & u & s & Hc & Ho & Hck)|Hst]; [left|by right].
  split; [done|]. exists u, s. split; [done|]. split; [|done].
  eapply opened_between; [done|done|apply quiet_refl|done].
Qed.

(** Role names can be looked up when Postgres answers. *)
Lemma effective_names_ok user w :
  pg_wf (pg w) -> pg_ok (tick w) ->
  wp (find_effective_names_by_user_id user) (fun r w' => quiet w w' /\ exists names, r = Ok names) w.
Proof.
  intros Hwf Hpg.
  assert (Hok : wp (find_effective_names_by_user_id user) (fun r _ => forall c, r <> Err (EDb c)) w).
  { unfold find_effective_names_by_user_id. apply wp_bind, wp_fetch_all_ok; [done|].
    apply wp_bind, wp_fetch_all_ok; [by eapply pg_ok_later; [|done]; simpl; lia|].
    destruct (walk_all _ _ _ _ _) as [[names V]|]; by wp_step. }
  eapply wp_mono; [exact (wp_conj _ _ _ _ (effective_names_spec user w Hwf) Hok)|].
  intros [names|[]] w' [[Hq Hr] Hne]; try done; [eauto|]. by destruct (Hne code).
Qed.

(** The answer of [me] to the holder of a session of [user]. *)
Definition answers_me (user : Uuid) (r : res err answer) : Prop :=
  exists h roles, ses_user_id (swu_session h) = user
    /\ r = Ok (Ok (json_response 200 (obj [("session", session_payload (swu_session h));
                                            ("user", user_payload_of_session h roles)]))).

Lemma me_spec tok user e req w :
  pg_wf (pg w) -> pg_ok (tick w) -> findable tok user e w -> extract req = Some tok ->
  wp (me req) (fun r w' => answers_me user r \/ expired e w w') w.
Proof.
  intros Hwf Hpg Hf Htok. unfold me. rewrite Htok. wp_step. wp_call find_active_findable; [done|done|exact Hf|].
  intros r w1 (Htd & Ht & Hr).
  assert (Hwf1 : pg_wf (pg w1)) by (destruct Htd as [->|(? & ? & Hq)]; [done|by eapply touch_session_wf]).
  destruct r as [[h|]|e']; [|wp_step; by (destruct Hr as [(? & ? & _)|?]; [|right])|by (destruct Hr as [(? & ? & _)|?]; [|right])].
  wp_step. wp_call effective_names_ok; [done|by eapply pg_ok_later|]. intros r w2 [(_ & _ & Ht2) [names ->]]. wp_step.
  destruct Hr as [(h' & [= <-] & Hu)|Hexp]; [left; by exists h, names|right]. eapply expired_later; [|exact Ht2|exact Hexp]. done.
Qed.

(** *** The login page *)

(** A path on this server: it starts with one slash, not followed by another or by a
    backslash, which browsers read as one. *)
Definition local_path (l : string) : Prop :=
  starts_with "/" l = true /\ second_byte l <> Some "/"%char /\ second_byte l <> Some "\"%char.

(** What browsers parse: they remove tabs and line breaks from a URL first (the WHATWG
    URL standard). *)
Fixpoint without_tabs (s : string) : string :=
  match s with
  | "" => ""
  | String c r => if (byte c =? 9)%N || (byte c =? 10)%N || (byte c =? 13)%N then without_tabs r else String c (without_tabs r)
  end.

(** A header value without tabs is parsed as it is. *)
Lemma without_tabs_same l : header_value_ok l = true -> contains_byte "009"%char l = false -> without_tabs l = l.
Proof.
  induction l as [|c l IH]; [done|]. unfold header_value_ok, contains_byte in *. simpl.
  intros [Hc Hl]%andb_prop Ht. apply orb_false_elim in Ht as [Hct Hlt]. rewrite (IH Hl Hlt).
  assert (Hne : byte c <> 9%N).
  { intros Heq. rewrite <- (ascii_N_embedding c) in Hct. unfold byte in Heq. rewrite Heq in Hct. discriminate. }
  destruct ((byte c =? 9)%N || (byte c =? 10)%N || (byte c =? 13)%N) eqn:Hb; [|done].
  rewrite !orb_true_iff, andb_true_iff, !N.eqb_eq, N.leb_le in *. exfalso. naive_solver lia.
Qed.

(** Where a browser may be sent: to a local path, and it stays on this server unless
    there is a tab in it. *)
Definition sent_to (l : string) : Prop :=
  local_path l /\ (contains_byte "009"%char l = false -> local_path (without_tabs l)).

Lemma sent_to_local l : header_value_ok l = true -> local_path l -> sent_to l.
Proof. intros Hh Hl. split; [done|]. intros Ht. by rewrite without_tabs_same. Qed.

Lemma safe_redirect_local `{UrlLib} o : local_path (safe_redirect o).
Proof.
  assert (Hroot : local_path "/") by (by repeat split). unfold safe_redirect. destruct o as [s|]; [|done].
  destruct (is_empty _); [done|]. destruct (starts_with "/" s) eqn:Hs; [|done]. cbn [negb].
  case_bool_decide as H1'; [done|]. case_bool_decide as H2'; [done|]. simpl.
  assert (Hl : local_path s) by done. destruct (url_parse s); [case_bool_decide|]; done.
Qed.

Lemma csrf_matches_spec a b : csrf_matches a b = true <-> exists t, a = Some t /\ b = Some t /\ t <> "".
Proof.
  unfold csrf_matches. split.
  - destruct a as [a|], b as [b|]; try done. destruct (is_empty a) eqn:Ha; [done|]. destruct (is_empty b); [done|]. simpl.
    intros [_ Heq]%andb_true_iff. apply bool_decide_eq_true in Heq as <-. exists a. split; [done|]. split; [done|]. by intros ->.
  - intros (t & -> & -> & Ht). rewrite (is_empty_false _ Ht). simpl. rewrite Nat.eqb_refl. by apply bool_decide_eq_true.
Qed.

Context `{!Askama LoginPage} `{UrlLib}.

(** What a submitted form leaves: nothing if it does not carry the cookie's token; else
    a session for the right credentials at most. *)
Definition page_outcome (state : LoginState) (form : LoginForm) (req : HttpRequest) w (r : res err answer) w' : Prop :=
  (exists t, lf_csrf_token form = Some t /\ cookie req CSRF_COOKIE = Some t /\ t <> ""
     /\ left_behind (pg w) (lf_email form) (lf_password form) (pg w')
     /\ forall resp, r = Ok (Ok resp) -> rs_cookies resp <> [] -> logged_in state (lf_email form) (lf_password form) w resp w')
  \/ (w' = w /\ exists resp, r = Ok (Ok resp) /\ rs_cookies resp = []).

Lemma submit_login_spec state form req w :
  pg_wf (pg w) -> backed w ->
  wp (submit_login state form req) (fun r w' =>
    (forall resp l, r = Ok (Ok resp) -> ("Location", l) ∈ rs_headers resp -> sent_to l) /\ page_outcome state form req w r w') w.
Proof.
  intros Hwf Hb. unfold submit_login. destruct (csrf_matches _ _) eqn:Hcsrf; cbn [negb].
  2:{ wp_step. split; [|right; by eauto]. intros resp l [= <-] [[= ->]|Hl%not_elem_of_nil]%elem_of_cons; [|done].
      by apply sent_to_local. }
  apply csrf_matches_spec in Hcsrf as (t & Hform & Hck & Ht).
  assert (Hrest : forall r w', left_behind (pg w) (lf_email form) (lf_password form) (pg w') ->
    (forall resp, r = Ok (Ok resp) -> rs_cookies resp <> [] -> logged_in state (lf_email form) (lf_password form) w resp w') ->
    page_outcome state form req w r w') by (intros r w' Hl Hc; left; by exists t).
  wp_step. wp_call login_spec. intros r w1 [Hq Hu].
  destruct r as [[u|]|e]; [|wp_step; unfold render_page|split; [done|]; apply Hrest; [left; apply Hq|done]].
  2:{ destruct (askama_render _) as [html|]; (split; [intros resp l [= <-]; by intros Hl%not_elem_of_nil || done|]);
        (apply Hrest; [left; apply Hq|by intros resp [= <-]]). }
  pose proof (Hu u eq_refl) as Hcred. assert (Hen : usr_enabled u = true) by (by destruct Hcred as (? & ? & ? & _ & _ & _ & ? & _)).
  destruct Hq as (Hp & Hr & Htk).
  assert (Hb1 : backed w1) by (eapply backed_kept; [|apply kept_same; by rewrite Hp|done]; split; [done|]; rewrite Hr; by left).
  assert (Hleft : forall w', new_session (usr_id u) (pg w1) (pg w') -> left_behind (pg w) (lf_email form) (lf_password form) (pg w')).
  { intros w' Hnew. rewrite Hp in Hnew. right. by exists u. }
  wp_step. wp_call create_session_spec; [done|]. intros [s|e] w2 Hs.
  2:{ split; [done|]. apply Hrest; [|done]. destruct Hs as [Hs|Hs]; [left; congruence|by apply Hleft]. }
  pose proof (opened_new _ _ _ _ _ Hs) as Hnew. rewrite Hen in Hs.
  apply (opened_between _ _ _ w _ _ w2 Hp Htk (quiet_refl _)) in Hs. wp_step.
  unfold see_other_with. destruct (header_value_ok _) eqn:Hh.
  - split; [intros resp l [= <-] [[= ->]|Hl%not_elem_of_nil]%elem_of_cons; [apply sent_to_local; [done|apply safe_redirect_local]|done]|].
    apply Hrest; [by apply Hleft|]. intros resp [= <-] _. by exists u, s.
  - split; [intros resp l [= <-]; by intros Hl%not_elem_of_nil|]. apply Hrest; [by apply Hleft|]. by intros resp [= <-].
Qed.
End Endpoints.

(** ** Theorems *)

(** C14: Logging in opens a session that works.  Whatever fails, a login is answered
    with 200, 401, 429 or 500.  With a 401 or a 429 the tables are as they were; with a
    500 too, or a session of a user whose credentials were right was opened.  With a
    200 the identifier and the password are those of an enabled, verified user, and one
    session of that user, of eight hours, is the only change of the tables; its token is
    in the one, [HttpOnly], cookie of the answer, and a request with that token (which
    is not blank) is answered by [me] with that user, when Postgres answers and the
    session has not expired.  Only a 200 sets a cookie. *)
Theorem login_then_me `{RedisLaws} `{EnvLaws} `{CryptoLaws} `{!DigestInjective} `{Texts} `{UnicodeTables} `{Argon2Lib}
  `{ValueParser} `{ErrorTexts} `{!JsonCodec SessionSnapshot} `{!JsonCodecLaws SessionSnapshot} state body req w r w' :
  pg_wf (pg w) -> backed w -> login state body req w = (r, w') ->
  let resp := on_wire r in
  ((rs_status resp = 401%Z \/ rs_status resp = 429%Z) /\ rs_cookies resp = [] /\ pg w' = pg w)
  \/ (rs_status resp = 500%Z /\ rs_cookies resp = []
      /\ left_behind (pg w) (resolve_identifier body) (lq_password body) (pg w'))
  \/ rs_status resp = 200%Z /\ exists u s, credentials_of (pg w) (resolve_identifier body) (lq_password body) u
       /\ opened (usr_id u) true s w w'
       /\ rs_cookies resp = [session_cookie (ses_session_token s) (cc_secure (cfg_cookie (lg_config state))) 28800]
       /\ forall req2 r2 w2, pg_ok (tick w') -> trim (ses_session_token s) <> "" ->
            extract req2 = Some (ses_session_token s) -> me req2 w' = (r2, w2) ->
            answers_me (usr_id u) r2 \/ exists e, ses_expires_at s = Some e /\ expired e w' w2.
Proof.
  intros Hwf Hb Hrun. pose proof (wp_run _ _ _ _ _ (login_handler_spec state body req w Hwf Hb) Hrun) as Ho.
  destruct r as [[resp|[]]|e]; simpl in Ho |- *; try done; [|left; by auto|right; left; by auto].
  destruct Ho as [(Hst & u & s & Hc & Ho & Hck)|(Hst & Hck & Hp)]; [do 2 right|left; by auto].
  split; [done|]. exists u, s. split; [done|]. split; [done|]. split; [done|].
  intros req2 r2 w2 Hpg Hne Htok Hme.
  assert (Hwf' : pg_wf (pg w')) by (eapply insert_session_wf; [done|apply Ho]).
  destruct Hc as (name & pw & c & _ & _ & [[i Hi] _] & Hen & _).
  assert (Hi' : users (pg w) !! usr_id u = Some u) by (by rewrite (wf_users_key _ Hwf _ _ Hi)).
  destruct (opened_findable _ _ _ _ _ Ho Hne Hi' Hen) as (e & He & Hf).
  destruct (wp_run _ _ _ _ _ (me_spec _ _ _ req2 w' Hwf' Hpg Hf Htok) Hme) as [?|?]; [by left|right; eauto].
Qed.

(** C15: The login page cannot be driven from elsewhere.  Whatever is submitted and
    whatever fails, the browser is sent only to a path that starts with one slash and
    goes on with neither a slash nor a backslash, which a browser takes to be on this
    server unless there is a tab in it; without a CSRF token that is not empty and
    equal to the cookie nothing at all changes and no cookie is set; and a session is
    opened, and its cookie set, only for the right credentials of an enabled, verified
    user. *)
Theorem login_page_guarded `{RedisLaws} `{EnvLaws} `{CryptoLaws} `{!DigestInjective} `{UnicodeTables} `{Argon2Lib}
  `{ValueParser} `{!JsonCodec SessionSnapshot} `{!JsonCodecLaws SessionSnapshot} `{!Askama LoginPage} `{UrlLib}
  state form req w r w' :
  pg_wf (pg w) -> backed w -> submit_login state form req w = (r, w') ->
  (forall resp l, r = Ok (Ok resp) -> ("Location", l) ∈ rs_headers resp ->
     local_path l /\ (contains_byte "009"%char l = false -> local_path (without_tabs l)))
  /\ ((exists t, lf_csrf_token form = Some t /\ cookie req CSRF_COOKIE = Some t /\ t <> ""
         /\ left_behind (pg w) (lf_email form) (lf_password form) (pg w')
         /\ forall resp, r = Ok (Ok resp) -> rs_cookies resp <> [] -> logged_in state (lf_email form) (lf_password form) w resp w')
      \/ (w' = w /\ exists resp, r = Ok (Ok resp) /\ rs_cookies resp = [])).
Proof. intros Hwf Hb Hrun. exact (wp_run _ _ _ _ _ (submit_login_spec state form req w Hwf Hb) Hrun). Qed.

(** ** Witnesses *)

Import Instances JsonInstance.

Definition demo_config : Config :=
  default (mkConfig (mkServerConfig "" 0 "") (mkDbConfig "" 0) (mkRedisConfig "" 0 None) (mkJwtConfig 0 0) (mkCookieConfig false)
    (mkCorsConfig false [] [] [] false) (mkRedisTtlConfig 0 0 0 0) (mkRateLimitConfig 0 0 0 0 0 0 0 0 0 0) None "")
    (ok (load (fun _ => None))).
Definition demo_login_state : LoginState := mkLoginState demo_config demo_login.
Definition login_request : LoginRequest := mkLoginRequest (Some "a") None (Some "old password").
Definition login_run : res err answer * World := login demo_login_state login_request (mkHttpRequest [] [] (Some "::1")) world_password.
Definition demo_response (r : res err answer) : HttpResponse := match r with Ok (Ok resp) => resp | _ => finish 0 end.
Definition cookie_values (r : res err answer) : list string := ck_value <$> rs_cookies (demo_response r).
Definition login_token : string := default "" (head (cookie_values login_run.1)).
Definition with_cookie (name value : string) : HttpRequest := mkHttpRequest [] [(name, value)] None.

#[local] Instance demo_texts_of_errors : ErrorTexts := {| err_text _ := "error"; u64_to_string _ := "0" |}.

Lemma login_then_me_witness :
  rs_status (demo_response login_run.1) = 200%Z
  /\ answers_me 7 (me (with_cookie SESSION_COOKIE login_token) login_run.2).1.
Proof.
  assert (Hr : login_run.1 = Ok (Ok (demo_response login_run.1))) by (vm_compute; reflexivity).
  assert (Hs : rs_status (demo_response login_run.1) = 200%Z) by (vm_compute; reflexivity). split; [exact Hs|].
  destruct (login_then_me _ _ _ _ _ _ world_password_wf world_password_backed (run_fst _ _ _ Hr))
    as [[Hbad _]|[[Hbad _]|(_ & u & s & Hc & Ho & Hck & Hme)]].
  1-2: cbn [on_wire] in Hbad; rewrite Hs in Hbad; destruct_or? Hbad; discriminate.
  cbn [on_wire] in Hck.
  assert (Ht : login_token = ses_session_token s) by (unfold login_token, cookie_values; rewrite Hck; reflexivity).
  assert (Hne : bool_decide (trim login_token = "") = false) by (vm_compute; reflexivity). rewrite bool_decide_eq_false in Hne.
  assert (He : extract (with_cookie SESSION_COOKIE login_token) = Some login_token) by (vm_compute; reflexivity).
  assert (Hu : usr_id u = 7%N).
  { destruct Hc as (? & ? & ? & _ & _ & [[i Hi] _] & _). assert (Hone : map_to_list (users (pg world_password)) = [(7%N, demo_user)])
      by (vm_compute; reflexivity). apply elem_of_map_to_list in Hi. rewrite Hone in Hi.
    apply list_elem_of_singleton in Hi. injection Hi as _ ->. reflexivity. }
  assert (Htk : (tick (me (with_cookie SESSION_COOKIE login_token) login_run.2).2 <? 1000) = true) by (vm_compute; reflexivity).
  rewrite <- Hu. rewrite Ht in Hne, He, Htk |- *.
  destruct (Hme _ _ _ (demo_pg_ok _) Hne He (surjective_pairing _)) as [Ha|(e & Hexp & n & Hn & Hlt)]; [exact Ha|].
  exfalso. destruct Ho as (_ & _ & n0 & _ & _ & _ & _ & _ & _ & _ & He0 & _). rewrite He0 in Hexp. injection Hexp as <-.
  apply Nat.ltb_lt in Htk.
  pose proof (ends_ge (clock n0 + seconds (SESSION_TTL_HOURS * 3600))%Z) as Hge. unfold pg_epoch, seconds, SESSION_TTL_HOURS in *.
  cbn [clock demo_env] in *. fold login_run in Hn. lia.
Defined.

#[local] Instance demo_login_page : Askama LoginPage := {| askama_render _ := Some "<html>" |}.
#[local] Instance demo_url : UrlLib := {| url_parse _ := None; port_text _ := "0" |}.

Definition login_form : LoginForm := mkLoginForm (Some "a@b") (Some "old password") (Some "//evil.example") (Some "csrf").
Definition page_run (csrf : string) : res err answer * World :=
  submit_login demo_login_state login_form (with_cookie CSRF_COOKIE csrf) world_password.

(** With the right cookie a session is opened, and the browser goes to the root. *)
Lemma login_page_guarded_witness :
  rs_headers (demo_response (page_run "csrf").1) = [("Location", "/")]
  /\ (exists u s, credentials_of (pg world_password) (Some "a@b") (Some "old password") u
       /\ opened (usr_id u) true s world_password (page_run "csrf").2)
  /\ (page_run "other").2 = world_password.
Proof.
  assert (Hr : (page_run "csrf").1 = Ok (Ok (demo_response (page_run "csrf").1))) by (vm_compute; reflexivity).
  assert (Hck : bool_decide (cookie_values (page_run "csrf").1 = []) = false) by (vm_compute; reflexivity).
  rewrite bool_decide_eq_false in Hck.
  split; [vm_compute; reflexivity|]. split; [|reflexivity].
  destruct (login_page_guarded _ _ _ _ _ _ world_password_wf world_password_backed (run_fst _ _ _ Hr))
    as [_ [(t & _ & _ & _ & _ & Hl)|(_ & resp & [= <-] & Hno)]].
  - destruct (Hl _ eq_refl) as (u & s & Hc & Ho & _); [|by exists u, s]. intros Hno. apply Hck. unfold cookie_values. by rewrite Hno.
  - exfalso. apply Hck. unfold cookie_values. by rewrite Hno.
Defined.

(** ** Where the endpoints do not do what they mean to *)

(** *** A redirect that leaves the server

    A tab between two slashes passes the check, is a legal header value, and is gone
    when the browser parses what remains as a host. *)
Example safe_redirect_leaves :
  let l := String "/" (String "009" "/evil.example") in
  safe_redirect (Some l) = l /\ header_value_ok l = true /\ without_tabs l = "//evil.example".
Proof. repeat split; vm_compute; reflexivity. Qed.

(** *** A session without its token

    [me] reports the session as the lookup returns it; from the cache that is without
    the token and the last access, so the second answer differs from the first. *)
Definition me_token (r : res err answer) : option string :=
  match r with
  | Ok (Ok resp) => match rs_body resp with Json v => (value_get v "session" ≫= (fun s => value_get s "sessionToken")) ≫= as_str | _ => None end
  | _ => None
  end.

Example me_forgets_token :
  let first := me (with_cookie SESSION_COOKIE "tok") world_sessions in
  me_token first.1 = Some "tok" /\ me_token (me (with_cookie SESSION_COOKIE "tok") first.2).1 = Some "".
Proof. split; vm_compute; reflexivity. Qed.

(** *** A login that keeps its bucket

    The counter of failed attempts is one of all attempts: it stands after a login
    that succeeded. *)
Example login_keeps_counting :
  match (redis_get (Keys.rl_login_email "a") login_run.2).1 with Ok (Some "1") => true | _ => false end = true.
Proof. vm_compute. reflexivity. Qed.
