(* ===== verification/Signup.v ===== *)
(** * Registration ([signup/flow.rs], [signup/dto.rs])

    Registration writes the user, its password credential, its default role and
    an e-mail verification token in one transaction.  The token, redeemed once
    within a day, marks the address as verified, which login requires. *)

From stdpp Require Import base tactics list gmap strings.
From Stdlib Require Import ZArith Lia Ascii.
From S2P Require Import Prelude RustStr Redis Schema World Ext Demo DemoJson Hashing.
From S2P Require Import Role User Session AccountTokens Integrity Secrets Password.

Local Open Scope auth_scope.

(** ** SignupFlow *)

Definition VERIFICATION_TOKEN_TTL_HOURS : Z := 24.
Definition VERIFICATION_TOKEN_BYTES : nat := 32.
Definition MIN_PASSWORD_LEN : nat := 8.

Record SignupRequest := mkSignupRequest {
  sr_email : option string;
  sr_password : option string;
  sr_username : option string;
  sr_first_name : option string;
  sr_last_name : option string;
}.

Inductive SignupError := SignupInvalidRequest (msg : string) | Conflict (msg : string).
Inductive VerifyEmailError := VerifyInvalidRequest (msg : string) | VerifyInvalidToken (msg : string).

Record SignupSuccess := mkSignupSuccess { su_user_id : Uuid; su_verification_token_raw : string }.

Definition map_db_err (_ : err) : SignupError := SignupInvalidRequest "internal".

Definition map_unique_or_internal (e : err) : SignupError :=
  match e with
  | EDb (Some "23505") => Conflict "email or username already registered"
  | _ => SignupInvalidRequest "internal"
  end.

Record SignupFlow := mkSignupFlow { sf_hmac : HmacSha256 }.

Section Flow.
Context `{RedisServer} `{Env} `{UnicodeTables} `{Crypto} `{Argon2Lib}.

(** The end of [signup]: the verification token, and the commit. *)
Definition signup_finish (self : SignupFlow) (user_id : Uuid) (now : Z) (tx : Tx) : io (res SignupError SignupSuccess) :=
  let! token_raw := url_safe VERIFICATION_TOKEN_BYTES in
  let token_hash := compute (sf_hmac self) token_raw in
  let! verification_id := uuid_new_v4 in
  try! ' (_, tx) := tx_try (insert_verification (mkEmailVerification verification_id user_id token_hash
    (now + seconds (VERIFICATION_TOKEN_TTL_HOURS * 3600))%Z None now)) tx else map_db_err in
  try! _ := commit tx else map_db_err in
  ret (Ok (mkSignupSuccess user_id token_raw)).

Definition signup (self : SignupFlow) (req : SignupRequest) : io (res SignupError SignupSuccess) :=
  let email := default "" (sr_email req) in
  let password := default "" (sr_password req) in
  let username := default "" (sr_username req) in
  if is_empty (trim email) || is_empty (trim password) || is_empty (trim username)
  then ret (Err (SignupInvalidRequest "email, password, username are required"))
  else if String.length password <? MIN_PASSWORD_LEN
  then ret (Err (SignupInvalidRequest "password must be at least 8 characters"))
  else
    let normalized_email := to_lowercase (trim email) in
    let! now := utc_now in
    let! hashed := hash password in
    try! tx := begin_tx else map_db_err in
    try! ' (exists_email, tx) := tx_fetch_optional (fun d =>
      usr_id <$> where_ (fun u => sql_lower (usr_email u) = normalized_email) (users d)) tx else map_db_err in
    if bool_decide (is_Some exists_email) then ret (Err (Conflict "email already registered"))
    else
    try! ' (exists_username, tx) := tx_fetch_optional (fun d =>
      usr_id <$> where_ (fun u => usr_username u = username) (users d)) tx else map_db_err in
    if bool_decide (is_Some exists_username) then ret (Err (Conflict "username already taken"))
    else
    let! user_id := uuid_new_v4 in
    try! ' (_, tx) := tx_try (insert_user (mkUser user_id normalized_email false username
      (sr_first_name req) (sr_last_name req) true now now)) tx else map_unique_or_internal in
    let! credential_id := uuid_new_v4 in
    try! ' (_, tx) := tx_try (insert_credential (mkCredential credential_id "password" (Some (secret_data hashed))
      (Some (credential_data hashed)) now now user_id)) tx else map_db_err in
    let! role := attempt (find_by_name "user") in
    let! tx := match role with
      | Ok (Some role) =>
          let! ' (_, tx) := tx_execute (insert_user_role user_id (role_id role)) tx in
          ret tx
      | _ => ret tx
      end in
    signup_finish self user_id now tx.

Definition verify_email (self : SignupFlow) (token_raw : string) : io (res VerifyEmailError Uuid) :=
  if is_empty (trim token_raw) then ret (Err (VerifyInvalidRequest "token is required"))
  else
    let hash := compute (sf_hmac self) token_raw in
    try! verification := find_verification_by_token_hash hash
      else (fun _ => VerifyInvalidToken "verification token not found") in
    match verification with
    | None => ret (Err (VerifyInvalidToken "verification token not found"))
    | Some v =>
        if bool_decide (is_Some (ev_consumed_at v)) then ret (Err (VerifyInvalidToken "verification token already used"))
        else
          let! now := utc_now in
          if (ev_expires_at v <? now)%Z then ret (Err (VerifyInvalidToken "verification token expired"))
          else
            let internal := fun _ => VerifyInvalidToken "internal" in
            try! ' (tx_now, tx) := begin_tx_now else internal in
            try! ' (_, tx) := tx_try (verify_user_email (ev_user_id v) tx_now) tx else internal in
            try! ' (_, tx) := tx_try (consume_verification (ev_id v) tx_now) tx else internal in
            try! _ := commit tx else internal in
            ret (Ok (ev_user_id v))
    end.
End Flow.

(** ** What registration writes *)

Section Registration.
Context `{RedisLaws} `{EnvLaws} `{UnicodeTables} `{Argon2Laws} `{!Argon2Injective} `{CryptoLaws} `{ValueParserLaws}.
Implicit Types w : World.
Implicit Types d : Pg.

Lemma insert_user_inv u d a d' :
  insert_user u d = Ok (a, d') ->
  exists row, user_row u = Ok row /\ d' = on_users <[usr_id u := row]> d /\ users d !! usr_id u = None.
Proof. intros Hs. unfold insert_user in Hs. stmt_inv Hs. bools. eauto using has_row_none. Qed.

Lemma user_row_inv u row :
  user_row u = Ok row ->
  usr_id row = usr_id u /\ varchar 255 (usr_email u) = Ok (usr_email row) /\ varchar 255 (usr_username u) = Ok (usr_username row)
  /\ usr_email_verified row = usr_email_verified u /\ usr_enabled row = usr_enabled u.
Proof. intros Hs. unfold user_row in Hs. by stmt_inv Hs. Qed.

Lemma insert_password_inv id h now u pw d a d' :
  (forall raw, verify raw (secret_data h) (credential_data h) = true <-> raw = pw) ->
  insert_credential (mkCredential id "password" (Some (secret_data h)) (Some (credential_data h)) now now u) d
    = Ok (a, d') ->
  exists c, d' = on_credentials <[cred_id c := c]> d /\ credentials d !! cred_id c = None
    /\ cred_user_id c = u /\ cred_type c = "password" /\ opens pw c.
Proof.
  intros Hv Hs. unfold insert_credential in Hs. cbn [cred_type] in Hs.
  destruct (varchar 50 "password") eqn:Ht; [|done]. cbn [rbind] in Hs. stmt_inv Hs. bools.
  exists (mkCredential id "password" (Some (secret_data h)) (Some (credential_data h)) (pg_ts now) (pg_ts now) u).
  vm_compute in Ht. injection Ht as <-. split; [done|]. split; [by apply has_row_none|]. by repeat split; apply Hv.
Qed.

Lemma insert_user_role_inv u r d a d' :
  insert_user_role u r d = Ok (a, d') -> d' = on_user_roles (fun Y => {[(u, r)]} ∪ Y) d.
Proof.
  unfold insert_user_role. case_bool_decide as Hin.
  - intros [= _ <-]. unfold on_user_roles. rewrite (subseteq_union_1_L {[(u, r)]}) by set_solver. by destruct d.
  - intros Hs. by stmt_inv Hs.
Qed.

Lemma insert_verification_inv v d a d' :
  insert_verification v d = Ok (a, d') ->
  d' = on_email_verifications <[ev_id v := mkEmailVerification (ev_id v) (ev_user_id v) (ev_token_hash v)
         (pg_ts (ev_expires_at v)) (pg_ts <$> ev_consumed_at v) (pg_ts (ev_created_at v))]> d
  /\ email_verifications d !! ev_id v = None.
Proof. intros Hs. unfold insert_verification in Hs. stmt_inv Hs. bools. auto using has_row_none. Qed.

(** The roles [X] a user registered between the ticks [n] and [n'] is given: the role
    [user], or none if there is no such role or Postgres did not answer. *)
Definition role_given (n n' : nat) (id : Uuid) d (X : gset (Uuid * Uuid)) : Prop :=
  (exists i r, roles d !! i = Some r /\ role_name r = "user" /\ X = {[(id, role_id r)]})
  \/ X = ∅ /\ ((forall i r, roles d !! i = Some r -> role_name r <> "user") \/ exists m, n <= m < n' /\ pg_reply m <> Served).

(** [d'] is [d] with the user [id] registered: not verified, the password of the
    request, the role [user], and a verification token. *)
Definition registered (self : SignupFlow) (req : SignupRequest) (n n' : nat) (id : Uuid) (token : string) d d' : Prop :=
  exists u c v X,
    d' = mkPg (<[id := u]> (users d)) (<[cred_id c := c]> (credentials d)) (roles d) (X ∪ user_roles d)
           (user_sessions d) (clients d) (redirect_uris d) (refresh_tokens d) (user_consents d)
           (<[ev_id v := v]> (email_verifications d)) (password_resets d)
    /\ (users d !! id = None /\ usr_id u = id /\ usr_email_verified u = false /\ usr_enabled u = true
         /\ varchar 255 (to_lowercase (trim (default "" (sr_email req)))) = Ok (usr_email u)
         /\ varchar 255 (default "" (sr_username req)) = Ok (usr_username u))
    /\ (credentials d !! cred_id c = None /\ cred_user_id c = id /\ cred_type c = "password"
         /\ opens (default "" (sr_password req)) c)
    /\ (email_verifications d !! ev_id v = None /\ ev_user_id v = id /\ ev_consumed_at v = None
         /\ ev_token_hash v = compute (sf_hmac self) token)
    /\ role_given n n' id d X.

Definition signed_up (self : SignupFlow) (req : SignupRequest) w (r : res err (res SignupError SignupSuccess)) w' : Prop :=
  redis w' = redis w /\
  match r with
  | Ok (Ok s) => registered self req (tick w) (tick w') (su_user_id s) (su_verification_token_raw s) (pg w) (pg w')
  | Ok (Err (Conflict _)) => pg w' = pg w
  | Ok (Err (SignupInvalidRequest _)) =>
      pg w' = pg w \/ exists id token, registered self req (tick w) (tick w') id token (pg w) (pg w')
  | Err _ => False
  end.

(** A query that finds a row, or none; or Postgres did not answer. *)
Lemma wp_find_named_role name Q w :
  (forall o, match o with
             | Some r => role_name r = name /\ exists i, roles (pg w) !! i = Some r
             | None => forall i r, roles (pg w) !! i = Some r -> role_name r <> name
             end -> Q (Ok o) (bump w)) ->
  (forall c, pg_reply (tick w) <> Served -> Q (Err (EDb c)) (bump w)) -> wp (find_by_name name) Q w.
Proof.
  intros Hok Herr. unfold find_by_name. apply wp_fetch_optional_why; [|done]. apply Hok.
  destruct (head _) as [r|] eqn:Hh.
  - apply head_elem in Hh. rewrite row_order_perm in Hh. by apply elem_of_where in Hh.
  - apply head_None in Hh. intros i r Hi Hn. assert (Hin : r ∈ where_ (fun r => role_name r = name) (roles (pg w)))
      by (apply elem_of_where; eauto). rewrite <- (row_order_perm (tick w)), Hh in Hin. by apply not_elem_of_nil in Hin.
Qed.

Lemma role_given_later n n' m id d X : n' <= m -> role_given n n' id d X -> role_given n m id d X.
Proof.
  intros Hle [Hr|[-> [Hno|(k & Hk & Hrep)]]]; [by left|right; split; [done|by left]|right; split; [done|right]].
  exists k. split; [lia|done].
Qed.

Lemma signup_finish_spec self req w id now u c X tx w2 :
  pg w2 = pg w -> redis w2 = redis w -> tick w <= tick w2 ->
  (forall d, tx = TxOpen d ->
     d = on_user_roles (fun Y => X ∪ Y) (on_credentials <[cred_id c := c]> (on_users <[id := u]> (pg w)))) ->
  users (pg w) !! id = None /\ usr_id u = id /\ usr_email_verified u = false /\ usr_enabled u = true
    /\ varchar 255 (to_lowercase (trim (default "" (sr_email req)))) = Ok (usr_email u)
    /\ varchar 255 (default "" (sr_username req)) = Ok (usr_username u) ->
  credentials (pg w) !! cred_id c = None /\ cred_user_id c = id /\ cred_type c = "password"
    /\ opens (default "" (sr_password req)) c ->
  role_given (tick w) (tick w2) id (pg w) X ->
  wp (signup_finish self id now tx) (signed_up self req w) w2.
Proof.
  intros Hp Hr Ht2 Htx Hu Hc HX. unfold signup_finish, url_safe. do 6 wp_step.
  set (v := mkEmailVerification _ _ _ _ _ _). set (token := b64url_encode _).
  destruct tx as [d| |].
  - specialize (Htx d eq_refl).
    assert (Hreg : forall n d', tick w2 <= n -> insert_verification v d = Ok (tt, d') ->
      registered self req (tick w) n id token (pg w) d').
    { intros n d' Hn [-> Hvn]%insert_verification_inv. rewrite Htx in *.
      exists u, c, (mkEmailVerification (ev_id v) id (ev_token_hash v) (pg_ts (ev_expires_at v)) None (pg_ts now)), X.
      split; [reflexivity|]. do 2 (split; [done|]). split; [by repeat split|]. by eapply role_given_later. }
    do 2 wp_step.
    + destruct a. do 2 wp_step; [wp_step|..]; (split; [done|]); simpl; auto; [apply Hreg; [lia|done]|].
      right. exists id, token. apply Hreg; [lia|done].
    + split; [done|]. by left.
  - wp_step. apply wp_tx_try_dead; [done|]. split; [done|]. by left.
  - wp_step. apply wp_tx_try_dead; [done|]. split; [done|]. by left.
Qed.

Lemma signup_spec self req w :
  (Z.of_nat (String.length (default "" (sr_password req))) < 4294967296)%Z ->
  wp (signup self req) (signed_up self req w) w.
Proof.
  intros Hlen. unfold signup. cbv zeta. do 2 (wp_step; [wp_step; split; [done|by left]|]).
  do 3 wp_step. wp_call hash_spec; [done|]. intros ? w1 (-> & h & -> & Hv).
  assert (Hstop : forall w2, pg w2 = pg w -> redis w2 = redis w -> signed_up self req w (Ok (Err (SignupInvalidRequest "internal"))) w2)
    by (intros w2 Hp2 Hr2; split; [done|by left]).
  do 2 wp_step; [|by apply Hstop]. do 2 wp_step; [|by apply Hstop]. case_bool_decide; [by wp_step|].
  do 2 wp_step; [|by apply Hstop]. case_bool_decide; [by wp_step|]. do 2 wp_step.
  do 2 wp_step; [|split; [done|]; simpl; repeat case_match; auto].
  do 2 wp_step. do 2 wp_step; [|by apply Hstop]. do 2 wp_step.
  apply insert_user_inv in Hq as (row & Hrow & -> & Hnone).
  apply (insert_password_inv _ _ _ _ _ _ _ _ Hv) in Hq0 as (c & -> & Hcn & Hcu & Hct & Hco).
  apply user_row_inv in Hrow as (Hid & He & Hn & Hver & Hen). simpl in *. rewrite Nat.ltb_ge in *.
  set (id := new_v4 _) in *.
  assert (Hfin : forall X tx w2, pg w2 = pg w -> redis w2 = redis w -> tick w <= tick w2 ->
    (forall d, tx = TxOpen d ->
       d = on_user_roles (fun Y => X ∪ Y) (on_credentials <[cred_id c := c]> (on_users <[id := row]> (pg w)))) ->
    role_given (tick w) (tick w2) id (pg w) X ->
    wp (signup_finish self id (clock (tick w)) tx) (signed_up self req w) w2)
    by (intros; eapply signup_finish_spec; eauto 10).
  assert (Hnorole : forall w2, pg w2 = pg w -> redis w2 = redis w -> tick w <= tick w2 ->
    (forall i r, roles (pg w) !! i = Some r -> role_name r <> "user") \/ (exists m, tick w <= m < tick w2 /\ pg_reply m <> Served) ->
    wp (signup_finish self id (clock (tick w)) (TxOpen (on_credentials <[cred_id c := c]> (on_users <[id := row]> (pg w)))))
      (signed_up self req w) w2).
  { intros w2 Hp Hr Ht Hno. apply (Hfin ∅); [done..| |by right]. intros d [= <-]. unfold on_user_roles. by rewrite union_empty_l_L. }
  apply wp_find_named_role.
  2:{ intros e Hrep. wp_step. wp_step. apply Hnorole; simpl; [done|done|lia|]. right. eexists. split; [|exact Hrep]. simpl. lia. }
  intros [r|] Hr; [|wp_step; wp_step; apply Hnorole; simpl; [done|done|lia|by left]].
  destruct Hr as [Hrn [ri Hri]].
  assert (Hgiven : forall n', role_given (tick w) n' id (pg w) {[(id, role_id r)]}) by (intros n'; left; by exists ri, r).
  do 3 wp_step.
  - wp_step. apply insert_user_role_inv in Hq as ->. apply (Hfin {[(id, role_id r)]}); simpl; [done|done|lia|by intros d [= <-]|done].
  - wp_step. apply (Hfin {[(id, role_id r)]}); simpl; [done|done|lia|done|done].
  - wp_step. apply (Hfin {[(id, role_id r)]}); simpl; [done|done|lia|done|done].
Qed.

(** The tables stay well-formed. *)
Lemma signup_finish_wf self id now tx w :
  pg_wf (pg w) -> (forall d, tx = TxOpen d -> pg_wf d) ->
  wp (signup_finish self id now tx) (fun _ w' => pg_wf (pg w')) w.
Proof.
  intros Hwf Htx. unfold signup_finish, url_safe. do 6 wp_step. wp_step.
  destruct tx as [d| |]; [|by apply wp_tx_try_dead..]. specialize (Htx d eq_refl).
  wp_step; [|done]. apply insert_verification_wf in Hq; [|done]. do 2 wp_step; [wp_step|..]; done.
Qed.

Lemma signup_wf self req w : pg_wf (pg w) -> wp (signup self req) (fun _ w' => pg_wf (pg w')) w.
Proof.
  intros Hwf. unfold signup, hash, find_by_name. cbv zeta. do 2 (wp_step; [by wp_step|]). do 5 wp_step.
  wp_step; wp_step; [|done]. do 2 wp_step; [|done]. do 2 wp_step; [|done]. case_bool_decide; [by wp_step|].
  do 2 wp_step; [|done]. case_bool_decide; [by wp_step|]. do 2 wp_step. do 2 wp_step; [|done].
  apply insert_user_wf in Hq; [|done]. do 2 wp_step. do 2 wp_step; [|done]. apply insert_credential_wf in Hq0; [|done].
  assert (Hfin : forall now tx w2, pg_wf (pg w2) -> (forall d, tx = TxOpen d -> pg_wf d) ->
    wp (signup_finish self (new_v4 (S (S (S (S (S (tick w))))))) now tx) (fun _ w' => pg_wf (pg w')) w2)
    by (intros; by apply signup_finish_wf).
  do 2 wp_step. wp_step; wp_step; [|wp_step; apply Hfin; [done|by intros ? [= <-]]].
  wp_step; [|wp_step; apply Hfin; [done|by intros ? [= <-]]].
  do 2 wp_step; wp_step; (apply Hfin; [done|]); intros ? [= <-]. by eapply insert_user_role_wf.
Qed.

(** *** Verification *)

(** [d] with the token [v] used up at [t] and its user verified. *)
Definition verified (v : EmailVerification) (t : Z) d : Pg :=
  on_email_verifications (update_where (fun x => ev_id x = ev_id v) (set_verification_consumed (pg_ts t)))
    (on_users (update_where (fun u => usr_id u = ev_user_id v) (set_verified (pg_ts t))) d).

Lemma verified_wf v t d : pg_wf d -> pg_wf (verified v t d).
Proof. intros Hwf. eapply consume_verification_wf, eq_refl. eapply verify_user_email_wf, eq_refl. exact Hwf. Qed.

(** [v] is the stored, unused token of [token]. *)
Definition redeemable (self : SignupFlow) (token : string) d (v : EmailVerification) : Prop :=
  email_verifications d !! ev_id v = Some v /\ ev_token_hash v = compute (sf_hmac self) token
  /\ ev_consumed_at v = None.

Lemma verify_email_spec self token w :
  pg_wf (pg w) ->
  wp (verify_email self token) (fun r w' => redis w' = redis w /\
    match r with
    | Ok (Ok u) => exists v n t, redeemable self token (pg w) v /\ u = ev_user_id v
        /\ tick w <= n < tick w' /\ (clock n <= ev_expires_at v)%Z /\ pg w' = verified v t (pg w)
    | Ok (Err _) => pg w' = pg w \/ exists v t, redeemable self token (pg w) v /\ pg w' = verified v t (pg w)
    | Err _ => False
    end) w.
Proof.
  intros Hwf. unfold verify_email. wp_step; [wp_step; auto|]. wp_step. unfold find_verification_by_token_hash.
  wp_step; [|auto].
  pose proof (head_where_unique ev_token_hash (email_verifications (pg w)) (tick w) (compute (sf_hmac self) token)
    (wf_verifications_hash _ Hwf)) as Hh.
  destruct (head _) as [v|]; [|wp_step; auto]. destruct Hh as [Hh [i Hi]].
  case_bool_decide as Hc; [wp_step; auto|]. do 2 wp_step. wp_step; [wp_step; auto|].
  assert (Hr : redeemable self token (pg w) v).
  { split; [by rewrite (wf_verifications_key _ Hwf _ _ Hi)|]. split; [done|]. by apply eq_None_not_Some. }
  do 2 wp_step; [|auto]. do 2 wp_step; [|auto]. do 2 wp_step; [|auto]. injection Hq as <- <-. injection Hq0 as <- <-.
  do 2 wp_step; [wp_step|..]; (split; [done|]); simpl in *; [|auto|right; by exists v, (pg_clock (S (S (tick w))))].
  exists v, (S (tick w)), (pg_clock (S (S (tick w)))). split; [done|]. split; [done|]. split; [lia|]. split; [lia|done].
Qed.

(** *** The new account *)

Lemma signup_accepts self req w s w' :
  signup self req w = (Ok (Ok s), w') ->
  trim (default "" (sr_username req)) <> "" /\ MIN_PASSWORD_LEN <= String.length (default "" (sr_password req)).
Proof.
  unfold signup. cbv zeta. destruct (_ || _) eqn:Hb; [done|]. destruct (_ <? _) eqn:Hlen; [done|]. intros _.
  rewrite Nat.ltb_ge in Hlen. rewrite !orb_false_iff in Hb. destruct_and!. split; [|done].
  intros He. by rewrite He in *.
Qed.

Lemma registered_password self req n n' id token d d' :
  pg_wf d -> registered self req n n' id token d d' ->
  one_password d' id /\ exists c, password_of d' id c /\ opens (default "" (sr_password req)) c.
Proof.
  intros Hwf (u & c & v & X & -> & (Hnone & _) & (_ & Hcu & Hct & Hco) & _). split.
  - assert (Hc : forall x, (exists i, <[cred_id c:=c]> (credentials d) !! i = Some x) -> cred_user_id x = id -> x = c).
    { intros x [i [[_ <-]|[_ Hi]]%lookup_insert_Some] Hx; [done|].
      destruct (wf_credentials_user _ Hwf _ _ Hi) as [y Hy]. congruence. }
    intros x y (Hx & Hxu & _) (Hy & Hyu & _). by rewrite (Hc x), (Hc y).
  - exists c. split; [|done]. split; [|done]. exists (cred_id c). apply lookup_insert_eq.
Qed.

(** The token of a registration is the new user's. *)
Lemma registered_token self req n n' id token d d' v :
  pg_wf d' -> registered self req n n' id token d d' -> redeemable self token d' v -> ev_user_id v = id.
Proof.
  intros Hwf (u & c & x & X & Hd & _ & _ & (_ & Hxu & _ & Hxh) & _) (Hv & Hvh & _).
  assert (Hx : email_verifications d' !! ev_id x = Some x) by (rewrite Hd; apply lookup_insert_eq).
  assert (Heq : ev_id v = ev_id x) by (eapply (wf_verifications_hash _ Hwf); [done|done|congruence]).
  rewrite Heq in Hv. congruence.
Qed.

Lemma registered_user self req n n' id token d d' :
  registered self req n n' id token d d' ->
  exists u, users d' !! id = Some u /\ usr_id u = id /\ usr_email_verified u = false /\ usr_enabled u = true
    /\ varchar 255 (default "" (sr_username req)) = Ok (usr_username u).
Proof. intros (u & c & v & X & -> & (_ & Hid & Hver & Hen & _ & Hn) & _). exists u. split; [apply lookup_insert_eq|done]. Qed.
End Registration.

(** ** Theorems *)

(** C35: Registration is all or nothing.  Whatever fails on the way, the tables
    after a registration are the tables before it, or those with one new user
    (enabled, not verified), one password credential that opens with the password
    of the request only, the role [user] and one unused verification token, and nothing
    else changed; the role is missing only if there is none of that name or Postgres
    failed to answer meanwhile.  A success means the latter, with the user
    and the token returned, and a conflict the former. *)
Theorem signup_all_or_nothing `{RedisLaws} `{EnvLaws} `{UnicodeTables} `{Argon2Laws} `{!Argon2Injective}
  `{CryptoLaws} `{ValueParserLaws} self req w r w' :
  (Z.of_nat (String.length (default "" (sr_password req))) < 4294967296)%Z ->
  signup self req w = (r, w') ->
  redis w' = redis w /\
  match r with
  | Ok (Ok s) => registered self req (tick w) (tick w') (su_user_id s) (su_verification_token_raw s) (pg w) (pg w')
  | Ok (Err (Conflict _)) => pg w' = pg w
  | Ok (Err (SignupInvalidRequest _)) =>
      pg w' = pg w \/ exists id token, registered self req (tick w) (tick w') id token (pg w) (pg w')
  | Err _ => False
  end.
Proof. intros Hlen Hrun. exact (wp_run _ _ _ _ _ (signup_spec self req w Hlen) Hrun). Qed.

(** Verification uses a token once.  A verification that reports success used
    a stored token that was unused and not expired, marked the token used and its
    user's address verified, and changed nothing else; no later attempt with that
    token succeeds or changes anything. *)
Theorem verify_email_once `{RedisLaws} `{EnvLaws} `{Crypto} self token w u w' :
  pg_wf (pg w) -> verify_email self token w = (Ok (Ok u), w') ->
  (exists v n t, redeemable self token (pg w) v /\ u = ev_user_id v /\ tick w <= n < tick w'
    /\ (clock n <= ev_expires_at v)%Z /\ pg w' = verified v t (pg w))
  /\ forall w2 r w3, email_verifications (pg w2) = email_verifications (pg w') -> pg_wf (pg w2) ->
       verify_email self token w2 = (r, w3) -> (forall u', r <> Ok (Ok u')) /\ pg w3 = pg w2.
Proof.
  intros Hwf Hrun. destruct (wp_run _ _ _ _ _ (verify_email_spec self token w Hwf) Hrun)
    as (_ & v & n & t & Hr & Hu & Hn & Hexp & Hp).
  split; [by exists v, n, t|]. intros w2 r w3 Hsame Hwf2 Hrun2.
  assert (Hnone : forall x, ~ redeemable self token (pg w2) x).
  { intros x (Hx & Hxh & Hxc). rewrite Hsame, Hp in Hx. simpl in Hx. rewrite lookup_update_where in Hx.
    destruct (email_verifications (pg w) !! ev_id x) as [y|] eqn:Hy; [|done]. simpl in Hx. injection Hx as Hx.
    case_decide as Hid; [by rewrite <- Hx in Hxc|]. subst y. destruct Hr as (Hv & Hvh & _).
    assert (Hne : ev_id x = ev_id v) by (eapply (wf_verifications_hash _ Hwf); [done|done|congruence]). done. }
  destruct (wp_run _ _ _ _ _ (verify_email_spec self token w2 Hwf2) Hrun2) as (_ & Hres).
  destruct r as [[u'|e]|e]; [|split; [done|]|done].
  - destruct Hres as (x & _ & _ & Hx & _). by destruct (Hnone x).
  - destruct Hres as [Hres|(x & _ & Hx & _)]; [done|by destruct (Hnone x)].
Qed.

(** C18: From registration to login.  After a registration that succeeded, and before
    the tables change otherwise, nobody can log in as the new user; once the returned
    token is redeemed, the verified user is the new one, and (Postgres answering and the
    hashing task finishing) the user is logged in with the username and the password of
    the registration, if the username has no blanks around it and no [@]. *)
Theorem signup_then_login `{RedisLaws} `{EnvLaws} `{UnicodeTables} `{Argon2Laws} `{!Argon2Injective} `{CryptoLaws}
  `{ValueParserLaws} self req w s w1 :
  (Z.of_nat (String.length (default "" (sr_password req))) < 4294967296)%Z -> pg_wf (pg w) ->
  signup self req w = (Ok (Ok s), w1) ->
  (forall login id raw w2 w3 user, pg w2 = pg w1 -> authenticate login id raw w2 = (Ok (Some user), w3) ->
     usr_id user <> su_user_id s)
  /\ forall w2 u w3, pg w2 = pg w1 -> verify_email self (su_verification_token_raw s) w2 = (Ok (Ok u), w3) ->
       u = su_user_id s
       /\ (pg_ok (tick w3) -> (forall n, tick w3 <= n -> task_ok n = true) ->
           forall name pw, sr_username req = Some name -> sr_password req = Some pw ->
           trim name = name -> contains_byte "@"%char name = false -> varchar 255 name = Ok name ->
           forall login, exists user w4, authenticate login (Some name) (Some pw) w3 = (Ok (Some user), w4)
             /\ usr_id user = su_user_id s).
Proof.
  intros Hlen Hwf Hrun. destruct (wp_run _ _ _ _ _ (signup_spec self req w Hlen) Hrun) as (_ & Hreg).
  pose proof (wp_run _ _ _ _ _ (signup_wf self req w Hwf) Hrun) as Hwf1. simpl in Hwf1.
  destruct (signup_accepts _ _ _ _ _ Hrun) as [Hname Hpw].
  destruct (registered_user _ _ _ _ _ _ _ _ Hreg) as (u & Hu & Hid & Hver & Hen & Hn). split.
  - intros login id raw w2 w3 user Hp Hauth Heq.
    destruct (wp_run _ _ _ _ _ (login_spec login id raw w2) Hauth) as [_ Hok].
    destruct (Hok _ eq_refl) as (_ & _ & _ & _ & _ & ([i Hi] & _) & _ & Hv & _). rewrite Hp in Hi.
    pose proof (wf_users_key _ Hwf1 _ _ Hi). simplify_eq. congruence.
  - intros w2 x w3 Hp Hver2. rewrite <- Hp in *.
    destruct (wp_run _ _ _ _ _ (verify_email_spec self _ w2 Hwf1) Hver2) as (_ & v & n & t & Hv & -> & _ & _ & Hp3).
    pose proof (registered_token _ _ _ _ _ _ _ _ v Hwf1 Hreg Hv) as Hvu. split; [done|].
    intros Hpg Htask name pw Hrn Hrp Htrim Hat Hvar login. rewrite Hrn, Hrp in *. simpl in *.
    rewrite Hvar in Hn. injection Hn as Hn.
    destruct (registered_password _ _ _ _ _ _ _ _ Hwf Hreg) as [Hone (c & Hc & Ho)].
    destruct (login_available login (set_verified (pg_ts t) u) c pw w3) as [w4 Hl]; simpl; try done.
    + rewrite Hp3. by apply verified_wf.
    + rewrite Hp3. simpl. rewrite lookup_update_where, Hid, Hu. simpl. by rewrite decide_True by congruence.
    + by rewrite <- Hn.
    + rewrite <- Hn. intros ->. done.
    + by rewrite <- Hn.
    + unfold one_password, password_of in *. rewrite Hp3. simpl. by rewrite Hid.
    + unfold password_of in *. rewrite Hp3, Hid. done.
    + by rewrite Hrp in Ho.
    + intros ->. simpl in Hpw. unfold MIN_PASSWORD_LEN in Hpw. lia.
    + simpl in Hl. rewrite <- Hn in Hl. by exists (set_verified (pg_ts t) u), w4.
Qed.

(** ** Witnesses *)

Import Instances JsonInstance.

Definition demo_signup : SignupFlow := mkSignupFlow (mkHmacSha256 "pepper").
Definition demo_request (username : string) : SignupRequest :=
  mkSignupRequest (Some " Bob@Example.com ") (Some "correct horse") (Some username) None None.
Definition signup_run (username : string) : res err (res SignupError SignupSuccess) * World :=
  signup demo_signup (demo_request username) world_password.
Definition demo_success : SignupSuccess :=
  match (signup_run "bob").1 with Ok (Ok s) => s | _ => mkSignupSuccess 0 "" end.
Definition world_registered : World := (signup_run "bob").2.
Definition demo_token_raw : string := su_verification_token_raw demo_success.
Definition world_verified : World := (verify_email demo_signup demo_token_raw world_registered).2.

Lemma signup_runs : signup_run "bob" = (Ok (Ok demo_success), world_registered).
Proof. apply (run_fst (signup demo_signup (demo_request "bob"))). vm_compute. reflexivity. Qed.
Lemma verify_runs :
  verify_email demo_signup demo_token_raw world_registered = (Ok (Ok (su_user_id demo_success)), world_verified).
Proof. apply run_fst. vm_compute. reflexivity. Qed.
Lemma world_registered_wf : pg_wf (pg world_registered).
Proof. apply pg_wf_b_ok. vm_compute. reflexivity. Qed.

Lemma signup_all_or_nothing_witness :
  registered demo_signup (demo_request "bob") (tick world_password) (tick world_registered) (su_user_id demo_success) demo_token_raw (pg world_password)
    (pg world_registered).
Proof.
  exact (proj2 (signup_all_or_nothing demo_signup (demo_request "bob") world_password _ _ eq_refl signup_runs)).
Defined.

Lemma verify_email_once_witness :
  (exists v, redeemable demo_signup demo_token_raw (pg world_registered) v)
  /\ forall u, (verify_email demo_signup demo_token_raw world_verified).1 <> Ok (Ok u).
Proof.
  destruct (verify_email_once demo_signup demo_token_raw world_registered _ _ world_registered_wf verify_runs)
    as [(v & n & t & Hv & _) Honce].
  split; [by exists v|]. refine (proj1 (Honce world_verified _ _ eq_refl _ (surjective_pairing _))).
  apply pg_wf_b_ok. vm_compute. reflexivity.
Defined.

Lemma signup_then_login_witness :
  exists user w4, authenticate demo_login (Some "bob") (Some "correct horse") world_verified = (Ok (Some user), w4)
    /\ usr_id user = su_user_id demo_success.
Proof.
  destruct (signup_then_login demo_signup (demo_request "bob") world_password demo_success world_registered eq_refl
    world_password_wf signup_runs) as [_ Hlogin].
  destruct (Hlogin world_registered _ _ eq_refl verify_runs) as [_ Hl].
  exact (Hl (demo_pg_ok _) (fun _ _ => eq_refl) "bob" "correct horse" eq_refl eq_refl eq_refl eq_refl eq_refl demo_login).
Defined.

(** A username that registration accepts may be one that login never finds: the
    identifier is trimmed before it is looked up, and one with an [@] is only
    looked up as an e-mail address. *)
Definition login_by_username (username : string) : res err (option User) :=
  let w1 := (signup_run username).2 in
  let token := match (signup_run username).1 with Ok (Ok s) => su_verification_token_raw s | _ => "" end in
  (authenticate demo_login (Some username) (Some "correct horse") (verify_email demo_signup token w1).2).1.

Example username_unreachable :
  (exists u, login_by_username "bob" = Ok (Some u))
  /\ login_by_username " bob" = Ok None /\ login_by_username "bob@home" = Ok None.
Proof. split; [eexists|split]; vm_compute; reflexivity. Qed.
