(* ===== verification/AccountHttp.v ===== *)
(** * Accounts over HTTP ([signup/resource.rs], [password/resource.rs])

    Registration, e-mail verification, and the endpoints for forgotten, reset and
    changed passwords. *)

From stdpp Require Import base tactics list gmap strings.
From Stdlib Require Import ZArith Lia Ascii.
From S2P Require Import Prelude RustStr Redis Schema World Ext Demo DemoJson RedisKeys Http Config Hashing RateLimit.
From S2P Require Import Role User RefreshToken Session AccountTokens Integrity Secrets Password LoginHttp Signup.

Local Open Scope auth_scope.

Record AccountState := mkAccountState {
  at_config : Config;
  at_signup_flow : SignupFlow;
  at_password_flow : PasswordFlow;
}.

Section Resource.
Context `{RedisServer} `{Env} `{Crypto} `{Texts} `{UnicodeTables} `{Argon2Lib} `{ValueParser} `{!JsonCodec SessionSnapshot}.

(** ** Registration *)

Definition signup (state : AccountState) (body : SignupRequest) (req : HttpRequest) : io answer :=
  let cfg := cfg_ratelimit (at_config state) in
  limit_ip Keys.rl_signup_ip (client_ip req) (signup_ip_max cfg) (signup_ip_window cfg)
    (let! outcome := Signup.signup (at_signup_flow state) body in
     ret (Ok (match outcome with
       | Ok ok => json_response 201 (obj [("message", JStr "signup successful, verify your email");
           ("userId", JStr (uuid_to_string (su_user_id ok))); ("verificationToken", JStr (su_verification_token_raw ok))])
       | Err (Conflict desc) => oauth_error 409 "conflict" desc
       | Err (SignupInvalidRequest desc) => oauth_error 400 "invalid_request" desc
       end))).

Definition verify_email (state : AccountState) (body : gmap string string) (req : HttpRequest) : io answer :=
  let cfg := cfg_ratelimit (at_config state) in
  limit_ip Keys.rl_verify_email (client_ip req) (verify_email_ip_max cfg) (verify_email_ip_window cfg)
    (let! outcome := Signup.verify_email (at_signup_flow state) (default "" (body !! "token")) in
     ret (Ok (match outcome with
       | Ok user_id => json_response 200 (obj [("message", JStr "email verified"); ("userId", JStr (uuid_to_string user_id))])
       | Err (VerifyInvalidRequest desc) => oauth_error 400 "invalid_request" desc
       | Err (VerifyInvalidToken desc) => oauth_error 400 "invalid_token" desc
       end))).

(** ** Passwords *)

Fixpoint first_non_blank (body : gmap string string) (keys : list string) : option string :=
  match keys with
  | [] => None
  | k :: keys =>
      match body !! k with
      | Some v => if negb (is_empty (trim v)) then Some v else first_non_blank body keys
      | None => first_non_blank body keys
      end
  end.

Definition forgot_password (state : AccountState) (body : gmap string string) : io answer :=
  let identifier := first_non_blank body ["identifier"; "email"; "nim"; "nip"] in
  let! token := request_reset (at_password_flow state) (default "" identifier) in
  ret (Ok (json_response 200 (obj (("message", JStr "if the account exists, a reset token has been issued")
    :: match token with Some t => [("resetToken", JStr t)] | None => [] end)))).

Definition error_only (error : string) : HttpResponse := json_response 400 (obj [("error", JStr error)]).

(** The errors of both flows are of Postgres or of the session store. *)
Definition flow_error (what : string) (e : err) : AppError :=
  match e with ERedisUnavailable => Internal (EOther (what +:+ " failed")) | _ => Internal e end.

Definition reset_password (state : AccountState) (body : gmap string string) : io answer :=
  let token := default "" (body !! "token") in
  let new_password := default "" (first_non_blank body ["newPassword"; "new_password"; "password"]) in
  let! outcome := attempt (consume_reset (at_password_flow state) token new_password) in
  ret (match outcome with
    | Ok (Ok _) => Ok (message 200 "password updated")
    | Ok (Err InvalidToken) => Ok (error_only "invalid_token")
    | Ok (Err ResetWeakPassword) => Ok (error_only "weak_password")
    | Err e => Err (flow_error "consume_reset" e)
    end).

Definition change_password (body : gmap string string) (req : HttpRequest) : io answer :=
  match extract req with
  | None => ret (Ok invalid_session)
  | Some token =>
      let! session := find_active_session token in
      match session with
      | None => ret (Ok invalid_session)
      | Some session =>
          let old_password := default "" (first_non_blank body ["oldPassword"; "currentPassword"; "old_password"]) in
          let new_password := default "" (first_non_blank body ["newPassword"; "new_password"]) in
          let! outcome := attempt (Password.change_password (ses_user_id (swu_session session))
                            (Some (ses_id (swu_session session))) old_password new_password) in
          ret (match outcome with
            | Ok (Ok _) => Ok (message 200 "password changed")
            | Ok (Err WrongPassword) => Ok (error_only "wrong_password")
            | Ok (Err ChangeWeakPassword) => Ok (error_only "weak_password")
            | Err e => Err (flow_error "change_password" e)
            end)
      end
  end.
End Resource.

(** ** Changing one's own password *)

Section Change.
Context `{RedisLaws} `{EnvLaws} `{UnicodeTables} `{Argon2Laws} `{!Argon2Injective} `{CryptoLaws} `{ValueParserLaws}
  `{!JsonCodec SessionSnapshot} `{!JsonCodecLaws SessionSnapshot}.
Implicit Types w : World.

Lemma touched_credentials d d' : touched d d' -> credentials d' = credentials d /\ users d' = users d.
Proof. by intros [->|(id & t & [= <-])]. Qed.

(** What a changed password means for the holder [h] of the session. *)
Definition own_password_changed (h : SessionWithUser) (old new : string) w w' : Prop :=
  let u := ses_user_id (swu_session h) in
  MIN_PASSWORD_LEN <= String.length new
  /\ (exists c, password_of (pg w) u c
        /\ verify old (default "" (cred_secret_data c)) (default "" (cred_credential_data c)) = true)
  /\ exists w1, touched (pg w) (pg w1)
      /\ (exists d1, rotated u new (pg w1) d1 /\ credentials (pg w') = credentials d1)
      /\ ended u (Some (ses_id (swu_session h))) w1 w'.

Definition old_of (body : gmap string string) : string :=
  default "" (first_non_blank body ["oldPassword"; "currentPassword"; "old_password"]).
Definition new_of (body : gmap string string) : string :=
  default "" (first_non_blank body ["newPassword"; "new_password"]).

Lemma change_endpoint_spec body req w :
  (Z.of_nat (String.length (new_of body)) < 4294967296)%Z -> pg_wf (pg w) -> backed w ->
  wp (change_password body req) (fun r w' => forall resp, r = Ok (Ok resp) ->
    (rs_status resp = 200%Z /\ exists tok h, extract req = Some tok /\ source tok w h /\ swu_user_enabled h = true
       /\ own_password_changed h (old_of body) (new_of body) w w')
    \/ (rs_status resp ∈ [400; 401]%Z /\ touched (pg w) (pg w'))) w.
Proof.
  intros Hlen Hwf Hb. unfold change_password.
  destruct (extract req) as [tok|]; [|wp_step; intros resp [= <-]; right; split; [set_solver|by left]].
  wp_step. wp_call find_active_spec. intros r w1 (Htd & _ & Hb1 & Hr).
  destruct r as [[h|]|e]; [|wp_step; intros resp [= <-]; right; split; [set_solver|done]|done].
  destruct Hr as (_ & Hsrc & Hen & _). do 2 wp_step.
  assert (Hwf1 : pg_wf (pg w1)) by (destruct Htd as [->|(? & ? & Hq)]; [done|by eapply touch_session_wf]).
  destruct (touched_credentials _ _ Htd) as [Hcr Hus].
  wp_call change_password_spec; [done|done|auto|]. intros [[[]|e]|e] w2 Hr; wp_step; intros resp [= Hresp]; [left|right].
  - rewrite <- Hresp. split; [done|]. exists tok, h. do 3 (split; [done|]). destruct Hr as (Hm & Hold & Hrot & Hend).
    split; [done|]. split; [|by exists w1]. unfold password_of in *. by rewrite Hcr in Hold.
  - destruct Hr as [Hp _]. rewrite Hp. by destruct e; injection Hresp as <-; (split; [set_solver|]).
Qed.
End Change.

(** ** Theorems *)

(** One changes one's own password.  An answer of the endpoint is 200, 400 or
    401.  With a 200 the request carries the token of an active session of an enabled
    user, the old password given is that user's, the new one has at least 8 bytes, and
    the password credential that was replaced, and the other sessions that were ended,
    are that user's; otherwise the tables are as they were but for an access time. *)
Theorem change_password_own `{RedisLaws} `{EnvLaws} `{UnicodeTables} `{Argon2Laws} `{!Argon2Injective} `{CryptoLaws}
  `{ValueParserLaws} `{!JsonCodec SessionSnapshot} `{!JsonCodecLaws SessionSnapshot} body req w resp w' :
  (Z.of_nat (String.length (new_of body)) < 4294967296)%Z -> pg_wf (pg w) -> backed w ->
  change_password body req w = (Ok (Ok resp), w') ->
  (rs_status resp = 200%Z /\ exists tok h, extract req = Some tok /\ source tok w h /\ swu_user_enabled h = true
     /\ own_password_changed h (old_of body) (new_of body) w w')
  \/ (rs_status resp ∈ [400; 401]%Z /\ touched (pg w) (pg w')).
Proof.
  intros Hlen Hwf Hb Hrun. exact (wp_run _ _ _ _ _ (change_endpoint_spec body req w Hlen Hwf Hb) Hrun resp eq_refl).
Qed.

(** ** Witnesses *)

Import Instances JsonInstance.

Definition demo_account : AccountState := mkAccountState demo_config demo_signup demo_flow.
Definition change_body (old : string) : gmap string string := {["oldPassword" := old; "newPassword" := "new password"]}.
Definition change_run (old : string) : res err answer * World :=
  change_password (change_body old) (with_cookie SESSION_COOKIE "tok") world_password.

Lemma change_password_own_witness :
  rs_status (demo_response (change_run "wrong").1) = 400%Z
  /\ rs_status (demo_response (change_run "old password").1) = 200%Z
  /\ user_sessions (pg (change_run "old password").2) !! 9%N = None
  /\ exists tok h, extract (with_cookie SESSION_COOKIE "tok") = Some tok /\ source tok world_password h
       /\ own_password_changed h "old password" "new password" world_password (change_run "old password").2.
Proof.
  assert (Hr : (change_run "old password").1 = Ok (Ok (demo_response (change_run "old password").1))) by (vm_compute; reflexivity).
  assert (Hs : rs_status (demo_response (change_run "old password").1) = 200%Z) by (vm_compute; reflexivity).
  split; [vm_compute; reflexivity|]. split; [exact Hs|]. split; [vm_compute; reflexivity|].
  assert (Hn : new_of (change_body "old password") = "new password") by (vm_compute; reflexivity).
  assert (Ho : old_of (change_body "old password") = "old password") by (vm_compute; reflexivity).
  assert (Hlen : (Z.of_nat (String.length (new_of (change_body "old password"))) < 4294967296)%Z) by (rewrite Hn; vm_compute; reflexivity).
  destruct (change_password_own (change_body "old password") (with_cookie SESSION_COOKIE "tok") world_password _ _ Hlen
      world_password_wf world_password_backed (run_fst _ _ _ Hr))
    as [(_ & tok & h & Ht & Hsrc & _ & Hc)|[Hbad _]]; [rewrite Hn, Ho in Hc; exists tok, h; split; [exact Ht|split; [exact Hsrc|exact Hc]]|].
  exfalso. rewrite Hs in Hbad. set_solver.
Defined.

(** *** A reset token for everyone

    The comments say that the answer to a forgotten password is always the same; it
    carries the token when the account exists.  So it tells who has an account, and
    whoever knows a username can set the password and log in. *)
Definition reset_token_of (r : res err answer) : option string :=
  match rs_body (demo_response r) with Json v => value_get v "resetToken" ≫= as_str | _ => None end.
Definition forgot_run (id : string) : res err answer * World := forgot_password demo_account {["identifier" := id]} world_password.
Definition stranger_run : res err answer * World :=
  reset_password demo_account {["token" := default "" (reset_token_of (forgot_run "a").1); "newPassword" := "stolen password"]}
    (forgot_run "a").2.

Example forgotten_password_taken_over :
  reset_token_of (forgot_run "nobody").1 = None
  /\ bool_decide (is_Some (reset_token_of (forgot_run "a").1)) = true
  /\ rs_status (demo_response stranger_run.1) = 200%Z
  /\ rs_status (demo_response (login demo_login_state (mkLoginRequest (Some "a") None (Some "stolen password"))
                 (mkHttpRequest [] [] None) stranger_run.2).1) = 200%Z.
Proof. repeat split; vm_compute; reflexivity. Qed.
