(* ===== verification/Issuer.v ===== *)
(** * Issuing tokens ([oauth/token/issuer.rs], [oauth/authorize/claims.rs])

    One call signs an access token, stores the hash of a fresh refresh token in
    the caller's transaction and, for the [openid] scope, signs an id token. *)

From stdpp Require Import base tactics list gmap strings.
From Stdlib Require Import ZArith Lia.
From S2P Require Import Prelude RustStr Redis Schema World Ext Demo DemoJson DemoJwt Scopes Hashing Jwt Role.
From S2P Require Import RefreshToken.

Local Open Scope auth_scope.

(** ** ClaimsRequest *)

Record ClaimsRequest := mkClaimsRequest {
  id_token_claims : gset string;
  userinfo_claims : gset string;
}.

Definition empty_request : ClaimsRequest := mkClaimsRequest ∅ ∅.

Definition collect_field_names (root : Value) (section : string) : gset string :=
  match value_get root section ≫= as_object with
  | Some obj => dom obj
  | None => ∅
  end.

Definition parse_claims `{ValueParser} (json : option string) : ClaimsRequest :=
  match json with
  | None => empty_request
  | Some s =>
      if is_empty (trim s) then empty_request
      else match value_from_str s with
           | None => empty_request
           | Some node => mkClaimsRequest (collect_field_names node "id_token")
                            (collect_field_names node "userinfo")
           end
  end.

(** ** Claims *)

Definition REFRESH_TOKEN_TTL_DAYS : Z := 30.
Definition days (n : Z) : Z := n * 86400 * 1000000000.

Section Claims.
Context `{Texts}.

Definition build_access_token_claims (user : User) (client : Client) (session : UserSession)
    (roles : list string) (scope : option string) (claims_request : ClaimsRequest) : gmap string Value :=
  let claims :=
    <["scope" := JStr (default "" scope)]>
    (<["roles" := JArr (JStr <$> roles)]>
    (<["sid" := JStr (uuid_to_string (ses_id session))]>
    (<["username" := JStr (usr_username user)]>
    (<["email" := JStr (usr_email user)]>
    (<["client_id" := JStr (cl_client_id client)]> ∅))))) in
  if bool_decide (userinfo_claims claims_request = ∅) then claims
  else <["claims_userinfo" := JArr (JStr <$> sorted (userinfo_claims claims_request))]> claims.

(** [if b { claims.insert(k, v) }] *)
Definition insert_if (b : bool) (k : string) (v : Value) (m : gmap string Value) : gmap string Value :=
  if b then <[k := v]> m else m.

Definition build_id_token_claims (user : User) (session : UserSession) (scopes : gset string)
    (claims_request : ClaimsRequest) : gmap string Value :=
  let asked k := bool_decide (k ∈ id_token_claims claims_request) in
  let email_scope := bool_decide ("email" ∈ scopes) in
  let include_email := email_scope || asked "email" in
  let include_email_verified := email_scope || asked "email_verified" in
  let include_profile := bool_decide ("profile" ∈ scopes) in
  let claims := <["sid" := JStr (uuid_to_string (ses_id session))]> ∅ in
  let claims := insert_if include_email "email" (JStr (usr_email user)) claims in
  let claims := insert_if include_email_verified "email_verified" (JBool (usr_email_verified user)) claims in
  let claims := insert_if (include_profile || asked "preferred_username") "preferred_username"
                  (JStr (usr_username user)) claims in
  let claims := match usr_first_name user with
                | Some first => insert_if (include_profile || asked "given_name") "given_name" (JStr first) claims
                | None => claims
                end in
  let claims := match usr_last_name user with
                | Some last => insert_if (include_profile || asked "family_name") "family_name" (JStr last) claims
                | None => claims
                end in
  match usr_first_name user, usr_last_name user with
  | Some f, Some l => insert_if (include_profile || asked "name") "name" (JStr (f +:+ " " +:+ l)) claims
  | _, _ => claims
  end.
End Claims.

(** ** TokenIssuer *)

Section Issue.
Context `{RedisServer} `{Env} `{JwtLib} `{Texts} `{Crypto} `{ValueParser}.

Record TokenIssuer := mkTokenIssuer { ti_jwt_signer : JwtSigner; ti_hmac : HmacSha256 }.

Definition issue_for_client (self : TokenIssuer) (client : Client) (scope : option string) : io Value :=
  let claims := <["client_id" := JStr (cl_client_id client)]> (<["scope" := JStr (default "" scope)]> ∅) in
  let! access_token := sign_access_token (ti_jwt_signer self) (cl_client_id client) (cl_client_id client) claims in
  ret (JObj (<["scope" := JStr (default "" scope)]>
    (<["access_token" := JStr access_token]>
    (<["expires_in" := JInt (access_token_ttl_seconds (ti_jwt_signer self))]>
    (<["token_type" := JStr "Bearer"]> ∅))))).

(** The response before the optional id token. *)
Definition token_response (ttl : Z) (access_token refresh_token_raw : string) (scope : option string)
    : gmap string Value :=
  <["scope" := JStr (default "" scope)]>
  (<["refresh_token" := JStr refresh_token_raw]>
  (<["access_token" := JStr access_token]>
  (<["expires_in" := JInt ttl]>
  (<["token_type" := JStr "Bearer"]> ∅)))).

Definition issue (self : TokenIssuer) (tx : Tx) (user : User) (client : Client) (session : UserSession)
    (scope nonce claims_requested_json : option string) : io (Value * Tx) :=
  let! roles := find_effective_names_by_user_id (usr_id user) in
  let scope_set := parse scope in
  let claims_request := parse_claims claims_requested_json in
  let! access_token := sign_access_token (ti_jwt_signer self) (uuid_to_string (usr_id user))
    (cl_client_id client) (build_access_token_claims user client session roles scope claims_request) in
  let! refresh_token_raw := url_safe 48 in
  let refresh_token_hash := compute (ti_hmac self) refresh_token_raw in
  let! now := utc_now in
  let! id := uuid_new_v4 in
  let refresh := mkRefreshToken id (usr_id user) (cl_id client) (ses_id session) refresh_token_hash
                   (Some (now + days REFRESH_TOKEN_TTL_DAYS)%Z) false now in
  let! ' (_, tx) := persist_in_tx tx refresh in
  let response := token_response (access_token_ttl_seconds (ti_jwt_signer self)) access_token
                    refresh_token_raw scope in
  if bool_decide ("openid" ∈ scope_set)
  then
    let auth_time := (ses_created_at session / 1000000000)%Z in
    let! id_token := sign_id_token (ti_jwt_signer self) (uuid_to_string (usr_id user)) (cl_client_id client)
      nonce auth_time (build_id_token_claims user session scope_set claims_request) in
    ret (JObj (<["id_token" := JStr id_token]> response), tx)
  else ret (JObj response, tx).
End Issue.

(** ** What issuing does *)

Section Specs.
Context `{RedisServer} `{EnvLaws} `{JwtLaws} `{Texts} `{Crypto} `{ValueParser}.

(** The role names of a user: assigned roles and their ancestors. *)
Definition effective_role (d : Pg) (user : Uuid) (name : string) : Prop :=
  exists rid a, (user, rid) ∈ user_roles d /\ rtc (parent_step (roles d)) rid (role_id a)
    /\ roles d !! role_id a = Some a /\ role_name a = name.

(** The row a raw refresh token is stored as. *)
Definition fresh_row (self : TokenIssuer) (user : User) (client : Client) (session : UserSession)
    (raw : string) (id : Uuid) (now : Z) : RefreshToken :=
  mkRefreshToken id (usr_id user) (cl_id client) (ses_id session) (compute (ti_hmac self) raw)
    (Some (now + days REFRESH_TOKEN_TTL_DAYS)%Z) false now.

(** A response that answers a grant: the raw refresh token of the stored row,
    an access token that speaks of the user, the client, the session, the roles
    and the scope, and an id token for [openid] only. *)
Definition answers (self : TokenIssuer) (d : Pg) (user : User) (client : Client) (session : UserSession)
    (scope : option string) (raw : string) (payload : gmap string Value) : Prop :=
  payload !! "refresh_token" = Some (JStr raw)
  /\ payload !! "scope" = Some (JStr (default "" scope))
  /\ (is_Some (payload !! "id_token") <-> "openid" ∈ parse scope)
  /\ exists token header claims key names, payload !! "access_token" = Some (JStr token)
      /\ jwt_encode header claims key = Some token
      /\ is_access_token_type token = true
      /\ claims !! "sub" = Some (JStr (uuid_to_string (usr_id user)))
      /\ claims !! "aud" = Some (JStr (cl_client_id client))
      /\ claims !! "client_id" = Some (JStr (cl_client_id client))
      /\ claims !! "sid" = Some (JStr (uuid_to_string (ses_id session)))
      /\ claims !! "scope" = Some (JStr (default "" scope))
      /\ claims !! "roles" = Some (JArr (JStr <$> names))
      /\ forall n, n ∈ names <-> effective_role d (usr_id user) n.

(** The claims every token carries are not among the own claims of an access token. *)
Lemma access_claims_free user client session roles scope req k :
  k ∈ ["sub"; "aud"; "iss"; "exp"; "jti"; "nbf"] ->
  build_access_token_claims user client session roles scope req !! k = None.
Proof.
  intros Hk. unfold build_access_token_claims.
  repeat (rewrite elem_of_cons in Hk; destruct Hk as [->|Hk]; [by case_bool_decide|]).
  by apply not_elem_of_nil in Hk.
Qed.

Lemma access_claims_lookup user client session roles scope req s sub aud jti exp k :
  k ∈ ["sub"; "aud"; "iss"; "exp"; "jti"; "nbf"] ->
  (build_access_token_claims user client session roles scope req ∪ standard s sub aud jti exp) !! k
  = standard s sub aud jti exp !! k.
Proof. intros Hk. by apply lookup_union_r, access_claims_free. Qed.

Lemma access_claims_own user client session roles scope req m k v :
  k <> "claims_userinfo" ->
  (<["scope" := JStr (default "" scope)]> (<["roles" := JArr (JStr <$> roles)]>
    (<["sid" := JStr (uuid_to_string (ses_id session))]> (<["username" := JStr (usr_username user)]>
    (<["email" := JStr (usr_email user)]>
    (<["client_id" := JStr (cl_client_id client)]> (∅ : gmap string Value))))))) !! k = Some v ->
  (build_access_token_claims user client session roles scope req ∪ m) !! k = Some v.
Proof.
  intros Hk Hv. apply lookup_union_Some_l. unfold build_access_token_claims.
  case_bool_decide; [done|]. by rewrite lookup_insert_ne.
Qed.

Lemma issue_spec self d user client session scope nonce cj w :
  pg_wf (pg w) ->
  wp (issue self (TxOpen d) user client session scope nonce cj) (fun r w' => quiet w w' /\
    forall payload tx, r = Ok (payload, tx) -> exists m raw id n d',
      payload = JObj m /\ tx = TxOpen d' /\ tick w <= n < tick w'
      /\ insert_refresh_token (fresh_row self user client session raw id (clock n)) d = Ok (tt, d')
      /\ answers self (pg w) user client session scope raw m) w.
Proof.
  intros Hwf. unfold issue. wp_step. wp_call (effective_names_spec (usr_id user) w Hwf).
  intros [roles|e] w1 [Hq1 Hroles]; [|done]. destruct Hroles as [_ Hroles].
  wp_step. wp_call sign_access_spec. intros r w2 [Hq2 Hsign].
  assert (Hq : quiet w w2) by by eapply quiet_trans. clear Hq1 Hq2.
  destruct r as [token|e]; [|done]. destruct (Hsign token eq_refl) as (n0 & kp & _ & _ & Henc). clear Hsign.
  unfold url_safe. do 9 wp_step. set (raw := b64url_encode _). unfold persist_in_tx.
  set (w5 := bump (bump (bump w2))). assert (Hq5 : quiet w w5) by (unfold w5; auto with wp).
  set (n := tick (bump w2)). set (id := new_v4 _).
  wp_step; [|split; [auto with wp|done]]. destruct a.
  assert (Hins : insert_refresh_token (fresh_row self user client session raw id (clock n)) d = Ok (tt, d0))
    by exact Hq0.
  assert (Hn : tick w <= n < tick (bump w5)) by (destruct Hq as (_ & _ & ?); unfold n, w5; simpl; lia).
  assert (Hans : forall m, m !! "refresh_token" = Some (JStr raw) -> m !! "scope" = Some (JStr (default "" scope)) ->
    m !! "access_token" = Some (JStr token) -> (is_Some (m !! "id_token") <-> "openid" ∈ parse scope) ->
    answers self (pg w) user client session scope raw m).
  { intros m Hr Hs Ha Hid. split; [done|]. split; [done|]. split; [done|].
    exists token. eexists _, _, _, roles. split; [done|]. split; [exact Henc|].
    split; [unfold is_access_token_type; by rewrite (jwt_header_encode _ _ _ _ Henc)|].
    split; [rewrite access_claims_lookup by set_solver; reflexivity|].
    split; [rewrite access_claims_lookup by set_solver; reflexivity|].
    split; [by apply access_claims_own|]. split; [by apply access_claims_own|].
    split; [by apply access_claims_own|]. split; [by apply access_claims_own|]. exact Hroles. }
  case_bool_decide as Hop.
  - wp_step. wp_call sign_id_spec. intros r w6 [Hq6 _].
    assert (Hqf : quiet w w6) by (eapply quiet_trans; [|exact Hq6]; auto with wp).
    destruct r as [idt|e]; [|done]. wp_step. split; [done|]. intros payload tx [= <- <-].
    eexists _, raw, id, n, d0. split; [done|]. split; [done|]. split; [destruct Hq6 as (_ & _ & ?); lia|].
    split; [done|]. apply Hans; [done..|]. split; [done|]. intros _. by eexists.
  - wp_step. split; [auto with wp|]. intros payload tx [= <- <-].
    eexists _, raw, id, n, d0. split; [done|]. split; [done|]. split; [done|]. split; [done|].
    apply Hans; [done..|]. split; [|done]. intros [x Hx]. done.
Qed.
End Specs.

(** ** Theorems *)

Lemma lookup_insert_if b k v m k' :
  insert_if b k v m !! k' = if b && bool_decide (k = k') then Some v else m !! k'.
Proof.
  destruct b; simpl; [|done]. case_bool_decide as Hk; [by rewrite Hk, lookup_insert_eq|by rewrite lookup_insert_ne].
Qed.

Lemma dom_insert_if b k v (m : gmap string Value) (X : gset string) : k ∈ X -> dom m ⊆ X -> dom (insert_if b k v m) ⊆ X.
Proof. intros Hk Hm. destruct b; simpl; [|done]. rewrite dom_insert. set_solver. Qed.

(** A lookup that a few memberships decide. *)
Ltac is_some_solve :=
  repeat case_bool_decide; cbn [andb orb]; unfold is_Some; split; intros Hx;
  first [naive_solver | destruct Hx as [? Hx]; done].

(** An id token discloses exactly what was asked for.  Besides the session
    id, it tells the e-mail address for the [email] scope or an explicit request,
    the profile claims for the [profile] scope or an explicit request and only
    if the user has them, and nothing else, whatever the [claims] parameter
    contains. *)
Theorem id_token_discloses `{Texts} `{ValueParser} user session scopes cj :
  let req := parse_claims cj in
  let claims := build_id_token_claims user session scopes req in
  let asked k := k ∈ id_token_claims req in
  (is_Some (claims !! "email") <-> "email" ∈ scopes \/ asked "email")
  /\ (is_Some (claims !! "email_verified") <-> "email" ∈ scopes \/ asked "email_verified")
  /\ (is_Some (claims !! "preferred_username") <-> "profile" ∈ scopes \/ asked "preferred_username")
  /\ (is_Some (claims !! "given_name") <-> is_Some (usr_first_name user) /\ ("profile" ∈ scopes \/ asked "given_name"))
  /\ (is_Some (claims !! "family_name") <-> is_Some (usr_last_name user) /\ ("profile" ∈ scopes \/ asked "family_name"))
  /\ (is_Some (claims !! "name") <-> is_Some (usr_first_name user) /\ is_Some (usr_last_name user)
        /\ ("profile" ∈ scopes \/ asked "name"))
  /\ dom claims ⊆ {["sid"; "email"; "email_verified"; "preferred_username"; "given_name"; "family_name"; "name"]}.
Proof.
  intros req claims asked. unfold claims, asked, build_id_token_claims. clearbody req. clear claims asked.
  assert (Hs : forall k : string, k ∈ dom (<["sid" := JStr (uuid_to_string (ses_id session))]> (∅ : gmap string Value)) -> k = "sid")
    by (intros k; rewrite dom_insert; set_solver).
  destruct (usr_first_name user) as [f|], (usr_last_name user) as [l|];
    (split; [|split; [|split; [|split; [|split; [|split]]]]]);
    try (repeat (apply dom_insert_if; [set_solver|]); intros k ->%Hs; set_solver);
    rewrite ?lookup_insert_if; closed_keys; rewrite ?andb_false_r, ?andb_true_r; is_some_solve.
Qed.
