(* ===== verification/Oidc.v ===== *)
(** * OpenID Connect endpoints ([oidc/resource.rs])

    [/userinfo] with its checks on the access token, the discovery document and the
    published key set. *)

From stdpp Require Import base tactics list gmap strings sorting.
From Stdlib Require Import ZArith Lia.
From S2P Require Import Prelude RustStr Redis Schema World Ext Demo DemoJson DemoJwt Http Config Scopes Hashing Jwt KeyFiles.
From S2P Require Import User RefreshToken Session Integrity Issuer.

Local Open Scope auth_scope.

(** ** Responses *)

Definition invalid_token_response : HttpResponse :=
  insert_header "WWW-Authenticate" ("Bearer realm=" +:+ quoted "userinfo" +:+ ", error=" +:+ quoted "invalid_token")
    (json_response 401 (obj [("error", JStr "invalid_token")])).

Definition insufficient_scope_response : HttpResponse :=
  insert_header "WWW-Authenticate" ("Bearer error=" +:+ quoted "insufficient_scope" +:+ ", scope=" +:+ quoted "openid")
    (json_response 403 (obj [("error", JStr "insufficient_scope"); ("required_scopes", JArr [JStr "openid"])])).

(** ** Userinfo *)

Section Userinfo.
Context `{RedisServer} `{Env} `{JwtLib} `{Texts}.

(** What the user is told: by scope, or by the [claims_userinfo] of the token. *)
Definition userinfo_claims_of (user : User) (scope_set : gset string) (requested : list string) : gmap string Value :=
  let has s := bool_decide (s ∈ scope_set) in
  let asked k := bool_decide (k ∈ requested) in
  let info := <["sub" := JStr (uuid_to_string (usr_id user))]> ∅ in
  let info := insert_if (has "email" || asked "email") "email" (JStr (usr_email user)) info in
  let info := insert_if (has "email" || asked "email_verified") "email_verified" (JBool (usr_email_verified user)) info in
  let info := insert_if (has "profile" || asked "preferred_username") "preferred_username" (JStr (usr_username user)) info in
  let info := match usr_first_name user with
              | Some f => insert_if (has "profile" || asked "given_name") "given_name" (JStr f) info
              | None => info
              end in
  let info := match usr_last_name user with
              | Some l => insert_if (has "profile" || asked "family_name") "family_name" (JStr l) info
              | None => info
              end in
  match usr_first_name user, usr_last_name user with
  | Some f, Some l => insert_if (has "profile" || asked "name") "name" (JStr (f +:+ " " +:+ l)) info
  | _, _ => info
  end.

Definition requested_of (claims : Value) : list string :=
  match value_get claims "claims_userinfo" ≫= as_array with
  | Some arr => omap as_str arr
  | None => []
  end.

(** The [sid] claim, when there is one, must name a session that still exists. *)
Definition session_alive (claims : Value) : io bool :=
  match value_get claims "sid" with
  | None | Some JNull => ret true
  | Some sid_val =>
      match as_str sid_val ≫= uuid_parse_str with
      | None => ret false
      | Some sid =>
          let! session := Session.find_by_id sid in
          ret (match session with Some _ => true | None => false end)
      end
  end.

Definition userinfo (jwt_validator : JwtValidator) (req : HttpRequest) : io HttpResponse :=
  match extract req with
  | None => ret invalid_token_response
  | Some token =>
      if negb (is_access_token_type token) then ret invalid_token_response
      else
        let! claims := validate jwt_validator token in
        match claims with
        | None => ret invalid_token_response
        | Some claims =>
            let scope_raw := default "" (value_get claims "scope" ≫= as_str) in
            let scope_set := parse (Some scope_raw) in
            if negb (bool_decide ("openid" ∈ scope_set)) then ret insufficient_scope_response
            else
              match (value_get claims "sub" ≫= as_str) ≫= uuid_parse_str with
              | None => ret invalid_token_response
              | Some user_id =>
                  let! user := User.find_by_id user_id in
                  match user with
                  | None => ret invalid_token_response
                  | Some user =>
                      if negb (usr_enabled user) then ret invalid_token_response
                      else
                        let! alive := session_alive claims in
                        if negb alive then ret invalid_token_response
                        else ret (json_response 200 (JObj (userinfo_claims_of user scope_set (requested_of claims))))
                  end
              end
        end
  end.
End Userinfo.

(** ** Discovery *)

Definition strs (l : list string) : Value := JArr (JStr <$> l).

Definition discovery (cfg : Config) : HttpResponse :=
  let issuer := sc_issuer_url (cfg_server cfg) in
  let at_ path := JStr (issuer +:+ path) in
  json_response 200 (obj [
    ("issuer", JStr issuer);
    ("authorization_endpoint", at_ "/oauth/authorize");
    ("token_endpoint", at_ "/oauth/token");
    ("userinfo_endpoint", at_ "/userinfo");
    ("revocation_endpoint", at_ "/oauth/revoke");
    ("introspection_endpoint", at_ "/oauth/introspect");
    ("end_session_endpoint", at_ "/oauth/logout");
    ("frontchannel_logout_supported", JBool true);
    ("frontchannel_logout_session_supported", JBool true);
    ("backchannel_logout_supported", JBool true);
    ("backchannel_logout_session_supported", JBool true);
    ("request_parameter_supported", JBool false);
    ("request_uri_parameter_supported", JBool false);
    ("require_request_uri_registration", JBool false);
    ("claims_parameter_supported", JBool true);
    ("device_authorization_endpoint", at_ "/oauth/device-authorization");
    ("jwks_uri", at_ "/.well-known/jwks.json");
    ("response_types_supported", strs ["code"]);
    ("subject_types_supported", strs ["public"]);
    ("id_token_signing_alg_values_supported", strs ["RS256"]);
    ("scopes_supported", strs ["openid"; "profile"; "email"]);
    ("grant_types_supported", strs ["authorization_code"; "refresh_token"; "client_credentials";
       "urn:ietf:params:oauth:grant-type:device_code"]);
    ("token_endpoint_auth_methods_supported", strs ["client_secret_post"; "none"]);
    ("code_challenge_methods_supported", strs ["S256"; "plain"]);
    ("claims_supported", strs ["sub"; "iss"; "aud"; "exp"; "iat"; "jti"; "auth_time"; "nonce"; "email"; "email_verified";
       "preferred_username"; "name"; "given_name"; "family_name"; "roles"])]).

(** ** The key set *)

Section Jwks.
Context `{RsaLib} `{Crypto} `{!FsEnv}.

Definition jwk (kid n e : string) : Value :=
  obj [("kty", JStr "RSA"); ("use", JStr "sig"); ("alg", JStr "RS256"); ("kid", JStr kid); ("n", JStr n); ("e", JStr e)].

Definition jwks (st : Provider) : HttpResponse :=
  json_response 200 (obj [("keys", JArr (omap (fun entry =>
    (fun ne => jwk (pe_kid entry) ne.1 ne.2) <$> jwk_modulus_exponent st (pe_kid entry)) (all_public_keys st)))]).
End Jwks.

(** ** What the endpoints do *)

Section Specs.
Context `{RedisServer} `{EnvLaws} `{JwtLib} `{Texts}.
Implicit Types w : World.

(** The scopes of a token. *)
Definition scopes_of (claims : Value) : gset string := parse (Some (default "" (value_get claims "scope" ≫= as_str))).

(** The user whose id a token names, when that user is enabled and the session the
    token names, if any, is stored. *)
Definition speaks_for (d : Pg) (claims : Value) (user : User) : Prop :=
  usr_enabled user = true
  /\ (exists sub, value_get claims "sub" = Some (JStr sub) /\ exists id, uuid_parse_str sub = Some id /\ users d !! id = Some user)
  /\ (forall v, value_get claims "sid" = Some v -> v <> JNull ->
        exists sid id, v = JStr sid /\ uuid_parse_str sid = Some id /\ is_Some (user_sessions d !! id)).

Lemma session_alive_spec claims w :
  pg_wf (pg w) ->
  wp (session_alive claims) (fun r w' => quiet w w' /\
    forall b, r = Ok b -> b = true <-> forall v, value_get claims "sid" = Some v -> v <> JNull ->
      exists sid id, v = JStr sid /\ uuid_parse_str sid = Some id /\ is_Some (user_sessions (pg w) !! id)) w.
Proof.
  intros Hwf. unfold session_alive.
  assert (Hno : forall v, value_get claims "sid" = Some v -> v <> JNull -> (forall s, v <> JStr s) ->
    quiet w w /\ forall b, Ok false = @Ok err bool b -> b = true <-> forall v, value_get claims "sid" = Some v -> v <> JNull ->
      exists sid id, v = JStr sid /\ uuid_parse_str sid = Some id /\ is_Some (user_sessions (pg w) !! id)).
  { intros v Hv Hn Hs. split; [apply quiet_refl|]. intros b [= <-]. split; [done|]. intros Hall.
    destruct (Hall v Hv Hn) as (s & _ & -> & _). by destruct (Hs s). }
  destruct (value_get claims "sid") as [v|] eqn:Hv; [|wp_step; split; [apply quiet_refl|]; by intros b [= <-]].
  destruct v as [| | | |sid| |]; try (simpl; wp_step; by eapply Hno).
  { wp_step. split; [apply quiet_refl|]. intros b [= <-]. split; [|done]. by intros _ v [= <-]. }
  simpl. destruct (uuid_parse_str sid) as [id|] eqn:Hid.
  - wp_step. apply wp_find_session; [done| |intros c; split; [auto with wp|done]]. wp_step. split; [auto with wp|].
    intros b [= <-]. destruct (user_sessions (pg w) !! id) as [s|] eqn:Hs.
    + split; [|done]. intros _ v [= <-] _. exists sid, id. by rewrite Hs.
    + split; [done|]. intros Hall. destruct (Hall _ eq_refl ltac:(done)) as (s' & id' & [= <-] & Hid' & [x Hx]). congruence.
  - wp_step. split; [apply quiet_refl|]. intros b [= <-]. split; [done|]. intros Hall.
    destruct (Hall _ eq_refl ltac:(done)) as (s' & id' & [= <-] & Hid' & _). congruence.
Qed.

(** What a token with these scopes and requested claims covers of a user: each claim for
    its scope or by its name; a name only where the user has one. *)
Inductive told (user : User) (scopes : gset string) (requested : list string) : string -> Value -> Prop :=
| told_sub : told user scopes requested "sub" (JStr (uuid_to_string (usr_id user)))
| told_email : "email" ∈ scopes \/ "email" ∈ requested -> told user scopes requested "email" (JStr (usr_email user))
| told_email_verified : "email" ∈ scopes \/ "email_verified" ∈ requested ->
    told user scopes requested "email_verified" (JBool (usr_email_verified user))
| told_username : "profile" ∈ scopes \/ "preferred_username" ∈ requested ->
    told user scopes requested "preferred_username" (JStr (usr_username user))
| told_first f : usr_first_name user = Some f -> "profile" ∈ scopes \/ "given_name" ∈ requested ->
    told user scopes requested "given_name" (JStr f)
| told_last l : usr_last_name user = Some l -> "profile" ∈ scopes \/ "family_name" ∈ requested ->
    told user scopes requested "family_name" (JStr l)
| told_name f l : usr_first_name user = Some f -> usr_last_name user = Some l ->
    "profile" ∈ scopes \/ "name" ∈ requested -> told user scopes requested "name" (JStr (f +:+ " " +:+ l)).

Lemma insert_if_some b k v (m : gmap string Value) (P : string -> Value -> Prop) :
  (b = true -> P k v) -> (forall j x, m !! j = Some x -> P j x) -> forall j x, insert_if b k v m !! j = Some x -> P j x.
Proof.
  intros Hb Hm j x. rewrite lookup_insert_if. destruct b; simpl; [|apply Hm].
  case_bool_decide as Hk; [|apply Hm]. intros [= <-]. subst j. by apply Hb.
Qed.

Lemma userinfo_claims_told user scopes requested k x :
  userinfo_claims_of user scopes requested !! k = Some x <-> told user scopes requested k x.
Proof.
  assert (Hor : forall s c : string, bool_decide (s ∈ scopes) || bool_decide (c ∈ requested) = true <-> s ∈ scopes \/ c ∈ requested)
    by (intros s c; by rewrite orb_true_iff, !bool_decide_eq_true).
  unfold userinfo_claims_of. split.
  - revert k x. destruct (usr_first_name user) eqn:Hf, (usr_last_name user) eqn:Hl;
      repeat (apply insert_if_some; [rewrite Hor; eauto using told|]);
      intros k x [[<- <-]|[_ Hx]]%lookup_insert_Some; done || constructor.
  - intros Ht. destruct Ht as [| | | |f Hf|l Hl|f l Hf Hl]; try rewrite Hf; try rewrite Hl;
      destruct (usr_first_name user), (usr_last_name user); simplify_eq;
      rewrite ?lookup_insert_if; closed_keys; rewrite ?andb_false_r, ?andb_true_r; cbn iota;
      try match goal with Hc : _ \/ _ |- _ => rewrite (proj2 (Hor _ _) Hc) end; reflexivity.
Qed.

(** Every answer of [userinfo]: the user's claims for a valid access token, or a
    refusal that tells nothing. *)
Definition userinfo_answer (v : JwtValidator) (req : HttpRequest) w (resp : HttpResponse) : Prop :=
  resp = invalid_token_response \/ resp = insufficient_scope_response
  \/ exists token claims user w1, extract req = Some token /\ is_access_token_type token = true
       /\ validate v token w = (Ok (Some claims), w1) /\ "openid" ∈ scopes_of claims /\ speaks_for (pg w) claims user
       /\ resp = json_response 200 (JObj (userinfo_claims_of user (scopes_of claims) (requested_of claims))).

Lemma userinfo_spec v req w :
  pg_wf (pg w) ->
  wp (userinfo v req) (fun r w' => quiet w w' /\ forall resp, r = Ok resp -> userinfo_answer v req w resp) w.
Proof.
  intros Hwf. unfold userinfo.
  assert (Hno : forall w', quiet w w' -> quiet w w' /\ forall resp, Ok invalid_token_response = @Ok err HttpResponse resp ->
    userinfo_answer v req w resp) by (intros w' Hq; split; [done|]; intros resp [= <-]; by left).
  assert (Herr : forall w' (e : err), quiet w w' -> quiet w w' /\ forall resp, Err e = Ok resp -> userinfo_answer v req w resp)
    by done.
  destruct (extract req) as [token|] eqn:Htok; [|wp_step; by apply Hno, quiet_refl].
  destruct (is_access_token_type token) eqn:Hty; cbn [negb]; [|wp_step; by apply Hno, quiet_refl].
  wp_step. apply run_wp. intros r w1 Hv. pose proof (wp_run _ _ _ _ _ (validate_spec _ token None false w) Hv) as [Hq1 _].
  destruct r as [[claims|]|e]; [|wp_step; by apply Hno|by apply Herr].
  fold (scopes_of claims). case_bool_decide as Hop; cbn [negb]; [|wp_step; split; [done|]; intros resp [= <-]; right; by left].
  destruct (value_get claims "sub" ≫= as_str) as [sub|] eqn:Hsub; simpl; [|wp_step; by apply Hno].
  destruct (uuid_parse_str sub) as [uid|] eqn:Huid; [|wp_step; by apply Hno].
  destruct Hq1 as (Hp1 & Hr1 & Ht1). assert (Hq1 : quiet w (bump w1)) by (apply quiet_bump; by split).
  wp_step. apply wp_find_user; [by rewrite Hp1| |intros; by apply Herr]. rewrite Hp1.
  destruct (users (pg w) !! uid) as [user|] eqn:Hu; [|wp_step; by apply Hno].
  destruct (usr_enabled user) eqn:Hen; cbn [negb]; [|wp_step; by apply Hno].
  wp_step. wp_call session_alive_spec; [simpl; by rewrite Hp1|]. intros r w2 [Hq2 Hb].
  assert (Hq : quiet w w2) by by eapply quiet_trans.
  destruct r as [b|e]; [|by apply Herr]. specialize (Hb b eq_refl). simpl in Hb. rewrite Hp1 in Hb.
  destruct b; cbn [negb]; wp_step; [|by apply Hno]. split; [done|]. intros resp [= <-]. right. right.
  exists token, claims, user, w1. split; [done|]. split; [done|]. split; [exact Hv|]. split; [done|]. split; [|done].
  split; [done|]. split; [|by apply Hb]. exists sub.
  destruct (value_get claims "sub") as [[]|]; try done. injection Hsub as ->. split; [done|]. by exists uid.
Qed.
End Specs.

(** ** Theorems *)

(** What a token of [issue] asks [userinfo] for. *)
Lemma requested_of_issued `{Texts} user client session roles scope cr s sub aud jti exp :
  requested_of (JObj (build_access_token_claims user client session roles scope cr ∪ standard s sub aud jti exp))
  = sorted (userinfo_claims cr).
Proof.
  assert (Hsome : forall l : list string, omap as_str (JStr <$> l) = l) by (intros l; induction l as [|x l IH]; [done|]; cbn; f_equal; exact IH).
  unfold requested_of, build_access_token_claims. simpl. case_bool_decide as He.
  - rewrite lookup_union_r by done. by rewrite He.
  - erewrite lookup_union_Some_l by apply lookup_insert_eq. simpl. apply Hsome.
Qed.

(** C16: [userinfo] tells a user's claims to the holder of an access token only, and
    exactly what the token covers.  An answer that is not a refusal has status 200 and
    goes to a request with a token of the access-token type that validates at that time
    and has the [openid] scope; the token names a stored user who is enabled and, if it
    names a session, a session that is still stored, so that removing the session or
    disabling the user ends access at once; the body is exactly the claims that are
    [told]: each for its scope or its entry in [claims_userinfo], and nothing else.
    Nothing is changed by a request. *)
Theorem userinfo_discloses `{RedisServer} `{EnvLaws} `{JwtLib} `{Texts} v req w resp w' :
  pg_wf (pg w) -> userinfo v req w = (Ok resp, w') ->
  pg w' = pg w
  /\ (resp = invalid_token_response \/ resp = insufficient_scope_response
      \/ rs_status resp = 200%Z
         /\ exists token claims user info w1, extract req = Some token /\ is_access_token_type token = true
           /\ validate v token w = (Ok (Some claims), w1) /\ "openid" ∈ scopes_of claims
           /\ speaks_for (pg w) claims user /\ rs_body resp = Json (JObj info)
           /\ forall k x, info !! k = Some x <-> told user (scopes_of claims) (requested_of claims) k x).
Proof.
  intros Hwf Hrun. destruct (wp_run _ _ _ _ _ (userinfo_spec v req w Hwf) Hrun) as [[Hp _] Hr]. split; [done|].
  destruct (Hr resp eq_refl) as [->|[->|(token & claims & user & w1 & Ht & Hty & Hv & Hop & Hsp & ->)]];
    [by left|right; by left|right; right]. split; [done|].
  exists token, claims, user. eexists _, w1. do 5 (split; [done|]). split; [reflexivity|].
  intros k x. apply userinfo_claims_told.
Qed.

(** The answer to a token signed for [user] and [session], from the tables. *)
Definition issued_answer `{Texts} (tables : Pg) (user : User) (session : UserSession) (scope : option string)
  (cr : ClaimsRequest) : HttpResponse :=
  if bool_decide ("openid" ∈ parse (Some (default "" scope))) then
    match users tables !! usr_id user, user_sessions tables !! ses_id session with
    | Some u, Some _ =>
        if usr_enabled u
        then json_response 200 (JObj (userinfo_claims_of u (parse (Some (default "" scope))) (sorted (userinfo_claims cr))))
        else invalid_token_response
    | _, _ => invalid_token_response
    end
  else insufficient_scope_response.

Lemma wp_userinfo_issued `{RedisServer} `{EnvLaws} `{JwtLaws} `{TextsLaws} s v req user client session roles scope cr
  w token w1 w2 :
  (forall n, KeyProvider (js_keys s n)) ->
  (forall n k kp, n < tick w1 -> by_kid (js_keys s n) !! k = Some kp -> by_kid (jv_keys v (tick w2)) !! k = Some kp) ->
  js_issuer s = jv_expected_issuer v ->
  sign_access_token s (uuid_to_string (usr_id user)) (cl_client_id client)
    (build_access_token_claims user client session roles scope cr) w = (Ok token, w1) ->
  (secs (clock (S (tick w2))) < wrap_i64 (secs (clock (tick w)) + wrap_i64 (js_access_ttl s)))%Z ->
  pg_wf (pg w2) -> pg_ok (tick w2) -> extract req = Some token ->
  wp (userinfo v req) (fun r _ => r = Ok (issued_answer (pg w2) user session scope cr)) w2.
Proof.
  intros Hkeys Hkept Hiss Hsign Hlive Hwf Hpg Htok.
  destruct (access_validates _ _ _ _ _ _ _ _ w2 Hkeys Hkept Hiss (access_claims_free _ _ _ _ _ _ "iss" ltac:(set_solver))
    (access_claims_free _ _ _ _ _ _ "exp" ltac:(set_solver)) (access_claims_free _ _ _ _ _ _ "nbf" ltac:(set_solver)) Hsign Hlive)
    as [Hty [jti Hv]].
  unfold userinfo, issued_answer. rewrite Htok, Hty. cbn [negb]. wp_step. wp_call Hv. intros r w3 [(Hp & _ & Ht) ->].
  set (claims := _ ∪ _). cbn iota zeta.
  assert (Hscope : value_get (JObj claims) "scope" = Some (JStr (default "" scope))) by (by apply access_claims_own).
  assert (Hsub : value_get (JObj claims) "sub" = Some (JStr (uuid_to_string (usr_id user))))
    by (simpl; unfold claims; by rewrite access_claims_lookup by set_solver).
  assert (Hsid : value_get (JObj claims) "sid" = Some (JStr (uuid_to_string (ses_id session)))) by (by apply access_claims_own).
  assert (Hreq : requested_of (JObj claims) = sorted (userinfo_claims cr)) by apply requested_of_issued.
  rewrite Hscope, Hsub. cbn [mbind option_bind as_str from_option id]. case_bool_decide; cbn [negb]; [|by wp_step].
  rewrite uuid_parse_to_string. wp_step. apply wp_find_user_ok; [by rewrite Hp|by eapply pg_ok_later|]. rewrite Hp.
  destruct (users (pg w2) !! usr_id user) as [u|]; [|by wp_step].
  destruct (usr_enabled u); cbn [negb]; [|wp_step; by destruct (user_sessions _ !! _)].
  unfold session_alive. rewrite Hsid. cbn [mbind option_bind as_str]. rewrite uuid_parse_to_string. do 2 wp_step.
  apply wp_find_session_ok; [simpl; by rewrite Hp|by eapply pg_ok_later; [|done]; simpl; lia|]. simpl. rewrite Hp.
  destruct (user_sessions (pg w2) !! ses_id session); wp_step; cbn [negb]; wp_step; [by rewrite Hreq|done].
Qed.

(** A token works at [userinfo] exactly as long as it should.  For an access token
    that was signed as [issue] signs it, whose key is still loaded and which has not
    expired, and a database that answers, the answer is decided by the tables: without
    the [openid] scope it is the scope refusal; otherwise it is the user's claims when
    the user of the token is stored and enabled and the session of the token is
    stored, and the token refusal when not. *)
Theorem userinfo_of_issued `{RedisServer} `{EnvLaws} `{JwtLaws} `{TextsLaws} s v req user client session roles scope cr
  w token w1 w2 :
  (forall n, KeyProvider (js_keys s n)) ->
  (forall n k kp, n < tick w1 -> by_kid (js_keys s n) !! k = Some kp -> by_kid (jv_keys v (tick w2)) !! k = Some kp) ->
  js_issuer s = jv_expected_issuer v ->
  sign_access_token s (uuid_to_string (usr_id user)) (cl_client_id client)
    (build_access_token_claims user client session roles scope cr) w = (Ok token, w1) ->
  (secs (clock (S (tick w2))) < wrap_i64 (secs (clock (tick w)) + wrap_i64 (js_access_ttl s)))%Z ->
  pg_wf (pg w2) -> pg_ok (tick w2) -> extract req = Some token ->
  (userinfo v req w2).1 = Ok (
    if bool_decide ("openid" ∈ parse (Some (default "" scope))) then
      match users (pg w2) !! usr_id user, user_sessions (pg w2) !! ses_id session with
      | Some u, Some _ =>
          if usr_enabled u
          then json_response 200 (JObj (userinfo_claims_of u (parse (Some (default "" scope))) (sorted (userinfo_claims cr))))
          else invalid_token_response
      | _, _ => invalid_token_response
      end
    else insufficient_scope_response).
Proof. intros. refine (wp_run _ (fun r _ => r = _) _ _ _ (wp_userinfo_issued _ _ _ _ _ _ _ _ _ _ _ _ _ _ _ _ _ _ _ _ _) (surjective_pairing _)); done. Qed.

(** *** The key set *)

Section Published.
Context `{RsaLib} `{Crypto} `{!FsEnv}.

(** The entry of a loaded key. *)
Definition jwk_of (kid : string) (public : RsaPublicKey) : Value :=
  jwk kid (b64url_encode (strip_leading_zero (n_to_bytes_be public))) (b64url_encode (strip_leading_zero (e_to_bytes_be public))).

Lemma jwks_entries st :
  jwks st = json_response 200 (obj [("keys", JArr
    (omap (fun kid => (fun kp => jwk_of kid (kp_public kp)) <$> pv_by_kid st !! kid) (sorted (dom (pv_by_kid st)))))]).
Proof.
  unfold jwks, all_public_keys. do 5 f_equal. generalize (sorted (dom (pv_by_kid st))) as l.
  induction l as [|kid l IH]; [done|]. cbn. destruct (pv_by_kid st !! kid) as [kp|] eqn:Hk; cbn; [|exact IH].
  unfold jwk_modulus_exponent at 1. rewrite Hk. cbn. f_equal. exact IH.
Qed.

(** A built pair decodes with the key of its public PEM text. *)
Lemma build_public private public kp :
  KeyPair_build private public = Some kp -> exists pem, to_public_key_pem public = Some pem
    /\ decoding_from_rsa_pem pem = Some (decoding_key (kp_keys kp)).
Proof. unfold KeyPair_build. intros Hb. simplify_option_eq. eauto. Qed.

Definition kids (keys : list Value) : list string := omap (fun v => value_get v "kid" ≫= as_str) keys.

Lemma kids_loaded (m : gmap string RsaKeyPair) l :
  (forall kid, kid ∈ l -> is_Some (m !! kid)) ->
  kids (omap (fun kid => (fun kp => jwk_of kid (kp_public kp)) <$> m !! kid) l) = l.
Proof.
  induction l as [|kid l IH]; intros Hl; [done|]. simpl. destruct (Hl kid) as [kp Hk]; [left|]. rewrite Hk. cbn.
  f_equal. apply IH. intros k Hin. apply Hl. by right.
Qed.
End Published.

(** C39: The published key set is the set that is in use.  From a start-up on, along
    every sequence of rotations, retirements and restarts, [jwks] has one entry per
    loaded key, under its name; the active key, with which tokens are signed, is one
    of them; and every key that validation may use for a token, whatever its header
    names, is published with the modulus and the exponent of the very public key
    that validation decodes with. *)
Theorem jwks_covers_validation `{RsaLaws} `{Crypto} `{!KidLaws} `{!FsEnv} `{!FsLaws} st0 st1 st :
  disk_ok (pv_files st0) -> init st0 = (Ok tt, st1) -> rtc key_step st1 st ->
  exists keys, jwks st = json_response 200 (obj [("keys", JArr keys)])
    /\ kids keys ≡ₚ elements (dom (pv_by_kid st)) /\ key_id st ∈ kids keys
    /\ forall kid dk, decoding_key_by_kid (store_view st) kid = Ok (Some dk) ->
         exists public pem, jwk_of (default (key_id st) (nonempty kid)) public ∈ keys
           /\ to_public_key_pem public = Some pem /\ decoding_from_rsa_pem pem = Some dk.
Proof.
  intros Hd Hinit Hr. destruct (reachable_ok _ _ _ Hd Hinit Hr) as (_ & Hp & _ & Hact).
  eexists. split; [apply jwks_entries|].
  assert (Hs : sorted (dom (pv_by_kid st)) ≡ₚ elements (dom (pv_by_kid st))) by (unfold sorted; apply merge_sort_Permutation).
  assert (Hin : forall kid, kid ∈ sorted (dom (pv_by_kid st)) <-> is_Some (pv_by_kid st !! kid))
    by (intros kid; by rewrite Hs, elem_of_elements, elem_of_dom).
  rewrite kids_loaded by (intros kid; apply Hin). split; [done|]. split; [by apply Hin|].
  intros kid dk Hk.
  assert (Hl : exists kp, pv_by_kid st !! default (key_id st) (nonempty kid) = Some kp /\ decoding_key (kp_keys kp) = dk).
  { unfold decoding_key_by_kid, nonempty, key_id in *. cbn in Hk. rewrite !lookup_fmap in Hk.
    assert (Hl : forall k, match kp_keys <$> pv_by_kid st !! k with
      | Some kp => Ok (Some (decoding_key kp)) | None => panic "active kid must be loaded" end = Ok (Some dk) ->
      exists kp, pv_by_kid st !! k = Some kp /\ decoding_key (kp_keys kp) = dk)
      by (intros k; destruct (pv_by_kid st !! k) as [kp|]; [intros [= <-]; by exists kp|done]).
    destruct kid as [kid|]; [|by apply Hl]. destruct (is_empty kid); simpl in *; [by apply Hl|].
    rewrite lookup_fmap in Hk. destruct (pv_by_kid st !! kid) as [kp|]; [|done]. injection Hk as <-. by exists kp. }
  destruct Hl as (kp & Hkp & <-). destruct (Hp _ _ Hkp) as (Hb & _ & _). exists (kp_public kp).
  destruct (build_public _ _ _ Hb) as (pem & ? & ?). exists pem. split; [|done]. apply list_elem_of_omap.
  eexists. split; [apply Hin; by eexists|]. by rewrite Hkp.
Qed.

(** ** Witnesses *)

Import Instances JwtInstance.

(** A user with a session, and the access token that [issue] would sign for it. *)
Definition oidc_user : User := mkUser 7 "a@b" true "a" (Some "Ada") None true 0 0.
Definition oidc_session : UserSession := mkUserSession 9 7 "tok" None None (Some 1800000000000000000%Z) None 0.
Definition oidc_client : Client :=
  mkClient 5 "app" None None (Some "public") None None (Some "openid email") true true None None None None None None 0 0 [].
Definition world_oidc : World :=
  mkWorld 0 (on_user_sessions <[9%N := oidc_session]> (on_users <[7%N := oidc_user]> pg_empty)) (∅ : gmap string rentry).

Definition oidc_claims : gmap string Value :=
  build_access_token_claims oidc_user oidc_client oidc_session [] (Some "openid email")
    (mkClaimsRequest ∅ {["given_name"; "family_name"]}).
Definition oidc_token : string :=
  default "" (ok (sign_access_token demo_signer (uuid_to_string 7%N) "app" oidc_claims world_oidc).1).
Definition oidc_request : HttpRequest := mkHttpRequest [] [(SESSION_COOKIE, oidc_token)] None.

Lemma world_oidc_wf : pg_wf (pg world_oidc).
Proof. apply pg_wf_b_ok. vm_compute. reflexivity. Qed.

(** The token is what [sign_access_token] answers, in time, and is what the request
    carries. *)
Lemma oidc_signed : (sign_access_token demo_signer (uuid_to_string 7%N) "app" oidc_claims world_oidc).1 = Ok oidc_token.
Proof. vm_compute. reflexivity. Qed.

Lemma oidc_in_time w : tick w = 0 -> (secs (clock (S (tick w))) < wrap_i64 (secs (clock (tick world_oidc)) + wrap_i64 900))%Z.
Proof. intros ->. vm_compute. reflexivity. Qed.

Lemma oidc_carried : extract oidc_request = Some oidc_token.
Proof. vm_compute. reflexivity. Qed.

Lemma userinfo_discloses_witness :
  exists resp, (userinfo demo_validator oidc_request world_oidc).1 = Ok resp /\ rs_status resp = 200%Z /\ resp <> invalid_token_response
    /\ exists claims user, speaks_for (pg world_oidc) claims user.
Proof.
  assert (Hx : exists resp, (userinfo demo_validator oidc_request world_oidc).1 = Ok resp /\ rs_status resp = 200%Z)
    by (eexists; split; [exact (wp_run _ _ _ _ _ (wp_userinfo_issued demo_signer demo_validator oidc_request oidc_user oidc_client
      oidc_session [] (Some "openid email") (mkClaimsRequest ∅ {["given_name"; "family_name"]}) world_oidc oidc_token _ world_oidc
      (fun _ => demo_store_ok) (fun _ _ _ _ Hk => Hk) eq_refl (run_fst _ _ _ oidc_signed) (oidc_in_time world_oidc eq_refl)
      world_oidc_wf (demo_pg_ok _) oidc_carried) (surjective_pairing _))|reflexivity]).
  destruct Hx as (resp & Hr & Hs). exists resp.
  split; [exact Hr|]. split; [exact Hs|]. split; [intros Heq; rewrite Heq in Hs; discriminate|].
  destruct (userinfo_discloses demo_validator oidc_request world_oidc resp _ world_oidc_wf (run_fst _ _ _ Hr))
    as [_ [Heq|[Heq|(_ & token & claims & user & info & w1 & _ & _ & _ & _ & Hsp & _)]]];
    [rewrite Heq in Hs; discriminate..|]. by exists claims, user.
Defined.

(** With the session the user's claims are told; without it the token is refused. *)
Lemma userinfo_of_issued_witness :
  (userinfo demo_validator oidc_request world_oidc).1
    = Ok (json_response 200 (JObj (userinfo_claims_of oidc_user (parse (Some "openid email")) ["family_name"; "given_name"])))
  /\ (userinfo demo_validator oidc_request (set_pg (on_user_sessions (delete 9%N) (pg world_oidc)) world_oidc)).1 = Ok invalid_token_response.
Proof.
  assert (Hwf : pg_wf (on_user_sessions (delete 9%N) (pg world_oidc))) by (apply pg_wf_b_ok; vm_compute; reflexivity).
  pose proof (fun w2 => userinfo_of_issued demo_signer demo_validator oidc_request oidc_user oidc_client oidc_session []
    (Some "openid email") (mkClaimsRequest ∅ {["given_name"; "family_name"]}) world_oidc oidc_token _ w2 (fun _ => demo_store_ok)
    (fun _ _ _ _ Hk => Hk) eq_refl (run_fst _ _ _ oidc_signed)) as Hu.
  split.
  - rewrite (Hu world_oidc); [|by apply oidc_in_time|exact world_oidc_wf|apply demo_pg_ok|exact oidc_carried].
    vm_compute. reflexivity.
  - rewrite Hu; [|by apply oidc_in_time|exact Hwf|apply demo_pg_ok|exact oidc_carried]. reflexivity.
Defined.

Lemma jwks_covers_validation_witness :
  exists keys, jwks provider2 = json_response 200 (obj [("keys", JArr keys)]) /\ key_id provider1 <> key_id provider2
    /\ key_id provider2 ∈ kids keys.
Proof.
  destruct (jwks_covers_validation provider0 provider1 provider2 provider0_disk provider0_init provider1_steps)
    as (keys & Hj & _ & Hin & _). exists keys. split; [exact Hj|]. split; [vm_compute; discriminate|exact Hin].
Defined.

(** ** Two divergences *)

Definition advertised (field : string) (cfg : Config) : list string :=
  match rs_body (discovery cfg) with
  | Json v => match value_get v field ≫= as_array with Some l => omap as_str l | None => [] end
  | _ => []
  end.

(** Discovery offers a PKCE method that the server refuses. *)
Example discovery_offers_plain cfg :
  "plain" ∈ advertised "code_challenge_methods_supported" cfg /\ is_method_supported (Some "plain") = false.
Proof. split; [right; left|vm_compute; reflexivity]. Qed.

(** Discovery lists the issue time among the claims; no access token and no id token
    has it. *)
Lemma issued_at_missing `{RedisServer} `{Env} `{JwtLib} `{Texts} s sub aud user client session roles scope cr scopes w nonce at_ :
  wp (sign_access_token s sub aud (build_access_token_claims user client session roles scope cr)) (fun r _ =>
    forall token, r = Ok token -> exists h c k, jwt_encode h c k = Some token /\ c !! "iat" = None) w
  /\ wp (sign_id_token s sub aud nonce at_ (build_id_token_claims user session scopes cr)) (fun r _ =>
    forall token, r = Ok token -> exists h c k, jwt_encode h c k = Some token /\ c !! "iat" = None) w.
Proof.
  split.
  - eapply wp_mono; [apply sign_access_spec|]. intros r w' [_ Hr] token ->. destruct (Hr token eq_refl) as (n & kp & _ & _ & He).
    eexists _, _, _. split; [exact He|]. rewrite lookup_union_r; [done|]. unfold build_access_token_claims. by case_bool_decide.
  - eapply wp_mono; [apply sign_id_spec|]. intros r w' [_ Hr] token ->.
    destruct (Hr token eq_refl) as (n & kp & c & _ & _ & He & Hc). eexists _, _, _. split; [exact He|].
    rewrite lookup_union_r; [rewrite Hc; destruct nonce as [x|]; [destruct (negb (is_empty x))|]; done|].
    unfold build_id_token_claims. destruct (usr_first_name user), (usr_last_name user);
      rewrite ?lookup_insert_if; closed_keys; by rewrite ?andb_false_r.
Qed.
