(* ===== verification/Device.v ===== *)
(** * Device authorization ([oauth/device/model.rs], [oauth/device/repository.rs],
    [oauth/device/flow.rs], [oauth/device/result.rs])

    A device authorization is a Redis hash under its device code, with a pointer
    from the normalised user code.  It starts pending; the user approves or
    denies it, once. *)

From stdpp Require Import base tactics list gmap strings.
From Stdlib Require Import ZArith Lia Ascii.
From S2P Require Import Prelude RustStr Redis Schema World Ext Demo RedisKeys Scopes Hashing Client Session.

Local Open Scope auth_scope.

(** ** Model *)

Definition STATUS_PENDING : string := "pending".
Definition STATUS_APPROVED : string := "approved".
Definition STATUS_DENIED : string := "denied".
Definition STATUS_CONSUMED : string := "consumed".

Record DeviceAuthorization := mkDeviceAuthorization {
  da_id : Uuid;
  da_device_code : string;
  da_user_code : string;
  da_client_id : string;
  da_scope : option string;
  da_status : string;
  da_user_id : option Uuid;
  da_session_id : option Uuid;
  da_expires_at : Z;
  da_created_at : option Z;
}.

(** [auth.status = ...; auth.user_id = ...; auth.session_id = ...] *)
Definition set_status (status : string) (user_id session_id : option Uuid) (a : DeviceAuthorization)
    : DeviceAuthorization :=
  mkDeviceAuthorization (da_id a) (da_device_code a) (da_user_code a) (da_client_id a) (da_scope a)
    status user_id session_id (da_expires_at a) (da_created_at a).

(** [auth.user_code = ...] *)
Definition set_user_code (user_code : string) (a : DeviceAuthorization) : DeviceAuthorization :=
  mkDeviceAuthorization (da_id a) (da_device_code a) user_code (da_client_id a) (da_scope a)
    (da_status a) (da_user_id a) (da_session_id a) (da_expires_at a) (da_created_at a).

Record DeviceAuthorizationResult := mkDeviceAuthorizationResult {
  dar_ok : bool;
  dar_payload : option Value;
  dar_error : option string;
  dar_error_description : option string;
}.
Definition dar_success (payload : Value) : DeviceAuthorizationResult :=
  mkDeviceAuthorizationResult true (Some payload) None None.
Definition dar_fail (error description : string) : DeviceAuthorizationResult :=
  mkDeviceAuthorizationResult false None (Some error) (Some description).

Record DeviceVerifyResult := mkDeviceVerifyResult {
  dvr_ok : bool;
  dvr_error : option string;
  dvr_error_description : option string;
}.
Definition dvr_success : DeviceVerifyResult := mkDeviceVerifyResult true None None.
Definition dvr_fail (error description : string) : DeviceVerifyResult :=
  mkDeviceVerifyResult false (Some error) (Some description).

(** ** Field encoding *)

Definition FMT : string := "%Y-%m-%dT%H:%M:%S%.f".
Definition FMT_NO_FRAC : string := "%Y-%m-%dT%H:%M:%S".

Section Fields.
Context `{Texts}.

Definition opt_field (k : string) (o : option string) : list (string * string) :=
  match o with Some v => [(k, v)] | None => [] end.

Definition to_fields (auth : DeviceAuthorization) : list (string * string) :=
  [("id", uuid_to_string (da_id auth));
   ("deviceCode", da_device_code auth);
   ("userCode", da_user_code auth);
   ("clientId", da_client_id auth)]
  ++ opt_field "scope" (da_scope auth)
  ++ [("status", da_status auth)]
  ++ opt_field "userId" (uuid_to_string <$> da_user_id auth)
  ++ opt_field "sessionId" (uuid_to_string <$> da_session_id auth)
  ++ [("expiresAt", dt_format FMT (da_expires_at auth))]
  ++ opt_field "createdAt" (dt_format FMT <$> da_created_at auth).

Definition parse_dt (s : string) : option Z :=
  match dt_parse FMT s with Some t => Some t | None => dt_parse FMT_NO_FRAC s end.

Definition from_fields (m : gmap string string) : res err DeviceAuthorization :=
  let? id := ok_or (EOther "missing id") (m !! "id") in
  let? id := ok_or (EOther "uuid") (uuid_parse_str id) in
  let? device_code := ok_or (EOther "missing deviceCode") (m !! "deviceCode") in
  let? user_code := ok_or (EOther "missing userCode") (m !! "userCode") in
  let? client_id := ok_or (EOther "missing clientId") (m !! "clientId") in
  let? status := ok_or (EOther "missing status") (m !! "status") in
  let? expires_at := ok_or (EOther "missing/invalid expiresAt") (m !! "expiresAt" ≫= parse_dt) in
  Ok (mkDeviceAuthorization id device_code user_code client_id (m !! "scope") status
        (m !! "userId" ≫= uuid_parse_str) (m !! "sessionId" ≫= uuid_parse_str)
        expires_at (m !! "createdAt" ≫= parse_dt)).
End Fields.

(** ** DeviceAuthorizationRepository *)

Definition normalize_user_code `{UnicodeTables} (user_code : string) : string :=
  to_uppercase (of_chars (base.filter (fun c => is_whitespace c = false /\ c <> "-") (chars user_code))).

Section Repository.
Context `{RedisServer} `{Env} `{Texts} `{UnicodeTables}.

Definition load_hash (key : string) : io (option DeviceAuthorization) :=
  do! redis_conn in
  let! map := redis_hgetall key in
  if bool_decide (map = ∅) then ret None
  else match from_fields map with
       | Ok a => ret (Some a)
       | Err e => throw e
       end.

Definition find_by_device_code (device_code : string) : io (option DeviceAuthorization) :=
  if is_empty device_code then ret None
  else load_hash (Keys.device_by_code device_code).

Definition find_by_user_code (user_code : string) : io (option DeviceAuthorization) :=
  if is_empty user_code then ret None
  else
    do! redis_conn in
    let! ptr := redis_get (Keys.device_by_user_code (normalize_user_code user_code)) in
    match ptr with
    | Some dc => if is_empty dc then ret None else find_by_device_code dc
    | None => ret None
    end.

Definition persist (auth : DeviceAuthorization) : io bool :=
  let! now := utc_now in
  let ttl := num_seconds (da_expires_at auth - now) in
  if (ttl <=? 0)%Z then ret false
  else
    let main_key := Keys.device_by_code (da_device_code auth) in
    let pointer_key := Keys.device_by_user_code (normalize_user_code (da_user_code auth)) in
    do! redis_conn in
    let! ptr_set := redis_set_ex_nx pointer_key (da_device_code auth) ttl in
    if negb ptr_set then ret false
    else
      do! redis_hset_multiple main_key (to_fields auth) in
      do! redis_expire main_key ttl in
      ret true.

Definition update (auth : DeviceAuthorization) : io unit :=
  let main_key := Keys.device_by_code (da_device_code auth) in
  do! redis_conn in
  let! exists_ := redis_exists main_key in
  if (exists_ =? 0)%Z then ret tt
  else redis_hset_multiple main_key (to_fields auth).
End Repository.

(** ** DeviceFlow *)

Definition DEVICE_CODE_TTL_SECONDS : Z := 300.
Definition POLL_INTERVAL_SECONDS : Z := 5.
Definition USER_CODE_ALPHABET : string := "BCDFGHJKLMNPQRSTVWXZ23456789".
Definition PERSIST_RETRIES : nat := 5.

Section Flow.
Context `{RedisServer} `{Env} `{Texts} `{UnicodeTables} `{Crypto}.
Context `{!JsonCodec ClientSnapshot} `{!JsonCodec SessionSnapshot}.

(** [USER_CODE_ALPHABET[rng.gen_range(0..len)] as char] *)
Definition random_char : io string :=
  let! idx := ask (fun t => gen_range t (String.length USER_CODE_ALPHABET)) in
  ret (take_bytes 1 (drop_bytes idx USER_CODE_ALPHABET)).

(** [for i in from..8] *)
Fixpoint push_chars (from fuel : nat) (s : string) : io string :=
  match fuel with
  | 0 => ret s
  | S n =>
      let s := if bool_decide (from = 4) then s +:+ "-" else s in
      let! c := random_char in
      push_chars (S from) n (s +:+ c)
  end.

Definition generate_user_code : io string := push_chars 0 8 "".

(** The loop that looks for a free user code. *)
Fixpoint persist_loop (retries : nat) (auth : DeviceAuthorization) : io (option DeviceAuthorization) :=
  match retries with
  | 0 => ret None
  | S n =>
      let! user_code := generate_user_code in
      let auth := set_user_code user_code auth in
      let! persisted := persist auth in
      if persisted then ret (Some auth) else persist_loop n auth
  end.

Record DeviceFlow := mkDeviceFlow { df_clients : ClientRepository; df_issuer_url : string }.

Definition request_device_authorization (self : DeviceFlow) (client_id : string) (scope : option string)
    : io DeviceAuthorizationResult :=
  if is_empty (trim client_id) then ret (dar_fail "invalid_request" "client_id is required")
  else
    let! client := find_by_client_id (df_clients self) client_id in
    match client with
    | Some client =>
        if negb (cl_enabled client) then
          ret (dar_fail "unauthorized_client" "Unknown or disabled client")
        else if negb (is_subset_of scope (cl_scopes client)) then
          ret (dar_fail "invalid_scope" "Requested scope is not allowed for this client")
        else
          let! now := utc_now in
          let! id := uuid_new_v4 in
          let! device_code := url_safe 32 in
          let auth := mkDeviceAuthorization id device_code "" (cl_client_id client) scope STATUS_PENDING
                        None None (now + seconds DEVICE_CODE_TTL_SECONDS)%Z (Some now) in
          let! persisted := persist_loop PERSIST_RETRIES auth in
          match persisted with
          | None => ret (dar_fail "server_error" "Could not allocate a unique user_code after retries")
          | Some auth =>
              ret (dar_success (JObj
                (<["interval" := JInt POLL_INTERVAL_SECONDS]>
                (<["expires_in" := JInt DEVICE_CODE_TTL_SECONDS]>
                (<["verification_uri_complete" :=
                     JStr (df_issuer_url self +:+ "/oauth/device?user_code=" +:+ da_user_code auth)]>
                (<["verification_uri" := JStr (df_issuer_url self +:+ "/oauth/device")]>
                (<["user_code" := JStr (da_user_code auth)]>
                (<["device_code" := JStr (da_device_code auth)]> ∅))))))))
          end
    | None => ret (dar_fail "unauthorized_client" "Unknown or disabled client")
    end.

Definition verify_user_code (user_code : string) (session_token : option string) (approve : bool)
    : io DeviceVerifyResult :=
  if is_empty (trim user_code) then ret (dvr_fail "invalid_request" "user_code is required")
  else
    let! session := match session_token with
      | Some t => find_active_session t
      | None => ret None
      end in
    match session with
    | None => ret (dvr_fail "invalid_session" "Login required")
    | Some session =>
        let! auth := find_by_user_code (trim user_code) in
        match auth with
        | None => ret (dvr_fail "invalid_user_code" "Unknown user_code")
        | Some auth =>
            let! now := utc_now in
            if (da_expires_at auth <? now)%Z then ret (dvr_fail "expired_token" "user_code expired")
            else if negb (bool_decide (da_status auth = STATUS_PENDING)) then
              ret (dvr_fail "invalid_user_code" "Already resolved")
            else
              let auth := if approve
                then set_status STATUS_APPROVED (Some (ses_user_id (swu_session session)))
                       (Some (ses_id (swu_session session))) auth
                else set_status STATUS_DENIED (da_user_id auth) (da_session_id auth) auth in
              do! update auth in
              ret dvr_success
        end
    end.
End Flow.

(** ** The hash of an authorization *)

Section FieldLemmas.
Context `{TextsLaws}.

Lemma hset_pairs_app ps qs h : hset_pairs (ps ++ qs) h = hset_pairs qs (hset_pairs ps h).
Proof. apply foldl_app. Qed.

Lemma lookup_opt_field k o h k' :
  hset_pairs (opt_field k o) h !! k' = if bool_decide (k = k') then from_option Some (h !! k') o else h !! k'.
Proof.
  destruct o as [v|]; simpl; case_bool_decide as Hk; try done.
  - subst. apply lookup_insert_eq.
  - by rewrite lookup_insert_ne.
Qed.

Lemma lookup_hset_one k v h k' :
  hset_pairs [(k, v)] h !! k' = if bool_decide (k = k') then Some v else h !! k'.
Proof.
  simpl. case_bool_decide as Hk; [subst; apply lookup_insert_eq|by rewrite lookup_insert_ne].
Qed.

(** Optional fields that [a] lacks are not readable in the hash either. *)
Definition no_stale (a : DeviceAuthorization) (h : gmap string string) : Prop :=
  (da_scope a = None -> h !! "scope" = None)
  /\ (da_user_id a = None -> h !! "userId" ≫= uuid_parse_str = None)
  /\ (da_session_id a = None -> h !! "sessionId" ≫= uuid_parse_str = None)
  /\ (da_created_at a = None -> h !! "createdAt" ≫= parse_dt = None).

Lemma lookup_base a h k :
  hset_pairs [("id", uuid_to_string (da_id a)); ("deviceCode", da_device_code a);
              ("userCode", da_user_code a); ("clientId", da_client_id a)] h !! k =
    if bool_decide ("clientId" = k) then Some (da_client_id a)
    else if bool_decide ("userCode" = k) then Some (da_user_code a)
    else if bool_decide ("deviceCode" = k) then Some (da_device_code a)
    else if bool_decide ("id" = k) then Some (uuid_to_string (da_id a)) else h !! k.
Proof.
  unfold hset_pairs. cbn [foldl fst snd].
  rewrite !lookup_insert. repeat case_decide; repeat case_bool_decide; done.
Qed.

(** Looking a literal field up in a written hash. *)
Ltac read_fields :=
  unfold to_fields; rewrite !hset_pairs_app;
  repeat first [rewrite !lookup_opt_field | rewrite !lookup_hset_one]; rewrite !lookup_base; closed_keys.

Lemma hset_device_code a h : hset_pairs (to_fields a) h !! "deviceCode" = Some (da_device_code a).
Proof. by read_fields. Qed.

Lemma from_fields_hset a h : no_stale a h -> from_fields (hset_pairs (to_fields a) h) = Ok a.
Proof.
  intros (Hs & Hu & Hse & Hc). unfold from_fields.
  assert (Hfmt : forall t, parse_dt (dt_format FMT t) = Some t)
    by (intros t; unfold parse_dt, FMT; by rewrite dt_parse_format).
  read_fields. cbn [rbind ok_or mbind option_bind]. rewrite uuid_parse_to_string. cbn [rbind ok_or].
  rewrite Hfmt. cbn [rbind ok_or].
  destruct a as [i dc uc ci [sc|] st [u|] [se|] e [c|]]; simpl in *;
    rewrite ?uuid_parse_to_string, ?Hfmt; try rewrite Hs by done; try rewrite Hu by done;
    try rewrite Hse by done; try rewrite Hc by done; done.
Qed.

(** A record that was read leaves nothing stale when its status is written. *)
Lemma no_stale_status a h st u s :
  from_fields h = Ok a -> (u = None -> da_user_id a = None) -> (s = None -> da_session_id a = None) ->
  no_stale (set_status st u s a) h.
Proof.
  unfold from_fields. intros Hf Hu Hs.
  repeat match goal with
  | Hf : rbind (ok_or _ ?o) _ = Ok _ |- _ => destruct o eqn:?; simpl in Hf; [|done]
  end.
  injection Hf as <-. simpl in *. repeat split; simpl; auto.
Qed.

Lemma hset_nonempty a h : hset_pairs (to_fields a) h <> ∅.
Proof. intros He. pose proof (hset_device_code a h) as Hd. by rewrite He, lookup_empty in Hd. Qed.
End FieldLemmas.

(** ** What the repository does *)

Section Specs.
Context `{RedisLaws} `{EnvLaws} `{TextsLaws} `{UnicodeTables}.
Implicit Types w : World.

Definition dkey (dc : string) : string := Keys.device_by_code dc.
Definition ukey (uc : string) : string := Keys.device_by_user_code (normalize_user_code uc).

(** The authorization a device code stands for. *)
Definition holds_device w (dc : string) (a : DeviceAuthorization) : Prop :=
  exists h d, rlive (redis_clock (tick w)) (dkey dc) (redis w) = Some (RHash h, d) /\ from_fields h = Ok a.

(** The device code a user code points at. *)
Definition points w (uc dc : string) : Prop :=
  exists x d, rlive (redis_clock (tick w)) (ukey uc) (redis w) = Some (x, d) /\ rvalue_text x = Some dc.

(** Every hash carries the device code it is stored under. *)
Definition keyed_devices w : Prop :=
  forall dc h d, rlive (redis_clock (tick w)) (dkey dc) (redis w) = Some (RHash h, d) ->
    h !! "deviceCode" = Some dc.

Lemma load_hash_spec key w :
  wp (load_hash key) (fun r w' => quiet w w' /\
    forall a, r = Ok (Some a) -> exists h d,
      rlive (redis_clock (tick w)) key (redis w) = Some (RHash h, d) /\ from_fields h = Ok a) w.
Proof.
  unfold load_hash. do 2 wp_step; [|split; [auto with wp|done]].
  do 2 wp_step; [|split; [auto with wp|done]].
  case_bool_decide as Hh; [wp_step; split; [auto with wp|done]|].
  destruct (from_fields h) as [a|e] eqn:Hf; wp_step; (split; [auto with wp|]); [|done].
  intros a' [= <-]. rewrite r_hgetall_law in Hget. simpl in Hget.
  destruct (rlive _ key (redis w)) as [[[x|n|h'] d]|] eqn:E; simplify_eq.
  exists h, d. split; [|done]. eapply rlive_some_earlier; [|exact E]. apply redis_clock_mono. lia.
Qed.

Lemma find_by_device_code_spec dc w :
  wp (find_by_device_code dc) (fun r w' => quiet w w' /\
    forall a, r = Ok (Some a) -> dc <> "" /\ holds_device w dc a) w.
Proof.
  unfold find_by_device_code. destruct (is_empty dc) eqn:He; [wp_step; split; [auto with wp|done]|].
  wp_call load_hash_spec. intros r w' [Hq Hr]. split; [done|]. intros a Ha.
  split; [by rewrite <- is_empty_spec, He|]. by apply Hr.
Qed.

Lemma holds_earlier w w' dc a : quiet w w' -> holds_device w' dc a -> holds_device w dc a.
Proof.
  intros (_ & Hr & Ht) (h & d & Hl & Hf). rewrite Hr in Hl. exists h, d. split; [|done].
  eapply rlive_some_earlier; [|exact Hl]. by apply redis_clock_mono.
Qed.

Lemma find_by_user_code_spec uc w :
  wp (find_by_user_code uc) (fun r w' => quiet w w' /\
    forall a, r = Ok (Some a) -> exists dc, points w uc dc /\ dc <> "" /\ holds_device w dc a) w.
Proof.
  unfold find_by_user_code. destruct (is_empty uc); [wp_step; split; [auto with wp|done]|].
  do 2 wp_step; [|split; [auto with wp|done]]. do 2 wp_step; [|split; [auto with wp|done]].
  destruct v as [dc|]; [|wp_step; split; [auto with wp|done]].
  destruct (is_empty dc) eqn:He; [wp_step; split; [auto with wp|done]|].
  wp_call find_by_device_code_spec. intros r w' [Hq Hr].
  assert (Hq0 : quiet w (bump (bump w))) by auto with wp.
  split; [by eapply quiet_trans|]. intros a Ha. destruct (Hr a Ha) as [Hne Hh].
  exists dc. split; [|split; [done|by eapply holds_earlier]].
  rewrite r_get_law in Hget. simpl in Hget.
  destruct (rlive _ _ (redis w)) as [[x d]|] eqn:E; [|done].
  destruct (rvalue_text x) as [t|] eqn:Ex; simpl in Hget; simplify_eq. exists x, d. split; [|done].
  eapply rlive_some_earlier; [|exact E]. apply redis_clock_mono. lia.
Qed.

(** Writing an authorization back: its hash, and nothing else, changes; if it was
    gone already nothing does.  An error leaves everything as it was, or comes
    from a reply that was lost after the write. *)
Definition written (a : DeviceAuthorization) w (r : res err unit) w' : Prop :=
  pg w' = pg w /\ redis_frame (eq (dkey (da_device_code a))) w w'
  /\ (keyed_devices w -> keyed_devices w')
  /\ (stores w' (dkey (da_device_code a)) None
      \/ (exists h d, stores w' (dkey (da_device_code a)) (Some (RHash (hset_pairs (to_fields a) h), d))
             /\ (rlive (redis_clock (tick w)) (dkey (da_device_code a)) (redis w) = Some (RHash h, d)
                 \/ h = ∅ /\ d = None))
      \/ r <> Ok tt /\ quiet w w').

Lemma keyed_quiet w w' : quiet w w' -> keyed_devices w -> keyed_devices w'.
Proof.
  intros (_ & Hr & Ht) Hk dc h d Hl. apply (Hk dc h d). rewrite Hr in Hl.
  eapply rlive_some_earlier; [|exact Hl]. by apply redis_clock_mono.
Qed.

(** Other keys leave the devices as they are. *)
Lemma keyed_frame K w w' :
  (forall dc, ~ K (dkey dc)) -> redis_frame K w w' -> keyed_devices w -> keyed_devices w'.
Proof. intros Hk Hf Hd dc h d Hl. apply (Hd dc h d). by eapply frame_rlive. Qed.

Lemma keyed_hset a h d w s :
  rupdate (redis_clock (tick w)) (dkey (da_device_code a)) (Some (RHash (hset_pairs (to_fields a) h), d))
    (redis w) s ->
  keyed_devices w -> keyed_devices (bump (set_redis s w)).
Proof.
  intros Hu Hk dc h' d' Hl. simpl in Hl.
  assert (Ht : (redis_clock (tick w) <= redis_clock (S (tick w)))%Z) by (apply redis_clock_mono; lia).
  destruct (decide (dkey dc = dkey (da_device_code a))) as [Heq|Hne].
  - rewrite Heq, (rupdate_same _ _ _ _ _ _ Hu Ht) in Hl. apply device_key_inj in Heq as ->.
    assert (h' = hset_pairs (to_fields a) h) as ->; [|apply hset_device_code].
    unfold still_live in Hl. destruct d; [destruct (_ <? _)%Z|]; congruence.
  - rewrite (rupdate_other _ _ _ _ _ _ _ Hu Ht Hne) in Hl. apply (Hk dc h' d').
    eapply rlive_some_earlier; [|exact Hl]. done.
Qed.

Lemma update_spec a w : wp (update a) (written a w) w.
Proof.
  unfold update. change (Keys.device_by_code (da_device_code a)) with (dkey (da_device_code a)).
  set (key := dkey (da_device_code a)).
  assert (Hno : forall w' r, quiet w w' -> stores w' key None \/ r <> Ok tt -> written a w r w').
  { intros w' r Hq Hr. split; [apply Hq|]. split; [|split; [by apply keyed_quiet|naive_solver]].
    destruct Hq as (_ & Hrd & Ht). split; [done|]. by rewrite Hrd. }
  assert (Herr : forall w' e, quiet w w' -> written a w (Err e) w') by (intros w' e Hq; apply Hno; [done|by right]).
  do 2 wp_step; [|by apply Herr; auto with wp]. do 2 wp_step; [|by apply Herr; auto with wp].
  rewrite r_exists_law. simpl.
  destruct (rlive (redis_clock (S (tick w))) key (redis w)) as [e|] eqn:E; cbn [Z.eqb].
  - apply wp_redis_hset; [done| |by apply Herr; auto with wp]. simpl.
    intros r s h d Hr Hl Hu. split; [done|]. split; [|split].
    + eapply (frame_cmd _ _ (bump (bump w)) key); [auto with wp|exact Hu|done].
    + intros Hk. apply (keyed_hset a h d (bump (bump w)) s Hu). eapply keyed_quiet; [|done]. auto with wp.
    + right; left. exists h, d. split; [by apply (stores_update (bump (bump w)))|].
      destruct Hl as [Hl|(_ & -> & ->)]; [|by right]. left.
      eapply rlive_some_earlier; [|exact Hl]. apply redis_clock_mono. lia.
  - wp_step. apply Hno; [auto with wp|]. left. intros t Ht. simpl in *.
    eapply rlive_none_later; [|exact E]. etrans; [|exact Ht]. apply redis_clock_mono. lia.
Qed.
End Specs.

Section Verify.
Context `{RedisLaws} `{EnvLaws} `{TextsLaws} `{UnicodeTables} `{Crypto} `{JsonCodecLaws SessionSnapshot}.
Implicit Types w : World.

(** The user's decision on an authorization. *)
Definition decided (approve : bool) (s : SessionWithUser) (a : DeviceAuthorization) : DeviceAuthorization :=
  if approve
  then set_status STATUS_APPROVED (Some (ses_user_id (swu_session s))) (Some (ses_id (swu_session s))) a
  else set_status STATUS_DENIED (da_user_id a) (da_session_id a) a.

(** The cached session of the request's token, and one device's hash. *)
Definition session_key (tok : option string) (k : string) : Prop :=
  exists t, tok = Some t /\ k = Keys.session (base64_url t).
Definition device_key (dc : option string) (k : string) : Prop := exists c, dc = Some c /\ k = dkey c.

(** Of everything stored, only the access time of a session, the cached session
    of the token and the device [dc] may differ. *)
Definition changed_only (tok dc : option string) w w' : Prop :=
  touched (pg w) (pg w') /\ redis_frame (fun k => session_key tok k \/ device_key dc k) w w'.

(** The decision took effect on the authorization [a] of [dc], or [a] was gone by
    the time it was written. *)
Definition resolved w' (dc : string) (a' : DeviceAuthorization) : Prop :=
  stores w' (dkey dc) None
  \/ exists h d, stores w' (dkey dc) (Some (RHash h, d)) /\ from_fields h = Ok a'.

(** A decision made, from [w] to [w'], by the user of the session. *)
Definition decision (user_code : string) (tok : option string) (approve : bool) w w' : Prop :=
  exists t s dc a, tok = Some t /\ source t w s /\ swu_user_enabled s = true
    /\ points w (trim user_code) dc /\ holds_device w dc a /\ da_status a = STATUS_PENDING
    /\ (exists n, tick w <= n < tick w' /\ (clock n <= da_expires_at a)%Z)
    /\ changed_only tok (Some dc) w w' /\ resolved w' dc (decided approve s a).

Definition verified (user_code : string) (tok : option string) (approve : bool) w
    (r : res err DeviceVerifyResult) w' : Prop :=
  keyed_devices w'
  /\ match r with
     | Ok res => if dvr_ok res then decision user_code tok approve w w' else changed_only tok None w w'
     | Err _ => changed_only tok None w w' \/ decision user_code tok approve w w'
     end.

Lemma session_not_device tok dc : Keys.session tok <> dkey dc.
Proof. unfold dkey. key_ne. Qed.

Lemma changed_trans tok dc w1 w2 w3 :
  changed_only tok None w1 w2 -> pg w3 = pg w2 -> redis_frame (device_key dc) w2 w3 ->
  changed_only tok dc w1 w3.
Proof.
  intros [Htd H12] Hp H23. split; [by rewrite Hp|]. eapply frame_trans.
  - eapply frame_weaken; [|exact H12]. intros k [?|(c & [=] & _)]. by left.
  - eapply frame_weaken; [|exact H23]. by right.
Qed.

Lemma changed_quiet tok dc w1 w2 w3 : changed_only tok None w1 w2 -> quiet w2 w3 -> changed_only tok dc w1 w3.
Proof. intros Hc (Hp & Hr & Ht). eapply changed_trans; [done..|]. split; [done|]. by rewrite Hr. Qed.

(** A record read under [dc] and written back, a little later, with a new status. *)
Lemma written_resolved dc a st u s w0 w w' r :
  keyed_devices w0 -> holds_device w0 dc a -> quiet w0 w ->
  (u = None -> da_user_id a = None) -> (s = None -> da_session_id a = None) ->
  written (set_status st u s a) w r w' ->
  keyed_devices w' /\ pg w' = pg w0 /\ redis_frame (device_key (Some dc)) w0 w'
  /\ (resolved w' dc (set_status st u s a) \/ r <> Ok tt /\ quiet w0 w').
Proof.
  intros Hk (h & d & Hl & Hf) Hq Hu Hs (Hp & Hfr & Hk' & Hw).
  assert (Hdc : da_device_code a = dc).
  { pose proof (Hk dc h d Hl) as Hc. unfold from_fields in Hf. rewrite Hc in Hf.
    repeat match goal with
    | Hf : rbind (ok_or _ ?o) _ = Ok _ |- _ => destruct o eqn:?; simpl in Hf; [|done]
    end. by injection Hf as <-. }
  change (da_device_code (set_status st u s a)) with (da_device_code a) in Hfr, Hw.
  rewrite Hdc in Hfr, Hw. split; [by apply Hk'; eapply keyed_quiet|].
  pose proof Hq as (Hp0 & Hr & Ht). split; [congruence|]. split.
  - eapply frame_trans; [split; [exact Ht|by rewrite Hr]|].
    eapply frame_weaken; [|exact Hfr]. intros k <-. by exists dc.
  - rewrite Hr in Hw. destruct Hw as [Hgone|[(h' & d' & Hst & Hor)|[Hne Hq']]]; [by left; left| |].
    2:{ right. split; [done|by eapply quiet_trans]. }
    left; right. eexists _, _. split; [exact Hst|]. apply from_fields_hset. destruct Hor as [Hl'|[-> _]].
    + apply (rlive_some_earlier (redis_clock (tick w0))) in Hl'; [|by apply redis_clock_mono].
      rewrite Hl in Hl'. simplify_eq. by apply no_stale_status.
    + repeat split; intros; by rewrite lookup_empty.
Qed.

Lemma verify_spec uc tok approve w :
  keyed_devices w -> wp (verify_user_code uc tok approve) (verified uc tok approve w) w.
Proof.
  intros Hkd. unfold verify_user_code.
  assert (Hstop : forall w' msg d, changed_only tok None w w' -> keyed_devices w' ->
    verified uc tok approve w (Ok (dvr_fail msg d)) w') by done.
  assert (Hsame : changed_only tok None w w) by (split; [by left|apply frame_refl]).
  destruct (is_empty (trim uc)); [wp_step; by apply Hstop|].
  wp_step. destruct tok as [t|]; [|wp_step; wp_step; by apply Hstop].
  wp_call find_active_spec. intros r w1 (Htd & Hf & _ & Hr).
  assert (Hc1 : changed_only (Some t) None w w1).
  { split; [done|]. eapply frame_weaken; [|exact Hf]. intros k <-. left. by exists t. }
  assert (Hkd1 : keyed_devices w1).
  { eapply keyed_frame; [|exact Hf|done]. intros dc. apply session_not_device. }
  destruct r as [[s|]|e]; [|wp_step; by apply Hstop|by split; [|left]].
  destruct Hr as (_ & Hsrc & Hen & _). wp_step. wp_call find_by_user_code_spec. intros r w2 [Hq2 Hr2].
  assert (Hc2 : changed_only (Some t) None w w2) by by eapply changed_quiet.
  assert (Hkd2 : keyed_devices w2) by by eapply keyed_quiet.
  destruct r as [[a|]|e]; [|wp_step; by apply Hstop|by split; [|left]].
  destruct (Hr2 a eq_refl) as (dc & Hpt & Hne & Hh).
  assert (Hqb : quiet w2 (bump w2)) by auto with wp.
  do 2 wp_step. destruct (_ <? _)%Z eqn:Hexp.
  { wp_step. apply Hstop; [by eapply changed_quiet|by eapply keyed_quiet]. }
  case_bool_decide as Hst; cbn [negb].
  2:{ wp_step. apply Hstop; [by eapply changed_quiet|by eapply keyed_quiet]. }
  wp_step. wp_call update_spec. intros r w3 Hw.
  assert (Hq13 : quiet w1 (bump w2)) by auto with wp.
  assert (Hres : keyed_devices w3 /\ pg w3 = pg w1 /\ redis_frame (device_key (Some dc)) w1 w3
    /\ (resolved w3 dc (decided approve s a) \/ r <> Ok tt /\ quiet w1 w3)).
  { destruct approve; apply (written_resolved dc a _ _ _ w1) in Hw; try done; exact Hw. }
  destruct Hw as (_ & [Ht3 _] & _). destruct Hres as (Hk3 & Hp3 & Hfr3 & Hres). simpl in Ht3.
  assert (Hc3 : changed_only (Some t) (Some dc) w w3) by exact (changed_trans _ _ _ w1 _ Hc1 Hp3 Hfr3).
  assert (Hback : forall k e, (forall tok, Keys.session tok <> k) ->
    rlive (redis_clock (tick w1)) k (redis w1) = Some e -> rlive (redis_clock (tick w)) k (redis w) = Some e).
  { intros k e Hk. eapply frame_rlive; [exact Hf|apply Hk]. }
  destruct Hq2 as (_ & _ & Ht2). destruct Hf as [Ht1 _].
  assert (Hdec : resolved w3 dc (decided approve s a) -> decision uc (Some t) approve w w3).
  { intros Hrs. exists t, s, dc, a. do 3 (split; [done|]). split; [|split; [|split; [done|split; [|done]]]].
    - destruct Hpt as (x & d & Hl & Hx). exists x, d. split; [|done]. apply Hback; [|done].
      intros tk. unfold ukey. key_ne.
    - destruct Hh as (h & d & Hl & Hx). exists h, d. split; [|done]. apply Hback; [|done].
      intros tk. apply session_not_device.
    - exists (tick w2). split; lia. }
  destruct r as [[]|e].
  - wp_step. split; [done|]. simpl. apply Hdec. by destruct Hres as [|[]].
  - split; [done|]. destruct Hres as [Hrs|[_ Hq3]]; [by right; apply Hdec|left].
    exact (changed_quiet _ _ _ w1 _ Hc1 Hq3).
Qed.
End Verify.

(** ** Allocation *)

Section Allocate.
Context `{RedisLaws} `{EnvLaws} `{TextsLaws} `{UnicodeTables}.
Implicit Types w : World.

(** When Redis answers and both codes are free, an authorization is stored, and
    the user code points at it, for the whole seconds it has left. *)
Lemma device_persist_spec a w :
  redis_ok (tick w) ->
  (0 < num_seconds (da_expires_at a - clock (tick w)))%Z ->
  stores w (dkey (da_device_code a)) None -> stores w (ukey (da_user_code a)) None ->
  wp (persist a) (fun r w' => r = Ok true /\ pg w' = pg w /\ tick w <= tick w'
    /\ exists n m, tick w <= n < tick w' /\ tick w <= m < tick w'
       /\ stores w' (ukey (da_user_code a)) (Some (RStr (da_device_code a),
            Some (redis_clock n + num_seconds (da_expires_at a - clock (tick w)) * ns_per_sec)%Z))
       /\ stores w' (dkey (da_device_code a)) (Some (RHash (hset_pairs (to_fields a) ∅),
            Some (redis_clock m + num_seconds (da_expires_at a - clock (tick w)) * ns_per_sec)%Z))) w.
Proof.
  intros Hup Httl Hd Hu. unfold persist. do 2 wp_step. cbv zeta.
  set (ttl := num_seconds (da_expires_at a - clock (tick w))) in *.
  destruct (_ <=? 0)%Z eqn:Hle; [lia|].
  change (Keys.device_by_code (da_device_code a)) with (dkey (da_device_code a)).
  change (Keys.device_by_user_code (normalize_user_code (da_user_code a))) with (ukey (da_user_code a)).
  assert (Hne : forall x y, dkey x <> ukey y) by (intros x y; unfold dkey, ukey; key_ne).
  wp_step. apply wp_redis_conn_ok; [eapply redis_ok_later; [|done]; simpl; lia|].
  wp_step. unfold redis_set_ex_nx. set (w2 := bump (bump w)).
  assert (Hd2 : stores w2 (dkey (da_device_code a)) None) by (by apply stores_bump, stores_bump).
  pose proof (r_set_ex_nx_law (redis_clock (tick w2)) (ukey (da_user_code a)) (da_device_code a) ttl (redis w2)) as Hl.
  replace (0 <? ttl)%Z with true in Hl by lia.
  rewrite Hu in Hl by (apply redis_clock_mono; simpl; lia). destruct Hl as (s & Hs & Hup1).
  eapply wp_redis_cmd_ok; [eapply redis_ok_later; [|done]; simpl; lia|exact Hs|]. cbn [negb].
  set (w3 := bump (set_redis s w2)). pose proof (stores_update w2 _ _ _ Hup1) as Hp3. fold w3 in Hp3.
  assert (Hd3 : stores w3 (dkey (da_device_code a)) None) by (eapply (stores_update_other w2); eauto).
  wp_step. unfold redis_hset_multiple.
  pose proof (r_hset_law (redis_clock (tick w3)) (dkey (da_device_code a)) (to_fields a) (redis w3)) as Hh.
  rewrite (Hd3 (redis_clock (tick w3))) in Hh by done. destruct Hh as (s' & Hs' & Hup2); [done|].
  eapply (wp_redis_cmd_ok _ tt s'); [eapply redis_ok_later; [|done]; simpl; lia|by rewrite Hs'|].
  set (w4 := bump (set_redis s' w3)). pose proof (stores_update w3 _ _ _ Hup2) as Hd4. fold w4 in Hd4.
  assert (Hp4 : stores w4 (ukey (da_user_code a)) _) by (eapply (stores_update_other w3); eauto).
  wp_step. unfold redis_expire.
  pose proof (r_expire_law (redis_clock (tick w4)) (dkey (da_device_code a)) ttl (redis w4)) as He.
  rewrite (Hd4 (redis_clock (tick w4))) in He by done. cbn [still_live] in He.
  replace (0 <? ttl)%Z with true in He by lia.
  destruct (r_expire _ _ _ _) as [x s''] eqn:Ex. cbn [fst snd] in He. destruct He as [_ Hup3].
  eapply (wp_redis_cmd_ok _ x s''); [eapply redis_ok_later; [|done]; simpl; lia|by rewrite Ex|].
  wp_step. split; [done|]. split; [done|]. split; [simpl; lia|]. exists (tick w2), (tick w4).
  split; [simpl; lia|]. split; [simpl; lia|]. split.
  - eapply (stores_update_other w4); [exact Hup3|by apply not_eq_sym|exact Hp4].
  - by apply (stores_update w4).
Qed.

(** [EXPIRE] changes when a hash disappears, not what it says. *)
Lemma keyed_expire k ttl w n s :
  (0 < ttl)%Z -> keyed_devices w -> r_expire (redis_clock (tick w)) k ttl (redis w) = (n, s) ->
  keyed_devices (bump (set_redis s w)).
Proof.
  intros Httl Hk He. pose proof (r_expire_law (redis_clock (tick w)) k ttl (redis w)) as Hl.
  rewrite He in Hl. replace (0 <? ttl)%Z with true in Hl by lia.
  destruct (rlive (redis_clock (tick w)) k (redis w)) as [[v d0]|] eqn:E.
  - destruct Hl as [_ Hu]. cbn [fst snd] in Hu. intros dc h' d' Hl'. simpl in Hl'.
    assert (Ht : (redis_clock (tick w) <= redis_clock (S (tick w)))%Z) by (apply redis_clock_mono; lia).
    destruct (decide (dkey dc = k)) as [<-|Hn].
    + rewrite (rupdate_same _ _ _ _ _ _ Hu Ht) in Hl'. simpl in Hl'.
      destruct (_ <? _)%Z in Hl'; [|done]. injection Hl' as -> _. by apply (Hk dc h' d0).
    + rewrite (rupdate_other _ _ _ _ _ _ _ Hu Ht Hn) in Hl'. apply (Hk dc h' d').
      eapply rlive_some_earlier; [|exact Hl']. done.
  - injection Hl as -> ->. eapply keyed_quiet; [|exact Hk]. by repeat split; simpl; auto.
Qed.

(** However storing ends, every stored hash carries its own device code. *)
Lemma persist_keyed a w : keyed_devices w -> wp (persist a) (always keyed_devices) w.
Proof.
  intros Hk. unfold persist. do 2 wp_step. cbv zeta.
  assert (Hq : forall w1 w2, quiet w1 w2 -> keyed_devices w1 -> keyed_devices w2) by (intros; by eapply keyed_quiet).
  destruct (_ <=? 0)%Z eqn:Hle; [wp_step; eapply Hq; [|done]; auto with wp|].
  set (ttl := num_seconds _) in *.
  change (Keys.device_by_code (da_device_code a)) with (dkey (da_device_code a)).
  do 2 wp_step; [|eapply Hq; [|done]; auto with wp]. wp_step.
  set (w2 := bump (bump w)). assert (Hk2 : keyed_devices w2) by (eapply Hq; [|done]; unfold w2; auto with wp).
  set (uk := Keys.device_by_user_code _). assert (Hne : forall dc, uk <> dkey dc) by (intros dc; unfold uk, dkey; key_ne).
  assert (Hptr : forall b s, r_set_ex_nx (redis_clock (tick w2)) uk (da_device_code a) ttl (redis w2) = Some (b, s) ->
    keyed_devices (bump (set_redis s w2))).
  { intros b s Hs. pose proof (r_set_ex_nx_law (redis_clock (tick w2)) uk (da_device_code a) ttl (redis w2)) as Hl.
    replace (0 <? ttl)%Z with true in Hl by lia. destruct (rlive _ uk _).
    - rewrite Hl in Hs. injection Hs as <- <-. eapply Hq; [|done]. by repeat split; simpl; auto.
    - destruct Hl as (s' & Hs' & Hu). rewrite Hs' in Hs. injection Hs as <- <-.
      eapply (keyed_frame (eq uk)); [exact Hne| |exact Hk2]. eapply frame_cmd; [apply frame_refl|exact Hu|done]. }
  unfold redis_set_ex_nx. wp_step; [|eapply Hq; [|exact Hk2]; auto with wp|by eapply Hptr].
  specialize (Hptr _ _ Hc). destruct a0; cbn [negb]; [|by wp_step].
  set (w3 := bump (set_redis s w2)) in *. wp_step.
  apply wp_redis_hset; [done| |eapply Hq; [|exact Hptr]; auto with wp].
  intros r s' h d Hr _ Hu. pose proof (keyed_hset a h d w3 s' Hu Hptr) as Hk4.
  destruct Hr as [->| ->]; [|done]. set (w4 := bump (set_redis s' w3)) in *. wp_step.
  unfold redis_expire. wp_step; [|eapply Hq; [|exact Hk4]; auto with wp|injection Hc0 as Hc0; eapply keyed_expire; [|exact Hk4|exact Hc0]; lia].
  injection Hc0 as Hc0. wp_step. eapply keyed_expire; [|exact Hk4|exact Hc0]. lia.
Qed.

(** A lookup under any spelling that normalises to the same code. *)
Lemma find_user_code_ok uc dc a w dl dl' h :
  redis_ok (tick w) -> uc <> "" -> dc <> "" ->
  stores w (ukey uc) (Some (RStr dc, Some dl)) -> stores w (dkey dc) (Some (RHash h, Some dl')) ->
  (redis_clock (tick w + 3) < dl)%Z -> (redis_clock (tick w + 3) < dl')%Z ->
  h <> ∅ -> from_fields h = Ok a ->
  wp (find_by_user_code uc) (fun r w' => r = Ok (Some a)) w.
Proof.
  intros Hup Hu Hd Hsu Hsd Hl Hl' Hh Hf. unfold find_by_user_code.
  destruct (is_empty uc) eqn:E; [by apply is_empty_spec in E|].
  pose proof (redis_clock_mono (tick w + 1) (tick w + 3)) as Hm1.
  wp_step. apply wp_redis_conn_ok; [done|]. wp_step.
  eapply (wp_redis_get_ok _ (Some dc)); [eapply redis_ok_later; [|done]; simpl; lia| |].
  { rewrite r_get_law. change (Keys.device_by_user_code (normalize_user_code uc)) with (ukey uc). simpl.
    rewrite Hsu by (apply redis_clock_mono; lia). simpl. replace (S (tick w)) with (tick w + 1) by lia.
    destruct (_ <? _)%Z eqn:Ed; [done|]. lia. }
  destruct (is_empty dc) eqn:Ec; [by apply is_empty_spec in Ec|].
  unfold find_by_device_code. rewrite Ec. unfold load_hash.
  wp_step. apply wp_redis_conn_ok; [eapply redis_ok_later; [|done]; simpl; lia|]. wp_step.
  eapply (wp_redis_hgetall_ok _ h); [eapply redis_ok_later; [|done]; simpl; lia| |].
  { rewrite r_hgetall_law. change (Keys.device_by_code dc) with (dkey dc). simpl.
    rewrite Hsd by (apply redis_clock_mono; lia). simpl. replace (S (S (S (tick w)))) with (tick w + 3) by lia.
    destruct (_ <? _)%Z eqn:Ed; [done|]. lia. }
  rewrite bool_decide_false by done. rewrite Hf. by wp_step.
Qed.
End Allocate.

(** ** User codes *)

Definition code_char (x : string) : Prop := x ∈ chars USER_CODE_ALPHABET.

Lemma alphabet_char idx : idx < String.length USER_CODE_ALPHABET ->
  code_char (take_bytes 1 (drop_bytes idx USER_CODE_ALPHABET)).
Proof.
  intros Hi. unfold code_char. simpl in Hi.
  do 28 (destruct idx as [|idx]; [refine (bool_decide_eq_true_1 _ _); vm_compute; reflexivity|]). lia.
Qed.

Lemma code_char_spec x : code_char x ->
  exists c, x = String c "" /\ (byte c <? 128)%N = true /\ ascii_upper c = c /\ is_whitespace x = false /\ x <> "-".
Proof.
  set (good := fun x : string => match x with
    | String c "" => (byte c <? 128)%N && bool_decide (ascii_upper c = c) && negb (is_whitespace x)
        && negb (bool_decide (x = "-"))
    | _ => false end).
  assert (Hall : forallb good (chars USER_CODE_ALPHABET) = true) by (vm_compute; reflexivity).
  rewrite forallb_forall in Hall. intros Hx%list_elem_of_In%Hall.
  destruct x as [|c [|? ?]]; try done. unfold good in Hx.
  rewrite !andb_true_iff, !negb_true_iff, bool_decide_eq_true, bool_decide_eq_false in Hx.
  destruct Hx as (((? & ?) & ?) & ?). by exists c.
Qed.

Lemma chars_codes l : Forall (fun x => exists c, x = String c "" /\ (byte c <? 128)%N = true) l ->
  chars (of_chars l) = l.
Proof.
  induction 1 as [|x l (c & -> & Hc) _ IH]; [done|].
  change (of_chars (String c "" :: l)) with (String c (of_chars l)).
  rewrite chars_ascii_cons by done. by rewrite IH.
Qed.

Lemma upper_codes `{UnicodeTables} l : Forall code_char l -> to_uppercase (of_chars l) = of_chars l.
Proof.
  intros Hl. unfold to_uppercase.
  assert (Ha : is_ascii (of_chars l) = true /\ map_bytes ascii_upper (of_chars l) = of_chars l); [|by destruct Ha as [-> ->]].
  induction Hl as [|x l Hx _ [IH1 IH2]]; [done|]. destruct (code_char_spec x Hx) as (c & -> & Hc & Hup & _).
  change (of_chars (String c "" :: l)) with (String c (of_chars l)). cbn [is_ascii map_bytes].
  by rewrite Hc, Hup, IH1, IH2.
Qed.

Section UserCode.
Context `{RedisServer} `{EnvLaws} `{UnicodeTables}.

(** Four characters, a dash, four characters. *)
Definition code_shape (cs ds : list string) : Prop :=
  length cs = 4 /\ length ds = 4 /\ Forall code_char (cs ++ ds).

Lemma wp_random_char Q w :
  (forall x, code_char x -> Q (Ok x) (bump w)) -> wp random_char Q w.
Proof.
  intros HQ. unfold random_char. do 3 wp_step. apply HQ, alphabet_char, gen_range_lt. simpl. lia.
Qed.

Lemma generate_user_code_spec w :
  wp generate_user_code (fun r w' => quiet w w' /\ exists cs ds, code_shape cs ds
    /\ r = Ok (of_chars (cs ++ "-" :: ds))) w.
Proof.
  unfold generate_user_code.
  do 8 (cbn [push_chars]; closed_keys; cbn iota; wp_step; apply wp_random_char; intros ? ?; cbn iota).
  cbn [push_chars]. wp_step. split; [auto 12 with wp|].
  exists [x; x0; x1; x2], [x3; x4; x5; x6]. split.
  { split; [reflexivity|]. split; [reflexivity|]. cbn [app].
    repeat (apply Forall_cons_2; [assumption|]). apply Forall_nil_2. }
  f_equal. cbn. by rewrite <- !string_app_assoc, string_app_nil_r.
Qed.

Lemma normalize_code cs ds :
  code_shape cs ds -> normalize_user_code (of_chars (cs ++ "-" :: ds)) = of_chars (cs ++ ds).
Proof.
  intros (_ & _ & Hall). unfold normalize_user_code.
  assert (Hf : forall l, Forall code_char l ->
    base.filter (fun c => is_whitespace c = false /\ c <> "-") l = l).
  { induction 1 as [|x l Hx _ IH]; [done|]. destruct (code_char_spec x Hx) as (c & _ & _ & _ & ? & ?).
    rewrite filter_cons_True by done. by rewrite IH. }
  pose proof Hall as [Hcs Hds]%Forall_app.
  rewrite chars_codes.
  - rewrite filter_app, filter_cons_False by naive_solver. rewrite !Hf by done. by apply upper_codes.
  - apply Forall_app. assert (Hi : forall l, Forall code_char l ->
      Forall (fun x => exists c, x = String c "" /\ (byte c <? 128)%N = true) l).
    { intros l Hl. eapply Forall_impl; [exact Hl|]. intros x (c & -> & Hc & _)%code_char_spec. eauto. }
    split; [by apply Hi|]. constructor; [by eexists|by apply Hi].
Qed.
End UserCode.

(** ** Theorems *)

(** A device authorization survives its encoding.  Reading back the fields it
    is written as, into a fresh hash or over an older version of it, gives the
    authorization itself, provided the older version has no readable value for an
    optional field that the new one lacks. *)
Lemma device_fields_roundtrip `{TextsLaws} a h :
  no_stale a h -> from_fields (hset_pairs (to_fields a) h) = Ok a.
Proof. apply from_fields_hset. Qed.

(** A stored device authorization is found under its user code, however it
    is spelled.  If Redis answers and both codes are free, [persist] reports
    success, and before the time is up a lookup by any text that normalises to
    the same user code returns the authorization. *)
Theorem device_stored_found `{RedisLaws} `{EnvLaws} `{TextsLaws} `{UnicodeTables} a uc w w' :
  redis_ok (tick w) ->
  (0 < num_seconds (da_expires_at a - clock (tick w)))%Z ->
  stores w (dkey (da_device_code a)) None -> stores w (ukey (da_user_code a)) None ->
  da_device_code a <> "" -> uc <> "" ->
  normalize_user_code uc = normalize_user_code (da_user_code a) ->
  w' = (persist a w).2 ->
  (redis_clock (tick w' + 3) < redis_clock (tick w)
     + num_seconds (da_expires_at a - clock (tick w)) * ns_per_sec)%Z ->
  (persist a w).1 = Ok true /\ (find_by_user_code uc w').1 = Ok (Some a).
Proof.
  intros Hup Httl Hd Hu Hdc Huc Hn -> Hlive.
  destruct (wp_run _ _ _ _ _ (device_persist_spec a w Hup Httl Hd Hu) (surjective_pairing _))
    as (Hok & _ & Ht & n & m & Hnt & Hmt & Hsu & Hsd).
  split; [done|]. set (w' := (persist a w).2) in *. clearbody w'.
  pose proof (redis_clock_mono (tick w) n). pose proof (redis_clock_mono (tick w) m).
  refine (wp_run _ _ _ _ _ (find_user_code_ok uc (da_device_code a) a w' _ _ _ _ Huc Hdc _ Hsd _ _
    (hset_nonempty a ∅) _) (surjective_pairing _)).
  - by eapply redis_ok_later.
  - unfold ukey. rewrite Hn. exact Hsu.
  - lia.
  - lia.
  - apply from_fields_hset. repeat split; intros; by rewrite lookup_empty.
Qed.

(** C27: A device authorization is decided once, by a logged-in user.  If every
    stored authorization carries its own device code, that stays so, and a
    verification that reports success was made with an active session of an
    enabled user, found a pending, unexpired authorization under the user code,
    and turned it into an approval bound to that user and session, or a denial,
    unless it expired meanwhile; besides that authorization, only the cached
    session of the token and a session's access time may have changed.  A refusal
    decides nothing: only those two may have changed.  An error (a store that
    failed) either decided nothing, too, or is the lost reply to a write that
    made the whole decision, under the same conditions. *)
Theorem device_decided_once `{RedisLaws} `{EnvLaws} `{TextsLaws} `{UnicodeTables} `{Crypto}
  `{JsonCodecLaws SessionSnapshot} uc tok approve w r w' :
  keyed_devices w -> verify_user_code uc tok approve w = (r, w') ->
  keyed_devices w'
  /\ match r with
     | Ok res => if dvr_ok res then decision uc tok approve w w' else changed_only tok None w w'
     | Err _ => changed_only tok None w w' \/ decision uc tok approve w w'
     end.
Proof.
  intros Hk Hrun. exact (wp_run _ _ _ _ _ (verify_spec uc tok approve w Hk) Hrun).
Qed.

(** A generated user code is eight characters of the alphabet with a dash in
    the middle, and what the server stores for it is the eight characters: the
    alphabet has no character that normalisation drops or changes.  Generation
    never fails. *)
Lemma user_code_shape `{RedisServer} `{EnvLaws} `{UnicodeTables} w :
  exists cs ds, code_shape cs ds
    /\ (generate_user_code w).1 = Ok (of_chars (cs ++ "-" :: ds))
    /\ normalize_user_code (of_chars (cs ++ "-" :: ds)) = of_chars (cs ++ ds).
Proof.
  destruct (wp_run _ _ _ _ _ (generate_user_code_spec w) (surjective_pairing _)) as (_ & cs & ds & Hs & Hr).
  exists cs, ds. split; [done|]. split; [done|]. by apply normalize_code.
Qed.

(** ** Witnesses *)

Import Instances.

Definition demo_device : DeviceAuthorization :=
  mkDeviceAuthorization 3 "dc" "BCDF-GHJK" "app" (Some "openid") STATUS_PENDING None None
    1700000300000000000 None.

Lemma device_fields_roundtrip_witness : from_fields (hset_pairs (to_fields demo_device) ∅) = Ok demo_device.
Proof. apply device_fields_roundtrip. repeat split; intros; reflexivity. Defined.

Lemma device_stored_found_witness :
  (find_by_user_code "bcdf ghjk" (persist demo_device world0).2).1 = Ok (Some demo_device).
Proof.
  apply (device_stored_found demo_device "bcdf ghjk" world0 _ (demo_redis_ok _)
    ltac:(vm_compute; reflexivity) ltac:(intros t Ht; reflexivity) ltac:(intros t Ht; reflexivity)
    ltac:(discriminate) ltac:(discriminate) ltac:(vm_compute; reflexivity) eq_refl).
  vm_compute. reflexivity.
Defined.

Definition world_device : World := (persist demo_device world_sessions).2.

Lemma world_device_keyed : keyed_devices world_device.
Proof.
  apply (wp_run _ _ _ _ _ (persist_keyed demo_device world_sessions ltac:(done)) (surjective_pairing _)).
Qed.

Lemma device_decided_once_witness :
  (verify_user_code "BCDF-GHJK" (Some "tok") true world_device).1 = Ok dvr_success
  /\ exists dc a, points world_device "BCDF-GHJK" dc /\ holds_device world_device dc a
       /\ da_status a = STATUS_PENDING.
Proof.
  assert (Hv : (verify_user_code "BCDF-GHJK" (Some "tok") true world_device).1 = Ok dvr_success)
    by (vm_compute; reflexivity).
  split; [exact Hv|].
  destruct (device_decided_once _ _ _ _ _ _ world_device_keyed (run_fst _ _ _ Hv))
    as (_ & t & s & dc & a & _ & _ & _ & Hp & Hh & Hs & _).
  exists dc, a. split; [exact Hp|]. split; [exact Hh|exact Hs].
Defined.
