(* ===== verification/TokenFlow.v ===== *)
(** * The token endpoint ([oauth/token/flow.rs], [oauth/token/result.rs])

    The four grants.  Each authenticates the client, checks its credential (an
    authorization code, a refresh token, a device code, or the client's own
    secret) and issues tokens; the refresh grant does its check, the revocation
    of the presented token and the insertion of the new one in one transaction. *)

From stdpp Require Import base tactics list gmap strings.
From Stdlib Require Import ZArith Lia.
From S2P Require Import Prelude RustStr Redis Schema World Ext Demo DemoJson DemoJwt RedisKeys Scopes Hashing.
From S2P Require Import Secrets Jwt Role User Client RefreshToken Session AuthCode Issuer Device Integrity.

Local Open Scope auth_scope.

(** ** Results and requests *)

Record TokenResult := mkTokenResult {
  tr_ok : bool;
  tr_payload : option Value;
  tr_error : option string;
  tr_error_description : option string;
}.
Definition success (payload : Value) : TokenResult := mkTokenResult true (Some payload) None None.
Definition error (error description : string) : TokenResult :=
  mkTokenResult false None (Some error) (Some description).

Record TokenRequest := mkTokenRequest {
  grant_type : option string;
  code : option string;
  redirect_uri : option string;
  client_id : option string;
  client_secret : option string;
  code_verifier : option string;
  refresh_token : option string;
  scope : option string;
  device_code : option string;
}.

(** ** Client authentication *)

Section Authenticate.
Context `{RedisServer} `{Env} `{Argon2Lib} `{Crypto} `{ValueParser}.

Definition is_confidential (client : Client) : bool :=
  bool_decide (to_ascii_lowercase (default "" (cl_client_type client)) = "confidential").

Definition authenticate_client (client : Client) (presented_secret : option string) : io bool :=
  if negb (is_confidential client) then ret true
  else match presented_secret with
       | None => ret false
       | Some presented =>
           if is_empty presented then ret false
           else match cl_client_secret client with
                | None => ret false
                | Some stored => ClientSecretHasher.verify_async presented stored
                end
       end.
End Authenticate.

(** ** TokenFlow *)

Section Flow.
Context `{RedisServer} `{Env} `{JwtLib} `{Texts} `{Crypto} `{ValueParser} `{Argon2Lib} `{UnicodeTables}.
Context `{!JsonCodec ClientSnapshot} `{!JsonCodec AuthorizationCode}.

Record TokenFlow := mkTokenFlow {
  tf_clients : ClientRepository;
  tf_issuer : TokenIssuer;
  tf_hmac : HmacSha256;
}.

(** The look-up each grant starts with: a known, enabled client. *)
Definition with_client (self : TokenFlow) (client_id : string) (k : Client -> io TokenResult) : io TokenResult :=
  let! client := Client.find_by_client_id (tf_clients self) client_id in
  match client with
  | None => ret (error "unauthorized_client" "Unknown or disabled client")
  | Some client =>
      if negb (cl_enabled client) then ret (error "unauthorized_client" "Unknown or disabled client")
      else k client
  end.

Definition with_auth (client : Client) (secret : option string) (k : io TokenResult) : io TokenResult :=
  let! authenticated := authenticate_client client secret in
  if negb authenticated then ret (error "invalid_client" "Invalid client credentials") else k.

(** Issue in a transaction of its own. *)
Definition issue_in_tx (self : TokenFlow) (user : User) (client : Client) (session : UserSession)
    (scope nonce claims_requested : option string) : io TokenResult :=
  let! tx := begin_tx in
  let! ' (payload, tx) := issue (tf_issuer self) tx user client session scope nonce claims_requested in
  do! commit tx in
  ret (success payload).

Definition from_device_code (self : TokenFlow) (req : TokenRequest) : io TokenResult :=
  let device_code := default "" (device_code req) in
  let client_id := default "" (client_id req) in
  if is_empty device_code || is_empty client_id
  then ret (error "invalid_request" "device_code and client_id are required")
  else
    with_client self client_id (fun client =>
    with_auth client (client_secret req) (
    let! auth := find_by_device_code device_code in
    match auth with
    | None => ret (error "invalid_grant" "Unknown device_code")
    | Some auth =>
        if negb (bool_decide (da_client_id auth = client_id))
        then ret (error "invalid_grant" "device_code does not belong to this client")
        else
          let! now := utc_now in
          if (da_expires_at auth <? now)%Z then ret (error "expired_token" "device_code expired")
          else if bool_decide (da_status auth = STATUS_PENDING)
          then ret (error "authorization_pending" "User has not yet approved")
          else if bool_decide (da_status auth = STATUS_DENIED)
          then ret (error "access_denied" "User denied the authorization request")
          else if bool_decide (da_status auth = STATUS_CONSUMED)
          then ret (error "invalid_grant" "device_code already used")
          else if negb (bool_decide (da_status auth = STATUS_APPROVED))
          then ret (error "invalid_grant" "Unknown device_code state")
          else
            match da_user_id auth with
            | None => ret (error "invalid_grant" "Approved device_code missing user binding")
            | Some user_id =>
                match da_session_id auth with
                | None => ret (error "invalid_grant" "Approved device_code missing user binding")
                | Some session_id =>
                    let! user := User.find_by_id user_id in
                    let! session := Session.find_by_id session_id in
                    match user, session with
                    | Some user, Some session =>
                        do! Device.update (set_status STATUS_CONSUMED (da_user_id auth) (da_session_id auth) auth) in
                        issue_in_tx self user client session (da_scope auth) None None
                    | _, _ => ret (error "invalid_grant" "User/session not found")
                    end
                end
            end
    end)).

Definition from_client_credentials (self : TokenFlow) (req : TokenRequest) : io TokenResult :=
  let client_id := default "" (client_id req) in
  if is_empty client_id then ret (error "invalid_request" "client_id is required")
  else
    with_client self client_id (fun client =>
    if negb (is_confidential client)
    then ret (error "unauthorized_client" "client_credentials grant requires a confidential client")
    else with_auth client (client_secret req) (
    if negb (is_subset_of (scope req) (cl_scopes client))
    then ret (error "invalid_scope" "Requested scope is not allowed for this client")
    else
      let! payload := issue_for_client (tf_issuer self) client (scope req) in
      ret (success payload))).

Definition from_authorization_code (self : TokenFlow) (req : TokenRequest) : io TokenResult :=
  let code := default "" (code req) in
  let redirect_uri := default "" (redirect_uri req) in
  let client_id := default "" (client_id req) in
  if is_empty code || is_empty redirect_uri || is_empty client_id
  then ret (error "invalid_request" "code, redirect_uri, client_id are required")
  else
    with_client self client_id (fun client =>
    with_auth client (client_secret req) (
    let! auth_code := consume code in
    match auth_code with
    | None => ret (error "invalid_grant" "Invalid authorization code")
    | Some auth_code =>
        let! now := utc_now in
        if (ac_expires_at auth_code <? now)%Z then ret (error "invalid_grant" "Authorization code expired")
        else if negb (bool_decide (ac_client_id auth_code = client_id))
                || negb (bool_decide (ac_redirect_uri auth_code = redirect_uri))
        then ret (error "invalid_grant" "Code binding mismatch")
        else
          let code_has_challenge := match ac_code_challenge auth_code with
                                    | Some c => negb (is_empty c) | None => false end in
          let verifier := default "" (code_verifier req) in
          let challenge := default "" (ac_code_challenge auth_code) in
          let method := default "" (ac_code_challenge_method auth_code) in
          if (cl_pkce_required client || code_has_challenge) && is_empty verifier
          then ret (error "invalid_request" "code_verifier is required")
          else if (cl_pkce_required client || code_has_challenge)
                  && negb (Hashing.verify verifier challenge method)
          then ret (error "invalid_grant" "PKCE verification failed")
          else
            let! user := User.find_by_id (ac_user_id auth_code) in
            let! session := Session.find_by_id (ac_session_id auth_code) in
            match user, session with
            | Some user, Some session =>
                issue_in_tx self user client session (ac_scope auth_code) (ac_nonce auth_code)
                  (ac_claims_requested auth_code)
            | _, _ => ret (error "invalid_grant" "User/session not found")
            end
    end)).

Definition from_refresh_token (self : TokenFlow) (req : TokenRequest) : io TokenResult :=
  let raw := default "" (refresh_token req) in
  let client_id := default "" (client_id req) in
  if is_empty raw || is_empty client_id
  then ret (error "invalid_request" "refresh_token and client_id are required")
  else
    with_client self client_id (fun client =>
    with_auth client (client_secret req) (
    let refresh_hash := compute (tf_hmac self) raw in
    let! tx := begin_tx in
    let! ' (stored, tx) := find_by_token_hash_for_update refresh_hash tx in
    match stored with
    | None => ret (error "invalid_grant" "Invalid refresh token")
    | Some stored =>
        if rt_revoked stored then
          (* the result of the revocation is discarded *)
          let! ' (_, tx) := revoke_by_session_id_in_tx tx (rt_session_id stored) in
          do! commit tx in
          ret (error "invalid_grant" "Refresh token revoked — session terminated")
        else
          let! expired := match rt_expires_at stored with
            | Some exp => let! now := utc_now in ret (exp <? now)%Z
            | None => ret false
            end in
          if expired : bool then ret (error "invalid_grant" "Refresh token expired")
          else if negb (bool_decide (rt_client_id stored = cl_id client))
          then ret (error "invalid_grant" "Refresh token client mismatch")
          else
            let! user := User.find_by_id (rt_user_id stored) in
            let! session := Session.find_by_id (rt_session_id stored) in
            match user, session with
            | Some user, Some session =>
                if negb (usr_enabled user) then ret (error "invalid_grant" "User/session not valid")
                else
                  let! ' (_, tx) := update_revoked_in_tx tx (rt_id stored) true in
                  let! ' (payload, tx) := issue (tf_issuer self) tx user client session (cl_scopes client) None None in
                  do! commit tx in
                  ret (success payload)
            | _, _ => ret (error "invalid_grant" "User/session not valid")
            end
    end)).

Definition token (self : TokenFlow) (req : TokenRequest) : io TokenResult :=
  let g := default "" (grant_type req) in
  if bool_decide (g = "authorization_code") then from_authorization_code self req
  else if bool_decide (g = "refresh_token") then from_refresh_token self req
  else if bool_decide (g = "client_credentials") then from_client_credentials self req
  else if bool_decide (g = "urn:ietf:params:oauth:grant-type:device_code") then from_device_code self req
  else ret (error "unsupported_grant_type"
              "Supported: authorization_code, refresh_token, client_credentials, device_code").
End Flow.

(** ** What the grants do *)

Section Specs.
Context `{RedisLaws} `{EnvLaws} `{JwtLaws} `{Texts} `{Crypto} `{ValueParser} `{Argon2Lib}.
Context `{JsonCodecLaws ClientSnapshot} `{!JsonCodec AuthorizationCode}.
Implicit Types w : World.

(** A public client, or one that presented its secret. *)
Definition authenticated (client : Client) (secret : option string) : Prop :=
  is_confidential client = false
  \/ exists presented stored, secret = Some presented /\ presented <> ""
       /\ cl_client_secret client = Some stored /\ ClientSecretHasher.verify presented stored = true.

Lemma authenticate_spec client secret w :
  wp (authenticate_client client secret) (fun r w' => quiet w w' /\
    exists b, r = Ok b /\ (b = true -> authenticated client secret)) w.
Proof.
  unfold authenticate_client. destruct (is_confidential client) eqn:Hc; cbn [negb].
  2:{ wp_step. split; [auto with wp|]. eexists. split; [done|]. by left. }
  assert (Hno : quiet w w /\ exists b, @Ok err _ false = Ok b /\ (b = true -> authenticated client secret))
    by (split; [auto with wp|]; by exists false).
  destruct secret as [p|]; [|by wp_step]. destruct (is_empty p) eqn:Hp; [by wp_step|].
  destruct (cl_client_secret client) as [s|] eqn:Hs; [|by wp_step].
  assert (Hne : p <> "") by by rewrite <- is_empty_spec, Hp.
  unfold ClientSecretHasher.verify_async. destruct (negb _); wp_step.
  - split; [auto with wp|]. eexists. split; [done|]. intros Hv. right. by exists p, s.
  - split; [auto with wp|]. eexists. split; [done|]. destruct (task_ok _); [|done]. intros Hv. right. by exists p, s.
Qed.

(** An answer without tokens, or a failed call. *)
Definition refused (r : res err TokenResult) : Prop :=
  match r with Ok res => tr_ok res = false | Err _ => True end.

(** The errors given before the credential of a grant is looked at. *)
Definition client_errors : list (option string) :=
  [Some "invalid_request"; Some "unauthorized_client"; Some "invalid_client"].

Lemma grant_error_apart : Some "invalid_grant" ∉ client_errors.
Proof. unfold client_errors. set_solver. Qed.

(** The client was not accepted. *)
Definition turned_away (r : res err TokenResult) : Prop :=
  refused r /\ forall res, r = Ok res -> tr_error res ∈ client_errors.

Lemma with_client_spec self cid k Q w :
  pg_wf (pg w) -> coherent w ->
  (forall c w1, pg w1 = pg w -> redis_frame (eq (Keys.client cid)) w w1 -> coherent w1 -> cid <> "" ->
     served_from cid (pg w) c -> cl_enabled c = true -> wp (k c) Q w1) ->
  (forall r w1, turned_away r -> pg w1 = pg w -> redis_frame (eq (Keys.client cid)) w w1 -> coherent w1 -> Q r w1) ->
  wp (with_client self cid k) Q w.
Proof.
  intros Hwf Hco Hk Hno. unfold with_client. wp_step. wp_call (find_by_client_id_spec (tf_clients self) cid w Hwf).
  intros r w1 (Hp & Hf & Hc & Hr). specialize (Hc Hco).
  assert (Hrefuse : forall r, turned_away r -> Q r w1) by (intros; by apply Hno).
  assert (Hbad : turned_away (Ok (error "unauthorized_client" "Unknown or disabled client")))
    by (split; [done|]; intros ? [= <-]; simpl; unfold client_errors; set_solver).
  destruct r as [[c|]|e]; [|wp_step; by apply Hrefuse|by apply Hrefuse].
  destruct Hr as [Hne Hr]. destruct (cl_enabled c) eqn:Hen; cbn [negb]; [|wp_step; by apply Hrefuse].
  apply Hk; try done. destruct Hr as [(snap & Hs & ->)|Hr]; [by apply Hco|done].
Qed.

Lemma with_auth_spec client secret k Q w :
  (forall w1, quiet w w1 -> authenticated client secret -> wp k Q w1) ->
  (forall r w1, turned_away r -> quiet w w1 -> Q r w1) ->
  wp (with_auth client secret k) Q w.
Proof.
  intros Hk Hno. unfold with_auth. wp_step. wp_call authenticate_spec. intros r w1 (Hq & b & -> & Hb). cbn iota.
  destruct b; cbn [negb]; [by apply Hk; auto|wp_step; apply Hno; [|done]]. split; [done|].
  intros ? [= <-]. simpl. unfold client_errors. set_solver.
Qed.

(** Tokens were issued: the new refresh token's row is the only change from [d]. *)
Definition issued (self : TokenFlow) (d : Pg) (user : User) (client : Client) (session : UserSession)
    (scope : option string) (d0 d' : Pg) (res : TokenResult) : Prop :=
  exists m raw id now, res = success (JObj m)
    /\ insert_refresh_token (fresh_row (tf_issuer self) user client session raw id now) d0 = Ok (tt, d')
    /\ answers (tf_issuer self) d user client session scope raw m.

Lemma issue_in_tx_spec self user client session sc nonce cj w :
  pg_wf (pg w) ->
  wp (issue_in_tx self user client session sc nonce cj) (fun r w' => redis w' = redis w /\ tick w <= tick w'
    /\ forall res, r = Ok res -> issued self (pg w) user client session sc (pg w) (pg w') res) w.
Proof.
  intros Hwf. unfold issue_in_tx.
  do 2 wp_step; [|split; [done|]; split; [simpl; lia|done]].
  wp_step. wp_call (issue_spec (tf_issuer self) (pg w) user client session sc nonce cj (bump w) Hwf).
  intros r w2 [(Hp & Hr & Ht) Hi]. simpl in Ht.
  destruct r as [[payload tx]|e]; [|split; [done|]; split; [lia|done]].
  destruct (Hi payload tx eq_refl) as (m & raw & id & n & d' & -> & -> & Hn & Hins & Hans).
  do 2 wp_step; try (split; [done|]; split; [simpl; lia|done]).
  wp_step. split; [done|]. split; [simpl; lia|]. intros res [= <-]. by exists m, raw, id, (clock n).
Qed.

(** *** The authorization-code grant *)

Definition code_granted (self : TokenFlow) (req : TokenRequest) w (res : TokenResult) w' : Prop :=
  let code := default "" (code req) in
  exists client c user session,
    served_from (default "" (client_id req)) (pg w) client /\ cl_enabled client = true
    /\ authenticated client (client_secret req)
    /\ AuthCode.holds w code c
    /\ ac_client_id c = default "" (client_id req) /\ ac_redirect_uri c = default "" (redirect_uri req)
    /\ (exists n, tick w <= n < tick w' /\ (clock n <= ac_expires_at c)%Z)
    /\ (cl_pkce_required client = true \/ default "" (ac_code_challenge c) <> "" ->
          Hashing.verify (default "" (code_verifier req)) (default "" (ac_code_challenge c))
            (default "" (ac_code_challenge_method c)) = true)
    /\ users (pg w) !! ac_user_id c = Some user
    /\ user_sessions (pg w) !! ac_session_id c = Some session
    /\ code <> "" /\ stores w' (code_key code) None
    /\ issued self (pg w) user client session (ac_scope c) (pg w) (pg w') res.

(** A successful answer is a grant; a refusal leaves the tables alone. *)
Definition outcome (granted : TokenResult -> World -> Prop) w (r : res err TokenResult) w' : Prop :=
  match r with
  | Ok res => if tr_ok res then granted res w' else pg w' = pg w
  | Err _ => True
  end.

Lemma outcome_refused granted w r w' : turned_away r -> pg w' = pg w -> outcome granted w r w'.
Proof. intros [Hr _]. destruct r; simpl in *; [|done]. by rewrite Hr. Qed.

Lemma code_spec self req w :
  pg_wf (pg w) -> coherent w ->
  wp (from_authorization_code self req) (outcome (code_granted self req w) w) w.
Proof.
  intros Hwf Hco. unfold from_authorization_code.
  set (cd := default "" (code req)). set (uri := default "" (redirect_uri req)).
  set (cid := default "" (client_id req)).
  destruct (is_empty cd || is_empty uri || is_empty cid) eqn:He; [by wp_step|].
  assert (Hcd : cd <> "") by (rewrite <- is_empty_spec; by destruct (is_empty cd)).
  apply with_client_spec; [done|done| |intros; by apply outcome_refused].
  intros client w1 Hp1 Hf1 _ _ Hsrv Hen.
  apply with_auth_spec; [|intros r w2 Hr (? & _); apply outcome_refused; congruence].
  intros w2 (Hp2 & Hr2 & Ht2) Hauth. wp_step. wp_call consume_spec.
  intros r w3 (Hp3 & _ & _ & Hr3). destruct r as [o|e]; [|done].
  destruct Hr3 as (Hgone & _ & Hsome). specialize (Hgone Hcd).
  assert (Hp : pg w3 = pg w) by congruence.
  destruct o as [c|]; [|by wp_step]. destruct (Hsome c eq_refl) as (_ & Hh & n & Hn & Hexp).
  assert (Hhold : AuthCode.holds w cd c).
  { destruct Hh as (x & d & raw & Hl & Hx & Hj). exists x, d, raw. split; [|done]. rewrite Hr2 in Hl.
    eapply frame_rlive; [exact Hf1|unfold code_key; key_ne|].
    eapply rlive_some_earlier; [|exact Hl]. by apply redis_clock_mono. }
  do 2 wp_step. destruct (_ <? _)%Z; [by wp_step|].
  destruct (bool_decide (ac_client_id c = cid)) eqn:Hci; cbn [negb orb]; [|by wp_step].
  destruct (bool_decide (ac_redirect_uri c = uri)) eqn:Hru; cbn [negb orb]; [|by wp_step].
  apply bool_decide_eq_true in Hci, Hru. cbv zeta.
  set (need := cl_pkce_required client || _).
  destruct (need && is_empty _); [by wp_step|].
  destruct (need && negb _) eqn:Hpk; [by wp_step|].
  assert (Hwf4 : pg_wf (pg (bump w3))) by (simpl; by rewrite Hp).
  wp_step. apply wp_find_user; [done| |done]. wp_step. apply wp_find_session; [done| |done].
  simpl pg. rewrite Hp. destruct (users (pg w) !! ac_user_id c) as [user|] eqn:Hu; [|by wp_step].
  destruct (user_sessions (pg w) !! ac_session_id c) as [session|] eqn:Hs; [|by wp_step].
  set (w6 := bump (bump (bump w3))).
  eapply wp_mono; [apply issue_in_tx_spec; unfold w6; simpl; by rewrite Hp|].
  intros r w7 (Hr7 & Ht7 & Hi). unfold w6 in *. simpl in Hr7, Ht7, Hi. rewrite Hp in Hi.
  destruct r as [res|e]; [|done]. specialize (Hi res eq_refl).
  assert (Hres : tr_ok res = true) by (by destruct Hi as (? & ? & ? & ? & -> & _)).
  simpl. rewrite Hres. exists client, c, user, session. fold cd uri cid.
  assert (Htk : tick w <= tick w2) by (destruct Hf1; lia).
  split; [done|]. split; [done|]. split; [done|]. split; [done|]. split; [done|]. split; [done|].
  split; [exists n; split; [lia|done]|]. split.
  { intros Hneed. destruct (Hashing.verify _ _ _); [done|]. rewrite andb_true_r in Hpk.
    unfold need in Hpk. apply orb_false_iff in Hpk as [Hpr Hch].
    destruct Hneed as [?|Hne]; [congruence|]. destruct (ac_code_challenge c) as [x|]; simpl in *; [|done].
    destruct (is_empty x) eqn:Ex; [by apply is_empty_spec in Ex|done]. }
  split; [done|]. split; [done|]. split; [done|]. split; [|done].
  intros t Ht. rewrite Hr7. apply Hgone. etrans; [|exact Ht]. apply redis_clock_mono. lia.
Qed.

(** *** The refresh grant *)

(** [t] is the stored row of the raw token. *)
Definition stored_as (self : TokenFlow) (raw : string) (d : Pg) (t : RefreshToken) : Prop :=
  refresh_tokens d !! rt_id t = Some t /\ rt_token_hash t = compute (tf_hmac self) raw.

Definition revoke_row (t : RefreshToken) (d : Pg) : Pg :=
  on_refresh_tokens (update_where (fun x => rt_id x = rt_id t) (set_revoked true)) d.

(** Every token of a session revoked. *)
Definition revoke_family (session : Uuid) (d : Pg) : Pg :=
  on_refresh_tokens (update_where (fun t => rt_session_id t = session /\ rt_revoked t = false)
    (set_revoked true)) d.

Definition refresh_granted (self : TokenFlow) (req : TokenRequest) w (res : TokenResult) w' : Prop :=
  exists client t user session,
    served_from (default "" (client_id req)) (pg w) client /\ cl_enabled client = true
    /\ authenticated client (client_secret req)
    /\ stored_as self (default "" (refresh_token req)) (pg w) t
    /\ rt_revoked t = false /\ rt_client_id t = cl_id client
    /\ (forall e, rt_expires_at t = Some e -> exists n, tick w <= n < tick w' /\ (clock n <= e)%Z)
    /\ users (pg w) !! rt_user_id t = Some user /\ usr_enabled user = true
    /\ user_sessions (pg w) !! rt_session_id t = Some session
    /\ issued self (pg w) user client session (cl_scopes client) (revoke_row t (pg w)) (pg w') res.

(** A refusal leaves the tables alone, unless a revoked token was presented. *)
Definition refresh_outcome (self : TokenFlow) (req : TokenRequest) w (r : res err TokenResult) w' : Prop :=
  match r with
  | Ok res =>
      if tr_ok res then refresh_granted self req w res w'
      else pg w' = pg w
        \/ exists t, stored_as self (default "" (refresh_token req)) (pg w) t /\ rt_revoked t = true
             /\ pg w' = revoke_family (rt_session_id t) (pg w)
  | Err _ => True
  end.

(** The end of the grant, for a stored token that is neither revoked nor
    expired: the client, the user and the session, then the rotation. *)
Definition rotate (self : TokenFlow) (client : Client) (stored : RefreshToken) (tx : Tx) : io TokenResult :=
  if negb (bool_decide (rt_client_id stored = cl_id client))
  then ret (error "invalid_grant" "Refresh token client mismatch")
  else
    let! user := User.find_by_id (rt_user_id stored) in
    let! session := Session.find_by_id (rt_session_id stored) in
    match user, session with
    | Some user, Some session =>
        if negb (usr_enabled user) then ret (error "invalid_grant" "User/session not valid")
        else
          let! ' (_, tx) := update_revoked_in_tx tx (rt_id stored) true in
          let! ' (payload, tx) := issue (tf_issuer self) tx user client session (cl_scopes client) None None in
          do! commit tx in
          ret (success payload)
    | _, _ => ret (error "invalid_grant" "User/session not valid")
    end.

Definition rotated (self : TokenFlow) (client : Client) (t : RefreshToken) w (res : TokenResult) w' : Prop :=
  rt_client_id t = cl_id client
  /\ exists user session, users (pg w) !! rt_user_id t = Some user /\ usr_enabled user = true
     /\ user_sessions (pg w) !! rt_session_id t = Some session
     /\ issued self (pg w) user client session (cl_scopes client) (revoke_row t (pg w)) (pg w') res.

Lemma rotate_spec self client t w :
  pg_wf (pg w) ->
  wp (rotate self client t (TxOpen (pg w))) (fun r w' => tick w <= tick w' /\ outcome (rotated self client t w) w r w') w.
Proof.
  intros Hwf. unfold rotate.
  case_bool_decide as Hcl; cbn [negb]; [|by wp_step].
  wp_step. apply wp_find_user; [done| |simpl; auto]. wp_step. apply wp_find_session; [done| |simpl; auto].
  simpl pg. destruct (users (pg w) !! rt_user_id t) as [user|] eqn:Hu; [|wp_step; simpl; auto].
  destruct (user_sessions (pg w) !! rt_session_id t) as [session|] eqn:Hs; [|wp_step; simpl; auto].
  destruct (usr_enabled user) eqn:Hen; cbn [negb]; [|wp_step; simpl; auto].
  unfold update_revoked_in_tx. do 2 wp_step; [|simpl; auto]. injection Hq as <- <-. fold (revoke_row t (pg w)).
  wp_step. eapply wp_mono; [apply issue_spec; done|].
  intros r w5 [(Hp5 & _ & Ht5) Hi]. simpl in Ht5, Hp5, Hi.
  destruct r as [[payload tx]|e]; [|split; [lia|done]].
  destruct (Hi payload tx eq_refl) as (m & raw & id & n & d' & -> & -> & Hn & Hins & Hans).
  do 2 wp_step; try (split; [simpl; lia|done]). wp_step. split; [simpl; lia|]. simpl. split; [done|].
  exists user, session. split; [done|]. split; [done|]. split; [done|]. by exists m, raw, id, (clock n).
Qed.

Lemma refresh_spec self req w :
  pg_wf (pg w) -> coherent w -> wp (from_refresh_token self req) (refresh_outcome self req w) w.
Proof.
  intros Hwf Hco. unfold from_refresh_token.
  set (raw := default "" (refresh_token req)). set (cid := default "" (client_id req)).
  destruct (is_empty raw || is_empty cid); [by wp_step; left|].
  assert (Hno : forall r w1, refused r -> pg w1 = pg w -> refresh_outcome self req w r w1).
  { intros [res|e] w1 Hr Hp; simpl in *; [|done]. rewrite Hr. by left. }
  apply with_client_spec; [done|done| |intros ? ? [? _] ? _ _; by apply Hno].
  intros client w1 Hp1 Hf1 _ _ Hsrv Hen.
  apply with_auth_spec; [|intros r w2 [Hr _] (? & _); apply Hno; [done|congruence]].
  intros w2 (Hp2 & Hr2 & Ht2) Hauth. assert (Hp : pg w2 = pg w) by congruence. cbv zeta.
  do 2 wp_step; [|done]. unfold find_by_token_hash_for_update. do 2 wp_step; [|done]. rewrite Hp.
  pose proof (head_where_unique rt_token_hash (refresh_tokens (pg w)) (tick (bump w2)) (compute (tf_hmac self) raw)
    (wf_refresh_hash _ Hwf)) as Hh.
  destruct (head _) as [t|]; [|wp_step; by apply Hno].
  assert (Hst : stored_as self raw (pg w) t).
  { destruct Hh as [Hhash [i Hi]]. split; [|done]. by rewrite (wf_refresh_key _ Hwf _ _ Hi). }
  destruct (rt_revoked t) eqn:Hrev.
  - unfold revoke_by_session_id_in_tx. do 2 wp_step.
    + injection Hq as <- <-. do 2 wp_step; try done. wp_step. right. by exists t.
    + do 2 wp_step; [|done]. wp_step. by apply Hno.
    + by do 2 wp_step.
  - assert (Htk : tick w <= tick w2) by (destruct Hf1; lia).
    assert (Hgo : forall w5, pg w5 = pg w -> tick w2 < tick w5 ->
      (forall e, rt_expires_at t = Some e -> exists n, tick w <= n < tick w5 /\ (clock n <= e)%Z) ->
      wp (rotate self client t (TxOpen (pg w))) (refresh_outcome self req w) w5).
    { intros w5 Hp5 Ht5 Hexp. rewrite <- Hp5 at 1. eapply wp_mono; [apply rotate_spec; by rewrite Hp5|].
      intros r w6 [Ht6 Hout]. destruct r as [res|e]; simpl in *; [|done].
      destruct (tr_ok res); [|left; congruence]. destruct Hout as (Hcl & user & session & Hu & Hue & Hs & Hi).
      rewrite Hp5 in Hu, Hs, Hi. exists client, t, user, session. fold raw cid.
      do 6 (split; [done|]). split; [|done]. intros e He. destruct (Hexp e He) as (n & Hn & Hc).
      exists n. split; [lia|done]. }
    wp_step. destruct (rt_expires_at t) as [e|] eqn:He.
    + do 3 wp_step. destruct (e <? _)%Z eqn:Hlt; [wp_step; by apply Hno|].
      apply Hgo; simpl; [done|lia|]. intros e' [= <-]. eexists. split; [|apply Z.ltb_ge; exact Hlt]. simpl. lia.
    + wp_step. apply Hgo; simpl; [done|lia|done].
Qed.

Lemma set_revoked_id b t : rt_id (set_revoked b t) = rt_id t.
Proof. done. Qed.

(** The rows after a rotation: the presented token is revoked, the new one is
    there under another id and hash, the others are as before. *)
Lemma rotation_rows row t d d' :
  pg_wf d -> refresh_tokens d !! rt_id t = Some t ->
  insert_refresh_token row (revoke_row t d) = Ok (tt, d') ->
  refresh_tokens d' !! rt_id t = Some (set_revoked true t)
  /\ refresh_tokens d' !! rt_id row = Some (refresh_row row)
  /\ rt_token_hash row <> rt_token_hash t
  /\ forall i x, i <> rt_id t -> i <> rt_id row -> refresh_tokens d' !! i = Some x <-> refresh_tokens d !! i = Some x.
Proof.
  intros Hwf Ht Hi.
  assert (Hrt : refresh_tokens (revoke_row t d) !! rt_id t = Some (set_revoked true t)).
  { simpl. rewrite lookup_update_where, Ht. simpl. by rewrite decide_True. }
  unfold insert_refresh_token in Hi. destruct (negb _) eqn:Hn; [|done]. destruct (no_row _ _) eqn:Hnr; [|done].
  destruct (_ && _ && _); [|done]. injection Hi as <-. cbn [refresh_tokens on_refresh_tokens].
  rewrite no_row_spec in Hnr. apply negb_true_iff, bool_decide_eq_false, eq_None_not_Some in Hn.
  assert (Hne : rt_id row <> rt_id t) by (intros Heq; rewrite Heq in Hn; congruence).
  split; [by rewrite lookup_insert_ne|]. split; [by rewrite lookup_insert_eq|]. split.
  { intros Heq. by apply (Hnr _ _ Hrt). }
  intros i x Hit Hir. rewrite lookup_insert_ne by done. simpl. rewrite lookup_update_where.
  destruct (refresh_tokens d !! i) as [y|] eqn:Hy; simpl; [|done].
  rewrite decide_False; [done|]. intros Heq. apply Hit. by rewrite <- Heq, (wf_refresh_key _ Hwf _ _ Hy).
Qed.

Lemma revoke_family_all session d i x :
  refresh_tokens (revoke_family session d) !! i = Some x -> rt_session_id x = session -> rt_revoked x = true.
Proof.
  simpl. rewrite lookup_update_where. intros (t & Ht & ->)%fmap_Some Hs.
  case_decide as Hd; [done|]. destruct (rt_revoked t) eqn:E; [done|]. by destruct Hd.
Qed.

(** Presenting a revoked token when Postgres answers: either the client is turned
    away, or the whole session's tokens are revoked. *)
Lemma replay_spec self req t w :
  pg_wf (pg w) -> coherent w -> pg_ok (tick w) ->
  stored_as self (default "" (refresh_token req)) (pg w) t -> rt_revoked t = true ->
  wp (from_refresh_token self req) (fun r w' => forall res, r = Ok res ->
    tr_error res ∈ client_errors
    \/ tr_error res = Some "invalid_grant" /\ pg w' = revoke_family (rt_session_id t) (pg w)) w.
Proof.
  intros Hwf Hco Hup [Hrow Hhash] Hrev. unfold from_refresh_token.
  set (raw := default "" (refresh_token req)) in *. set (cid := default "" (client_id req)).
  destruct (is_empty raw || is_empty cid); [wp_step; intros res [= <-]; left; simpl; unfold client_errors; set_solver|].
  apply with_client_spec; [done|done| |intros r w1 [_ Ha] _ _ _ res Hr; left; auto].
  intros client w1 Hp1 [Ht1 _] _ _ _ _. apply with_auth_spec; [|intros r w2 [_ Ha] _ res Hr; left; auto].
  intros w2 (Hp2 & _ & Ht2) _. assert (Hp : pg w2 = pg w) by congruence. cbv zeta.
  assert (Hup2 : forall n, tick w2 <= n -> pg_ok n) by (intros n Hn; eapply pg_ok_later; [|done]; lia).
  wp_step. apply wp_begin_ok; [by apply Hup2|]. unfold find_by_token_hash_for_update.
  wp_step. apply wp_tx_fetch_optional_ok; [apply Hup2; simpl; lia|]. rewrite Hp, <- Hhash.
  rewrite (where_unique rt_token_hash _ _ _ (wf_refresh_hash _ Hwf) Hrow), head_row_order by (simpl; lia).
  cbn [head]. rewrite Hrev. unfold revoke_by_session_id_in_tx. wp_step.
  eapply wp_tx_execute_ok; [apply Hup2; simpl; lia|reflexivity|].
  wp_step. apply wp_commit_ok; [apply Hup2; simpl; lia|]. wp_step. intros res [= <-]. by right.
Qed.

(** The token [raw] was not stored anew: its row of [d'], if it still has one, is
    the one it had in [d], of the same session, and stays revoked if it was. *)
Definition not_stored_anew (self : TokenFlow) (raw : string) (d d' : Pg) : Prop :=
  forall x, stored_as self raw d' x -> exists y, stored_as self raw d y
    /\ rt_session_id x = rt_session_id y /\ (rt_revoked y = true -> rt_revoked x = true).

Lemma not_stored_anew_refl self raw d : not_stored_anew self raw d d.
Proof. intros y Hy. by exists y. Qed.

Lemma stored_as_unique self raw d x y : pg_wf d -> stored_as self raw d x -> stored_as self raw d y -> x = y.
Proof.
  intros Hwf [Hx Hxh] [Hy Hyh].
  assert (Heq : rt_id x = rt_id y) by (eapply (wf_refresh_hash _ Hwf); [exact Hx|exact Hy|congruence]).
  rewrite Heq in Hx. congruence.
Qed.

(** *** The client-credentials grant *)

Definition client_granted (req : TokenRequest) w (res : TokenResult) w' : Prop :=
  exists client m token header claims key,
    served_from (default "" (client_id req)) (pg w) client /\ cl_enabled client = true
    /\ is_confidential client = true /\ authenticated client (client_secret req)
    /\ is_subset_of (scope req) (cl_scopes client) = true
    /\ pg w' = pg w /\ res = success (JObj m)
    /\ m !! "refresh_token" = None /\ m !! "id_token" = None
    /\ m !! "access_token" = Some (JStr token) /\ jwt_encode header claims key = Some token
    /\ claims !! "sub" = Some (JStr (cl_client_id client)) /\ claims !! "aud" = Some (JStr (cl_client_id client))
    /\ claims !! "scope" = Some (JStr (default "" (scope req))) /\ claims !! "roles" = None.

Lemma client_spec self req w :
  pg_wf (pg w) -> coherent w ->
  wp (from_client_credentials self req) (outcome (client_granted req w) w) w.
Proof.
  intros Hwf Hco. unfold from_client_credentials. set (cid := default "" (client_id req)).
  destruct (is_empty cid); [by wp_step|].
  apply with_client_spec; [done|done| |intros; by apply outcome_refused].
  intros client w1 Hp1 Hf1 _ _ Hsrv Hen. destruct (is_confidential client) eqn:Hcf; cbn [negb]; [|by wp_step].
  apply with_auth_spec; [|intros r w2 Hr (? & _); apply outcome_refused; congruence].
  intros w2 (Hp2 & _) Hauth.
  destruct (is_subset_of (scope req) (cl_scopes client)) eqn:Hsc; cbn [negb]; [|wp_step; simpl; congruence].
  unfold issue_for_client. do 2 wp_step. wp_call sign_access_spec. intros r w3 [(Hp3 & _) Hs].
  destruct r as [token|e]; [|done]. destruct (Hs token eq_refl) as (n & kp & _ & _ & Henc).
  do 2 wp_step. unfold outcome. cbn [tr_ok success].
  eexists client, _, token, _, _, _. do 5 (split; [done|]). split; [congruence|].
  split; [done|]. split; [done|]. split; [done|]. split; [done|]. split; [exact Henc|]. by repeat split.
Qed.
End Specs.

(** *** The device grant *)

Section DeviceSpecs.
Context `{RedisLaws} `{EnvLaws} `{JwtLaws} `{TextsLaws} `{Crypto} `{ValueParser} `{Argon2Lib}.
Context `{JsonCodecLaws ClientSnapshot}.
Implicit Types w : World.

Definition device_granted (self : TokenFlow) (req : TokenRequest) w (res : TokenResult) w' : Prop :=
  let dc := default "" (device_code req) in
  exists client a user session,
    served_from (default "" (client_id req)) (pg w) client /\ cl_enabled client = true
    /\ authenticated client (client_secret req)
    /\ holds_device w dc a /\ da_client_id a = default "" (client_id req)
    /\ da_status a = STATUS_APPROVED
    /\ (exists n, tick w <= n < tick w' /\ (clock n <= da_expires_at a)%Z)
    /\ (exists uid, da_user_id a = Some uid /\ users (pg w) !! uid = Some user)
    /\ (exists sid, da_session_id a = Some sid /\ user_sessions (pg w) !! sid = Some session)
    /\ resolved w' dc (set_status STATUS_CONSUMED (da_user_id a) (da_session_id a) a)
    /\ issued self (pg w) user client session (da_scope a) (pg w) (pg w') res.

Lemma resolved_later w' w'' dc a :
  redis w'' = redis w' -> tick w' <= tick w'' -> resolved w' dc a -> resolved w'' dc a.
Proof.
  intros Hr Ht. assert (Hst : forall e, stores w' (dkey dc) e -> stores w'' (dkey dc) e).
  { intros e Hs t Hle. rewrite Hr. apply Hs. etrans; [by apply redis_clock_mono|done]. }
  intros [Hg|(h & d & Hs & Hf)]; [left|right; exists h, d]; auto.
Qed.

Lemma device_spec self req w :
  pg_wf (pg w) -> coherent w -> keyed_devices w ->
  wp (from_device_code self req) (outcome (device_granted self req w) w) w.
Proof.
  intros Hwf Hco Hkd. unfold from_device_code.
  set (dc := default "" (device_code req)). set (cid := default "" (client_id req)).
  destruct (is_empty dc || is_empty cid); [by wp_step|].
  apply with_client_spec; [done|done| |intros; by apply outcome_refused].
  intros client w1 Hp1 Hf1 _ _ Hsrv Hen.
  assert (Hnk : forall x, Keys.client cid <> dkey x) by (intros x; unfold dkey; key_ne).
  apply with_auth_spec; [|intros r w2 Hr (? & _); apply outcome_refused; congruence].
  intros w2 Hq2 Hauth. wp_step. wp_call find_by_device_code_spec. intros r w3 [Hq3 Hr3].
  assert (Hq13 : quiet w1 w3) by by eapply quiet_trans.
  assert (Hp3 : pg w3 = pg w) by (destruct Hq13 as (? & _); congruence).
  destruct r as [[a|]|e]; [|by wp_step|done].
  destruct (Hr3 a eq_refl) as [_ Hh2]. assert (Hh1 : holds_device w1 dc a) by exact (holds_earlier w1 w2 dc a Hq2 Hh2).
  destruct (bool_decide (da_client_id a = cid)) eqn:Hci; cbn [negb]; [|by wp_step].
  apply bool_decide_eq_true in Hci. do 2 wp_step. destruct (_ <? _)%Z eqn:Hexp; [by wp_step|].
  destruct (bool_decide (da_status a = STATUS_PENDING)); [by wp_step|].
  destruct (bool_decide (da_status a = STATUS_DENIED)); [by wp_step|].
  destruct (bool_decide (da_status a = STATUS_CONSUMED)); [by wp_step|].
  case_bool_decide as Hap; cbn [negb]; [|by wp_step].
  destruct (da_user_id a) as [uid|] eqn:Hui; [|by wp_step].
  destruct (da_session_id a) as [sid|] eqn:Hsi; [|by wp_step].
  assert (Hwf4 : pg_wf (pg (bump w3))) by (simpl; by rewrite Hp3).
  wp_step. apply wp_find_user; [done| |done]. wp_step. apply wp_find_session; [done| |done].
  simpl pg. rewrite Hp3. destruct (users (pg w) !! uid) as [user|] eqn:Hu; [|by wp_step].
  destruct (user_sessions (pg w) !! sid) as [session|] eqn:Hs; [|by wp_step].
  set (w6 := bump (bump (bump w3))). assert (Hq16 : quiet w1 w6) by (unfold w6; auto with wp).
  wp_step. wp_call update_spec. intros r w7 Hw. pose proof Hw as (Hp7 & Hf7 & _).
  destruct r as [[]|e]; [|done].
  apply (written_resolved dc a _ _ _ w1) in Hw; [|by eapply keyed_frame|done|done|done|done].
  destruct Hw as (_ & _ & _ & [Hres|[Hne _]]); [|done].
  assert (Hpw7 : pg w7 = pg w) by (rewrite Hp7; exact Hp3).
  eapply wp_mono; [apply issue_in_tx_spec; by rewrite Hpw7|]. intros r w8 (Hr8 & Ht8 & Hi).
  destruct r as [res|e]; [|done]. specialize (Hi res eq_refl). rewrite Hpw7 in Hi.
  assert (Hok : tr_ok res = true) by (by destruct Hi as (? & ? & ? & ? & -> & _)).
  simpl. rewrite Hok. exists client, a, user, session. fold dc cid.
  assert (Htk : tick w <= tick w3 /\ S (tick w3) <= tick w7).
  { destruct Hf1 as [? _], Hq13 as (_ & _ & ?), Hf7 as [Ht7 _]. unfold w6 in Ht7. simpl in Ht7. lia. }
  split; [done|]. split; [done|]. split; [done|]. split.
  { destruct Hh1 as (h & d & Hl & Hf). exists h, d. split; [|done]. eapply frame_rlive; [exact Hf1|apply Hnk|done]. }
  split; [done|]. split; [done|]. split; [exists (tick w3); split; [lia|]; lia|].
  split; [eauto|]. split; [eauto|]. split; [|done]. rewrite Hui, Hsi.
  by eapply resolved_later.
Qed.
End DeviceSpecs.

(** ** Theorems *)

(** C4: The authorization-code grant.  Tokens are issued only to a registered,
    enabled, authenticated client that presents a stored, unexpired code made for
    that client and that redirect URI; if the client requires PKCE or the code
    carries a challenge, only with the matching verifier, so a challenge cannot be
    dropped.  The tokens are for the code's user, session and scope, the one change
    to the tables is the new refresh token, and the code is gone.  A refusal
    changes no table. *)
Theorem code_grant_sound `{RedisLaws} `{EnvLaws} `{JwtLaws} `{Texts} `{Crypto} `{ValueParser} `{Argon2Lib}
  `{JsonCodecLaws ClientSnapshot} `{!JsonCodec AuthorizationCode} self req w res w' :
  pg_wf (pg w) -> coherent w -> from_authorization_code self req w = (Ok res, w') ->
  if tr_ok res then code_granted self req w res w' else pg w' = pg w.
Proof. intros Hwf Hco Hrun. exact (wp_run _ _ _ _ _ (code_spec self req w Hwf Hco) Hrun). Qed.

(** C11: A code is redeemed once.  After a grant for a code, no later request that
    presents the same code is granted, whoever sends it and whatever else happened
    in between, unless that code was stored anew. *)
Theorem code_redeemed_once `{RedisLaws} `{EnvLaws} `{JwtLaws} `{Texts} `{Crypto} `{ValueParser} `{Argon2Lib}
  `{JsonCodecLaws ClientSnapshot} `{!JsonCodec AuthorizationCode} self req w res w1 req2 w2 res2 w3 :
  pg_wf (pg w) -> coherent w -> pg_wf (pg w2) -> coherent w2 ->
  from_authorization_code self req w = (Ok res, w1) -> tr_ok res = true ->
  redis_frame (fun k => k <> code_key (default "" (code req))) w1 w2 ->
  default "" (code req2) = default "" (code req) ->
  from_authorization_code self req2 w2 = (Ok res2, w3) -> tr_ok res2 = false.
Proof.
  intros Hwf Hco Hwf2 Hco2 Hr1 Hok Hf Hc Hr2.
  pose proof (wp_run _ _ _ _ _ (code_spec self req w Hwf Hco) Hr1) as Hg1.
  pose proof (wp_run _ _ _ _ _ (code_spec self req2 w2 Hwf2 Hco2) Hr2) as Hg2. simpl in Hg1, Hg2.
  rewrite Hok in Hg1. destruct Hg1 as (c1 & a1 & u1 & s1 & _ & _ & _ & _ & _ & _ & _ & _ & _ & _ & _ & Hgone & _).
  destruct (tr_ok res2); [|done]. destruct Hg2 as (c2 & a2 & u2 & s2 & _ & _ & _ & Hh & _).
  rewrite Hc in Hh. destruct Hh as (x & d & raw & Hl & _).
  assert (Hst : stores w2 (code_key (default "" (code req))) None)
    by (eapply frame_stores; [exact Hf|by intros Hk; apply Hk|done]).
  rewrite Hst in Hl by done. done.
Qed.

(** C5: Refresh rotates.  A granted refresh was asked by the registered, enabled,
    authenticated client the presented token belongs to; the token was stored,
    unrevoked and unexpired, its user enabled and its session present.  Afterwards
    the presented token is revoked, a new token of the same user, client and session
    is stored under another hash, every other row of [refresh_tokens] is unchanged,
    and the answer carries the new token's raw value. *)
Theorem refresh_rotation `{RedisLaws} `{EnvLaws} `{JwtLaws} `{Texts} `{Crypto} `{ValueParser} `{Argon2Lib}
  `{JsonCodecLaws ClientSnapshot} `{!JsonCodec AuthorizationCode} self req w res w' :
  pg_wf (pg w) -> coherent w -> from_refresh_token self req w = (Ok res, w') -> tr_ok res = true ->
  exists client t user session m raw id now,
    served_from (default "" (client_id req)) (pg w) client /\ cl_enabled client = true
    /\ authenticated client (client_secret req)
    /\ stored_as self (default "" (refresh_token req)) (pg w) t
    /\ rt_revoked t = false /\ rt_client_id t = cl_id client
    /\ (forall e, rt_expires_at t = Some e -> exists n, tick w <= n < tick w' /\ (clock n <= e)%Z)
    /\ users (pg w) !! rt_user_id t = Some user /\ usr_enabled user = true
    /\ user_sessions (pg w) !! rt_session_id t = Some session
    /\ res = success (JObj m) /\ m !! "refresh_token" = Some (JStr raw)
    /\ refresh_tokens (pg w') !! rt_id t = Some (set_revoked true t)
    /\ refresh_tokens (pg w') !! id = Some (refresh_row (fresh_row (tf_issuer self) user client session raw id now))
    /\ compute (ti_hmac (tf_issuer self)) raw <> rt_token_hash t
    /\ forall i x, i <> rt_id t -> i <> id ->
         refresh_tokens (pg w') !! i = Some x <-> refresh_tokens (pg w) !! i = Some x.
Proof.
  intros Hwf Hco Hrun Hok. pose proof (wp_run _ _ _ _ _ (refresh_spec self req w Hwf Hco) Hrun) as Hg.
  simpl in Hg. rewrite Hok in Hg.
  destruct Hg as (client & t & user & session & Hsrv & Hen & Ha & Hst & Hrv & Hcl & Hexp & Hu & Hue & Hs & Hi).
  destruct Hi as (m & raw & id & now & -> & Hins & Hans).
  destruct (rotation_rows _ _ _ _ Hwf (proj1 Hst) Hins) as (Hold & Hnew & Hne & Hother).
  exists client, t, user, session, m, raw, id, now. do 11 (split; [done|]). split; [apply Hans|]. done.
Qed.

(** C10: Replay is refused and ends the family.  After a granted refresh, a later
    request with the same token is never granted, whoever sends it, whatever the
    stores do and whatever else happened in between, unless that token was stored
    anew.  If Postgres answers and the token's row is still stored, then either the
    request is turned away before the token is looked at (a parameter missing, the
    client unknown, disabled or not authenticated), or the answer is
    [invalid_grant] and every refresh token of the session, the new one included,
    is revoked. *)
Theorem refresh_replay `{RedisLaws} `{EnvLaws} `{JwtLaws} `{Texts} `{Crypto} `{ValueParser} `{Argon2Lib}
  `{JsonCodecLaws ClientSnapshot} `{!JsonCodec AuthorizationCode} self req w res w1 req2 w2 r2 w3 :
  pg_wf (pg w) -> coherent w -> from_refresh_token self req w = (Ok res, w1) -> tr_ok res = true ->
  pg_wf (pg w2) -> coherent w2 ->
  not_stored_anew self (default "" (refresh_token req)) (pg w1) (pg w2) ->
  default "" (refresh_token req2) = default "" (refresh_token req) ->
  from_refresh_token self req2 w2 = (r2, w3) ->
  refused r2
  /\ exists t, stored_as self (default "" (refresh_token req)) (pg w) t
     /\ (pg_ok (tick w2) -> (exists x, stored_as self (default "" (refresh_token req)) (pg w2) x) ->
          forall res2, r2 = Ok res2 ->
            tr_error res2 ∈ client_errors
            \/ tr_error res2 = Some "invalid_grant"
               /\ forall i x, refresh_tokens (pg w3) !! i = Some x -> rt_session_id x = rt_session_id t ->
                    rt_revoked x = true).
Proof.
  intros Hwf Hco Hrun Hok Hwf2 Hco2 Hanew Hreq Hrun2.
  pose proof (wp_run _ _ _ _ _ (refresh_spec self req w Hwf Hco) Hrun) as Hg. simpl in Hg. rewrite Hok in Hg.
  destruct Hg as (client & t & user & session & _ & _ & _ & Hst & _ & _ & _ & _ & _ & _ & Hi).
  destruct Hi as (m & raw & id & now & _ & Hins & _).
  destruct (rotation_rows _ _ _ _ Hwf (proj1 Hst) Hins) as (Hold & _).
  assert (Hwf1 : pg_wf (pg w1)).
  { eapply insert_refresh_token_wf; [|exact Hins]. by apply set_revoked_wf. }
  assert (Hst1 : stored_as self (default "" (refresh_token req)) (pg w1) (set_revoked true t))
    by (split; [exact Hold|apply Hst]).
  assert (Hrev : forall x, stored_as self (default "" (refresh_token req)) (pg w2) x ->
    rt_session_id x = rt_session_id t /\ rt_revoked x = true).
  { intros x (y & Hy & Hs & Hr)%Hanew. rewrite (stored_as_unique _ _ _ _ _ Hwf1 Hy Hst1) in Hs, Hr. auto. }
  pose proof (wp_run _ _ _ _ _ (refresh_spec self req2 w2 Hwf2 Hco2) Hrun2) as Hg2. split.
  - destruct r2 as [res2|e]; [|done]. simpl in *. destruct (tr_ok res2); [|done].
    destruct Hg2 as (_ & x & _ & _ & _ & _ & _ & Hx & Hno & _). rewrite Hreq in Hx.
    apply Hrev in Hx as [_ Hx]. congruence.
  - exists t. split; [done|]. intros Hup [x Hx] res2 Hres. destruct (Hrev x Hx) as [Hs Hr]. rewrite <- Hreq in Hx.
    destruct (wp_run _ _ _ _ _ (replay_spec self req2 x w2 Hwf2 Hco2 Hup Hx Hr) Hrun2 res2 Hres) as [He|[He Hfam]];
      [by left|right]. split; [done|]. intros i y Hy Hsy. rewrite Hfam, Hs in Hy. by eapply revoke_family_all.
Qed.

(** Client credentials buy only the client's own access.  A granted request
    came from a registered, enabled, confidential client that presented its secret,
    for scopes it is registered for; the answer has neither a refresh token nor an
    id token, its access token names the client as subject and audience and carries
    no roles; and no table changes. *)
Theorem client_credentials_sound `{RedisLaws} `{EnvLaws} `{JwtLaws} `{Texts} `{Crypto} `{ValueParser} `{Argon2Lib}
  `{JsonCodecLaws ClientSnapshot} self req w res w' :
  pg_wf (pg w) -> coherent w -> from_client_credentials self req w = (Ok res, w') ->
  if tr_ok res then client_granted req w res w' else pg w' = pg w.
Proof. intros Hwf Hco Hrun. exact (wp_run _ _ _ _ _ (client_spec self req w Hwf Hco) Hrun). Qed.

(** C26: The device grant.  Tokens are issued only to the registered, enabled,
    authenticated client the device code was made for, when the code is unexpired and
    was approved, for the user and session that approved it; the code is marked
    consumed, so the next poll, before anything else writes that authorization, is
    refused. *)
Theorem device_grant_once `{RedisLaws} `{EnvLaws} `{JwtLaws} `{TextsLaws} `{Crypto} `{ValueParser} `{Argon2Lib}
  `{JsonCodecLaws ClientSnapshot} self req w res w1 :
  pg_wf (pg w) -> coherent w -> keyed_devices w -> from_device_code self req w = (Ok res, w1) -> tr_ok res = true ->
  device_granted self req w res w1
  /\ forall req2 w2 res2 w3,
       pg_wf (pg w2) -> coherent w2 -> keyed_devices w2 ->
       redis_frame (fun k => k <> dkey (default "" (device_code req))) w1 w2 ->
       default "" (device_code req2) = default "" (device_code req) ->
       from_device_code self req2 w2 = (Ok res2, w3) -> tr_ok res2 = false.
Proof.
  intros Hwf Hco Hk Hrun Hok. pose proof (wp_run _ _ _ _ _ (device_spec self req w Hwf Hco Hk) Hrun) as Hg.
  simpl in Hg. rewrite Hok in Hg. split; [done|].
  intros req2 w2 res2 w3 Hwf2 Hco2 Hk2 Hf Hdc Hrun2.
  pose proof (wp_run _ _ _ _ _ (device_spec self req2 w2 Hwf2 Hco2 Hk2) Hrun2) as Hg2. simpl in Hg2.
  destruct (tr_ok res2); [|done].
  destruct Hg as (_ & a & _ & _ & _ & _ & _ & _ & _ & _ & _ & _ & _ & Hres & _).
  destruct Hg2 as (_ & a2 & _ & _ & _ & _ & _ & (h & d & Hl & Hff) & _ & Hst & _). rewrite Hdc in Hl.
  assert (Hkeep : forall e, stores w1 (dkey (default "" (device_code req))) e ->
    stores w2 (dkey (default "" (device_code req))) e)
    by (intros e He; eapply frame_stores; [exact Hf|by intros Hn; apply Hn|done]).
  destruct Hres as [Hg|(h' & d' & Hs & Hf')].
  - rewrite (Hkeep _ Hg) in Hl by done. done.
  - rewrite (Hkeep _ Hs) in Hl by done. unfold still_live in Hl.
    assert (h = h') as -> by (destruct d'; [destruct (_ <? _)%Z|]; congruence).
    rewrite Hf' in Hff. injection Hff as <-. done.
Qed.

(** No tokens without the client.  Whatever the grant type, the token endpoint
    answers with tokens only if the request names a client that is registered and
    enabled in the database and, if that client is confidential, presents a secret
    that verifies against the stored one; any other grant type is refused. *)
Theorem token_needs_client `{RedisLaws} `{EnvLaws} `{JwtLaws} `{TextsLaws} `{Crypto} `{ValueParser} `{Argon2Lib}
  `{JsonCodecLaws ClientSnapshot} `{!JsonCodec AuthorizationCode} self req w res w' :
  pg_wf (pg w) -> coherent w -> keyed_devices w -> token self req w = (Ok res, w') -> tr_ok res = true ->
  grant_type req ∈ [Some "authorization_code"; Some "refresh_token"; Some "client_credentials";
                    Some "urn:ietf:params:oauth:grant-type:device_code"]
  /\ exists client, served_from (default "" (client_id req)) (pg w) client /\ cl_enabled client = true
       /\ authenticated client (client_secret req).
Proof.
  intros Hwf Hco Hk Hrun Hok. unfold token in Hrun.
  assert (Hg : forall g, g <> "" -> default "" (grant_type req) = g -> grant_type req = Some g)
    by (intros g Hg; destruct (grant_type req); simpl; congruence).
  repeat case_bool_decide; simpl in Hrun.
  - split; [rewrite (Hg "authorization_code") by done; left|].
    pose proof (wp_run _ _ _ _ _ (code_spec self req w Hwf Hco) Hrun) as Hs. simpl in Hs. rewrite Hok in Hs.
    destruct Hs as (client & _ & _ & _ & ? & ? & ? & _). eauto.
  - split; [rewrite (Hg "refresh_token") by done; set_solver|].
    pose proof (wp_run _ _ _ _ _ (refresh_spec self req w Hwf Hco) Hrun) as Hs. simpl in Hs. rewrite Hok in Hs.
    destruct Hs as (client & _ & _ & _ & ? & ? & ? & _). eauto.
  - split; [rewrite (Hg "client_credentials") by done; set_solver|].
    pose proof (wp_run _ _ _ _ _ (client_spec self req w Hwf Hco) Hrun) as Hs. simpl in Hs. rewrite Hok in Hs.
    destruct Hs as (client & _ & _ & _ & _ & _ & ? & ? & _ & ? & _). eauto.
  - split; [rewrite (Hg "urn:ietf:params:oauth:grant-type:device_code") by done; set_solver|].
    pose proof (wp_run _ _ _ _ _ (device_spec self req w Hwf Hco Hk) Hrun) as Hs. simpl in Hs. rewrite Hok in Hs.
    destruct Hs as (client & _ & _ & _ & ? & ? & ? & _). eauto.
  - injection Hrun as <- <-. done.
Qed.

(** ** Witnesses *)

Import Instances JsonInstance JwtInstance.

Definition demo_hmac : HmacSha256 := mkHmacSha256 "pepper".
Definition demo_flow : TokenFlow :=
  mkTokenFlow (client_repository_new 60000000000) (mkTokenIssuer demo_signer demo_hmac) demo_hmac.

(** A public client with PKCE, a confidential one, a user with a session and a
    refresh token. *)
Definition pg_token : Pg :=
  on_refresh_tokens <[11%N := mkRefreshToken 11 7 5 9 (compute demo_hmac "raw") (Some 1800000000000000000%Z) false 0]>
  (on_user_sessions <[9%N := mkUserSession 9 7 "tok" None None (Some 1800000000000000000%Z) None 0]>
  (on_clients (fun m => <[5%N := mkClient 5 "app" None None (Some "public") None None (Some "openid email") true true
                 None None None None None None 0 0 []]>
     (<[6%N := mkClient 6 "svc" (Some "s3cret") None (Some "confidential") None None (Some "read") false true
                 None None None None None None 0 0 []]> m))
  (on_users <[7%N := mkUser 7 "a@b" true "a" None None true 0 0]> pg_empty))).
Definition world_token : World := mkWorld 0 pg_token (∅ : gmap string rentry).

Lemma pg_token_wf : pg_wf pg_token.
Proof. apply pg_wf_b_ok. vm_compute. reflexivity. Qed.
Lemma world_token_coherent : coherent world_token.
Proof. intros cid snap _ (v & dl & raw & Hl & _). done. Qed.
Lemma world_token_devices : keyed_devices world_token.
Proof. intros dc h d Hl. done. Qed.

Definition demo_auth_code : AuthorizationCode :=
  mkAuthorizationCode "c0de" "app" 7 9 "https://app/cb" (Some "openid") None None (Some (base64_url "verifier"))
    (Some "S256") None 1700000180000000000 None.
Definition one_key (k : string) (v : rvalue) : World :=
  mkWorld 0 pg_token ({[ k := (v, None) ]} : gmap string rentry).

Lemma one_key_rlive k v t k' e :
  rlive t k' (redis (one_key k v)) = Some e -> k' = k /\ e = (v, None).
Proof.
  change (still_live t (({[ k := (v, None) ]} : gmap string rentry) !! k') = Some e -> k' = k /\ e = (v, None)).
  destruct (decide (k' = k)) as [->|Hne]; [rewrite lookup_singleton_eq; by intros [= <-]|].
  by rewrite lookup_singleton_ne.
Qed.

Lemma one_key_coherent k v : (forall cid, Keys.client cid <> k) -> coherent (one_key k v).
Proof. intros Hk cid snap _ (x & dl & raw & Hl & _). apply one_key_rlive in Hl as [Hl _]. by destruct (Hk cid). Qed.

Definition world_with_code : World :=
  one_key (code_key "c0de") (RStr (default "" (json_to_string demo_auth_code))).

Definition code_request : TokenRequest :=
  mkTokenRequest (Some "authorization_code") (Some "c0de") (Some "https://app/cb") (Some "app") None
    (Some "verifier") None None None.

Lemma world_with_code_coherent : coherent world_with_code.
Proof. apply one_key_coherent. intros cid. unfold code_key. key_ne. Qed.

(** A run evaluated to its answer. *)
Definition answered (r : res err TokenResult) : bool := match r with Ok res => tr_ok res | Err _ => false end.
Definition answer_of (r : res err TokenResult) : TokenResult :=
  match r with Ok res => res | Err _ => error "" "" end.

Lemma answered_run (m : io TokenResult) w : answered (m w).1 = true ->
  m w = (Ok (answer_of (m w).1), (m w).2) /\ tr_ok (answer_of (m w).1) = true.
Proof. destruct (m w) as [[res|e] w']; simpl; [done|done]. Qed.

Lemma code_grant_sound_witness :
  exists client c, AuthCode.holds world_with_code "c0de" c /\ ac_client_id c = "app"
    /\ ac_redirect_uri c = "https://app/cb" /\ authenticated client None /\ cl_id client = 5%N.
Proof.
  assert (Hans : answered (from_authorization_code demo_flow code_request world_with_code).1 = true)
    by (vm_compute; reflexivity).
  destruct (answered_run _ _ Hans) as [Hrun Hok].
  pose proof (code_grant_sound demo_flow code_request world_with_code _ _ pg_token_wf
    world_with_code_coherent Hrun) as Hg. rewrite Hok in Hg.
  destruct Hg as (client & c & _ & _ & (row & Hrow & Hcid & _) & _ & Ha & Hh & Hc & Hu & _).
  exists client, c. split; [exact Hh|]. split; [exact Hc|]. split; [exact Hu|]. split; [exact Ha|].
  apply (wf_clients_client_id _ pg_token_wf _ 5%N _ _ Hrow eq_refl Hcid).
Defined.

(** The same code a second time, on the world the first grant left. *)
Definition world_redeemed : World := (from_authorization_code demo_flow code_request world_with_code).2.

Lemma redeemed_wf : pg_wf (pg world_redeemed).
Proof. apply pg_wf_b_ok. vm_compute. reflexivity. Qed.

Definition plain_world : World := mkWorld (tick world_redeemed) (pg world_redeemed) (∅ : gmap string rentry).

Lemma code_redeemed_once_witness :
  tr_ok (answer_of (from_authorization_code demo_flow code_request plain_world).1) = false.
Proof.
  assert (Hans : answered (from_authorization_code demo_flow code_request world_with_code).1 = true)
    by (vm_compute; reflexivity).
  destruct (answered_run _ _ Hans) as [Hrun Hok].
  assert (Hrun2 : (from_authorization_code demo_flow code_request plain_world).1
    = Ok (answer_of (from_authorization_code demo_flow code_request plain_world).1)) by (vm_compute; reflexivity).
  eapply (code_redeemed_once demo_flow code_request world_with_code _ _ code_request plain_world _ _
    pg_token_wf world_with_code_coherent redeemed_wf).
  - intros cid snap _ (v & dl & raw & Hl & _). done.
  - exact Hrun.
  - exact Hok.
  - split; [vm_compute; lia|]. intros t k _ Hk. apply dec_stable in Hk as ->. vm_compute. reflexivity.
  - reflexivity.
  - exact (run_fst _ _ _ Hrun2).
Defined.

Definition refresh_request : TokenRequest :=
  mkTokenRequest (Some "refresh_token") None None (Some "app") None None (Some "raw") None None.

Lemma refresh_rotation_witness :
  exists t, stored_as demo_flow "raw" pg_token t
    /\ refresh_tokens (pg (from_refresh_token demo_flow refresh_request world_token).2) !! rt_id t
       = Some (set_revoked true t).
Proof.
  assert (Hans : answered (from_refresh_token demo_flow refresh_request world_token).1 = true)
    by (vm_compute; reflexivity).
  destruct (answered_run _ _ Hans) as [Hrun Hok].
  destruct (refresh_rotation demo_flow refresh_request world_token _ _ pg_token_wf world_token_coherent Hrun Hok)
    as (_ & t & _ & _ & _ & _ & _ & _ & _ & _ & _ & Hst & _ & _ & _ & _ & _ & _ & _ & _ & Hold & _).
  exists t. split; [exact Hst|exact Hold].
Defined.

Definition world_replay : World :=
  mkWorld 100 (pg (from_refresh_token demo_flow refresh_request world_token).2) (∅ : gmap string rentry).

Lemma replay_wf : pg_wf (pg world_replay).
Proof. apply pg_wf_b_ok. vm_compute. reflexivity. Qed.

Lemma refresh_replay_witness :
  exists t, stored_as demo_flow "raw" pg_token t
    /\ forall i x, refresh_tokens (pg (from_refresh_token demo_flow refresh_request world_replay).2) !! i = Some x ->
         rt_session_id x = rt_session_id t -> rt_revoked x = true.
Proof.
  assert (Hans : answered (from_refresh_token demo_flow refresh_request world_token).1 = true)
    by (vm_compute; reflexivity).
  destruct (answered_run _ _ Hans) as [Hrun Hok].
  set (res2 := answer_of (from_refresh_token demo_flow refresh_request world_replay).1).
  assert (Hrun2 : (from_refresh_token demo_flow refresh_request world_replay).1 = Ok res2)
    by (vm_compute; reflexivity).
  assert (He : tr_error res2 = Some "invalid_grant") by (vm_compute; reflexivity).
  assert (Hco : coherent world_replay) by (intros cid snap _ (v & dl & raw & Hl & _); done).
  assert (Hx : exists x, stored_as demo_flow "raw" (pg world_replay) x).
  { exists (mkRefreshToken 11 7 5 9 (compute demo_hmac "raw") (Some 1800000000000000000%Z) true 0).
    split; vm_compute; reflexivity. }
  assert (Hanew : not_stored_anew demo_flow "raw" (pg world_replay) (pg world_replay)) by apply not_stored_anew_refl.
  destruct (refresh_replay demo_flow refresh_request world_token _ _ refresh_request world_replay (Ok res2) _
    pg_token_wf world_token_coherent Hrun Hok replay_wf Hco Hanew eq_refl (run_fst _ _ _ Hrun2))
    as (_ & t & Hst & Hall).
  exists t. split; [exact Hst|].
  destruct (Hall (demo_pg_ok _) Hx res2 eq_refl) as [Hin|[_ Hrev]]; [|exact Hrev].
  rewrite He in Hin. destruct (grant_error_apart Hin).
Defined.

Definition service_request : TokenRequest :=
  mkTokenRequest (Some "client_credentials") None None (Some "svc") (Some "s3cret") None None (Some "read") None.

Lemma client_credentials_sound_witness :
  exists client, is_confidential client = true /\ authenticated client (Some "s3cret")
    /\ is_subset_of (Some "read") (cl_scopes client) = true.
Proof.
  assert (Hans : answered (from_client_credentials demo_flow service_request world_token).1 = true)
    by (vm_compute; reflexivity).
  destruct (answered_run _ _ Hans) as [Hrun Hok].
  pose proof (client_credentials_sound demo_flow service_request world_token _ _ pg_token_wf world_token_coherent
    Hrun) as Hg. rewrite Hok in Hg.
  destruct Hg as (client & _ & _ & _ & _ & _ & _ & _ & Hc & Ha & Hs & _). exists client. by repeat split.
Defined.

Lemma token_needs_client_witness :
  exists client, served_from "svc" pg_token client /\ authenticated client (Some "s3cret").
Proof.
  assert (Hans : answered (token demo_flow service_request world_token).1 = true) by (vm_compute; reflexivity).
  destruct (answered_run _ _ Hans) as [Hrun Hok].
  destruct (token_needs_client demo_flow service_request world_token _ _ pg_token_wf world_token_coherent
    world_token_devices Hrun Hok) as (_ & client & Hs & _ & Ha).
  exists client. split; [exact Hs|exact Ha].
Defined.

Definition approved_device : DeviceAuthorization :=
  mkDeviceAuthorization 3 "dc" "BCDF-GHJK" "app" (Some "openid") STATUS_APPROVED (Some 7%N) (Some 9%N)
    1700000300000000000 None.
Definition world_approved : World := one_key (dkey "dc") (RHash (hset_pairs (to_fields approved_device) ∅)).
Definition device_request : TokenRequest :=
  mkTokenRequest None None None (Some "app") None None None None (Some "dc").

Lemma world_approved_devices : keyed_devices world_approved.
Proof.
  intros dc h d Hl. apply one_key_rlive in Hl as [Hdc Hl]. apply device_key_inj in Hdc as ->.
  injection Hl as -> ->. reflexivity.
Qed.

Lemma world_approved_coherent : coherent world_approved.
Proof. apply one_key_coherent. intros cid. unfold dkey. key_ne. Qed.

Lemma device_grant_once_witness :
  exists a, holds_device world_approved "dc" a /\ da_status a = STATUS_APPROVED.
Proof.
  assert (Hans : answered (from_device_code demo_flow device_request world_approved).1 = true)
    by (vm_compute; reflexivity).
  destruct (answered_run _ _ Hans) as [Hrun Hok].
  destruct (device_grant_once demo_flow device_request world_approved _ _ pg_token_wf
    world_approved_coherent world_approved_devices Hrun Hok)
    as [(_ & a & _ & _ & _ & _ & _ & Hh & _ & Hs & _) _].
  exists a. split; [exact Hh|exact Hs].
Defined.
