(* ===== verification/Introspect.v ===== *)
(** * Introspection and revocation ([oauth/token/introspect.rs],
    [oauth/token/revoke.rs], [oauth/token/result.rs])

    A client may ask about tokens made for it, and revoke refresh tokens issued
    to it; about any other token it learns nothing. *)

From stdpp Require Import base tactics list gmap strings.
From Stdlib Require Import ZArith Lia.
From S2P Require Import Prelude RustStr Redis Schema World Ext Demo DemoJson DemoJwt RedisKeys Hashing.
From S2P Require Import Secrets Jwt Client RefreshToken Integrity TokenFlow.

Local Open Scope auth_scope.

Record IntrospectResult := mkIntrospectResult {
  ir_ok : bool;
  ir_payload : option Value;
  ir_error : option string;
  ir_error_description : option string;
}.
Definition ir_success (payload : Value) : IntrospectResult := mkIntrospectResult true (Some payload) None None.
Definition ir_fail (error description : string) : IntrospectResult :=
  mkIntrospectResult false None (Some error) (Some description).

Record RevokeResult := mkRevokeResult {
  rr_ok : bool;
  rr_error : option string;
  rr_error_description : option string;
}.
Definition rr_success : RevokeResult := mkRevokeResult true None None.
Definition rr_fail (error description : string) : RevokeResult :=
  mkRevokeResult false (Some error) (Some description).

Definition audience_matches (aud : option Value) (expected : string) : bool :=
  match aud with
  | None => false
  | Some JNull => false
  | Some (JStr s) => bool_decide (s = expected)
  | Some (JArr arr) =>
      existsb (fun v => match as_str v with Some s => bool_decide (s = expected) | None => false end) arr
  | Some _ => false
  end.

(** [{ "active": false }] *)
Definition inactive : Value := JObj (<["active" := JBool false]> ∅).

Section Flows.
Context `{RedisServer} `{Env} `{JwtLib} `{Crypto} `{ValueParser} `{Argon2Lib} `{!JsonCodec ClientSnapshot}.

(** *** IntrospectFlow *)

Definition introspect_authenticate (client : Client) (presented_secret : option string) : io bool :=
  if negb (is_confidential client) then ret true
  else match nonempty presented_secret with
       | None => ret false
       | Some presented =>
           match cl_client_secret client with
           | None => ret false
           | Some stored => ClientSecretHasher.verify_async presented stored
           end
       end.

Record IntrospectFlow := mkIntrospectFlow {
  if_clients : ClientRepository;
  if_jwt_validator : JwtValidator;
}.

Definition introspect (self : IntrospectFlow) (token client_id : string) (client_secret : option string)
    : io IntrospectResult :=
  if is_empty token || is_empty client_id
  then ret (ir_fail "invalid_request" "token and client_id are required")
  else
    let! client := Client.find_by_client_id (if_clients self) client_id in
    match client with
    | None => ret (ir_fail "invalid_client" "Unknown or disabled client")
    | Some client =>
        if negb (cl_enabled client) then ret (ir_fail "invalid_client" "Unknown or disabled client")
        else
          let! authenticated := introspect_authenticate client client_secret in
          if negb authenticated then ret (ir_fail "invalid_client" "Invalid client credentials")
          else
            let! claims := validate (if_jwt_validator self) token in
            match claims with
            | None => ret (ir_success inactive)
            | Some claims =>
                if negb (audience_matches (value_get claims "aud") (cl_client_id client))
                then ret (ir_success inactive)
                else
                  let payload := <["active" := JBool true]> ∅ in
                  let payload := match claims with JObj obj => obj ∪ payload | _ => payload end in
                  ret (ir_success (JObj payload))
            end
    end.

(** *** RevokeFlow *)

Definition revoke_authenticate (client : Client) (presented_secret : option string) : bool :=
  if negb (is_confidential client) then true
  else match nonempty presented_secret with
       | None => false
       | Some presented =>
           match cl_client_secret client with
           | None => false
           | Some stored => ClientSecretHasher.verify presented stored
           end
       end.

Record RevokeFlow := mkRevokeFlow { rf_clients : ClientRepository; rf_hmac : HmacSha256 }.

Definition revoke (self : RevokeFlow) (token : string) (token_type_hint : option string) (client_id : string)
    (client_secret : option string) : io RevokeResult :=
  if is_empty token || is_empty client_id
  then ret (rr_fail "invalid_request" "token and client_id are required")
  else
    let! client := Client.find_by_client_id (rf_clients self) client_id in
    match client with
    | None => ret (rr_fail "invalid_client" "Unknown or disabled client")
    | Some client =>
        if negb (cl_enabled client) then ret (rr_fail "invalid_client" "Unknown or disabled client")
        else if negb (revoke_authenticate client client_secret)
        then ret (rr_fail "invalid_client" "Invalid client credentials")
        else
          let token_hash := compute (rf_hmac self) token in
          let! stored := find_by_token_hash token_hash in
          match stored with
          | None => ret rr_success
          | Some stored =>
              if negb (bool_decide (rt_client_id stored = cl_id client)) then ret rr_success
              else if negb (rt_revoked stored) then
                do! update_revoked (rt_id stored) true in
                ret rr_success
              else ret rr_success
          end
    end.
End Flows.

(** ** What they do *)

Section Specs.
Context `{RedisLaws} `{EnvLaws} `{JwtLib} `{Crypto} `{ValueParser} `{Argon2Lib} `{JsonCodecLaws ClientSnapshot}.
Implicit Types w : World.

Lemma introspect_authenticate_spec client secret w :
  wp (introspect_authenticate client secret) (fun r w' => quiet w w' /\
    exists b, r = Ok b /\ (b = true -> authenticated client secret)) w.
Proof.
  unfold introspect_authenticate. destruct (is_confidential client) eqn:Hc; cbn [negb].
  2:{ wp_step. split; [auto with wp|]. eexists. split; [done|]. by left. }
  assert (Hno : quiet w w /\ exists b, @Ok err _ false = Ok b /\ (b = true -> authenticated client secret))
    by (split; [auto with wp|]; by exists false).
  destruct (nonempty secret) as [p|] eqn:Hp; [|by wp_step]. apply nonempty_spec in Hp as [-> Hne].
  destruct (cl_client_secret client) as [s|] eqn:Hs; [|by wp_step].
  unfold ClientSecretHasher.verify_async. destruct (negb _); wp_step.
  - split; [auto with wp|]. eexists. split; [done|]. intros Hv. right. by exists p, s.
  - split; [auto with wp|]. eexists. split; [done|]. destruct (task_ok _); [|done]. intros Hv. right. by exists p, s.
Qed.

Lemma revoke_authenticate_spec client secret : revoke_authenticate client secret = true -> authenticated client secret.
Proof.
  unfold revoke_authenticate. destruct (is_confidential client) eqn:Hc; cbn [negb]; [|by left].
  destruct (nonempty secret) as [p|] eqn:Hp; [|done]. apply nonempty_spec in Hp as [-> Hne].
  destruct (cl_client_secret client) as [s|] eqn:Hs; [|done]. intros Hv. right. by exists p, s.
Qed.

Lemma audience_matches_spec aud x : audience_matches aud x = true -> exists v, aud = Some v /\ names x v.
Proof.
  destruct aud as [v|]; [|done]. intros Hm. exists v. split; [done|]. destruct v; try done; simpl in Hm.
  - apply bool_decide_eq_true in Hm as ->. by left.
  - apply existsb_exists in Hm as (v & Hin & Hv). destruct v; try done. simpl in Hv.
    apply bool_decide_eq_true in Hv as ->. right. eexists. split; [done|]. by apply list_elem_of_In.
Qed.

(** The answer to a client about a token. *)
Definition told (self : IntrospectFlow) (token cid : string) (secret : option string) w
    (r : res err IntrospectResult) w' : Prop :=
  pg w' = pg w /\
  forall res, r = Ok res -> ir_ok res = true -> exists client,
    served_from cid (pg w) client /\ cl_enabled client = true /\ authenticated client secret
    /\ (ir_payload res = Some inactive
        \/ exists claims w1 w2 v, validate (if_jwt_validator self) token w1 = (Ok (Some claims), w2)
             /\ tick w <= tick w1 /\ value_get claims "aud" = Some v /\ names cid v
             /\ ir_payload res = Some (JObj (match claims with
                  | JObj obj => obj ∪ <["active" := JBool true]> ∅ | _ => <["active" := JBool true]> ∅ end))).

Lemma introspect_spec self token cid secret w :
  pg_wf (pg w) -> coherent w -> wp (introspect self token cid secret) (told self token cid secret w) w.
Proof.
  intros Hwf Hco. unfold introspect.
  assert (Hno : forall w' e d, pg w' = pg w -> told self token cid secret w (Ok (ir_fail e d)) w').
  { intros w' e d Hp. split; [done|]. by intros res [= <-]. }
  assert (Herr : forall w' e, pg w' = pg w -> told self token cid secret w (Err e) w') by done.
  destruct (is_empty token || is_empty cid); [wp_step; by apply Hno|].
  wp_step. apply wp_client; [done|done| |intros; wp_step; by apply Hno|by auto].
  intros client w1 Hp1 Ht1 Hsrv. destruct (cl_enabled client) eqn:Hen; cbn [negb]; [|wp_step; by apply Hno].
  wp_step. wp_call introspect_authenticate_spec. intros r w2 ((Hp2 & _ & Ht2) & b & -> & Hb). cbn iota.
  destruct b; cbn [negb]; [|wp_step; apply Hno; congruence]. specialize (Hb eq_refl).
  assert (Hcid : cl_client_id client = cid) by (destruct Hsrv as (row & _ & Hc & -> & _); done).
  wp_step. apply run_wp. intros r w3 Hv.
  pose proof (wp_run _ _ _ _ _ (validate_spec _ token None false w2) Hv) as [(Hp3 & _) _].
  assert (Hp : pg w3 = pg w) by congruence.
  assert (Hin : told self token cid secret w (Ok (ir_success inactive)) w3).
  { split; [done|]. intros res [= <-] _. exists client. do 3 (split; [done|]). by left. }
  destruct r as [[claims|]|e]; [|by wp_step|by apply Herr].
  destruct (audience_matches _ _) eqn:Ha; cbn [negb]; [|by wp_step].
  wp_step. split; [done|]. intros res [= <-] _. exists client. do 3 (split; [done|]). right.
  apply audience_matches_spec in Ha as (v & Hav & Hn). rewrite Hcid in Hn.
  exists claims, w2, w3, v. split; [exact Hv|]. split; [lia|]. split; [done|]. split; [done|]. by destruct claims.
Qed.

Lemma revoke_spec self token hint cid secret w :
  pg_wf (pg w) -> coherent w ->
  wp (revoke self token hint cid secret) (fun r w' => forall res, r = Ok res ->
    if rr_ok res
    then exists client, served_from cid (pg w) client /\ cl_enabled client = true /\ authenticated client secret
      /\ ((exists t, refresh_tokens (pg w) !! rt_id t = Some t /\ rt_token_hash t = compute (rf_hmac self) token
            /\ rt_client_id t = cl_id client /\ pg w' = revoke_row t (pg w))
          \/ pg w' = pg w /\ forall i t, refresh_tokens (pg w) !! i = Some t ->
               rt_token_hash t = compute (rf_hmac self) token -> rt_client_id t = cl_id client ->
               rt_revoked t = true)
    else pg w' = pg w) w.
Proof.
  intros Hwf Hco. unfold revoke.
  destruct (is_empty token || is_empty cid); [wp_step; by intros res [= <-]|].
  wp_step. apply wp_client; [done|done| |intros; wp_step; by intros res [= <-]|done].
  intros client w1 Hp1 Ht1 Hsrv. destruct (cl_enabled client) eqn:Hen; cbn [negb]; [|wp_step; by intros res [= <-]].
  destruct (revoke_authenticate client secret) eqn:Ha; cbn [negb]; [|wp_step; by intros res [= <-]].
  apply revoke_authenticate_spec in Ha. cbv zeta. wp_step. unfold find_by_token_hash. wp_step; [|done].
  rewrite Hp1. pose proof (head_where_unique rt_token_hash (refresh_tokens (pg w)) (tick w1)
    (compute (rf_hmac self) token) (wf_refresh_hash _ Hwf)) as Hh.
  destruct (head _) as [t|].
  2:{ wp_step. intros res [= <-]. exists client. do 3 (split; [done|]). right. split; [done|].
      intros i t Hi Hht. by destruct (Hh i t Hi). }
  destruct Hh as [Hhash [i Hi]].
  assert (Hrow : refresh_tokens (pg w) !! rt_id t = Some t) by (by rewrite (wf_refresh_key _ Hwf _ _ Hi)).
  assert (Hsame : forall j t', refresh_tokens (pg w) !! j = Some t' ->
    rt_token_hash t' = compute (rf_hmac self) token -> t' = t).
  { intros j t' Hj Hht. assert (j = i) as -> by (eapply (wf_refresh_hash _ Hwf); [done|done|congruence]). congruence. }
  case_bool_decide as Hcl; cbn [negb].
  2:{ wp_step. intros res [= <-]. exists client. do 3 (split; [done|]). right. split; [done|].
      intros j t' Hj Hht Hc. by rewrite (Hsame j t' Hj Hht) in Hc. }
  destruct (rt_revoked t) eqn:Hrv; cbn [negb].
  { wp_step. intros res [= <-]. exists client. do 3 (split; [done|]). right. split; [done|].
    intros j t' Hj Hht _. by rewrite (Hsame j t' Hj Hht). }
  unfold update_revoked. do 2 wp_step; try done. injection Hq as <- <-. wp_step.
  intros res [= <-]. exists client. do 3 (split; [done|]). left. exists t. simpl. by rewrite Hp1.
Qed.
End Specs.

(** ** Theorems *)

(** C28: Introspection tells a client about its own tokens only.  Whatever happens
    the tables are unchanged; only a registered, enabled, authenticated client gets
    an answer, and unless the answer is [active: false], the token passed validation
    and its audience names that client, and the answer is the token's claims marked
    active. *)
Theorem introspect_own_tokens `{RedisLaws} `{EnvLaws} `{JwtLib} `{Crypto} `{ValueParser} `{Argon2Lib}
  `{JsonCodecLaws ClientSnapshot} self token cid secret w res w' :
  pg_wf (pg w) -> coherent w -> introspect self token cid secret w = (Ok res, w') ->
  pg w' = pg w
  /\ (ir_ok res = true -> exists client,
        served_from cid (pg w) client /\ cl_enabled client = true /\ authenticated client secret
        /\ (ir_payload res = Some inactive
            \/ exists claims w1 w2 v, validate (if_jwt_validator self) token w1 = (Ok (Some claims), w2)
                 /\ tick w <= tick w1 /\ value_get claims "aud" = Some v /\ names cid v
                 /\ ir_payload res = Some (JObj (match claims with
                      | JObj obj => obj ∪ <["active" := JBool true]> ∅ | _ => <["active" := JBool true]> ∅ end)))).
Proof.
  intros Hwf Hco Hrun.
  destruct (wp_run _ _ _ _ _ (introspect_spec self token cid secret w Hwf Hco) Hrun) as [Hp Hr]. eauto.
Qed.

(** A client revokes its own refresh token and nothing else.  When revocation
    reports success the client was registered, enabled and authenticated; the token,
    if it is stored and was issued to that client, is revoked; every row that has
    another hash or belongs to another client is as it was.  A refusal changes
    nothing. *)
Theorem revoke_own_token `{RedisLaws} `{EnvLaws} `{JwtLib} `{Crypto} `{ValueParser} `{Argon2Lib}
  `{JsonCodecLaws ClientSnapshot} self token hint cid secret w res w' :
  pg_wf (pg w) -> coherent w -> revoke self token hint cid secret w = (Ok res, w') ->
  if rr_ok res
  then exists client, served_from cid (pg w) client /\ cl_enabled client = true /\ authenticated client secret
    /\ (forall i t, refresh_tokens (pg w) !! i = Some t -> rt_token_hash t = compute (rf_hmac self) token ->
          rt_client_id t = cl_id client -> refresh_tokens (pg w') !! i = Some (set_revoked true t))
    /\ (forall i t, refresh_tokens (pg w) !! i = Some t ->
          rt_token_hash t <> compute (rf_hmac self) token \/ rt_client_id t <> cl_id client ->
          refresh_tokens (pg w') !! i = Some t)
  else pg w' = pg w.
Proof.
  intros Hwf Hco Hrun.
  pose proof (wp_run _ _ _ _ _ (revoke_spec self token hint cid secret w Hwf Hco) Hrun res eq_refl) as Hs.
  destruct (rr_ok res); [|done]. destruct Hs as (client & Hsrv & Hen & Ha & Hor). exists client.
  do 3 (split; [done|]). destruct Hor as [(t & Ht & Hh & Hc & ->)|[-> Hall]].
  - split; intros i x Hx; simpl; rewrite lookup_update_where, Hx; simpl.
    + intros Hhx _. assert (i = rt_id t) as -> by (eapply (wf_refresh_hash _ Hwf); [done|done|congruence]).
      rewrite decide_True; [done|]. congruence.
    + intros Hne. rewrite decide_False; [done|]. intros Heq.
      assert (x = t) as -> by (rewrite <- (wf_refresh_key _ Hwf _ _ Hx), Heq in Hx; congruence). naive_solver.
  - split; intros i x Hx; [|done]. intros Hhx Hcx. rewrite Hx. f_equal.
    pose proof (Hall i x Hx Hhx Hcx). destruct x; simpl in *; by subst.
Qed.

(** ** Witnesses *)

Import Instances JsonInstance JwtInstance.

Definition demo_introspect : IntrospectFlow := mkIntrospectFlow (client_repository_new 60000000000) demo_validator.
Definition demo_revoke : RevokeFlow := mkRevokeFlow (client_repository_new 60000000000) demo_hmac.

Lemma introspect_own_tokens_witness :
  exists claims w1 w2, validate demo_validator demo_access w1 = (Ok (Some claims), w2)
    /\ exists v, value_get claims "aud" = Some v /\ names "app" v.
Proof.
  set (res := match (introspect demo_introspect demo_access "app" None world_token).1 with
              | Ok r => r | Err _ => ir_fail "" "" end).
  assert (Hr : (introspect demo_introspect demo_access "app" None world_token).1 = Ok res)
    by (vm_compute; reflexivity).
  assert (Hok : ir_ok res = true) by (vm_compute; reflexivity).
  assert (Hact : ir_payload res <> Some inactive) by (vm_compute; discriminate).
  destruct (introspect_own_tokens demo_introspect demo_access "app" None world_token res _ pg_token_wf
    world_token_coherent (run_fst _ _ _ Hr)) as [_ Hd].
  destruct (Hd Hok) as (_ & _ & _ & _ & [Hi|(claims & w1 & w2 & v & Hv & _ & Ha & Hn & _)]); [by destruct Hact|].
  exists claims, w1, w2. split; [exact Hv|]. exists v. split; [exact Ha|exact Hn].
Defined.

Lemma revoke_own_token_witness :
  exists t, refresh_tokens (pg (revoke demo_revoke "raw" None "app" None world_token).2) !! 11%N
    = Some (set_revoked true t).
Proof.
  assert (Hr : (revoke demo_revoke "raw" None "app" None world_token).1 = Ok rr_success) by (vm_compute; reflexivity).
  pose proof (revoke_own_token demo_revoke "raw" None "app" None world_token _ _ pg_token_wf world_token_coherent
    (run_fst _ _ _ Hr)) as (client & (row & Hrow & Hcid & _) & _ & _ & Hrev & _).
  assert (Hcl : cl_id client = 5%N) by exact (wf_clients_client_id _ pg_token_wf _ 5%N _ _ Hrow eq_refl Hcid).
  eexists. apply (Hrev 11%N _ eq_refl eq_refl). simpl. by rewrite Hcl.
Defined.
