(* ===== verification/Authorize.v ===== *)
(** * The authorization endpoint ([oauth/authorize/flow.rs],
    [oauth/authorize/result.rs])

    [authorize] checks a front-channel request against the session, the client,
    its registered redirect URIs, its scopes, PKCE and the user's consent, and
    answers with a redirect that carries a code, a redirect that carries an
    error, an error of its own, or a detour through the consent screen, from
    which [complete_after_consent] resumes. *)

From stdpp Require Import base tactics list gmap strings pretty.
From Stdlib Require Import ZArith Lia Ascii.
From S2P Require Import Prelude RustStr Redis Schema World Ext Demo RedisKeys Scopes Hashing Client Session.
From S2P Require Import Consent AuthCode Integrity.

Local Open Scope auth_scope.

Definition AUTH_CODE_TTL_MINUTES : Z := 3.
Definition AUTH_CODE_BYTES : nat := 48.
Definition CONSENT_REQUEST_TTL_MINUTES : Z := 10.
Definition REAUTH_GRACE_SECONDS : Z := 10.

(** [ChronoDuration::minutes] *)
Definition minutes (n : Z) : Z := seconds (n * 60).

Record AuthorizeResult := mkAuthorizeResult {
  ar_ok : bool;
  ar_redirect : option string;
  ar_error : option string;
  ar_error_description : option string;
  ar_consent_request_id : option string;
}.

Definition ar_success (redirect : string) : AuthorizeResult :=
  mkAuthorizeResult true (Some redirect) None None None.
Definition ar_fail (error description : string) : AuthorizeResult :=
  mkAuthorizeResult false None (Some error) (Some description) None.
Definition ar_error_redirect (redirect error description : string) : AuthorizeResult :=
  mkAuthorizeResult false (Some redirect) (Some error) (Some description) None.
Definition consent_required (request_id : string) : AuthorizeResult :=
  mkAuthorizeResult false None (Some "consent_required") (Some "User consent is required") (Some request_id).

Record AuthorizeRequest := mkAuthorizeRequest {
  aq_session_token : option string;
  aq_client_id : option string;
  aq_redirect_uri : option string;
  aq_response_type : option string;
  aq_scope : option string;
  aq_state : option string;
  aq_nonce : option string;
  aq_prompt : option string;
  aq_max_age : option Z;
  aq_code_challenge : option string;
  aq_code_challenge_method : option string;
  aq_claims_json : option string;
}.

Definition parse_prompt (raw : option string) : gset string :=
  match raw with
  | None => ∅
  | Some s => list_to_set (split_whitespace s)
  end.

Section Redirects.
Context `{UrlCodec}.

(** The loop of [build_redirect], with its [first] flag. *)
Fixpoint push_params (first : bool) (out : string) (params : list (string * string)) : string :=
  match params with
  | [] => out
  | (k, v) :: rest =>
      let out := if first then out else out +:+ "&" in
      push_params false (out +:+ url_encode k +:+ "=" +:+ url_encode v) rest
  end.

Definition build_redirect (base_uri : string) (params : list (string * string)) : string :=
  push_params true (base_uri +:+ (if contains_byte "?" base_uri then "&" else "?")) params.

Definition error_redirect (redirect_uri : string) (state : option string) (error desc : string) : AuthorizeResult :=
  let params := [("error", error)] in
  let params := if is_empty desc then params else params ++ [("error_description", desc)] in
  let params := match state with
                | Some s => if is_empty s then params else params ++ [("state", s)]
                | None => params
                end in
  ar_error_redirect (build_redirect redirect_uri params) error desc.
End Redirects.

(** The method a request resolves to, or the error it is sent back with. *)
Definition resolve_method (pkce_required : bool) (code_challenge code_challenge_method : option string)
    : res string (option string) :=
  let has_challenge := match code_challenge with Some c => negb (is_empty c) | None => false end in
  if has_challenge then
    match code_challenge_method with
    | Some method =>
        if is_empty method then Err "code_challenge_method is required (only S256 supported)"
        else if negb (is_method_supported (Some method)) then Err "Unsupported code_challenge_method"
        else Ok (Some method)
    | None => Err "code_challenge_method is required (only S256 supported)"
    end
  else if pkce_required then Err "code_challenge is required"
  else Ok None.

Record AuthorizeFlow := mkAuthorizeFlow {
  af_clients : ClientRepository;
  (** the default lifetime of the pending store *)
  af_pending_ttl : Z;
}.

Section Flow.
Context `{RedisServer} `{Env} `{Crypto} `{UrlCodec} `{!JsonCodec ClientSnapshot} `{!JsonCodec SessionSnapshot}
  `{!JsonCodec PendingAuthorization} `{!JsonCodec AuthorizationCode}.

Definition issue_code (session_id user_id : Uuid) (client_id redirect_uri : string)
    (scope state nonce code_challenge code_challenge_method claims_requested : option string) : io AuthorizeResult :=
  let! code := url_safe AUTH_CODE_BYTES in
  let! now := utc_now in
  let expires_at := (now + minutes AUTH_CODE_TTL_MINUTES)%Z in
  let stored := mkAuthorizationCode code client_id user_id session_id redirect_uri scope state nonce
    code_challenge code_challenge_method claims_requested expires_at None in
  do! AuthCode.put stored in
  ret (ar_success (build_redirect redirect_uri [("code", code); ("state", default "" state)])).

(** The end of [authorize]: the consent check, then the code or the consent screen. *)
Definition consent_or_code (self : AuthorizeFlow) (req : AuthorizeRequest) (session : SessionWithUser)
    (client : Client) (redirect_uri : string) (resolved_method : option string) : io AuthorizeResult :=
  let prompt_none := bool_decide ("none" ∈ parse_prompt (aq_prompt req)) in
  let prompt_consent := bool_decide ("consent" ∈ parse_prompt (aq_prompt req)) in
  let user_id := ses_user_id (swu_session session) in
  let! has_consent := if prompt_consent then ret false
                      else has_consent user_id (cl_id client) (aq_scope req) in
  if negb has_consent then
    if prompt_none
    then ret (error_redirect redirect_uri (aq_state req) "consent_required"
                "Consent is required but prompt=none was specified")
    else
    let! request_id := url_safe 24 in
    let! now := utc_now in
    let pending := mkPendingAuthorization request_id (ses_id (swu_session session)) user_id
      (cl_client_id client) redirect_uri "code" (aq_scope req) (aq_state req) (aq_nonce req) (aq_prompt req)
      (aq_max_age req) (aq_code_challenge req) resolved_method (aq_claims_json req)
      (now + minutes CONSENT_REQUEST_TTL_MINUTES)%Z in
    do! Consent.put (af_pending_ttl self) pending in
    ret (consent_required request_id)
  else
  issue_code (ses_id (swu_session session)) user_id (cl_client_id client) redirect_uri (aq_scope req)
    (aq_state req) (aq_nonce req) (aq_code_challenge req) resolved_method (aq_claims_json req).

Definition authorize (self : AuthorizeFlow) (req : AuthorizeRequest) : io AuthorizeResult :=
  if negb (bool_decide (aq_response_type req = Some "code"))
  then ret (ar_fail "unsupported_response_type" "Only response_type=code is supported")
  else
  let client_id_str := trim (default "" (aq_client_id req)) in
  let redirect_uri := default "" (aq_redirect_uri req) in
  if is_empty client_id_str || is_empty redirect_uri
  then ret (ar_fail "invalid_request" "client_id and redirect_uri are required")
  else
  let prompts := parse_prompt (aq_prompt req) in
  let prompt_none := bool_decide ("none" ∈ prompts) in
  let prompt_login := bool_decide ("login" ∈ prompts) in
  let! session := match aq_session_token req with
    | Some t => find_active_session t
    | None => ret None
    end in
  let! now := utc_now in
  let recently_authenticated := match session with
    | Some s => (num_seconds (now - ses_created_at (swu_session s)) <? REAUTH_GRACE_SECONDS)%Z
    | None => false
    end in
  let login_error := if prompt_none then "login_required" else "invalid_session" in
  let no_session := ar_fail login_error
    (if prompt_login then "prompt=login requires re-authentication" else "Login required") in
  match session with
  | None => ret no_session
  | Some session =>
  if prompt_login && negb recently_authenticated then ret no_session
  else
  let age := num_seconds (now - ses_created_at (swu_session session)) in
  let too_old := match aq_max_age req with Some max_age => (max_age <? age)%Z | None => false end in
  if too_old
  then ret (ar_fail login_error ("Session age " +:+ pretty age +:+ "s exceeds max_age "
                                 +:+ pretty (default 0%Z (aq_max_age req)) +:+ "s"))
  else
  let! client := Client.find_by_client_id (af_clients self) client_id_str in
  match client with
  | None => ret (ar_fail "unauthorized_client" "Unknown or disabled client")
  | Some client =>
  if negb (cl_enabled client) then ret (ar_fail "unauthorized_client" "Unknown or disabled client")
  else
  let! allowed := is_redirect_uri_allowed (cl_id client) redirect_uri in
  if negb allowed then ret (ar_fail "invalid_request" "redirect_uri is not registered")
  else if negb (is_subset_of (aq_scope req) (cl_scopes client))
  then ret (error_redirect redirect_uri (aq_state req) "invalid_scope"
              "Requested scope is not allowed for this client")
  else
  match resolve_method (cl_pkce_required client) (aq_code_challenge req) (aq_code_challenge_method req) with
  | Err desc => ret (error_redirect redirect_uri (aq_state req) "invalid_request" desc)
  | Ok resolved_method =>
  consent_or_code self req session client redirect_uri resolved_method
  end end end.

Definition complete_after_consent (self : AuthorizeFlow) (pending : PendingAuthorization) : io AuthorizeResult :=
  let! client := Client.find_by_client_id (af_clients self) (pa_client_id pending) in
  match client with
  | None => ret (ar_fail "unauthorized_client" "Unknown or disabled client")
  | Some client =>
  if negb (cl_enabled client) then ret (ar_fail "unauthorized_client" "Unknown or disabled client")
  else
  let! allowed := is_redirect_uri_allowed (cl_id client) (pa_redirect_uri pending) in
  if negb allowed then ret (ar_fail "invalid_request" "redirect_uri is not registered")
  else
  do! grant (pa_user_id pending) (cl_id client) (pa_scope pending) in
  issue_code (pa_session_id pending) (pa_user_id pending) (cl_client_id client) (pa_redirect_uri pending)
    (pa_scope pending) (pa_state pending) (pa_nonce pending) (pa_code_challenge pending)
    (pa_code_challenge_method pending) (pa_claims_requested pending)
  end.
End Flow.

(** ** What the endpoint does *)

(** *** Only access times move *)

Lemma touched_wf d d' : Session.touched d d' -> pg_wf d -> pg_wf d'.
Proof. intros [->|(id & t & Hq)]; [done|]. intros Hwf. by eapply touch_session_wf. Qed.

Lemma touched_rest d d' : Session.touched d d' ->
  clients d' = clients d /\ redirect_uris d' = redirect_uris d /\ user_consents d' = user_consents d.
Proof. by intros [->|(id & t & [= <-])]. Qed.

Lemma served_from_same cid d d' c :
  clients d' = clients d -> redirect_uris d' = redirect_uris d -> served_from cid d' c -> served_from cid d c.
Proof. intros Hc Hr. unfold served_from. by rewrite Hc, Hr. Qed.

Section Spec.
Context `{RedisLaws} `{EnvLaws} `{Crypto} `{UrlCodec} `{!JsonCodec ClientSnapshot} `{!JsonCodecLaws ClientSnapshot}
  `{!JsonCodec SessionSnapshot} `{!JsonCodecLaws SessionSnapshot}
  `{!JsonCodec PendingAuthorization} `{!JsonCodec AuthorizationCode}.
Implicit Types w : World.

Lemma touched_coherent tok w w' :
  redis_frame (eq (Keys.session (base64_url tok))) w w' -> Session.touched (pg w) (pg w') ->
  coherent w -> coherent w'.
Proof.
  intros Hf Htd Hco cid snap Hne Hs. destruct (touched_rest _ _ Htd) as (Hc & Hr & _).
  apply (served_from_same cid (pg w') (pg w)); [done|done|]. apply Hco; [done|].
  eapply Client.cached_frame; [done| |done]. key_ne.
Qed.

Lemma resolve_method_spec required challenge method m :
  resolve_method required challenge method = Ok m ->
  (m = Some "S256" /\ method = Some "S256" /\ exists c, challenge = Some c /\ c <> "")
  \/ (m = None /\ default "" challenge = "" /\ required = false).
Proof.
  unfold resolve_method. destruct challenge as [c|]; cbn [default from_option];
    [destruct (is_empty c) eqn:He; cbn [negb]|].
  - apply is_empty_spec in He as ->. destruct required; [done|]. intros [= <-]. by right.
  - destruct method as [x|]; [|done]. destruct (is_empty x); [done|].
    destruct (is_method_supported (Some x)) eqn:Hs; cbn [negb]; [|done]. intros [= <-]. left.
    simpl in Hs. rewrite orb_false_r in Hs. apply bool_decide_eq_true in Hs as <-.
    split; [done|]. split; [done|]. exists c. split; [done|]. by rewrite <- is_empty_spec, He.
  - destruct required; [done|]. intros [= <-]. by right.
Qed.

(** The session the request presents: it was found, is in date, its user is
    enabled, and it is as young as [max_age] and [prompt=login] ask, by a clock
    reading taken during the run. *)
Definition session_ok (req : AuthorizeRequest) w w' (h : SessionWithUser) : Prop :=
  exists tok, aq_session_token req = Some tok /\ trim tok <> "" /\ Session.source tok w h
    /\ swu_user_enabled h = true /\ Session.fresh_between w w' h
    /\ exists n, tick w <= n < tick w' /\
         let age := num_seconds (clock n - ses_created_at (swu_session h)) in
         ("login" ∈ parse_prompt (aq_prompt req) -> (age < REAUTH_GRACE_SECONDS)%Z)
         /\ forall m, aq_max_age req = Some m -> (age <= m)%Z.

(** The redirect target may be trusted. *)
Definition target_ok (req : AuthorizeRequest) w (client : Client) : Prop :=
  served_from (trim (default "" (aq_client_id req))) (pg w) client /\ cl_enabled client = true
  /\ registered client (default "" (aq_redirect_uri req)) (pg w).

(** PKCE as the client requires it, with [m] as the resolved method. *)
Definition challenge_ok (req : AuthorizeRequest) (client : Client) (m : option string) : Prop :=
  (m = Some "S256" /\ aq_code_challenge_method req = Some "S256"
     /\ exists c, aq_code_challenge req = Some c /\ c <> "")
  \/ (m = None /\ default "" (aq_code_challenge req) = "" /\ cl_pkce_required client = false).

(** The code bound to the request, as it is stored. *)
Definition bound_code (session_id user_id : Uuid) (client_id uri : string)
    (scope state nonce challenge method claims : option string) (c : AuthorizationCode) w w' (redirect : string) : Prop :=
  exists w1 n, tick w <= n < tick w1
    /\ c = mkAuthorizationCode (ac_code c) client_id user_id session_id uri scope state nonce challenge method
             claims (clock n + minutes AUTH_CODE_TTL_MINUTES)%Z None
    /\ AuthCode.put c w1 = (Ok tt, w')
    /\ redirect = build_redirect uri [("code", ac_code c); ("state", default "" state)].

(** The consent request, as it waits for the user. *)
Definition pending_for (req : AuthorizeRequest) (h : SessionWithUser) (client : Client) (m : option string)
    (expires : Z) (p : PendingAuthorization) : Prop :=
  p = mkPendingAuthorization (pa_request_id p) (ses_id (swu_session h)) (ses_user_id (swu_session h))
    (cl_client_id client) (default "" (aq_redirect_uri req)) "code" (aq_scope req) (aq_state req) (aq_nonce req)
    (aq_prompt req) (aq_max_age req) (aq_code_challenge req) m (aq_claims_json req) expires.

Inductive outcome (self : AuthorizeFlow) (req : AuthorizeRequest) w w' : AuthorizeResult -> Prop :=
| refused e d : outcome self req w w' (ar_fail e d)
| bounced client e d : target_ok req w client ->
    outcome self req w w' (error_redirect (default "" (aq_redirect_uri req)) (aq_state req) e d)
| detour client h m p w1 n : target_ok req w client -> session_ok req w w' h -> challenge_ok req client m ->
    is_subset_of (aq_scope req) (cl_scopes client) = true ->
    "none" ∉ parse_prompt (aq_prompt req) ->
    tick w <= n < tick w1 -> pending_for req h client m (clock n + minutes CONSENT_REQUEST_TTL_MINUTES)%Z p ->
    Consent.put (af_pending_ttl self) p w1 = (Ok tt, w') ->
    outcome self req w w' (consent_required (pa_request_id p))
| coded client h m c redirect : target_ok req w client -> session_ok req w w' h -> challenge_ok req client m ->
    is_subset_of (aq_scope req) (cl_scopes client) = true ->
    "consent" ∉ parse_prompt (aq_prompt req) ->
    parse (aq_scope req) ⊆ granted (pg w) (ses_user_id (swu_session h)) (cl_id client) ->
    bound_code (ses_id (swu_session h)) (ses_user_id (swu_session h)) (cl_client_id client)
      (default "" (aq_redirect_uri req)) (aq_scope req) (aq_state req) (aq_nonce req) (aq_code_challenge req) m
      (aq_claims_json req) c w w' redirect ->
    outcome self req w w' (ar_success redirect).

(** Storing in Redis leaves the tables alone. *)
Lemma put_code_pg c w : wp (AuthCode.put c) (fun _ w' => pg w' = pg w /\ tick w < tick w') w.
Proof. unfold AuthCode.put, redis_set_ex_nx. wp_steps; simpl; lia || (split; [done|lia]). Qed.

Lemma put_pending_pg ttl p w : wp (Consent.put ttl p) (fun _ w' => pg w' = pg w /\ tick w <= tick w') w.
Proof. unfold Consent.put, redis_set_ex. wp_steps; simpl; split; (done || lia). Qed.

Lemma issue_code_spec sid uid cid uri scope state nonce ch m claims w :
  wp (issue_code sid uid cid uri scope state nonce ch m claims) (fun r w' => pg w' = pg w /\ tick w <= tick w' /\
    forall res, r = Ok res -> exists c redirect, res = ar_success redirect
      /\ bound_code sid uid cid uri scope state nonce ch m claims c w w' redirect) w.
Proof.
  unfold issue_code, url_safe. do 7 wp_step. set (c := mkAuthorizationCode _ _ _ _ _ _ _ _ _ _ _ _ _).
  apply run_wp. intros r w' Hput.
  pose proof (wp_run _ _ _ _ _ (put_code_pg c (bump (bump w))) Hput) as [Hp Ht]. simpl in Hp, Ht.
  destruct r as [[]|e]; [|split; [done|]; split; [lia|done]]. wp_step. split; [done|]. split; [lia|].
  intros res [= <-]. exists c. eexists. split; [done|]. exists (bump (bump w)), (S (tick w)). simpl.
  split; [lia|]. done.
Qed.

(** The request once the session, [h], and the clock reading are in: [w1] is the
    state then. *)
Lemma bound_code_from sid uid cid uri scope state nonce ch m claims c w0 w w' redirect :
  tick w0 <= tick w -> bound_code sid uid cid uri scope state nonce ch m claims c w w' redirect ->
  bound_code sid uid cid uri scope state nonce ch m claims c w0 w' redirect.
Proof. intros Ht (w1 & n & Hn & Hr). exists w1, n. split; [lia|done]. Qed.

Lemma session_ok_later req w w1 w2 h : session_ok req w w1 h -> tick w1 <= tick w2 -> session_ok req w w2 h.
Proof.
  intros (tok & Ha & Hb & Hc & Hd & (k & Hk & He) & n & Hn & Hf) Ht. exists tok. do 4 (split; [done|]).
  split; [exists k; split; [lia|done]|]. exists n. split; [lia|done].
Qed.

(** The session lookup of [authorize]. *)
Lemma wp_session tok (Q : res err (option SessionWithUser) -> World -> Prop) w :
  (forall o w1, Session.touched (pg w) (pg w1) -> tick w <= tick w1 ->
     (pg_wf (pg w) -> pg_wf (pg w1)) -> (coherent w -> coherent w1) ->
     (forall h, o = Some h -> exists t, tok = Some t /\ trim t <> "" /\ Session.source t w h
        /\ swu_user_enabled h = true /\ Session.fresh_between w w1 h) -> Q (Ok o) w1) ->
  (forall e w1, Session.touched (pg w) (pg w1) -> Q (Err e) w1) ->
  wp (match tok with Some t => find_active_session t | None => ret None end) Q w.
Proof.
  intros Hok Herr. destruct tok as [t|]; [|wp_step; by apply Hok; [left|..]].
  wp_call find_active_spec. intros r w1 (Htd & Hf & _ & Hr). assert (Ht : tick w <= tick w1) by apply Hf.
  destruct r as [o|e]; [|by apply Herr].
  apply Hok; [done|done|by apply touched_wf|by eapply touched_coherent|].
  intros h ->. destruct Hr as (? & ? & ? & ?). by exists t.
Qed.

Lemma consent_check_spec req h client w :
  pg_wf (pg w) ->
  wp (if bool_decide ("consent" ∈ parse_prompt (aq_prompt req)) then ret false
      else has_consent (ses_user_id (swu_session h)) (cl_id client) (aq_scope req))
    (fun r w' => pg w' = pg w /\ tick w <= tick w' /\ (r = Ok true ->
       ("consent" ∉ parse_prompt (aq_prompt req))
       /\ parse (aq_scope req) ⊆ granted (pg w) (ses_user_id (swu_session h)) (cl_id client))) w.
Proof.
  intros Hwf. case_bool_decide as Hc; [by wp_step|].
  wp_call has_consent_spec; [apply wf_consents_pair, Hwf|]. intros r w' (Hp & _ & Ht & Hr).
  split; [done|]. split; [done|]. intros ->. split; [done|]. symmetry in Hr. by apply bool_decide_eq_true in Hr.
Qed.

Lemma consent_or_code_spec self req h client m w0 w1 w :
  pg_wf (pg w) -> user_consents (pg w) = user_consents (pg w0) -> tick w1 <= tick w -> tick w0 <= tick w1 ->
  target_ok req w0 client -> session_ok req w0 w1 h -> challenge_ok req client m ->
  is_subset_of (aq_scope req) (cl_scopes client) = true ->
  wp (consent_or_code self req h client (default "" (aq_redirect_uri req)) m) (fun r w' => pg w' = pg w
    /\ forall res, r = Ok res -> outcome self req w0 w' res) w.
Proof.
  intros Hwf Hu Ht1 Ht0 Htgt Hses Hch Hsub. unfold consent_or_code. cbv zeta. wp_step.
  wp_call (consent_check_spec req h client w Hwf). intros r w2 (Hp2 & Ht2 & Hr). unfold granted in Hr. rewrite Hu in Hr.
  destruct r as [[]|e]; cbn [negb]; [| |done].
  - destruct (Hr eq_refl) as [Hnc Hg]. wp_call issue_code_spec. intros r w3 (Hp3 & Ht3 & Hres).
    split; [congruence|]. intros res ->. destruct (Hres res eq_refl) as (c & redirect & -> & Hb).
    eapply coded; try done; [eapply session_ok_later; [done|lia]|]. eapply bound_code_from; [|done]. lia.
  - case_bool_decide as Hn; [wp_step; split; [done|]; intros res [= <-]; by econstructor|].
    unfold url_safe. do 7 wp_step. set (p := mkPendingAuthorization _ _ _ _ _ _ _ _ _ _ _ _ _ _ _).
    apply run_wp. intros r w3 Hput.
    pose proof (wp_run _ _ _ _ _ (put_pending_pg _ p _) Hput) as [Hp3 Ht3]. simpl in Hp3, Ht3.
    destruct r as [[]|e]; [|split; [congruence|done]]. wp_step. split; [congruence|]. intros res [= <-].
    eapply (detour _ _ _ _ client h m p (bump (bump w2)) (S (tick w2))); try done; simpl; [|lia].
    eapply session_ok_later; [done|lia].
Qed.

Lemma authorize_spec self req w :
  pg_wf (pg w) -> coherent w ->
  wp (authorize self req) (fun r w' => Session.touched (pg w) (pg w')
    /\ forall res, r = Ok res -> outcome self req w w' res) w.
Proof.
  intros Hwf Hco. unfold authorize.
  set (P := fun (r : res err AuthorizeResult) w' => _).
  assert (Herr : forall e w', Session.touched (pg w) (pg w') -> P (Err e) w') by done.
  assert (Hno : forall e d w', Session.touched (pg w) (pg w') -> P (Ok (ar_fail e d)) w').
  { intros e d w' Htd. split; [done|]. intros res [= <-]. constructor. }
  destruct (negb _); [wp_step; apply Hno; by left|]. cbv zeta.
  destruct (_ || _); [wp_step; apply Hno; by left|].
  wp_step. apply wp_session; [|by auto]. intros o w1 Htd Ht1 Hwf1 Hco1 Hs. specialize (Hwf1 Hwf). specialize (Hco1 Hco).
  do 2 wp_step. destruct o as [h|]; [|wp_step; by apply Hno].
  destruct (_ && _) eqn:Hlogin; [wp_step; by apply Hno|].
  destruct (match aq_max_age req with Some _ => _ | None => _ end) eqn:Hage; [wp_step; by apply Hno|].
  assert (Hses : session_ok req w (bump w1) h).
  { destruct (Hs h eq_refl) as (tok & ? & ? & ? & ? & k & Hk & Hexp). exists tok. do 4 (split; [done|]).
    split; [exists k; split; [simpl; lia|done]|]. exists (tick w1). split; [simpl; lia|]. cbv zeta. split.
    - intros Hin. rewrite bool_decide_eq_true_2 in Hlogin by done. simpl in Hlogin. lia.
    - intros m Hm. rewrite Hm in Hage. lia. }
  clear Hlogin Hage Hs.
  destruct (touched_rest _ _ Htd) as (Hc & Hr & Hu).
  wp_step. apply wp_client; [done|apply (coherent_later w1); [simpl; lia|done..]| | |].
  2:{ intros w2 Hp2 _. wp_step. apply Hno. by rewrite Hp2. }
  2:{ intros e w2 Hp2 _. apply Herr. by rewrite Hp2. }
  intros client w2 Hp2 Ht2 Hsrv. simpl in Hp2, Ht2, Hsrv. apply (served_from_same _ (pg w)) in Hsrv; [|done..].
  assert (Htd2 : forall w', pg w' = pg w2 -> Session.touched (pg w) (pg w')) by (intros w' ->; by rewrite Hp2).
  destruct (cl_enabled client) eqn:Hen; cbn [negb]; [|wp_step; apply Hno, Htd2; done].
  wp_step. apply wp_uri_allowed; [|cbn [negb]; wp_step; apply Hno, Htd2; done|intros c; apply Herr, Htd2; done].
  intros Hreg. cbn [negb].
  assert (Htgt : target_ok req w client).
  { split; [done|]. split; [done|]. unfold registered in *. by rewrite Hp2, Hr in Hreg. }
  assert (Hback : forall e d w', pg w' = pg w2 -> P (Ok (error_redirect (default "" (aq_redirect_uri req)) (aq_state req) e d)) w').
  { intros e d w' Hp. split; [by apply Htd2|]. intros res [= <-]. by econstructor. }
  destruct (is_subset_of _ _) eqn:Hsub; cbn [negb]; [|wp_step; by apply Hback].
  destruct (resolve_method _ _ _) as [m|desc] eqn:Hm; [|wp_step; by apply Hback].
  apply resolve_method_spec in Hm.
  wp_call (consent_or_code_spec self req h client m w (bump w1) (bump w2)); try done; simpl; [by rewrite Hp2|
    by rewrite Hp2, Hu|lia|lia|].
  intros r w' [Hp Hres]. split; [by apply Htd2|done].
Qed.

Lemma grant_later u cl raw w : wp (grant u cl raw) (fun _ w' => tick w <= tick w') w.
Proof. unfold grant, find, persist, update. wp_steps; simpl; lia. Qed.

(** What the consent screen's answer leads to. *)
Definition resumed (pending : PendingAuthorization) w (res : AuthorizeResult) w' : Prop :=
  if ar_ok res
  then exists client c redirect, served_from (pa_client_id pending) (pg w) client /\ cl_enabled client = true
    /\ registered client (pa_redirect_uri pending) (pg w)
    /\ granted_plus (pa_user_id pending) (cl_id client) (parse (pa_scope pending)) (pg w) (pg w')
    /\ res = ar_success redirect
    /\ bound_code (pa_session_id pending) (pa_user_id pending) (pa_client_id pending) (pa_redirect_uri pending)
         (pa_scope pending) (pa_state pending) (pa_nonce pending) (pa_code_challenge pending)
         (pa_code_challenge_method pending) (pa_claims_requested pending) c w w' redirect
  else ar_redirect res = None /\ pg w' = pg w.

(** The grant was made, for the pending request's user, client and scopes. *)
Definition grant_made (pending : PendingAuthorization) w w' : Prop :=
  exists client, served_from (pa_client_id pending) (pg w) client /\ cl_enabled client = true
    /\ registered client (pa_redirect_uri pending) (pg w)
    /\ granted_plus (pa_user_id pending) (cl_id client) (parse (pa_scope pending)) (pg w) (pg w').

(** A failure leaves the tables alone, or comes after the grant was made: the code
    could not be stored. *)
Lemma complete_spec self pending w :
  pg_wf (pg w) -> coherent w ->
  wp (complete_after_consent self pending) (fun r w' =>
    match r with
    | Ok res => resumed pending w res w'
    | Err _ => pg w' = pg w \/ grant_made pending w w'
    end) w.
Proof.
  intros Hwf Hco. unfold complete_after_consent.
  assert (Hno : forall e d w', pg w' = pg w -> resumed pending w (ar_fail e d) w') by done.
  wp_step. apply wp_client; [done|done| |intros w1 Hp1 _; wp_step; by apply Hno|by left].
  intros client w1 Hp1 Ht1 Hsrv. destruct (cl_enabled client) eqn:Hen; cbn [negb]; [|wp_step; by apply Hno].
  wp_step. apply wp_uri_allowed; [|cbn [negb]; wp_step; by apply Hno|by left]. intros Hreg. cbn [negb].
  assert (Hcid : cl_client_id client = pa_client_id pending) by (destruct Hsrv as (row & _ & Hc & -> & _); done).
  wp_step. assert (Hwf1 : pg_wf (pg (bump w1))) by by rewrite <- Hp1 in Hwf.
  wp_call (wp_conj _ _ _ _ (grant_later _ _ (pa_scope pending) (bump w1))
    (grant_spec (pa_user_id pending) (cl_id client) (pa_scope pending) (bump w1) Hwf1)).
  intros r w2 (Ht2 & _ & Hg). simpl in Ht2, Hg. rewrite Hp1 in Hg.
  unfold registered in *. simpl in Hreg. rewrite Hp1 in Hreg.
  destruct r as [[]|e]; [|destruct Hg as (_ & [Hp|Hg]); [left; congruence|right; by exists client]].
  wp_call issue_code_spec. intros r w3 (Hp3 & Ht3 & Hres).
  destruct r as [res|e]; [|right; exists client; by rewrite Hp3].
  destruct (Hres res eq_refl) as (c & redirect & -> & Hb). rewrite Hcid in Hb. simpl. exists client, c, redirect. rewrite Hp3.
  do 5 (split; [done|]). eapply bound_code_from; [|done]. lia.
Qed.
End Spec.

(** ** What a client reads back *)

(** The pieces of [s] between the bytes [c]. *)
Fixpoint split_byte (c : ascii) (s : string) : list string :=
  match s with
  | "" => [""]
  | String x r =>
      if bool_decide (c = x) then "" :: split_byte c r
      else match split_byte c r with
           | [] => [String x ""]
           | p :: ps => String x p :: ps
           end
  end.

Section Query.
Context `{UrlCodecLaws}.

(** A reader of a query string: pairs between [&], name and value around [=]. *)
Definition query_pair (s : string) : option (string * string) :=
  match split_byte "=" s with
  | [k; v] => k ← url_decode k; v ← url_decode v; Some (k, v)
  | _ => None
  end.
Definition query_pairs (q : string) : option (list (string * string)) := mapM query_pair (split_byte "&" q).

Lemma split_byte_clean c s : contains_byte c s = false -> split_byte c s = [s].
Proof.
  induction s as [|x s IH]; simpl; [done|]. intros [Hx Hs]%orb_false_iff.
  rewrite Hx, (IH Hs). done.
Qed.

Lemma split_byte_app c s t :
  contains_byte c s = false -> split_byte c (s +:+ String c t) = s :: split_byte c t.
Proof.
  induction s as [|x s IH]; simpl.
  - intros _. by rewrite bool_decide_eq_true_2.
  - intros [Hx Hs]%orb_false_iff. rewrite Hx, (IH Hs). done.
Qed.

Lemma url_encode_clean c s : is_url_byte c = false -> contains_byte c (url_encode s) = false.
Proof.
  intros Hc. pose proof (url_alphabet s) as Ha. induction (url_encode s) as [|x r IH]; simpl in *; [done|].
  apply andb_true_iff in Ha as [Hx Hr]. rewrite (IH Hr), bool_decide_eq_false_2; [done|]. by intros <-; rewrite Hc in Hx.
Qed.

Definition param (p : string * string) : string := url_encode p.1 +:+ "=" +:+ url_encode p.2.

Lemma query_pair_param p : query_pair (param p) = Some p.
Proof.
  unfold query_pair, param. change ("=" +:+ ?x) with (String "=" x).
  rewrite split_byte_app, split_byte_clean by by apply url_encode_clean. rewrite !url_decode_encode. by destruct p.
Qed.

Lemma param_clean p : contains_byte "&" (param p) = false.
Proof. unfold param. by rewrite !contains_byte_app, !url_encode_clean. Qed.

Lemma push_params_more out ps :
  push_params false out ps = out +:+ foldr (fun p acc => "&" +:+ param p +:+ acc) "" ps.
Proof.
  revert out. induction ps as [|[k v] ps IH]; intros out; simpl; [by rewrite string_app_nil_r|].
  rewrite IH. unfold param. simpl. by rewrite <- !string_app_assoc.
Qed.

Lemma query_pairs_params p ps :
  query_pairs (param p +:+ foldr (fun p acc => "&" +:+ param p +:+ acc) "" ps) = Some (p :: ps).
Proof.
  unfold query_pairs. revert p. induction ps as [|q ps IH]; intros p.
  - cbn [foldr]. rewrite string_app_nil_r, split_byte_clean by apply param_clean. simpl. by rewrite query_pair_param.
  - cbn [foldr]. change ("&" +:+ ?x) with (String "&" x). rewrite split_byte_app by apply param_clean.
    cbn [mapM]. by rewrite query_pair_param, IH.
Qed.

Lemma build_redirect_spec base p ps :
  exists q, build_redirect base (p :: ps) = base +:+ (if contains_byte "?" base then "&" else "?") +:+ q
    /\ query_pairs q = Some (p :: ps).
Proof.
  eexists. split; [|apply query_pairs_params]. unfold build_redirect. destruct p as [k v]. cbn [push_params].
  rewrite push_params_more. unfold param. by rewrite <- !string_app_assoc.
Qed.
End Query.

(** ** Theorems *)

(** A redirect goes to the requested URI, of a client it is registered for, and its
    query string reads back as the parameters of the answer. *)
Lemma outcome_redirect `{RedisLaws} `{EnvLaws} `{Crypto} `{UrlCodecLaws}
  `{!JsonCodec SessionSnapshot} `{!JsonCodec PendingAuthorization} `{!JsonCodec AuthorizationCode} self req w w' res url :
  outcome self req w w' res -> ar_redirect res = Some url ->
  let uri := default "" (aq_redirect_uri req) in
  exists client q ps, target_ok req w client
    /\ url = uri +:+ (if contains_byte "?" uri then "&" else "?") +:+ q /\ query_pairs q = Some ps
    /\ (forall s, aq_state req = Some s -> s <> "" -> ("state", s) ∈ ps)
    /\ (ar_ok res = true <-> exists code, ("code", code) ∈ ps).
Proof.
  intros Ho Hurl uri. destruct Ho as [e d|client e d Ht|client h m p w1 n|client h m c redirect Ht _ _ _ _ _ Hb]; [done| |done|].
  - unfold error_redirect, ar_error_redirect in *. simpl in Hurl. injection Hurl as <-.
    set (tl := if is_empty d then [] else [("error_description", d)]).
    set (st := match aq_state req with Some s => if is_empty s then [] else [("state", s)] | None => [] end).
    assert (Hps : forall x, x = ("error", e) :: tl ++ st -> exists q, build_redirect uri x
      = uri +:+ (if contains_byte "?" uri then "&" else "?") +:+ q /\ query_pairs q = Some x)
      by (intros x ->; apply build_redirect_spec).
    edestruct Hps as (q & Hq & Hpairs); [reflexivity|]. exists client, q, (("error", e) :: tl ++ st).
    split; [done|]. split; [|split; [done|split]].
    + rewrite <- Hq. f_equal. unfold tl, st. by destruct (is_empty d), (aq_state req) as [s|]; try destruct (is_empty s).
    + intros s Hs Hne. apply list_elem_of_further, elem_of_app. right. unfold st. rewrite Hs.
      destruct (is_empty s) eqn:He; [by apply is_empty_spec in He|]. by left.
    + split; [done|]. intros [code Hin]. unfold tl, st in Hin.
      destruct (is_empty d), (aq_state req) as [s|]; try destruct (is_empty s); set_solver.
  - injection Hurl as <-. destruct Hb as (w1 & n & _ & _ & _ & ->).
    destruct (build_redirect_spec uri ("code", ac_code c) [("state", default "" (aq_state req))]) as (q & Hq & Hpairs).
    exists client, q. eexists. split; [done|]. split; [exact Hq|]. split; [exact Hpairs|]. split.
    + intros s -> _. set_solver.
    + split; [|done]. intros _. exists (ac_code c). by left.
Qed.

(** The endpoint is not an open redirector, and its redirects cannot be
    tampered with.  Whenever it sends the browser anywhere, with a code or with an
    error, the target is the requested URI, registered for an enabled client with
    the requested id; what is appended is a query string whose pairs, read back, are
    exactly the answer's parameters, with the caller's state among them as it was
    given. *)
Theorem authorize_redirects_registered `{RedisLaws} `{EnvLaws} `{Crypto} `{UrlCodecLaws}
  `{JsonCodecLaws ClientSnapshot} `{JsonCodecLaws SessionSnapshot}
  `{!JsonCodec PendingAuthorization} `{!JsonCodec AuthorizationCode} self req w res w' url :
  pg_wf (pg w) -> coherent w -> authorize self req w = (Ok res, w') -> ar_redirect res = Some url ->
  let uri := default "" (aq_redirect_uri req) in
  exists client q ps, target_ok req w client
    /\ url = uri +:+ (if contains_byte "?" uri then "&" else "?") +:+ q /\ query_pairs q = Some ps
    /\ (forall s, aq_state req = Some s -> s <> "" -> ("state", s) ∈ ps)
    /\ (ar_ok res = true <-> exists code, ("code", code) ∈ ps).
Proof.
  intros Hwf Hco Hrun Hurl.
  destruct (wp_run _ _ _ _ _ (authorize_spec self req w Hwf Hco) Hrun) as [_ Ho].
  exact (outcome_redirect self req w w' res url (Ho res eq_refl) Hurl).
Qed.

(** C7: A code is issued only when everything was checked, and it is bound to what
    was checked.  On success the session presented was found, is in date, belongs
    to an enabled user and is young enough for [max_age] and [prompt=login]; the
    client is enabled and the URI registered; the scope is within the client's;
    a required PKCE challenge is there, with method S256; and the user's recorded
    consent covers the scope.  The stored code names that session, user, client,
    URI, scope and challenge and lives three minutes, and the redirect carries it. *)
Theorem authorize_code_sound `{RedisLaws} `{EnvLaws} `{Crypto} `{UrlCodec}
  `{JsonCodecLaws ClientSnapshot} `{JsonCodecLaws SessionSnapshot}
  `{!JsonCodec PendingAuthorization} `{!JsonCodec AuthorizationCode} self req w res w' :
  pg_wf (pg w) -> coherent w -> authorize self req w = (Ok res, w') -> ar_ok res = true ->
  exists client h m c redirect, target_ok req w client /\ session_ok req w w' h /\ challenge_ok req client m
    /\ is_subset_of (aq_scope req) (cl_scopes client) = true
    /\ ("consent" ∉ parse_prompt (aq_prompt req))
    /\ parse (aq_scope req) ⊆ granted (pg w) (ses_user_id (swu_session h)) (cl_id client)
    /\ ar_redirect res = Some redirect
    /\ bound_code (ses_id (swu_session h)) (ses_user_id (swu_session h)) (cl_client_id client)
         (default "" (aq_redirect_uri req)) (aq_scope req) (aq_state req) (aq_nonce req) (aq_code_challenge req) m
         (aq_claims_json req) c w w' redirect.
Proof.
  intros Hwf Hco Hrun Hok.
  destruct (wp_run _ _ _ _ _ (authorize_spec self req w Hwf Hco) Hrun) as [_ Ho].
  destruct (Ho res eq_refl) as [| | |client h m c redirect]; try done. by exists client, h, m, c, redirect.
Qed.

(** The consent screen is shown only where it may be.  An answer that asks for
    consent is never given to [prompt=none]; the session, the client, the URI, the
    scope and PKCE passed the same checks as for a code, and what waits in Redis
    under the id given is exactly the checked request, for ten minutes.  Whatever
    the answer, the tables change in a session's access time at most. *)
Theorem authorize_consent_detour `{RedisLaws} `{EnvLaws} `{Crypto} `{UrlCodec}
  `{JsonCodecLaws ClientSnapshot} `{JsonCodecLaws SessionSnapshot}
  `{!JsonCodec PendingAuthorization} `{!JsonCodec AuthorizationCode} self req w res w' :
  pg_wf (pg w) -> coherent w -> authorize self req w = (Ok res, w') ->
  Session.touched (pg w) (pg w')
  /\ forall rid, ar_consent_request_id res = Some rid ->
       ("none" ∉ parse_prompt (aq_prompt req))
       /\ exists client h m p w1 n, target_ok req w client /\ session_ok req w w' h /\ challenge_ok req client m
            /\ is_subset_of (aq_scope req) (cl_scopes client) = true
            /\ tick w <= n < tick w1 /\ pa_request_id p = rid
            /\ pending_for req h client m (clock n + minutes CONSENT_REQUEST_TTL_MINUTES)%Z p
            /\ Consent.put (af_pending_ttl self) p w1 = (Ok tt, w').
Proof.
  intros Hwf Hco Hrun.
  destruct (wp_run _ _ _ _ _ (authorize_spec self req w Hwf Hco) Hrun) as [Htd Ho]. split; [done|].
  intros rid Hid. destruct (Ho res eq_refl) as [| |client h m p w1 n|]; try done. injection Hid as <-.
  split; [done|]. by exists client, h, m, p, w1, n.
Qed.

(** The user's answer on the consent screen completes the pending request and no
    other.  The client and the URI are checked again, as they are then; the scopes
    asked for are added to what that user granted that client, and no other grant
    changes; the code stored names the pending request's user, session, URI, scope
    and challenge.  When the client or the URI are no longer good nothing is
    granted and the browser is sent nowhere. *)
Theorem consent_completes `{RedisLaws} `{EnvLaws} `{Crypto} `{UrlCodec}
  `{JsonCodecLaws ClientSnapshot}
  `{!JsonCodec PendingAuthorization} `{!JsonCodec AuthorizationCode} self pending w res w' :
  pg_wf (pg w) -> coherent w -> complete_after_consent self pending w = (Ok res, w') ->
  resumed pending w res w'.
Proof.
  intros Hwf Hco Hrun. exact (wp_run _ _ _ _ _ (complete_spec self pending w Hwf Hco) Hrun).
Qed.

(** ** Witnesses *)

Import Instances.

(** A client with PKCE and one URI, a user with a session who granted [openid]. *)
Definition pg_authorize : Pg :=
  on_user_consents <[3%N := mkUserConsent 3 7 5 "openid" 0 0]>
  (on_user_sessions <[9%N := mkUserSession 9 7 "tok" None None (Some 1800000000000000000%Z) None
                               1699999000000000000]>
  (on_redirect_uris <[4%N := mkRedirectUri 4 5 "https://app/cb" 0]>
  (on_clients <[5%N := mkClient 5 "app" None None (Some "public") None None (Some "openid email") true true
                 None None None None None None 0 0 []]>
  (on_users <[7%N := mkUser 7 "a@b" true "a" None None true 0 0]> pg_empty)))).
Definition world_authorize : World := mkWorld 0 pg_authorize (∅ : gmap string rentry).

Lemma pg_authorize_wf : pg_wf pg_authorize.
Proof. apply pg_wf_b_ok. vm_compute. reflexivity. Qed.
Lemma world_authorize_coherent : coherent world_authorize.
Proof. intros cid snap _ (v & dl & raw & Hl & _). done. Qed.

Definition demo_authorize : AuthorizeFlow := mkAuthorizeFlow (client_repository_new 60000000000) 600000000000.
Definition authorize_request (scope : string) : AuthorizeRequest :=
  mkAuthorizeRequest (Some "tok") (Some "app") (Some "https://app/cb") (Some "code") (Some scope) (Some "st")
    None None (Some 3600%Z) (Some "challenge") (Some "S256") None.

Definition ar_of (r : res err AuthorizeResult) : AuthorizeResult :=
  match r with Ok a => a | Err _ => ar_fail "" "" end.

Lemma authorize_redirects_registered_witness :
  exists url q ps, ar_redirect (ar_of (authorize demo_authorize (authorize_request "openid") world_authorize).1) = Some url
    /\ url = "https://app/cb" +:+ "?" +:+ q /\ query_pairs q = Some ps /\ ("state", "st") ∈ ps.
Proof.
  set (req := authorize_request "openid").
  assert (Hr : (authorize demo_authorize req world_authorize).1
    = Ok (ar_of (authorize demo_authorize req world_authorize).1)) by (vm_compute; reflexivity).
  assert (Hu : exists url, ar_redirect (ar_of (authorize demo_authorize req world_authorize).1) = Some url)
    by (eexists; vm_compute; reflexivity).
  destruct Hu as [url Hu].
  destruct (authorize_redirects_registered demo_authorize req world_authorize _ _ url pg_authorize_wf
    world_authorize_coherent (run_fst _ _ _ Hr) Hu) as (client & q & ps & _ & Hq & Hps & Hst & _).
  exists url, q, ps. split; [exact Hu|]. split; [exact Hq|]. split; [exact Hps|]. by apply Hst.
Defined.

Lemma authorize_code_sound_witness :
  exists client h m, target_ok (authorize_request "openid") world_authorize client
    /\ challenge_ok (authorize_request "openid") client m
    /\ parse (Some "openid") ⊆ granted pg_authorize (ses_user_id (swu_session h)) (cl_id client).
Proof.
  set (req := authorize_request "openid").
  assert (Hr : (authorize demo_authorize req world_authorize).1
    = Ok (ar_of (authorize demo_authorize req world_authorize).1)) by (vm_compute; reflexivity).
  assert (Hok : ar_ok (ar_of (authorize demo_authorize req world_authorize).1) = true) by (vm_compute; reflexivity).
  destruct (authorize_code_sound demo_authorize req world_authorize _ _ pg_authorize_wf
    world_authorize_coherent (run_fst _ _ _ Hr) Hok) as (client & h & m & c & u & Ht & _ & Hc & _ & _ & Hg & _).
  exists client, h, m. split; [exact Ht|]. split; [exact Hc|exact Hg].
Defined.

Lemma authorize_consent_detour_witness :
  exists rid p w1, ar_consent_request_id (ar_of (authorize demo_authorize (authorize_request "email") world_authorize).1)
      = Some rid
    /\ pa_request_id p = rid
    /\ Consent.put 600000000000 p w1 = (Ok tt, (authorize demo_authorize (authorize_request "email") world_authorize).2).
Proof.
  set (req := authorize_request "email").
  assert (Hr : (authorize demo_authorize req world_authorize).1
    = Ok (ar_of (authorize demo_authorize req world_authorize).1)) by (vm_compute; reflexivity).
  assert (Hu : exists rid, ar_consent_request_id (ar_of (authorize demo_authorize req world_authorize).1) = Some rid)
    by (eexists; vm_compute; reflexivity).
  destruct Hu as [rid Hu].
  destruct (authorize_consent_detour demo_authorize req world_authorize _ _ pg_authorize_wf
    world_authorize_coherent (run_fst _ _ _ Hr)) as [_ Hd].
  destruct (Hd rid Hu) as (_ & client & h & m & p & w1 & n & _ & _ & _ & _ & _ & Hid & _ & Hput).
  exists rid, p, w1. split; [exact Hu|]. split; [exact Hid|exact Hput].
Defined.

Definition email_pending : PendingAuthorization :=
  mkPendingAuthorization "r1" 9 7 "app" "https://app/cb" "code" (Some "email") None None None None None None None
    1800000000000000000.

Lemma consent_completes_witness :
  granted (pg (complete_after_consent demo_authorize email_pending world_authorize).2) 7 5
  = granted pg_authorize 7 5 ∪ {[ "email" ]}.
Proof.
  set (res := ar_of (complete_after_consent demo_authorize email_pending world_authorize).1).
  assert (Hr : (complete_after_consent demo_authorize email_pending world_authorize).1 = Ok res)
    by (vm_compute; reflexivity).
  assert (Hok : ar_ok res = true) by (vm_compute; reflexivity).
  pose proof (consent_completes demo_authorize email_pending world_authorize res _ pg_authorize_wf
    world_authorize_coherent (run_fst _ _ _ Hr)) as Hg. unfold resumed in Hg. rewrite Hok in Hg.
  destruct Hg as (client & c & u & (row & Hrow & Hcid & _) & _ & _ & (_ & Hg & _) & _).
  assert (cl_id client = 5%N) as Hid
    by exact (wf_clients_client_id _ pg_authorize_wf _ 5%N _ _ Hrow eq_refl Hcid).
  rewrite Hid in Hg. exact Hg.
Defined.
