(* ===== verification/CodeFlow.v ===== *)
(** * The authorization-code flow as a whole

    [Authorize.authorize], [TokenFlow.token] and [Oidc.userinfo], composed the way a
    browser and a client use them.  The safety theorems of these components say what
    an answer implies; here is the converse: with an outside that answers, a user who
    is logged in and has consented gets a code, the code is worth tokens to the client
    it was made for, and the access token is accepted by [userinfo] until it expires. *)

From stdpp Require Import base tactics list gmap strings pretty.
From Stdlib Require Import ZArith Lia.
From S2P Require Import Prelude RustStr Redis Schema World Ext Demo DemoJson DemoJwt RedisKeys Http Scopes Hashing.
From S2P Require Import Secrets Jwt Role User Client RefreshToken Session Consent AuthCode Integrity LoginHttp Issuer Device.
From S2P Require Import TokenFlow Authorize Oidc.

Local Open Scope auth_scope.

(** ** Signing succeeds *)

(** What the server puts into a token: texts, numbers, flags and lists of texts. *)
Definition plain (v : Value) : Prop :=
  match v with
  | JStr _ | JInt _ | JBool _ => True
  | JArr l => Forall (fun x => exists s, x = JStr s) l
  | _ => False
  end.

(** [encode] fails only on a key it cannot use or claims it cannot serialise. *)
Class JwtSigns `{JwtLaws} := {
  jwt_encodes h c k dk : key_pair k dk -> map_Forall (fun _ => plain) c -> is_Some (jwt_encode h c k);
}.

Section Claims.
Context `{Texts}.

Lemma plain_insert k v (c : gmap string Value) :
  plain v -> map_Forall (fun _ => plain) c -> map_Forall (fun _ => plain) (<[k := v]> c).
Proof. intros Hv Hc. by apply map_Forall_insert_2. Qed.

Lemma plain_texts (l : list string) : plain (JArr (JStr <$> l)).
Proof. apply Forall_fmap, Forall_true. intros s. simpl. eauto. Qed.

Lemma plain_insert_if b k v c :
  plain v -> map_Forall (fun _ => plain) c -> map_Forall (fun _ => plain) (insert_if b k v c).
Proof. intros Hv Hc. destruct b; [by apply plain_insert|done]. Qed.

Lemma plain_union (c c' : gmap string Value) :
  map_Forall (fun _ => plain) c -> map_Forall (fun _ => plain) c' -> map_Forall (fun _ => plain) (c ∪ c').
Proof. intros Hc Hc'. by apply map_Forall_union_2. Qed.

Lemma plain_empty : map_Forall (fun _ => plain) (∅ : gmap string Value).
Proof. apply map_Forall_empty. Qed.
End Claims.

Create HintDb plain.
#[export] Hint Resolve plain_insert plain_insert_if plain_texts plain_union plain_empty : plain.
#[export] Hint Extern 1 (plain _) => exact I : plain.

Section Signing.
Context `{RedisServer} `{EnvLaws} `{JwtSigns} `{Texts}.
Implicit Types w : World.

Lemma access_claims_plain user client session roles scope req :
  map_Forall (fun _ => plain) (build_access_token_claims user client session roles scope req).
Proof. unfold build_access_token_claims. case_bool_decide; auto 10 with plain. Qed.

Lemma id_claims_plain user session scopes req :
  map_Forall (fun _ => plain) (build_id_token_claims user session scopes req).
Proof.
  unfold build_id_token_claims. destruct (usr_first_name user), (usr_last_name user); auto 12 with plain.
Qed.

Lemma standard_plain s sub aud jti exp : map_Forall (fun _ => plain) (standard s sub aud jti exp).
Proof. unfold standard. auto 8 with plain. Qed.

Lemma signed_up s claims typ w :
  (forall n, KeyProvider (js_keys s n)) -> map_Forall (fun _ => plain) claims ->
  wp (signed_with_type s claims typ) (fun r w' => quiet w w' /\ exists token, r = Ok token) w.
Proof.
  intros Hkeys Hc. unfold signed_with_type. do 2 wp_step. wp_step. unfold active_encoding_key, lift, panic.
  destruct (Hkeys (tick w)) as [[kp Hkp] _ Hpair]. rewrite Hkp. wp_step.
  destruct (jwt_encodes (mkJwtHeader "RS256" (Some (default "JWT" typ)) (Some (active_kid (js_keys s (tick w))))) claims _ _
    (Hpair _ _ Hkp) Hc) as [token Ht].
  rewrite Ht. wp_step. split; [auto with wp|eauto].
Qed.

Lemma sign_access_up s sub aud extra w :
  (forall n, KeyProvider (js_keys s n)) -> map_Forall (fun _ => plain) extra ->
  wp (sign_access_token s sub aud extra) (fun r w' => quiet w w' /\ exists token, r = Ok token) w.
Proof.
  intros Hkeys Hc. unfold sign_access_token. wp_step. wp_call base_claims_spec. intros r w1 [Hq ->]. cbn iota.
  wp_call signed_up; [done|apply plain_union; [done|apply standard_plain]|].
  intros r w2 [Hq2 Hr]. split; [by eapply quiet_trans|done].
Qed.

Lemma sign_id_up s sub aud nonce at_ extra w :
  (forall n, KeyProvider (js_keys s n)) -> map_Forall (fun _ => plain) extra ->
  wp (sign_id_token s sub aud nonce at_ extra) (fun r w' => quiet w w' /\ exists token, r = Ok token) w.
Proof.
  intros Hkeys Hc. unfold sign_id_token. wp_step. wp_call base_claims_spec. intros r w1 [Hq ->]. cbn iota zeta.
  rewrite map_empty_union. wp_call signed_up; [done| |].
  - apply plain_union; [done|]. pose proof standard_plain as Hs. destruct nonce as [n|]; [destruct (negb _)|]; auto with plain.
  - intros r w2 [Hq2 Hr]. split; [by eapply quiet_trans|done].
Qed.
End Signing.

(** ** Steps of the flow with an outside that answers *)

Section Steps.
Context `{RedisLaws} `{EnvLaws} `{CryptoLaws} `{!DigestInjective} `{JwtSigns} `{Texts} `{ValueParser} `{Argon2Lib} `{UrlCodec}.
Context `{!JsonCodec ClientSnapshot} `{!JsonCodecLaws ClientSnapshot} `{!JsonCodec SessionSnapshot} `{!JsonCodecLaws SessionSnapshot}.
Context `{!JsonCodec PendingAuthorization} `{!JsonCodec AuthorizationCode} `{!JsonCodecLaws AuthorizationCode}.
Implicit Types w : World.

(** *** The client *)

Lemma find_client_answers self cid w :
  pg_ok (tick w) -> wp (Client.find_by_client_id self cid) (fun r _ => exists o, r = Ok o) w.
Proof.
  intros Hpg. unfold Client.find_by_client_id. destruct (is_empty cid); [wp_step; eauto|].
  wp_step. wp_call Client.read_cache_spec. intros r w1 (_ & _ & Ht & o & -> & _).
  destruct o as [c|]; [wp_step; eauto|]. wp_step. wp_up. destruct (head _) as [c|]; [|wp_step; eauto].
  unfold fetch_redirect_uris. wp_step. wp_up. wp_step. unfold Client.populate_cache, jittered_ttl.
  destruct (json_to_string _); [|wp_step; wp_step; eauto].
  do 3 wp_step; [|wp_step; wp_step; eauto]. do 5 wp_step. apply run_wp. intros [[]|e] w2 _; wp_step; eauto.
Qed.

Lemma find_client_up self row w :
  pg_wf (pg w) -> coherent w -> pg_ok (tick w) -> cl_client_id row <> "" -> clients (pg w) !! cl_id row = Some row ->
  wp (Client.find_by_client_id self (cl_client_id row)) (fun r w' => pg w' = pg w
    /\ redis_frame (eq (Keys.client (cl_client_id row))) w w' /\ coherent w'
    /\ exists uris, r = Ok (Some (set_redirect_uris uris row))) w.
Proof.
  intros Hwf Hco Hpg Hne Hrow.
  wp_call (wp_conj _ _ _ _ (find_by_client_id_spec self (cl_client_id row) w Hwf) (find_client_answers self (cl_client_id row) w Hpg)).
  intros r w1 [(Hp & Hf & Hc & Hr) [o ->]]. split; [done|]. split; [done|]. split; [auto|].
  destruct o as [c|]; [|destruct Hr as [Hr|Hr]; [done|by destruct (Hr _ _ Hrow)]].
  assert (Hs : served_from (cl_client_id row) (pg w) c) by (destruct Hr as [_ [(snap & Hs & ->)|Hr]]; [by apply Hco|done]).
  destruct Hs as (row' & Hrow' & Hcid & Heq & _). exists (cl_redirect_uris c).
  assert (cl_id c = cl_id row) as Hid by (eapply (wf_clients_client_id _ Hwf); [exact Hrow'|exact Hrow|done]).
  rewrite Hid, Hrow in Hrow'. injection Hrow' as <-. by rewrite <- Heq.
Qed.

Lemma uri_allowed_up client uri w :
  pg_ok (tick w) -> registered client uri (pg w) ->
  wp (is_redirect_uri_allowed (cl_id client) uri) (fun r w' => quiet w w' /\ r = Ok true) w.
Proof.
  intros Hpg (i & r & Hi & Hc & Hu). unfold is_redirect_uri_allowed. wp_step. wp_up. wp_step.
  split; [auto with wp|]. rewrite (Permutation_length (row_order_perm (tick w) _)).
  assert (Hin : r ∈ where_ (fun r => ru_client_id r = cl_id client /\ ru_uri r = uri) (redirect_uris (pg w)))
    by (apply elem_of_where; eauto).
  destruct (where_ _ _); [by apply not_elem_of_nil in Hin|done].
Qed.

Lemma has_consent_up user client scope w :
  pg_wf (pg w) -> pg_ok (tick w) -> parse scope ⊆ granted (pg w) user client ->
  wp (has_consent user client scope) (fun r w' => quiet w w' /\ r = Ok true) w.
Proof.
  intros Hwf Hpg Hg. assert (Hok : wp (has_consent user client scope) (fun r _ => exists b, r = Ok b) w).
  { unfold has_consent. case_bool_decide; [wp_step; eauto|]. unfold Consent.find. wp_step. wp_up.
    destruct (head _); wp_step; eauto. }
  wp_call (wp_conj _ _ _ _ (has_consent_spec user client scope w (wf_consents_pair _ Hwf)) Hok).
  intros r w' [(Hp & Hr & Ht & Hb) [b ->]]. split; [done|]. f_equal. rewrite Hb. by apply bool_decide_eq_true.
Qed.

(** *** The client's secret *)

(** A client that is who it says it is passes, if the hashing task finishes. *)
Lemma with_auth_up client secret k Q w :
  authenticated client secret -> (forall n, tick w <= n -> task_ok n = true) ->
  (forall w1, quiet w w1 -> wp k Q w1) -> wp (with_auth client secret k) Q w.
Proof.
  intros Ho Htask Hk. unfold with_auth, authenticate_client. wp_step.
  destruct Ho as [->|(p & s & -> & Hne & Hs & Hv)]; [cbn [negb]; wp_step; cbn [negb]; apply Hk; auto with wp|].
  destruct (is_confidential client); cbn [negb]; [|wp_step; cbn [negb]; apply Hk; auto with wp].
  rewrite (is_empty_false p), Hs by done. unfold ClientSecretHasher.verify_async. destruct (negb _); wp_step.
  - rewrite Hv. cbn [negb]. apply Hk. auto with wp.
  - rewrite Htask by lia. rewrite Hv. cbn [negb]. apply Hk. auto with wp.
Qed.

(** *** Issuing *)

(** Nothing the random source gives from now on is in use as a refresh token. *)
Definition refresh_room (hmac : HmacSha256) (d : Pg) w : Prop :=
  forall n, tick w <= n -> refresh_tokens d !! new_v4 n = None
    /\ forall n' i t, tick w <= n' -> refresh_tokens d !! i = Some t ->
         rt_token_hash t <> compute hmac (b64url_encode (random_bytes n' 48)).

Lemma refresh_room_later hmac d w w' : tick w <= tick w' -> refresh_room hmac d w -> refresh_room hmac d w'.
Proof.
  intros Ht Hr n Hn. destruct (Hr n) as [Hi Hh]; [lia|]. split; [done|]. intros n' i t Hn'. apply Hh. lia.
Qed.

(** The signature behind the access token of an answer. *)
Definition signed_in (self : TokenIssuer) (user : User) (client : Client) (session : UserSession)
    (scope cj : option string) (m : gmap string Value) w w' : Prop :=
  exists roles token w1 w2, m !! "access_token" = Some (JStr token) /\ tick w <= tick w1 /\ tick w1 <= tick w2 /\ tick w2 <= tick w'
    /\ sign_access_token (ti_jwt_signer self) (uuid_to_string (usr_id user)) (cl_client_id client)
         (build_access_token_claims user client session roles scope (parse_claims cj)) w1 = (Ok token, w2).

Lemma signed_in_wider self user client session scope cj m w0 w w' w1 :
  tick w0 <= tick w -> tick w' <= tick w1 ->
  signed_in self user client session scope cj m w w' -> signed_in self user client session scope cj m w0 w1.
Proof.
  intros Ha Hb (roles & token & w2 & w3 & Hm & Ht2 & Ht23 & Ht3 & Hs). exists roles, token, w2, w3. split_and!; done || lia.
Qed.

Lemma issue_up self d user client session scope nonce cj w :
  pg_wf (pg w) -> pg_ok (tick w) -> (forall n, KeyProvider (js_keys (ti_jwt_signer self) n)) ->
  refresh_room (ti_hmac self) d w ->
  is_Some (users d !! usr_id user) -> is_Some (clients d !! cl_id client) -> is_Some (user_sessions d !! ses_id session) ->
  wp (issue self (TxOpen d) user client session scope nonce cj) (fun r w' =>
    exists m tx, r = Ok (JObj m, tx) /\ signed_in self user client session scope cj m w w') w.
Proof.
  intros Hwf Hpg Hkeys Hroom Hu Hc Hs. unfold issue. wp_step. wp_call effective_names_ok; [done|done|].
  intros r w1 [(Hp1 & Hr1 & Ht1) [roles ->]]. wp_step. apply run_wp. intros r w2 Hsign.
  destruct (wp_run _ _ _ _ _ (sign_access_up _ _ _ _ w1 Hkeys (access_claims_plain _ _ _ _ _ _)) Hsign)
    as [(Hp2 & Hr2 & Ht2) [token ->]].
  unfold url_safe. do 9 wp_step. unfold persist_in_tx. cbn [tick bump].
  eapply wp_tx_try_ok; [still_up| |].
  { unfold insert_refresh_token. cbn. destruct (Hroom (S (S (tick w2)))) as [Hfree Hhash]; [lia|].
    assert (has_row (refresh_tokens d) (new_v4 (S (S (tick w2)))) = false) as ->
      by (unfold has_row; rewrite Hfree; done).
    assert (no_row (fun x => rt_token_hash x = compute (ti_hmac self) (b64url_encode (random_bytes (tick w2) 48)))
      (refresh_tokens d) = true) as -> by (apply no_row_spec; intros i t Hi; by apply (Hhash _ i); [lia|]).
    assert (has_row (users d) (usr_id user) && has_row (clients d) (cl_id client)
      && has_row (user_sessions d) (ses_id session) = true) as ->
      by (rewrite !andb_true_iff; split_and!; by apply bool_decide_eq_true).
    reflexivity. }
  cbn iota. assert (Hm : forall m w', m !! "access_token" = Some (JStr token) -> tick w2 <= tick w' ->
    signed_in self user client session scope cj m w w') by (intros m w' Hm Ht; exists roles, token, w1, w2; split_and!; done || lia).
  case_bool_decide.
  - wp_step. wp_call sign_id_up; [done|apply id_claims_plain|]. intros r w3 [(_ & _ & Ht3) [idt ->]]. wp_step.
    eexists _, _. split; [done|]. apply Hm; [done|]. simpl in Ht3. lia.
  - wp_step. eexists _, _. split; [done|]. apply Hm; [done|]. simpl. lia.
Qed.

(** *** The session *)

(** The lookup of a session by its token names the token's row. *)
Definition names_row (row : UserSession) (h : SessionWithUser) : Prop :=
  ses_id (swu_session h) = ses_id row /\ ses_user_id (swu_session h) = ses_user_id row.

Lemma source_row tok w h row :
  pg_wf (pg w) -> backed w -> Session.source tok w h ->
  user_sessions (pg w) !! ses_id row = Some row -> ses_session_token row = tok -> names_row row h.
Proof.
  intros Hwf Hb Hsrc Hrow Htok.
  assert (Hold : exists i r, user_sessions (pg w) !! i = Some r /\ ses_session_token r = tok /\ names_row r h).
  { destruct Hsrc as [(snap & Hc & -> & _)|([i Hi] & Ht & _)]; [|exists i, (swu_session h); by repeat split].
    destruct (Hb _ _ Hc) as (i & r & Hi & Hh & Hid & Hu). exists i, r. split; [done|]. split; [by apply base64_url_inj|done]. }
  destruct Hold as (i & r & Hi & Ht & Hn).
  assert (i = ses_id row) as -> by (eapply (wf_sessions_token _ Hwf); [exact Hi|exact Hrow|congruence]). congruence.
Qed.

Lemma find_active_up tok e row w :
  pg_wf (pg w) -> pg_ok (tick w) -> backed w -> findable tok (ses_user_id row) e w ->
  user_sessions (pg w) !! ses_id row = Some row -> ses_session_token row = tok ->
  wp (find_active_session tok) (fun r w' => Session.touched (pg w) (pg w') /\ redis_frame (eq (Keys.session (base64_url tok))) w w'
    /\ match r with Ok (Some h) => names_row row h | _ => expired e w w' end) w.
Proof.
  intros Hwf Hpg Hb Hf Hrow Htok.
  wp_call (wp_conj _ _ _ _ (find_active_spec tok w) (find_active_findable tok _ e w Hwf Hpg Hf)).
  intros r w' [(Htd & Hfr & _ & Hr) (_ & _ & Hor)]. split; [done|]. split; [done|].
  destruct r as [[h|]|err]; [destruct Hr as (_ & Hsrc & _); by eapply source_row|..]; by destruct Hor as [(? & ? & _)|].
Qed.

(** *** The code *)

(** Clock readings between [w] and [w'] are at most [limit] apart. *)
Definition within (limit : Z) w w' : Prop :=
  forall n m, tick w <= n <= tick w' -> tick w <= m <= tick w' ->
    (clock n <= clock m + limit)%Z /\ (redis_clock n <= redis_clock m + limit)%Z.

Definition MINUTE : Z := minutes 1.

Lemma within_shorter limit w w' w'' : tick w' <= tick w'' -> within limit w w'' -> within limit w w'.
Proof. intros Ht Hw n m Hn Hm. apply Hw; lia. Qed.

Lemma within_from limit w w' w'' : tick w <= tick w' -> within limit w w'' -> within limit w' w''.
Proof. intros Ht Hw n m Hn Hm. apply Hw; lia. Qed.

Lemma stores_quiet w w' k e : quiet w w' -> stores w k e -> stores w' k e.
Proof. intros (_ & Hr & Ht) Hs t Hle. rewrite Hr. apply Hs. etrans; [|exact Hle]. by apply redis_clock_mono. Qed.

(** The codes the random source gives from now on are not in use. *)
Definition code_room w : Prop :=
  forall n, tick w <= n -> let code := b64url_encode (random_bytes n AUTH_CODE_BYTES) in
    code <> "" /\ stores w (code_key code) None.

(** Redis holds [c] under [code], for two minutes more at least. *)
Definition code_waits (code : string) (c : AuthorizationCode) w w' : Prop :=
  exists payload dl n n', stores w' (code_key code) (Some (RStr payload, Some dl))
    /\ payload <> "" /\ json_from_str payload = Some c
    /\ tick w <= n < tick w' /\ ac_expires_at c = (clock n + minutes AUTH_CODE_TTL_MINUTES)%Z
    /\ tick w <= n' < tick w' /\ (redis_clock n' + seconds 119 <= dl)%Z.

Lemma issue_code_up sid uid cid uri scope state nonce ch m claims w :
  redis_ok (tick w) -> code_room w ->
  wp (issue_code sid uid cid uri scope state nonce ch m claims) (fun r w' => pg w' = pg w /\
    exists code, r = Ok (ar_success (build_redirect uri [("code", code); ("state", default "" state)]))
      /\ code <> "" /\ redis_frame (eq (code_key code)) w w'
      /\ (within MINUTE w w' -> exists exp at_, code_waits code
            (mkAuthorizationCode code cid uid sid uri scope state nonce ch m claims exp at_) w w')) w.
Proof.
  intros Hup Hroom. unfold issue_code, url_safe. do 7 wp_step.
  destruct (Hroom (tick w)) as [Hne Hfree]; [lia|]. set (code := b64url_encode _) in *.
  set (c := mkAuthorizationCode _ _ _ _ _ _ _ _ _ _ _ _ _).
  wp_call (put_spec c (bump (bump w))); [still_up|by do 2 apply stores_bump|].
  intros r w' (-> & Hp & Ht & Hf & Hput). simpl in Ht, Hput. wp_step. split; [done|]. exists code. split; [done|]. split; [done|].
  split; [eapply frame_trans; [|exact Hf]; auto with wp|]. intros Hin.
  assert (Hc : (clock (S (S (tick w))) <= clock (S (tick w)) + MINUTE)%Z) by (apply Hin; lia).
  unfold MINUTE, minutes, AUTH_CODE_TTL_MINUTES, num_seconds, seconds in *.
  set (left := (clock (S (tick w)) + 3 * 60 * 1000000000 - clock (S (S (tick w))))%Z) in *.
  assert (Httl : (120 <= Z.quot left 1000000000)%Z) by (apply Z.quot_le_lower_bound; unfold left; lia).
  destruct Hput as (payload & n & Hj & Hn & Hst); [unfold left in *; lia|].
  destruct (json_total (stamp (clock (S (S (tick w)))) c)) as (payload' & Hj' & Hpne).
  assert (payload' = payload) as -> by congruence.
  eexists _, (Some _), payload, _, (S (tick w)), n. split; [exact Hst|]. split; [done|].
  split; [exact (json_roundtrip _ _ Hj)|]. split; [lia|]. split; [reflexivity|]. split; [lia|].
  unfold seconds, ns_per_sec. lia.
Qed.

(** ** The three requests *)

(** What the flow needs: a user with a session, who has consented, and an enabled
    client that asks for a code, within its registration. *)
Record ready (req : AuthorizeRequest) (session : UserSession) (user : User) (client : Client) (e : Z) w : Prop := {
  rd_wf : pg_wf (pg w);
  rd_coherent : coherent w;
  rd_backed : backed w;
  rd_pg : pg_ok (tick w);
  rd_redis : redis_ok (tick w);
  rd_session : user_sessions (pg w) !! ses_id session = Some session;
  rd_findable : findable (ses_session_token session) (ses_user_id session) e w;
  rd_user : users (pg w) !! ses_user_id session = Some user;
  rd_client : clients (pg w) !! cl_id client = Some client;
  rd_enabled : cl_enabled client = true;
  rd_named : cl_client_id client <> "";
  rd_token : aq_session_token req = Some (ses_session_token session);
  rd_asks : trim (default "" (aq_client_id req)) = cl_client_id client;
  rd_type : aq_response_type req = Some "code";
  rd_uri : default "" (aq_redirect_uri req) <> "" /\ registered client (default "" (aq_redirect_uri req)) (pg w);
  rd_scope : is_subset_of (aq_scope req) (cl_scopes client) = true;
  rd_consent : parse (aq_scope req) ⊆ granted (pg w) (ses_user_id session) (cl_id client);
  rd_login : "login" ∉ parse_prompt (aq_prompt req);
  rd_ask : "consent" ∉ parse_prompt (aq_prompt req);
  rd_age : aq_max_age req = None;
  rd_room : code_room w;
}.

Definition has_challenge (challenge : option string) : bool := negb (is_empty (default "" challenge)).

(** The request and the verifier presented for its code agree: a challenge is of
    method S256 and the verifier matches it; without one the client does not
    require PKCE, and no verifier is needed. *)
Definition pkce_agrees (client : Client) (req : AuthorizeRequest) (verifier : option string) : Prop :=
  if has_challenge (aq_code_challenge req)
  then aq_code_challenge_method req = Some "S256"
       /\ Hashing.verify (default "" verifier) (default "" (aq_code_challenge req)) "S256" = true
  else cl_pkce_required client = false.

(** The method kept with the code. *)
Definition method_of (challenge : option string) : option string := if has_challenge challenge then Some "S256" else None.

(** The code as [authorize] stores it for the request. *)
Definition code_for (req : AuthorizeRequest) (session : UserSession) (client : Client) (code : string) (exp : Z) (at_ : option Z)
  : AuthorizationCode :=
  mkAuthorizationCode code (cl_client_id client) (ses_user_id session) (ses_id session) (default "" (aq_redirect_uri req))
    (aq_scope req) (aq_state req) (aq_nonce req) (aq_code_challenge req) (method_of (aq_code_challenge req))
    (aq_claims_json req) exp at_.

Definition redirect_of (req : AuthorizeRequest) (code : string) : string :=
  build_redirect (default "" (aq_redirect_uri req)) [("code", code); ("state", default "" (aq_state req))].

Lemma resolve_agrees client req verifier :
  pkce_agrees client req verifier ->
  resolve_method (cl_pkce_required client) (aq_code_challenge req) (aq_code_challenge_method req)
  = Ok (method_of (aq_code_challenge req)).
Proof.
  unfold pkce_agrees, method_of, has_challenge, resolve_method.
  destruct (aq_code_challenge req) as [c|]; simpl; [|by intros ->].
  destruct (is_empty c); simpl; [by intros ->|]. by intros [-> _].
Qed.

(** The check of the token endpoint passes. *)
Lemma pkce_passes client req verifier required :
  pkce_agrees client req verifier -> required = cl_pkce_required client ->
  let has := match aq_code_challenge req with Some c => negb (is_empty c) | None => false end in
  (required || has) && is_empty (default "" verifier) = false
  /\ (required || has) && negb (Hashing.verify (default "" verifier) (default "" (aq_code_challenge req))
       (default "" (method_of (aq_code_challenge req)))) = false.
Proof.
  unfold pkce_agrees, method_of, has_challenge. intros Ha ->.
  destruct (aq_code_challenge req) as [c|]; simpl in *; [|by rewrite Ha].
  destruct (is_empty c); simpl in *; [by rewrite Ha|]. destruct Ha as [_ Hv]. rewrite Hv.
  pose proof (pkce_verify_spec _ _ _ Hv) as (Hne & _). rewrite (is_empty_false _ Hne). by rewrite !andb_false_r.
Qed.

Lemma authorize_up self req session user client e verifier w :
  ready req session user client e w -> pkce_agrees client req verifier ->
  wp (authorize self req) (fun r w' => expired e w w' \/
    (Session.touched (pg w) (pg w') /\ coherent w' /\ tick w <= tick w' /\
     exists code, r = Ok (ar_success (redirect_of req code)) /\ code <> ""
       /\ (within MINUTE w w' -> exists exp at_, code_waits code (code_for req session client code exp at_) w w'))) w.
Proof.
  intros Hrd Hpk. pose proof Hrd as []. destruct rd_uri0 as [Hune Hreg]. unfold authorize.
  rewrite rd_type0. cbn [negb bool_decide]. rewrite bool_decide_eq_true_2 by done. cbn [negb]. cbv zeta.
  rewrite rd_asks0, !is_empty_false by done. cbn [orb]. rewrite rd_token0.
  wp_step. wp_call find_active_up; [done|done|done|exact rd_findable0|done|done|].
  intros r w1 (Htd & Hf1 & Hr). destruct r as [[h|]|err]; [|do 3 wp_step; left; eapply expired_later; [..|exact Hr]; simpl; lia|by left].
  destruct Hr as [Hid Huid]. do 2 wp_step. rewrite (bool_decide_eq_false_2 ("login" ∈ _)) by done. cbn [andb].
  rewrite rd_age0. assert (Ht1 : tick w <= tick w1) by apply Hf1.
  assert (Hwf1 : pg_wf (pg w1)) by (by eapply touched_wf). destruct (touched_rest _ _ Htd) as (Hc & Hru & Hcon).
  assert (Hco1 : coherent w1) by (by eapply touched_coherent).
  wp_step. wp_call (find_client_up (af_clients self) client (bump w1)); [done|by eapply coherent_later; [| | |exact Hco1]; simpl; auto|still_up|done|simpl; by rewrite Hc|].
  intros r w2 (Hp2 & Hf2 & Hco2 & uris & ->). simpl in Hp2. cbn [cl_enabled set_redirect_uris cl_id]. rewrite rd_enabled0. cbn [negb].
  assert (Ht2 : S (tick w1) <= tick w2) by apply Hf2.
  wp_step. wp_call (uri_allowed_up client); [still_up|unfold registered; by rewrite Hp2, Hru|].
  intros r w3 [(Hp3 & Hr3 & Ht3) ->]. cbn [negb cl_scopes set_redirect_uris]. rewrite rd_scope0. cbn [negb].
  cbn [cl_pkce_required set_redirect_uris]. rewrite (resolve_agrees _ _ _ Hpk). unfold consent_or_code. cbv zeta.
  rewrite (bool_decide_eq_false_2 ("consent" ∈ _)) by done. rewrite Huid, Hid. cbn [cl_id cl_client_id set_redirect_uris].
  wp_step. wp_call has_consent_up; [by rewrite Hp3, Hp2|still_up|unfold granted in *; by rewrite Hp3, Hp2, Hcon|].
  intros r w4 [(Hp4 & Hr4 & Ht4) ->]. cbn [negb].
  assert (Hroom : code_room w4).
  { intros n Hn. destruct (rd_room0 n) as [Hne Hst]; [lia|]. split; [done|].
    eapply stores_quiet; [by split_and!|]. eapply stores_quiet; [by split_and!|].
    eapply frame_stores; [exact Hf2|unfold code_key; key_ne|]. apply stores_bump.
    eapply frame_stores; [exact Hf1|unfold code_key; key_ne|done]. }
  wp_call issue_code_up; [still_up|exact Hroom|]. intros r w5 (Hp5 & code & -> & Hne & Hf5 & Hw). right.
  assert (Ht5 : tick w4 <= tick w5) by apply Hf5.
  split; [by rewrite Hp5, Hp4, Hp3, Hp2|]. split.
  { assert (Hco4 : coherent w4) by (eapply (coherent_later w2); [lia|congruence|congruence|done]).
    intros cid snap Hcid Hs. rewrite Hp5. apply Hco4; [done|]. eapply Client.cached_frame; [exact Hf5|unfold code_key; key_ne|done]. }
  split; [lia|]. exists code. split; [done|]. split; [done|]. intros Hin.
  destruct Hw as (exp & at_ & payload & dl & n & n' & Hst & Hpne & Hj & Hn & Hexp & Hn' & Hdl);
    [eapply within_from; [|exact Hin]; lia|].
  exists exp, at_, payload, dl, n, n'. split; [done|]. split; [done|]. split; [exact Hj|]. split_and!; try done; try (simpl in *; lia).
Qed.

(** The request that redeems the code. *)
Definition exchange_of (req : AuthorizeRequest) (client : Client) (code : string) (verifier secret : option string) : TokenRequest :=
  mkTokenRequest (Some "authorization_code") (Some code) (aq_redirect_uri req) (Some (cl_client_id client)) secret verifier
    None None None.

Lemma issue_in_tx_up self user client session sc nonce cj w :
  pg_wf (pg w) -> pg_ok (tick w) -> (forall n, KeyProvider (js_keys (ti_jwt_signer (tf_issuer self)) n)) ->
  refresh_room (ti_hmac (tf_issuer self)) (pg w) w ->
  is_Some (users (pg w) !! usr_id user) -> is_Some (clients (pg w) !! cl_id client) ->
  is_Some (user_sessions (pg w) !! ses_id session) ->
  wp (issue_in_tx self user client session sc nonce cj) (fun r w' => tick w <= tick w' /\ exists m, r = Ok (success (JObj m))
    /\ issued self (pg w) user client session sc (pg w) (pg w') (success (JObj m))
    /\ signed_in (tf_issuer self) user client session sc cj m w w') w.
Proof.
  intros Hwf Hpg Hkeys Hroom Hu Hc Hs.
  assert (Hup : wp (issue_in_tx self user client session sc nonce cj)
    (fun r w' => exists m, r = Ok (success (JObj m)) /\ signed_in (tf_issuer self) user client session sc cj m w w') w).
  { unfold issue_in_tx. wp_step. wp_up. wp_step.
    wp_call (wp_conj _ _ _ _ (issue_spec (tf_issuer self) (pg w) user client session sc nonce cj (bump w) Hwf)
      (issue_up (tf_issuer self) (pg w) user client session sc nonce cj (bump w) Hwf
        ltac:(still_up) Hkeys (refresh_room_later _ _ w (bump w) ltac:(simpl; lia) Hroom) Hu Hc Hs)).
    intros r w1 [[(Hp & Hr & Ht) Hi] (m & tx & -> & Hsig)]. destruct (Hi _ _ eq_refl) as (_ & _ & _ & _ & d' & _ & -> & _).
    simpl in Ht. wp_step. wp_up. wp_step. exists m. split; [done|].
    eapply signed_in_wider; [| |exact Hsig]; simpl in *; lia. }
  wp_call (wp_conj _ _ _ _ (issue_in_tx_spec self user client session sc nonce cj w Hwf) Hup).
  intros r w' [(_ & Ht & Hi) (m & -> & Hsig)]. split; [done|]. exists m. split; [done|]. split; [by apply Hi|done].
Qed.

Lemma token_up self req session user client code verifier secret exp at_ w0 w :
  pg_wf (pg w) -> coherent w -> pg_ok (tick w) -> redis_ok (tick w) -> (forall n, tick w <= n -> task_ok n = true) ->
  (forall n, KeyProvider (js_keys (ti_jwt_signer (tf_issuer self)) n)) -> refresh_room (ti_hmac (tf_issuer self)) (pg w) w ->
  users (pg w) !! ses_user_id session = Some user -> clients (pg w) !! cl_id client = Some client ->
  user_sessions (pg w) !! ses_id session = Some session -> cl_enabled client = true -> cl_client_id client <> "" ->
  default "" (aq_redirect_uri req) <> "" -> authenticated client secret ->
  pkce_agrees client req verifier ->
  tick w0 <= tick w -> code <> "" -> code_waits code (code_for req session client code exp at_) w0 w ->
  wp (token self (exchange_of req client code verifier secret)) (fun r w' => tick w <= tick w' /\ (within MINUTE w0 w' ->
    exists uris m, let client := set_redirect_uris uris client in r = Ok (success (JObj m))
      /\ issued self (pg w) user client session (aq_scope req) (pg w) (pg w') (success (JObj m))
      /\ signed_in (tf_issuer self) user client session (aq_scope req) (aq_claims_json req) m w w')) w.
Proof.
  intros Hwf Hco Hpg Hredis Htask Hkeys Hroom Hu Hc Hs Hen Hcid Huri Hauth Hpk Ht0 Hcode
    (payload & dl & n & n' & Hst & Hpne & Hj & Hn & Hexp & Hn' & Hdl).
  unfold token. cbn [grant_type exchange_of from_option default id]. rewrite bool_decide_eq_true_2 by done.
  unfold from_authorization_code. cbn [TokenFlow.code redirect_uri client_id client_secret code_verifier exchange_of from_option default id].
  rewrite !is_empty_false by done. cbn [orb]. unfold with_client. wp_step.
  wp_call (find_client_up (tf_clients self) client w); [done..|]. intros r w1 (Hp1 & Hf1 & Hco1 & uris & ->).
  assert (Ht1 : tick w <= tick w1) by apply Hf1. cbn [cl_enabled set_redirect_uris]. rewrite Hen. cbn [negb].
  apply with_auth_up; [done|intros k Hk; apply Htask; lia|]. intros w2 (Hp2 & Hr2 & Ht2).
  assert (Hst2 : stores w2 (code_key code) (Some (RStr payload, Some dl))).
  { eapply stores_quiet; [by split_and!|]. eapply frame_stores; [exact Hf1|unfold code_key; key_ne|done]. }
  wp_step. wp_call (wp_conj _ _ _ _ (consume_spec code w2)
    (consume_stored code payload dl _ w2 ltac:(still_up) Hcode Hpne Hj Hst2)).
  intros r w3 [(Hp3 & _ & [Ht3 _] & _) Hr].
  assert (Hlate : forall w', tick w3 <= tick w' -> too_late dl exp w2 w3 -> within MINUTE w0 w' -> False).
  { intros w' Ht' Hlate Hin. unfold MINUTE, minutes, AUTH_CODE_TTL_MINUTES, seconds in *. simpl in Hexp.
    destruct Hlate as [[Hlt Hle]|[Hlt Hle]].
    - destruct (Hin (S (tick w2)) n') as [_ ?]; lia.
    - destruct (Hin (S (S (tick w2))) n) as [? _]; lia. }
  destruct Hr as [->|[-> Hl]]; [|wp_step; split; [lia|]; intros Hin; by destruct (Hlate w3)].
  do 2 wp_step. cbn [ac_expires_at code_for]. destruct (exp <? clock (tick w3))%Z eqn:Hx.
  { wp_step. split; [simpl; lia|]. intros Hin. simpl in Hexp, Hin. destruct (Hin (tick w3) n) as [? _]; simpl; try lia.
    unfold MINUTE, minutes, AUTH_CODE_TTL_MINUTES, seconds in *. lia. }
  cbn [ac_client_id ac_redirect_uri code_for]. rewrite !bool_decide_eq_true_2 by done. cbn [negb orb]. cbv zeta.
  cbn [ac_code_challenge ac_code_challenge_method ac_user_id ac_session_id ac_scope ac_nonce ac_claims_requested code_for].
  destruct (pkce_passes _ _ _ _ Hpk eq_refl) as [Hp1' Hp2'].
  cbn [cl_pkce_required set_redirect_uris]. rewrite Hp1', Hp2'. clear Hp1' Hp2'.
  assert (Hp : pg w3 = pg w) by congruence.
  wp_step. apply wp_find_user_ok; [simpl; by rewrite Hp|still_up|]. simpl pg. rewrite Hp, Hu.
  wp_step. apply wp_find_session_ok; [simpl; by rewrite Hp|still_up|]. simpl pg. rewrite Hp, Hs.
  wp_call (issue_in_tx_up self user (set_redirect_uris uris client) session); cbn [pg bump tick].
  - by rewrite Hp.
  - still_up.
  - done.
  - rewrite Hp. eapply refresh_room_later; [|exact Hroom]. simpl. lia.
  - rewrite Hp, (wf_users_key _ Hwf _ _ Hu). by eexists.
  - rewrite Hp. cbn. by eexists.
  - rewrite Hp. by eexists.
  - intros r w' (Ht' & m & -> & Hi & Hsig). simpl in Ht'. split; [lia|]. intros _. exists uris, m. rewrite Hp in Hi. split; [done|]. split; [done|].
    eapply signed_in_wider; [| |exact Hsig]; simpl in *; lia.
Qed.
End Steps.

(** ** The flow *)

Lemma touched_users d d' : Session.touched d d' -> users d' = users d.
Proof. by intros [->|(id & t & [= <-])]. Qed.
Lemma touched_tokens d d' : Session.touched d d' -> refresh_tokens d' = refresh_tokens d.
Proof. by intros [->|(id & t & [= <-])]. Qed.

Lemma parse_default scope : parse (Some (default "" scope)) = parse scope.
Proof. by destruct scope. Qed.

(** The authorization-code flow completes.  Let a user be logged in and have
    consented, and an enabled client ask for a code as [ready] says, while Postgres
    and Redis answer, tasks finish, no key is dropped, and nothing the random source
    gives is in use already; PKCE is used as [pkce_agrees] says, or not at all if the
    client does not require it.  If the session has a minute left and the requests take
    at most that, then [authorize] sends the browser back with a code; the client's
    [token] request with that code, its secret and the verifier is answered with
    tokens; and until the access token expires [userinfo] answers its holder with the
    user's claims, or with the scope refusal when [openid] was not asked for. *)
Theorem code_flow_completes `{RedisLaws} `{EnvLaws} `{CryptoLaws} `{!DigestInjective} `{JwtSigns} `{TextsLaws} `{ValueParser}
  `{Argon2Lib} `{UrlCodec} `{UnicodeTables} `{!JsonCodec ClientSnapshot} `{!JsonCodecLaws ClientSnapshot} `{!JsonCodec SessionSnapshot}
  `{!JsonCodecLaws SessionSnapshot} `{!JsonCodec PendingAuthorization} `{!JsonCodec AuthorizationCode}
  `{!JsonCodecLaws AuthorizationCode} af tf req session user client e verifier secret w w1 :
  ready req session user client e w -> pkce_agrees client req verifier ->
  authenticated client secret -> (forall n, tick w <= n -> task_ok n = true) ->
  refresh_room (ti_hmac (tf_issuer tf)) (pg w) w ->
  let signer := ti_jwt_signer (tf_issuer tf) in
  (forall n, KeyProvider (js_keys signer n)) ->
  (clock (tick w) + MINUTE <= ends e)%Z ->
  w1 = (authorize af req w).2 -> within MINUTE w w1 ->
  exists code, (authorize af req w).1 = Ok (ar_success (redirect_of req code))
    /\ let exchange := token tf (exchange_of req client code verifier secret) w1 in
       within MINUTE w exchange.2 ->
       exists m access, exchange.1 = Ok (success (JObj m)) /\ m !! "access_token" = Some (JStr access)
         /\ is_Some (m !! "refresh_token") /\ (is_Some (m !! "id_token") <-> "openid" ∈ parse (aq_scope req))
         /\ forall v hreq w3,
              (forall n m k kp, n <= m -> by_kid (js_keys signer n) !! k = Some kp -> by_kid (jv_keys v m) !! k = Some kp) ->
              js_issuer signer = jv_expected_issuer v -> extract hreq = Some access -> tick exchange.2 <= tick w3 -> pg w3 = pg exchange.2 ->
              pg_ok (tick w3) ->
              (forall n, tick w <= n <= tick exchange.2 ->
                 (secs (clock (S (tick w3))) < wrap_i64 (secs (clock n) + wrap_i64 (js_access_ttl signer)))%Z) ->
              (userinfo v hreq w3).1 = Ok (
                if bool_decide ("openid" ∈ parse (aq_scope req))
                then json_response 200 (JObj (userinfo_claims_of user (parse (aq_scope req))
                       (sorted (userinfo_claims (parse_claims (aq_claims_json req))))))
                else insufficient_scope_response).
Proof.
  intros Hrd Hpk Hauth Htask Hroom signer Hkeys Hlast Hw1 Hin1. pose proof Hrd as [].
  destruct (wp_run _ _ _ _ _ (authorize_up af req session user client e verifier w Hrd Hpk) (surjective_pairing _))
    as [(n & Hn & Hexp)|(Htd & Hco1 & Ht1 & code & Hr & Hne & Hw)]; rewrite <- Hw1 in *.
  { destruct (Hin1 n (tick w)) as [? _]; lia. }
  exists code. split; [done|]. intros exchange Hin2. destruct (Hw Hin1) as (exp & at_ & Hwaits).
  destruct (touched_kept _ _ Htd _ _ rd_session0) as (session' & Hs' & Hid & Huid & _).
  destruct (touched_rest _ _ Htd) as (Hcl & _ & _). pose proof (touched_wf _ _ Htd rd_wf0) as Hwf1.
  assert (Hwaits' : code_waits code (code_for req session' client code exp at_) w w1) by (unfold code_for; by rewrite Hid, Huid).
  destruct (wp_run _ _ _ _ _ (token_up tf req session' user client code verifier secret exp at_ w w1 Hwf1 Hco1
    ltac:(still_up) ltac:(still_up) ltac:(intros k Hk; apply Htask; lia) Hkeys
    ltac:(unfold refresh_room; rewrite (touched_tokens _ _ Htd); exact (refresh_room_later _ _ w w1 Ht1 Hroom))
    ltac:(rewrite Huid, (touched_users _ _ Htd); done) ltac:(by rewrite Hcl) ltac:(by rewrite Hid) rd_enabled0 rd_named0
    (proj1 rd_uri0) Hauth Hpk Ht1 Hne Hwaits') (surjective_pairing _)) as [Ht2 Hgo].
  fold exchange in Ht2, Hgo. destruct (Hgo Hin2) as (uris & m & Hx & (m' & raw & id & now & Hm' & Hins & Hans) & Hsig).
  injection Hm' as <-. destruct Hsig as (roles & access & wa & wb & Hm & Hta & Hab & Htb & Hsign).
  exists m, access. split; [done|]. split; [done|]. destruct Hans as (Hraw & _ & Hidt & _). split; [by eexists|]. split; [done|].
  intros v hreq w3 Hkept Hiss Hextract Ht3 Hp3 Hpg3 Hlive.
  assert (Hrest : users (pg w3) = users (pg w) /\ user_sessions (pg w3) = user_sessions (pg w1)).
  { rewrite Hp3. rewrite <- (touched_users _ _ Htd). unfold insert_refresh_token in Hins. clear -Hins.
    repeat (destruct (_ : bool); [|done]). by injection Hins as <-. }
  destruct Hrest as [Husers Hsessions].
  assert (Hans3 : (userinfo v hreq w3).1 = Ok (issued_answer (pg w3) user session' (aq_scope req) (parse_claims (aq_claims_json req)))).
  { refine (wp_run _ (fun r _ => r = _) _ _ _ (wp_userinfo_issued signer v hreq user (set_redirect_uris uris client) session' roles
      (aq_scope req) _ wa access wb w3 Hkeys _ Hiss Hsign _ _ Hpg3 Hextract) (surjective_pairing _)).
    - intros n k kp Hn. apply Hkept. lia.
    - apply Hlive. lia.
    - rewrite Hp3. by eapply insert_refresh_token_wf. }
  rewrite Hans3. unfold issued_answer. rewrite parse_default, Husers, Hsessions, Hid, Hs'.
  rewrite (wf_users_key _ rd_wf0 _ _ rd_user0), rd_user0.
  destruct rd_findable0 as (_ & _ & (u & Hu & Hen) & _). assert (u = user) as -> by congruence. by rewrite Hen.
Qed.

(** ** Witness

    A demonstration world whose clocks stand still, so that the requests take no time. *)

Import Instances JsonInstance JwtInstance.

#[export] Instance demo_signs : JwtSigns.
Proof.
  split. intros h c k dk _ Hc. simpl. unfold demo_encode.
  assert (Hflat : forall v, plain v -> is_Some (flat v)).
  { intros [| | | | |l|]; simpl; try done; [by eexists..|]. intros Hl. apply fmap_is_Some.
    induction Hl as [|x l [s ->] _ IH]; simpl; [by eexists|]. by apply fmap_is_Some. }
  assert (Hl : is_Some (flat_list (map_to_list c))).
  { rewrite map_Forall_to_list in Hc. induction Hc as [|[x v] l Hv _ IH]; simpl; [by eexists|].
    destruct (Hflat v Hv) as [y ->], IH as [z ->]. by eexists. }
  destruct Hl as [l ->]. by eexists.
Qed.

Module StillClock.
Definition noon : Z := 1700000000000000000.

#[export] Instance still_env : Env := {|
  clock _ := noon; redis_clock _ := 0%Z; random_bytes := random_bytes (Env := demo_env); new_v4 := new_v4 (Env := demo_env);
  jitter_floor _ base := base; redis_pool_up _ := true; redis_reply _ := Served; pg_reply _ := Served; row_order _ _ l := l;
  collate_le := collate_le (Env := demo_env); lower_table s := s; pg_clock _ := noon; gen_range n bound := n mod bound; task_ok _ := true;
|}.

#[export] Instance still_env_laws : EnvLaws.
Proof.
  split; simpl; [done|done| |].
  - intros n bound Hb. apply Nat.mod_upper_bound. lia.
  - intros n len. apply padded_length.
Qed.

Definition session : UserSession := mkUserSession 9 7 "tok" None None (Some 1800000000000000000%Z) None 1699999000000000000.
Definition user : User := mkUser 7 "a@b" true "a" None None true 0 0.
Definition client : Client :=
  mkClient 5 "app" None None (Some "public") None None (Some "openid email") true true None None None None None None 0 0 [].
Definition request : AuthorizeRequest :=
  mkAuthorizeRequest (Some "tok") (Some "app") (Some "https://app/cb") (Some "code") (Some "openid") (Some "st")
    None None None (Some "verifier") (Some "S256") None.

Lemma world_ready : ready request session user client 1800000000000000000 world_authorize.
Proof.
  assert (Hgone : forall k, stores world_authorize k None) by (intros k t Ht; reflexivity).
  split; try (reflexivity || (intros n Hn; done) || exact pg_authorize_wf).
  - intros cid snap _ (x & dl & raw & Hl & _). done.
  - intros hash snap (x & dl & raw & Hl & _). done.
  - split; [vm_compute; discriminate|]. split; [exists 9%N, session; repeat split; vm_compute; reflexivity|].
    split; [exists user; split; reflexivity|]. intros snap (x & dl & raw & Hl & _). done.
  - discriminate.
  - split; [vm_compute; discriminate|]. exists 4%N, (mkRedirectUri 4 5 "https://app/cb" 0). repeat split.
  - apply not_elem_of_empty.
  - apply not_elem_of_empty.
  - intros n _. split; [|apply Hgone]. intros Heq%(f_equal String.length). change (String.length (padded 48 (pretty (N.of_nat n))) = 0) in Heq. by rewrite padded_length in Heq.
Qed.

End StillClock.
