(* ===== verification/Logout.v ===== *)
(** * Logout ([oauth/logout/flow.rs], [oauth/logout/notifier.rs],
    [oauth/logout/result.rs])

    RP-initiated logout: the session named by an ID token hint or by the session
    cookie is ended, its refresh tokens are revoked, and the clients involved are
    told, in the browser (front channel) and by a signed POST (back channel). *)

From stdpp Require Import base tactics list gmap strings.
From Stdlib Require Import ZArith Lia Ascii.
From S2P Require Import Prelude RustStr Redis Schema World Ext Demo DemoJson DemoJwt RedisKeys Hashing.
From S2P Require Import Jwt Client RefreshToken Session Integrity.

Local Open Scope auth_scope.

(** ** LogoutResult *)

Record LogoutResult := mkLogoutResult {
  terminated : bool;
  frontchannel_logout_uris : list string;
  validated_post_logout_redirect_uri : option string;
}.

Definition lr_none (uri : option string) : LogoutResult := mkLogoutResult false [] uri.

(** ** BackchannelLogoutNotifier *)

(** A delivery task handed to the runtime. *)
Record Delivery := mkDelivery {
  dl_uri : string;
  dl_client_id : string;
  dl_user_id : option Uuid;
  dl_session_id : Uuid;
}.

(** [uri.splitn(2, ':').next()] *)
Definition scheme_of (uri : string) : string :=
  match find_byte ":"%char uri with Some n => take_bytes n uri | None => uri end.

Definition scheme_ok (uri : string) : bool :=
  eq_ignore_ascii_case (scheme_of uri) "http" || eq_ignore_ascii_case (scheme_of uri) "https".

(** The task that is spawned, if any. *)
Definition notify_client (client : Client) (user_id : option Uuid) (session_id : Uuid) : option Delivery :=
  match nonempty (cl_backchannel_logout_uri client) with
  | None => None
  | Some uri =>
      if negb (scheme_ok uri) then None
      else Some (mkDelivery uri (cl_client_id client) user_id session_id)
  end.

(** The body of the task: the request it sends, if signing succeeds; the answer
    is only logged. *)
Definition deliver `{RedisServer} `{Env} `{JwtLib} `{Texts} (signer : JwtSigner) (t : Delivery)
    : io (option (string * string)) :=
  let! token := attempt (sign_logout_token signer (uuid_to_string <$> dl_user_id t) (dl_client_id t)
                           (uuid_to_string (dl_session_id t))) in
  match token with
  | Ok token => ret (Some (dl_uri t, token))
  | Err _ => ret None
  end.

(** ** LogoutFlow *)

Record LogoutFlow `{JwtLib} := mkLogoutFlow {
  lf_jwt_validator : JwtValidator;
  lf_clients : ClientRepository;
  lf_issuer_url : string;
}.
Global Arguments mkLogoutFlow {_} _ _ _.

Section Flow.
Context `{RedisServer} `{Env} `{JwtLib} `{Crypto} `{Texts} `{UrlCodec}
  `{!JsonCodec ClientSnapshot} `{!JsonCodec SessionSnapshot}.

(** The audience of a token: the first of several. *)
Definition hinted_client_id (claims : Value) : option string :=
  match value_get claims "aud" with
  | None => None
  | Some aud =>
      nonempty (match as_array aud with
                | Some arr => head arr ≫= as_str
                | None => as_str aud
                end)
  end.

Definition resolve_client_from_id_token_hint (self : LogoutFlow) (id_token_hint : option string)
    : io (option Client) :=
  match nonempty id_token_hint with
  | None => ret None
  | Some token =>
      let! claims := validate_allow_expired (lf_jwt_validator self) token in
      match claims with
      | None => ret None
      | Some claims =>
          match hinted_client_id claims with
          | None => ret None
          | Some cid => Client.find_by_client_id (lf_clients self) cid
          end
      end
  end.

(** [claims.get("sid").and_then(|v| v.as_str())], parsed *)
Definition hinted_session_id (claims : Value) : option Uuid :=
  (value_get claims "sid" ≫= as_str) ≫= uuid_parse_str.

Definition resolve_session_id (self : LogoutFlow) (id_token_hint session_token : option string)
    : io (option Uuid) :=
  let! hinted := match nonempty id_token_hint with
    | Some token =>
        let! claims := validate_allow_expired (lf_jwt_validator self) token in
        ret (claims ≫= hinted_session_id)
    | None => ret None
    end in
  match hinted with
  | Some u => ret (Some u)
  | None =>
      match nonempty session_token with
      | Some t =>
          let! s := find_active_session t in
          ret ((fun s => ses_id (swu_session s)) <$> s)
      | None => ret None
      end
  end.

Definition build_frontchannel_url (self : LogoutFlow) (uri : string) (session_id : Uuid) : string :=
  let sep := if contains_byte "?"%char uri then "&" else "?" in
  uri +:+ sep +:+ "iss=" +:+ url_encode (lf_issuer_url self) +:+ "&sid=" +:+ url_encode (uuid_to_string session_id).

Definition validate_post_logout (self : LogoutFlow) (id_token_hint post_logout_redirect_uri : option string)
    : io (option string) :=
  match nonempty post_logout_redirect_uri with
  | None => ret None
  | Some uri =>
      let! client := resolve_client_from_id_token_hint self id_token_hint in
      match client with
      | None => ret None
      | Some client =>
          let! allowed := is_redirect_uri_allowed (cl_id client) uri in
          ret (if allowed then Some uri else None)
      end
  end.

(** The clients with a refresh token of the session. *)
Definition involved_clients (session_id : Uuid) : io (list Client) :=
  let! client_ids := find_client_ids_by_session_id session_id in
  let! cs := for_collect client_ids Client.find_by_id in
  ret (omap id cs).

(** The result, and the delivery tasks spawned. *)
Definition oauth_logout (self : LogoutFlow) (id_token_hint session_token post_logout_redirect_uri : option string)
    : io (LogoutResult * list Delivery) :=
  let! validated_post_logout := validate_post_logout self id_token_hint post_logout_redirect_uri in
  let! session_id := resolve_session_id self id_token_hint session_token in
  match session_id with
  | None => ret (lr_none validated_post_logout, [])
  | Some session_id =>
      let! session := Session.find_by_id session_id in
      let user_id := ses_user_id <$> session in
      let! involved := involved_clients session_id in
      let! tx := begin_tx in
      let! ' (revoked, tx) := revoke_by_session_id_in_tx tx session_id in
      match revoked with
      | Err e => throw e
      | Ok _ =>
          do! commit tx in
          do! ignore (Session.delete_by_id session_id) in
          let frontchannel := omap (fun c =>
            (fun fc => build_frontchannel_url self fc session_id) <$> nonempty (cl_frontchannel_logout_uri c)) involved in
          let tasks := omap (fun c =>
            match nonempty (cl_backchannel_logout_uri c) with
            | Some _ => notify_client c user_id session_id
            | None => None
            end) involved in
          ret (mkLogoutResult true frontchannel validated_post_logout, tasks)
      end
  end.
End Flow.

(** ** What logout does *)

Section Specs.
Context `{RedisLaws} `{EnvLaws} `{JwtLib} `{Crypto} `{Texts} `{UrlCodec}
  `{!JsonCodec ClientSnapshot} `{!JsonCodecLaws ClientSnapshot} `{!JsonCodec SessionSnapshot} `{!JsonCodecLaws SessionSnapshot}.
Implicit Types w : World.
Implicit Types d : Pg.

(** The hint is a token whose claims were accepted, at some time from [w] on. *)
Definition hinted (self : LogoutFlow) (hint : option string) w (claims : Value) : Prop :=
  exists token w1 w2, hint = Some token /\ tick w <= tick w1
    /\ validate_allow_expired (lf_jwt_validator self) token w1 = (Ok (Some claims), w2).

(** A URI the flow may send the browser to after the logout: registered for the
    client the hint names. *)
Definition returnable (self : LogoutFlow) (hint : option string) (uri : string) w : Prop :=
  exists claims cid client, hinted self hint w claims /\ hinted_client_id claims = Some cid
    /\ served_from cid (pg w) client /\ registered client uri (pg w).

Lemma validate_quiet v token w : wp (validate_allow_expired v token) (fun _ w' => quiet w w') w.
Proof. wp_call validate_spec. by intros r w' [Hq _]. Qed.

Lemma resolve_client_spec self hint Q w :
  pg_wf (pg w) -> coherent w ->
  (forall claims cid c w1, pg w1 = pg w -> tick w <= tick w1 -> hinted self hint w claims ->
     hinted_client_id claims = Some cid -> served_from cid (pg w) c -> Q (Ok (Some c)) w1) ->
  (forall w1, pg w1 = pg w -> tick w <= tick w1 -> Q (Ok None) w1) ->
  (forall e w1, pg w1 = pg w -> tick w <= tick w1 -> Q (Err e) w1) ->
  wp (resolve_client_from_id_token_hint self hint) Q w.
Proof.
  intros Hwf Hco Hsome Hnone Herr. unfold resolve_client_from_id_token_hint.
  destruct (nonempty hint) as [token|] eqn:Hh; [|wp_step; by apply Hnone]. apply nonempty_spec in Hh as [-> _].
  wp_step. apply run_wp. intros r w1 Hv.
  pose proof (wp_run _ _ _ _ _ (validate_quiet _ token w) Hv) as (Hp1 & Hr1 & Ht1).
  destruct r as [[claims|]|e]; [|wp_step; by apply Hnone|by apply Herr].
  destruct (hinted_client_id claims) as [cid|] eqn:Hcid; [|wp_step; by apply Hnone].
  apply wp_client; [by rewrite Hp1|by eapply coherent_later| | |]; rewrite Hp1; intros.
  - eapply Hsome; [done|lia| |done|done]. by exists token, w, w1.
  - apply Hnone; [done|lia].
  - apply Herr; [done|lia].
Qed.

Lemma validate_post_logout_spec self hint post w :
  pg_wf (pg w) -> coherent w ->
  wp (validate_post_logout self hint post) (fun r w' => pg w' = pg w /\ tick w <= tick w' /\
    forall uri, r = Ok (Some uri) -> post = Some uri /\ returnable self hint uri w) w.
Proof.
  intros Hwf Hco. unfold validate_post_logout.
  destruct (nonempty post) as [uri|] eqn:Hn; [|by wp_step]. apply nonempty_spec in Hn as [-> _].
  wp_step. apply resolve_client_spec; [done|done| | |].
  - intros claims cid c w1 Hp Ht Hh Hcid Hs. wp_step. apply wp_uri_allowed.
    + intros Hreg. wp_step. split; [done|]. split; [simpl; lia|]. intros ? [= <-]. split; [done|].
      exists claims, cid, c. rewrite Hp in Hreg. done.
    + wp_step. split; [done|]. split; [simpl; lia|done].
    + intros. split; [done|]. split; [simpl; lia|done].
  - intros w1 Hp Ht. by wp_step.
  - done.
Qed.

(** The session to end: the one the hint names, or the active one of the cookie. *)
Definition named_session (self : LogoutFlow) (hint cookie : option string) w (sid : Uuid) : Prop :=
  (exists claims, hinted self hint w claims /\ hinted_session_id claims = Some sid)
  \/ exists tok w1 h w2, cookie = Some tok /\ tick w <= tick w1 /\ pg w1 = pg w
       /\ find_active_session tok w1 = (Ok (Some h), w2) /\ ses_id (swu_session h) = sid.

Lemma resolve_session_spec self hint cookie w :
  wp (resolve_session_id self hint cookie) (fun r w' => touched (pg w) (pg w') /\ tick w <= tick w' /\
    forall sid, r = Ok (Some sid) -> named_session self hint cookie w sid) w.
Proof.
  unfold resolve_session_id.
  assert (Hcookie : forall w1, pg w1 = pg w -> tick w <= tick w1 ->
    wp (match nonempty cookie with
        | Some t => let! s := find_active_session t in ret ((fun s => ses_id (swu_session s)) <$> s)
        | None => ret None
        end) (fun r w' => touched (pg w) (pg w') /\ tick w <= tick w' /\
      forall sid, r = Ok (Some sid) -> named_session self hint cookie w sid) w1).
  { intros w1 Hp Ht. destruct (nonempty cookie) as [t|] eqn:Hn; [|wp_step; split; [by left|done]].
    apply nonempty_spec in Hn as [-> _]. wp_step. apply run_wp. intros r w2 Hrun.
    destruct (wp_run _ _ _ _ _ (find_active_spec t w1) Hrun) as (Htd & [Ht2 _] & _). rewrite Hp in Htd.
    destruct r as [[h|]|e]; try wp_step; (split; [done|split; [lia|]]); try done.
    intros sid [= <-]. right. by exists t, w1, h, w2. }
  destruct (nonempty hint) as [token|] eqn:Hn; [|do 2 wp_step; by apply Hcookie].
  apply nonempty_spec in Hn as [-> _]. do 2 wp_step. apply run_wp. intros r w1 Hv.
  destruct (wp_run _ _ _ _ _ (validate_quiet _ token w) Hv) as (Hp & _ & Ht).
  destruct r as [o|e]; [wp_step|split; [by left|done]].
  destruct (o ≫= hinted_session_id) as [sid|] eqn:Ho; [|by apply Hcookie].
  wp_step. split; [by left|]. split; [done|]. intros ? [= <-]. left.
  destruct o as [claims|]; [|done]. exists claims. split; [|done]. by exists token, w, w1.
Qed.

(** Refresh tokens disappear or become revoked, never the other way. *)
Definition tokens_fade d d' : Prop :=
  forall i t', refresh_tokens d' !! i = Some t' ->
    exists t, refresh_tokens d !! i = Some t /\ rt_session_id t' = rt_session_id t
      /\ (rt_revoked t = true -> rt_revoked t' = true).

Lemma fade_refl d : tokens_fade d d.
Proof. intros i t Hi. eauto. Qed.
Lemma fade_trans d1 d2 d3 : tokens_fade d1 d2 -> tokens_fade d2 d3 -> tokens_fade d1 d3.
Proof.
  intros H12 H23 i t Hi. destruct (H23 i t Hi) as (t2 & Hi2 & Hs2 & Hr2).
  destruct (H12 i t2 Hi2) as (t1 & Hi1 & Hs1 & Hr1). exists t1. split; [done|]. split; [congruence|auto].
Qed.

Lemma revoke_fade (P : RefreshToken -> Prop) `{forall t, Decision (P t)} d n d' :
  revoke_where P d = Ok (n, d') ->
  tokens_fade d d'.
Proof.
  intros [= _ <-] i t. simpl. rewrite lookup_update_where.
  destruct (refresh_tokens d !! i) as [x|]; [|done]. intros [= <-]. exists x. by case_decide.
Qed.

Lemma revoke_session_all sid d n d' i t :
  revoke_where (fun t => rt_session_id t = sid) d = Ok (n, d') ->
  refresh_tokens d' !! i = Some t -> rt_session_id t = sid -> rt_revoked t = true.
Proof.
  intros [= _ <-]. simpl. rewrite lookup_update_where. destruct (refresh_tokens d !! i) as [x|]; [|done].
  intros [= <-]. case_decide as Hd; [done|]. intros Hs. destruct (rt_revoked x) eqn:Hr; [done|]. by destruct Hd.
Qed.

Lemma delete_fade (P : UserSession -> Prop) `{forall s, Decision (P s)} d n d' :
  delete_sessions_where P d = Ok (n, d') -> tokens_fade d d' /\ user_sessions d' = delete_where P (user_sessions d).
Proof. intros [= _ <-]. split; [|done]. intros i t [Hi _]%lookup_delete_where. eauto. Qed.

Lemma purge_fade (Q : RefreshToken -> Prop) `{forall t, Decision (Q t)} (P : UserSession -> Prop)
  `{forall s, Decision (P s)} w :
  wp (purge Q P) (fun r w' => tokens_fade (pg w) (pg w') /\
    forall n, r = Ok n -> user_sessions (pg w') = delete_where P (user_sessions (pg w))) w.
Proof.
  unfold purge. do 2 wp_step; [|split; [apply fade_refl|done]|split; [by eapply revoke_fade|done]].
  pose proof (revoke_fade _ _ _ _ Hq) as Hf. injection Hq as _ Hd. subst d.
  wp_step; simpl in *; [..|apply delete_fade in Hq as [Hq _]]; (split; [|try done]); try done.
  - apply delete_fade in Hq as [Hq _]. by eapply fade_trans.
  - intros m _. by apply delete_fade in Hq as [_ ->].
  - by eapply fade_trans.
Qed.

Lemma delete_by_id_fade sid w :
  wp (Session.delete_by_id sid) (fun r w' => tokens_fade (pg w) (pg w') /\
    forall n, r = Ok n -> user_sessions (pg w') = delete_where (fun s => ses_id s = sid) (user_sessions (pg w))) w.
Proof.
  unfold Session.delete_by_id. do 2 wp_step; [|split; [apply fade_refl|done]]. wp_step.
  assert (Hpurge : forall w1, pg w1 = pg w -> wp (purge (fun t => rt_session_id t = sid) (fun s => ses_id s = sid))
    (fun r w' => tokens_fade (pg w) (pg w') /\
      forall n, r = Ok n -> user_sessions (pg w') = delete_where (fun s => ses_id s = sid) (user_sessions (pg w))) w1).
  { intros w1 <-. apply purge_fade. }
  destruct (head _) as [tok|]; [|wp_step; by apply Hpurge].
  wp_call session_invalidate_spec. intros r w1 (Hp & _ & _). simpl in Hp. destruct r as [[]|e]; [by apply Hpurge|].
  split; [rewrite Hp; apply fade_refl|done].
Qed.

(** A client with a refresh token of the session, as Postgres has it. *)
Definition involved d (sid : Uuid) (c : Client) : Prop :=
  (exists uris row, clients d !! cl_id c = Some row /\ c = set_redirect_uris uris row)
  /\ exists i t, refresh_tokens d !! i = Some t /\ rt_session_id t = sid /\ rt_client_id t = cl_id c.

Lemma involved_spec sid w :
  pg_wf (pg w) ->
  wp (involved_clients sid) (fun r w' => quiet w w' /\ forall cs, r = Ok cs -> forall c, c ∈ cs -> involved (pg w) sid c) w.
Proof.
  intros Hwf. unfold involved_clients, find_client_ids_by_session_id. do 2 wp_step; [|split; [auto with wp|done]].
  set (ids := row_order _ _). wp_step.
  eapply wp_mono; [apply (wp_for_collect (quiet w) (fun cid o => forall c, o = Some c ->
    cl_id c = cid /\ exists uris row, clients (pg w) !! cid = Some row /\ c = set_redirect_uris uris row))|].
  - intros cid w1 _ Hq. pose proof Hq as (Hp & _). eapply wp_mono; [apply find_client_by_id_spec; by rewrite Hp|].
    rewrite Hp. intros r w2 [Hq2 Hr]. split; [by eapply quiet_trans|]. intros o -> c ->. by apply Hr.
  - auto with wp.
  - intros [os|e] w1 [Hq Hr]; [|done]. wp_step. split; [done|]. intros ? [= <-] c Hc.
    apply list_elem_of_omap in Hc as (o & Ho & Hoc). unfold id in Hoc. subst o. specialize (Hr os eq_refl).
    apply list_elem_of_lookup in Ho as [k Hk]. destruct (Forall2_lookup_r _ _ _ _ _ Hr Hk) as (cid & Hcid & Hc).
    destruct (Hc c eq_refl) as [<- Hrow]. split; [done|].
    apply list_elem_of_lookup_2 in Hcid. unfold ids in Hcid. rewrite row_order_perm in Hcid.
    apply elem_of_remove_dups, list_elem_of_fmap in Hcid as (t & -> & Ht). apply elem_of_where in Ht as [Hs [i Hi]]. eauto.
Qed.

(** What a logout that terminates a session leaves. *)
Definition ended_session d' (sid : Uuid) w' : Prop :=
  (forall i t, refresh_tokens (pg w') !! i = Some t -> rt_session_id t = sid -> rt_revoked t = true)
  /\ ((forall i s, user_sessions (pg w') !! i = Some s -> ses_id s <> sid)
      \/ exists w2 e, pg w2 = d' /\ Session.delete_by_id sid w2 = (Err e, w')).

Definition notified d (sid : Uuid) (t : Delivery) : Prop :=
  scheme_ok (dl_uri t) = true /\ dl_session_id t = sid
  /\ exists c, involved d sid c /\ dl_client_id t = cl_client_id c /\ cl_backchannel_logout_uri c = Some (dl_uri t).

Lemma notify_spec d sid user (cs : list Client) (t : Delivery) :
  (forall c, c ∈ cs -> involved d sid c) ->
  t ∈ omap (fun c => match nonempty (cl_backchannel_logout_uri c) with
                     | Some _ => notify_client c user sid | None => None end) cs -> notified d sid t.
Proof.
  intros Hinv (c & Hc & Ht)%list_elem_of_omap. destruct (nonempty (cl_backchannel_logout_uri c)) as [uri|] eqn:Hn; [|done].
  unfold notify_client in Ht. rewrite Hn in Ht. destruct (scheme_ok uri) eqn:Hs; [|done]. injection Ht as <-.
  apply nonempty_spec in Hn as [Hu _]. split; [done|]. split; [done|]. exists c. auto.
Qed.

Lemma oauth_logout_spec self hint cookie post w :
  pg_wf (pg w) -> coherent w ->
  wp (oauth_logout self hint cookie post) (fun r w' => forall res tasks, r = Ok (res, tasks) ->
    (forall uri, validated_post_logout_redirect_uri res = Some uri -> post = Some uri /\ returnable self hint uri w)
    /\ if terminated res
       then exists d d' sid, touched (pg w) d /\ named_session self hint cookie w sid /\ ended_session d' sid w'
              /\ forall t, t ∈ tasks -> notified d sid t
       else touched (pg w) (pg w') /\ tasks = [] /\ frontchannel_logout_uris res = []) w.
Proof.
  intros Hwf Hco. unfold oauth_logout. wp_step. wp_call validate_post_logout_spec; [done|done|].
  intros [uri|e] w1 (Hp1 & Ht1 & Huri); [|done].
  wp_step. wp_call resolve_session_spec. intros [o|e] w2 (Htd & Ht2 & Hsid); [|done]. rewrite Hp1 in Htd.
  assert (Hpost : forall x, uri = Some x -> post = Some x /\ returnable self hint x w) by (intros x ->; by apply Huri).
  destruct o as [sid|]; [|wp_step; by intros res tasks [= <- <-]].
  specialize (Hsid sid eq_refl).
  wp_step. unfold Session.find_by_id. wp_step; [|done].
  assert (Hwf2 : pg_wf (pg w2)) by (by destruct Htd as [->|(? & ? & Hq)]; [|by eapply touch_session_wf]).
  wp_step. wp_call involved_spec; [done|]. intros [cs|e] w3 [(Hp3 & _) Hcs]; [|done].
  do 2 wp_step; [|done]. wp_step. unfold revoke_by_session_id_in_tx. wp_step; [|by wp_step..].
  wp_step; wp_step; [|done|done]. do 2 wp_step. apply run_wp. intros r w4 Hdel. wp_step.
  intros res tasks [= <- <-]. split; [exact Hpost|]. simpl in *.
  exists (pg w2), d, sid. split; [done|]. split; [|split].
  - destruct Hsid as [(claims & (tok & x1 & x2 & ? & ? & ?) & ?)|(tok & x1 & h & x2 & ? & ? & ? & ?)].
    + left. exists claims. split; [|done]. exists tok, x1, x2. split; [done|]. split; [lia|done].
    + right. exists tok, x1, h, x2. split; [done|]. split; [lia|]. split; [congruence|done].
  - destruct (wp_run _ _ _ _ _ (delete_by_id_fade sid _) Hdel) as [Hf Hok]. simpl in *. split.
    + intros i t Hi Hs. destruct (Hf i t Hi) as (t0 & Hi0 & Hs0 & Hr0). apply Hr0.
      eapply revoke_session_all; [exact Hq|done|congruence].
    + destruct r as [n|e]; [left|right; eexists _, e; by split; [|exact Hdel]]. intros i s. rewrite (Hok n eq_refl).
      by intros [_ Hne]%lookup_delete_where.
  - intros t Ht. eapply notify_spec; [|exact Ht]. by apply Hcs.
Qed.
End Specs.

(** ** Theorems *)

(** C36: Logout ends what it should and redirects where it may.  The URI handed
    back for the browser is the one asked for, registered for the client that an
    accepted ID token hint names.  When a session is reported as terminated, it is
    the one the hint names or the active one of the cookie, all refresh tokens of
    the session are revoked, its row is gone unless the deletion failed, and back
    channel requests go only to [http] or [https] URIs registered by clients with a
    token of that session; when none is, nothing changed but an access time. *)
Theorem logout_effect `{RedisLaws} `{EnvLaws} `{JwtLib} `{Crypto} `{Texts} `{UrlCodec}
  `{!JsonCodec ClientSnapshot} `{!JsonCodecLaws ClientSnapshot} `{!JsonCodec SessionSnapshot}
  `{!JsonCodecLaws SessionSnapshot} self hint cookie post w res tasks w' :
  pg_wf (pg w) -> coherent w -> oauth_logout self hint cookie post w = (Ok (res, tasks), w') ->
  (forall uri, validated_post_logout_redirect_uri res = Some uri -> post = Some uri /\ returnable self hint uri w)
  /\ if terminated res
     then exists d d' sid, touched (pg w) d /\ named_session self hint cookie w sid /\ ended_session d' sid w'
            /\ forall t, t ∈ tasks -> notified d sid t
     else touched (pg w) (pg w') /\ tasks = [] /\ frontchannel_logout_uris res = [].
Proof.
  intros Hwf Hco Hrun. exact (wp_run _ _ _ _ _ (oauth_logout_spec self hint cookie post w Hwf Hco) Hrun res tasks eq_refl).
Qed.

(** ** Witnesses *)

Import Instances.

(** The sessions of [world_sessions], one with a token of a client that wants to be
    told; its URI is registered. *)
Definition pg_logout : Pg :=
  on_refresh_tokens <[20%N := mkRefreshToken 20 7 5 8 "h" None false 0]>
  (on_redirect_uris <[6%N := mkRedirectUri 6 5 "https://app/bye" 0]>
  (on_clients <[5%N := mkClient 5 "app" None None (Some "public") None None (Some "openid") true true None None
                 None None (Some "https://app/front") (Some "HTTPS://app/back") 0 0 []]> pg_sessions)).
Definition world_logout : World := mkWorld 0 pg_logout (∅ : gmap string rentry).
Definition demo_logout : LogoutFlow := mkLogoutFlow demo_validator (client_repository_new 60000000000) "https://auth".
Definition demo_hint : string :=
  default "" (ok (sign_id_token demo_signer "u" "app" None 0 ∅ world_logout).1).

Lemma pg_logout_wf : pg_wf pg_logout.
Proof. apply pg_wf_b_ok. vm_compute. reflexivity. Qed.
Lemma world_logout_coherent : coherent world_logout.
Proof. intros cid snap _ (v & dl & raw & Hl & _). done. Qed.

Definition logout_run : res err (LogoutResult * list Delivery) * World :=
  oauth_logout demo_logout (Some demo_hint) (Some "tok") (Some "https://app/bye") world_logout.
Definition logout_out : LogoutResult * list Delivery := default (lr_none None, []) (ok logout_run.1).

Lemma logout_effect_witness :
  terminated logout_out.1 = true /\ user_sessions (pg logout_run.2) !! 8%N = None
  /\ validated_post_logout_redirect_uri logout_out.1 = Some "https://app/bye"
  /\ returnable demo_logout (Some demo_hint) "https://app/bye" world_logout
  /\ length logout_out.2 = 1.
Proof.
  assert (Hr : logout_run.1 = Ok (logout_out.1, logout_out.2)) by (vm_compute; reflexivity).
  destruct (logout_effect demo_logout (Some demo_hint) (Some "tok") (Some "https://app/bye") world_logout _ _ _
    pg_logout_wf world_logout_coherent (run_fst _ _ _ Hr)) as [Huri _].
  assert (Hv : validated_post_logout_redirect_uri logout_out.1 = Some "https://app/bye") by (vm_compute; reflexivity).
  split; [vm_compute; reflexivity|]. split; [vm_compute; reflexivity|]. split; [exact Hv|].
  split; [exact (proj2 (Huri _ Hv))|]. vm_compute. reflexivity.
Defined.

(** *** A logout that is not one

    The flow ignores the outcome of the deletion: with Redis down it reports the
    session as terminated, and the session is still active. *)
Module RedisDown.
#[local] Instance down_env : Env := {|
  clock := clock; redis_clock := redis_clock; random_bytes := random_bytes; new_v4 := new_v4;
  jitter_floor := jitter_floor; redis_pool_up := fun _ => false; redis_reply := redis_reply; pg_reply := pg_reply;
  row_order := fun A => @row_order demo_env A; collate_le := collate_le; lower_table := lower_table;
  pg_clock := pg_clock; gen_range := gen_range; task_ok := task_ok |}.

Definition down_run : res err (LogoutResult * list Delivery) * World :=
  oauth_logout demo_logout None (Some "tok") None world_logout.

Example logout_reports_failure_as_success :
  (exists res tasks, down_run.1 = Ok (res, tasks) /\ terminated res = true)
  /\ exists h, (find_active_session "tok" down_run.2).1 = Ok (Some h).
Proof. split; repeat eexists; vm_compute; reflexivity. Qed.
End RedisDown.
