(* ===== verification/OAuthHttp.v ===== *)
(** * The OAuth endpoints ([oauth/resource.rs]) and the consent screen
    ([oauth/consent/resource.rs])

    The handlers read a request, run one of the flows and turn its result into a
    response. *)

From stdpp Require Import base tactics list gmap strings.
From Stdlib Require Import ZArith Lia Ascii.
From S2P Require Import Prelude RustStr Redis Schema World Ext Demo DemoJson DemoJwt RedisKeys Http Config Scopes Hashing RateLimit.
From S2P Require Import Jwt User Client RefreshToken Session Consent Integrity AuthCode Secrets LoginHttp Issuer Device.
From S2P Require Import TokenFlow Introspect Authorize Logout Oidc.

Local Open Scope auth_scope.

(** ** Errors *)

(** [invalid_client] is 401, everything else 400. *)
Definition oauth_error_response (error : string) (description : option string) : HttpResponse :=
  oauth_error (if bool_decide (error = "invalid_client") then 401 else 400) error (default "" description).

(** [o.unwrap()]: a panic ends the request. *)
Definition unwrap `{RedisServer} {A} (o : option A) : io A :=
  match o with Some a => ret a | None => throw (EOther "panic") end.

(** ** Forms and queries *)

Record AuthorizeQuery := mkAuthorizeQuery {
  yq_client_id : option string;
  yq_redirect_uri : option string;
  yq_response_type : option string;
  yq_scope : option string;
  yq_state : option string;
  yq_nonce : option string;
  yq_prompt : option string;
  yq_max_age : option Z;
  yq_code_challenge : option string;
  yq_code_challenge_method : option string;
  yq_claims : option string;
}.

Record TokenForm := mkTokenForm {
  tq_grant_type : option string;
  tq_code : option string;
  tq_redirect_uri : option string;
  tq_client_id : option string;
  tq_client_secret : option string;
  tq_code_verifier : option string;
  tq_refresh_token : option string;
  tq_scope : option string;
  tq_device_code : option string;
}.

(** [RevokeForm] and [IntrospectForm] have the same fields. *)
Record RevokeForm := mkRevokeForm {
  rq_token : option string;
  rq_token_type_hint : option string;
  rq_client_id : option string;
  rq_client_secret : option string;
}.

Record LogoutQuery := mkLogoutQuery {
  oq_id_token_hint : option string;
  oq_post_logout_redirect_uri : option string;
  oq_state : option string;
}.

Record LogoutPage := mkLogoutPage { op_frontchannel_uris : list string; op_final_redirect : option string }.

Record DeviceAuthForm := mkDeviceAuthForm { dq_client_id : option string; dq_scope : option string }.
Record DeviceVerifyForm := mkDeviceVerifyForm { vq_user_code : option string; vq_action : option string }.

(** ** The OAuth handlers *)

Section Handlers.
Context `{RedisServer} `{Env} `{JwtLib} `{Texts} `{Crypto} `{ValueParser} `{Argon2Lib} `{UnicodeTables} `{UrlCodec}.
Context `{!JsonCodec ClientSnapshot} `{!JsonCodec SessionSnapshot} `{!JsonCodec PendingAuthorization} `{!JsonCodec AuthorizationCode}.
Context `{!Askama LogoutPage}.

(** The parts of the state the handlers use. *)
Record OAuthState := mkOAuthState {
  oa_config : Config;
  oa_authorize_flow : AuthorizeFlow;
  oa_token_flow : TokenFlow;
  oa_revoke_flow : RevokeFlow;
  oa_introspect_flow : IntrospectFlow;
  oa_logout_flow : LogoutFlow;
  oa_device_flow : DeviceFlow;
}.

(** The requests of the flows. *)
Definition authorize_request_of (session_token : option string) (q : AuthorizeQuery) : AuthorizeRequest :=
  mkAuthorizeRequest session_token (yq_client_id q) (yq_redirect_uri q) (yq_response_type q) (yq_scope q) (yq_state q)
    (yq_nonce q) (yq_prompt q) (yq_max_age q) (yq_code_challenge q) (yq_code_challenge_method q) (yq_claims q).

(** The URL that was asked for, from the path and the query string. *)
Definition return_to (path qs : string) : string := if is_empty qs then path else path +:+ "?" +:+ qs.

(** [path] and [qs] are [req.uri().path()] and [req.query_string()]. *)
Definition authorize (state : OAuthState) (req : HttpRequest) (path qs : string) (query : AuthorizeQuery) : io answer :=
  let! result := Authorize.authorize (oa_authorize_flow state) (authorize_request_of (extract req) query) in
  if negb (ar_ok result) then
    let bounce :=
      match ar_redirect result with
      | Some redirect => see_other redirect
      | None => oauth_error 400 (default "invalid_request" (ar_error result)) (default "" (ar_error_description result))
      end in
    if bool_decide (ar_error result = Some "invalid_session")
    then ret (Ok (see_other ("/login?return_to=" +:+ url_encode (return_to path qs))))
    else if bool_decide (ar_error result = Some "consent_required")
    then match ar_consent_request_id result with
         | Some req_id => ret (Ok (see_other ("/consent?req=" +:+ url_encode req_id)))
         | None => ret (Ok bounce)
         end
    else ret (Ok bounce)
  else
    let! redirect := unwrap (ar_redirect result) in
    ret (Ok (see_other redirect)).

Definition token_request_of (form : TokenForm) : TokenRequest :=
  mkTokenRequest (tq_grant_type form) (tq_code form) (tq_redirect_uri form) (tq_client_id form) (tq_client_secret form)
    (tq_code_verifier form) (tq_refresh_token form) (tq_scope form) (tq_device_code form).

Definition token (state : OAuthState) (form : TokenForm) : io answer :=
  let! result := TokenFlow.token (oa_token_flow state) (token_request_of form) in
  if negb (tr_ok result)
  then ret (Ok (oauth_error_response (default "invalid_request" (tr_error result)) (tr_error_description result)))
  else
    let! payload := unwrap (tr_payload result) in
    ret (Ok (json_response 200 payload)).

Definition revoke (state : OAuthState) (form : RevokeForm) : io answer :=
  let! result := Introspect.revoke (oa_revoke_flow state) (default "" (rq_token form)) (rq_token_type_hint form)
    (default "" (rq_client_id form)) (rq_client_secret form) in
  if negb (rr_ok result)
  then ret (Ok (oauth_error_response (default "invalid_request" (rr_error result)) (rr_error_description result)))
  else ret (Ok (finish 200)).

(** The type hint is accepted and not used. *)
Definition introspect (state : OAuthState) (form : RevokeForm) : io answer :=
  let! result := Introspect.introspect (oa_introspect_flow state) (default "" (rq_token form))
    (default "" (rq_client_id form)) (rq_client_secret form) in
  if negb (ir_ok result)
  then ret (Ok (oauth_error_response (default "invalid_request" (ir_error result)) (ir_error_description result)))
  else
    let! payload := unwrap (ir_payload result) in
    ret (Ok (json_response 200 payload)).

(** The redirect after a logout, with the caller's state appended. *)
Definition with_state (redirect : option string) (state_param : option string) : option string :=
  match redirect, state_param with
  | Some redir, Some s =>
      if negb (is_empty s)
      then Some (redir +:+ (if contains_byte "?"%char redir then "&" else "?") +:+ "state=" +:+ url_encode s)
      else Some redir
  | _, _ => redirect
  end.

(** The answer, and the back-channel deliveries the flow spawned. *)
Definition logout (state : OAuthState) (req : HttpRequest) (query : LogoutQuery) : io (answer * list Delivery) :=
  let! ' (result, tasks) := oauth_logout (oa_logout_flow state) (oq_id_token_hint query) (extract req)
    (oq_post_logout_redirect_uri query) in
  let final_redirect := with_state (validated_post_logout_redirect_uri result) (oq_state query) in
  ret (match frontchannel_logout_uris result with
       | _ :: _ => render_page (mkLogoutPage (frontchannel_logout_uris result) final_redirect)
       | [] =>
           match final_redirect with
           | Some redir => Ok (see_other redir)
           | None => Ok (message 200 (if terminated result then "logged out" else "no active session"))
           end
       end, tasks).

Definition device_error (status : Z) (error description : option string) : HttpResponse :=
  oauth_error status (default "invalid_request" error) (default "" description).

(** After the limit. *)
Definition device_request (state : OAuthState) (client_id : string) (scope : option string) : io answer :=
  let! result := request_device_authorization (oa_device_flow state) client_id scope in
  if negb (dar_ok result) then ret (Ok (device_error 400 (dar_error result) (dar_error_description result)))
  else
    let! payload := unwrap (dar_payload result) in
    ret (Ok (json_response 200 payload)).

Definition device_authorization (state : OAuthState) (form : DeviceAuthForm) : io answer :=
  let client_id_owned := default "" (dq_client_id form) in
  let cfg := cfg_ratelimit (oa_config state) in
  let run := device_request state client_id_owned (dq_scope form) in
  if negb (is_empty client_id_owned)
  then apply_limit (Keys.rl_device_auth (trim client_id_owned)) (device_auth_client_max cfg) (device_auth_client_window cfg) run
  else run.

Definition device_verify (req : HttpRequest) (form : DeviceVerifyForm) : io answer :=
  let approve := negb (match vq_action form with Some s => eq_ignore_ascii_case s "deny" | None => false end) in
  let! result := verify_user_code (default "" (vq_user_code form)) (extract req) approve in
  if negb (dvr_ok result)
  then
    let status := if bool_decide (dvr_error result = Some "invalid_session") then 401%Z else 400%Z in
    ret (Ok (device_error status (dvr_error result) (dvr_error_description result)))
  else ret (Ok (message 200 (if approve then "device authorized" else "device denied"))).
End Handlers.

(** ** The consent screen *)

Record ConsentPage := mkConsentPage {
  cp_request_id : string;
  cp_client_name : string;
  cp_client_id : string;
  cp_client_initial : string;
  cp_scopes : list string;
  cp_user_label : string;
  cp_redirect_host : string;
  cp_error : option string;
}.

Definition consent_not_found : ConsentPage :=
  mkConsentPage "" "" "" "?" [] "" "" (Some "Consent request not found or expired.").

Record ConsentForm := mkConsentForm { cf_req : option string; cf_action : option string }.

Definition redirect_host `{UrlLib} (uri : string) : string :=
  if is_empty uri then ""
  else
    match url_parse uri with
    | Some u =>
        let host := default "" (url_host u) in
        if is_empty host then uri
        else
          match url_port u with
          | Some p => url_scheme u +:+ "://" +:+ host +:+ ":" +:+ port_text p
          | None => url_scheme u +:+ "://" +:+ host
          end
    | None => uri
    end.

Section ConsentScreen.
Context `{RedisServer} `{Env} `{Crypto} `{UrlCodec} `{UrlLib} `{!Askama ConsentPage}.
Context `{!JsonCodec ClientSnapshot} `{!JsonCodec SessionSnapshot} `{!JsonCodec PendingAuthorization} `{!JsonCodec AuthorizationCode}.

(** The session of the request, or the way to the login page. *)
Definition with_session (req : HttpRequest) (k : SessionWithUser -> io answer) : io answer :=
  let! session := match extract req with
    | Some t => find_active_session t
    | None => ret None
    end in
  match session with
  | None => ret (Ok (see_other "/login"))
  | Some session => k session
  end.

Definition consent_page (session : SessionWithUser) (pending : PendingAuthorization) (client : option Client) : ConsentPage :=
  let client_name := default (pa_client_id pending) (client ≫= (fun c => nonempty (cl_name c))) in
  mkConsentPage (pa_request_id pending) client_name (pa_client_id pending)
    (match chars client_name with c :: _ => to_ascii_uppercase c | [] => "?" end)
    (sorted (parse (pa_scope pending)))
    (if negb (is_empty (swu_user_email session)) then swu_user_email session else swu_user_username session)
    (redirect_host (pa_redirect_uri pending)) None.

Definition render (clients : ClientRepository) (req : HttpRequest) (query_req : option string) : io answer :=
  with_session req (fun session =>
  let! pending := Consent.get (default "" query_req) in
  match pending with
  | None => ret (render_page consent_not_found)
  | Some pending =>
      if negb (bool_decide (ses_id (swu_session session) = pa_session_id pending))
      then ret (Ok (text_response 403 "session mismatch"))
      else
        let! client := Client.find_by_client_id clients (pa_client_id pending) in
        ret (render_page (consent_page session pending client))
  end).

(** Where a refused request goes back to. *)
Definition denied_location (pending : PendingAuthorization) : string :=
  let sep := if contains_byte "?"%char (pa_redirect_uri pending) then "&" else "?" in
  let location := pa_redirect_uri pending +:+ sep +:+ "error=access_denied&error_description="
                    +:+ url_encode "user denied consent" in
  match nonempty (pa_state pending) with
  | Some s => location +:+ "&state=" +:+ url_encode s
  | None => location
  end.

Definition submit (flow : AuthorizeFlow) (req : HttpRequest) (form : ConsentForm) : io answer :=
  with_session req (fun session =>
  let! pending := Consent.take (default "" (cf_req form)) in
  match pending with
  | None => ret (render_page consent_not_found)
  | Some pending =>
      if negb (bool_decide (ses_id (swu_session session) = pa_session_id pending))
      then ret (Ok (text_response 403 "session mismatch"))
      else
        let approve := match cf_action form with Some s => eq_ignore_ascii_case s "allow" | None => false end in
        if negb approve then ret (Ok (see_other (denied_location pending)))
        else
          let! result := complete_after_consent flow pending in
          if negb (ar_ok result)
          then ret (Ok (text_response 400 (default "" (ar_error result) +:+ ": " +:+ default "" (ar_error_description result))))
          else
            let! redirect := unwrap (ar_redirect result) in
            ret (Ok (see_other redirect))
  end).
End ConsentScreen.

(** ** What the handlers do *)

(** A handler follows a flow: a failure of the flow is its failure, a result of the
    flow becomes a response, in the state the flow left. *)
Definition follows `{RedisServer} {A} (R : A -> HttpResponse -> Prop) (m : io A) (h : io answer) : Prop :=
  forall w, match m w with
            | (Ok a, w1) => exists resp, h w = (Ok (Ok resp), w1) /\ R a resp
            | (Err e, w1) => h w = (Err e, w1)
            end.

(** The status of an error, and its name in the body. *)
Definition is_error (status : string -> Z) (e : option string) (resp : HttpResponse) : Prop :=
  exists name, e = Some name /\ rs_status resp = status name
    /\ exists m, rs_body resp = Json (JObj m) /\ m !! "error" = Some (JStr name).

Definition is_oauth_error : option string -> HttpResponse -> Prop :=
  is_error (fun name => if bool_decide (name = "invalid_client") then 401 else 400)%Z.

(** The errors of the device endpoint, and of its verification page. *)
Definition is_bad_request : option string -> HttpResponse -> Prop := is_error (fun _ => 400%Z).
Definition is_verify_error : option string -> HttpResponse -> Prop :=
  is_error (fun name => if bool_decide (name = "invalid_session") then 401 else 400)%Z.

(** The answers of the authorization endpoint: a redirect to what the flow chose,
    also with an error if the flow sends one back; the login page if there is no
    session; the consent screen if there is a request to show on it; otherwise the
    error. *)
Definition is_authorize_answer `{UrlCodec} (back : string) (r : AuthorizeResult) (resp : HttpResponse) : Prop :=
  if ar_ok r then exists url, ar_redirect r = Some url /\ resp = see_other url
  else if bool_decide (ar_error r = Some "invalid_session")
  then resp = see_other ("/login?return_to=" +:+ url_encode back)
  else
    match (if bool_decide (ar_error r = Some "consent_required") then ar_consent_request_id r else None) with
    | Some id => resp = see_other ("/consent?req=" +:+ url_encode id)
    | None =>
        match ar_redirect r with
        | Some url => resp = see_other url
        | None => is_bad_request (ar_error r) resp
        end
    end.

(** A result is a payload or an error. *)
Definition is_answer (ok : bool) (payload : option Value) (e : option string) (resp : HttpResponse) : Prop :=
  if ok then exists v, payload = Some v /\ resp = json_response 200 v else is_oauth_error e resp.

Section Specs.
Context `{RedisServer} `{Env} `{JwtLib} `{Texts} `{Crypto} `{ValueParser} `{Argon2Lib} `{UnicodeTables} `{UrlCodec}.
Context `{!JsonCodec ClientSnapshot} `{!JsonCodec SessionSnapshot} `{!JsonCodec PendingAuthorization} `{!JsonCodec AuthorizationCode}.

(** A handler that runs a flow and then, whatever the result [P] allows, returns a
    response without touching the state. *)
Lemma follows_bind {A} (P : A -> Prop) (R : A -> HttpResponse -> Prop) (m : io A) (k : A -> io answer) :
  yields P m -> (forall a w, P a -> exists resp, k a w = (Ok (Ok resp), w) /\ R a resp) -> follows R m (bind m k).
Proof.
  intros Hy Hk w. destruct (m w) as [[a|e] w1] eqn:Hm; [|by apply bind_err].
  destruct (Hk a w1 (Hy _ _ _ Hm)) as (resp & Hr & HR). exists resp. split; [|done]. by rewrite (bind_eq _ _ _ _ _ Hm).
Qed.

Lemma unwrap_some {A B} (a : A) (k : A -> io B) w : bind (unwrap (Some a)) k w = k a w.
Proof. apply bind_ret_l. Qed.

Lemma oauth_error_spec name d : is_oauth_error (Some name) (oauth_error_response name d).
Proof. exists name. split; [done|]. split; [done|]. eexists. split; [done|]. reflexivity. Qed.

Lemma device_error_spec status name d : is_error status (Some name) (device_error (status name) (Some name) d).
Proof. exists name. split; [done|]. split; [done|]. eexists. split; [done|]. reflexivity. Qed.

(** The results of the flows. *)
Definition token_result (r : TokenResult) : Prop := if tr_ok r then is_Some (tr_payload r) else is_Some (tr_error r).
Definition introspect_result (r : IntrospectResult) : Prop := if ir_ok r then is_Some (ir_payload r) else is_Some (ir_error r).
Definition revoke_result (r : RevokeResult) : Prop := rr_ok r = true \/ is_Some (rr_error r).
Definition device_result (r : DeviceAuthorizationResult) : Prop := if dar_ok r then is_Some (dar_payload r) else is_Some (dar_error r).
Definition verify_result (r : DeviceVerifyResult) : Prop := dvr_ok r = true \/ is_Some (dvr_error r).
Definition authorize_result (r : AuthorizeResult) : Prop := if ar_ok r then is_Some (ar_redirect r) else is_Some (ar_error r).

Ltac result_solve := yields_steps; first [by eexists | by left | by right; eexists | done].

Lemma token_yields self req : yields token_result (TokenFlow.token self req).
Proof.
  unfold TokenFlow.token. cbv zeta. yields_steps.
  - unfold from_authorization_code, with_client, with_auth, issue_in_tx. cbv zeta. result_solve.
  - unfold from_refresh_token, with_client, with_auth, issue_in_tx. cbv zeta. result_solve.
  - unfold from_client_credentials, with_client, with_auth. cbv zeta. result_solve.
  - unfold from_device_code, with_client, with_auth, issue_in_tx. cbv zeta. result_solve.
  - by eexists.
Qed.

Lemma introspect_yields self token cid secret : yields introspect_result (Introspect.introspect self token cid secret).
Proof. unfold Introspect.introspect. result_solve. Qed.

Lemma revoke_yields self token hint cid secret : yields revoke_result (Introspect.revoke self token hint cid secret).
Proof. unfold Introspect.revoke. result_solve. Qed.

Lemma device_yields self cid scope : yields device_result (request_device_authorization self cid scope).
Proof. unfold request_device_authorization. result_solve. Qed.

Lemma verify_yields uc tok approve : yields verify_result (verify_user_code uc tok approve).
Proof. unfold verify_user_code. result_solve. Qed.

Lemma issue_code_yields sid uid cid uri scope st nonce ch m claims :
  yields authorize_result (issue_code sid uid cid uri scope st nonce ch m claims).
Proof. unfold issue_code. yields_steps. by eexists. Qed.

Lemma authorize_yields self req : yields authorize_result (Authorize.authorize self req).
Proof.
  unfold Authorize.authorize, consent_or_code. cbv zeta.
  repeat first [apply issue_code_yields | yields_step]; by eexists.
Qed.

Lemma complete_yields self pending : yields authorize_result (complete_after_consent self pending).
Proof. unfold complete_after_consent. repeat first [apply issue_code_yields | yields_step]; by eexists. Qed.
End Specs.

Section Browser.
Context `{RedisLaws} `{EnvLaws} `{JwtLib} `{Texts} `{Crypto} `{ValueParser} `{Argon2Lib} `{UnicodeTables} `{UrlCodecLaws}.
Context `{!JsonCodec ClientSnapshot} `{!JsonCodecLaws ClientSnapshot} `{!JsonCodec SessionSnapshot}
  `{!JsonCodecLaws SessionSnapshot} `{!JsonCodec PendingAuthorization} `{!JsonCodec AuthorizationCode}.
Implicit Types w : World.

(** Where [authorize] may send a browser: to the login page with the way back, to
    the consent screen of the request that was just parked, or to a registered URI. *)
Definition browser_target (flow : AuthorizeFlow) (req : AuthorizeRequest) (back : string) w w' (l : string) : Prop :=
  (exists enc, l = "/login?return_to=" +:+ enc /\ url_decode enc = Some back)
  \/ (exists enc p h client m n w1, l = "/consent?req=" +:+ enc /\ url_decode enc = Some (pa_request_id p)
        /\ session_ok req w w' h /\ target_ok req w client
        /\ pending_for req h client m (clock n + minutes CONSENT_REQUEST_TTL_MINUTES)%Z p
        /\ Consent.put (af_pending_ttl flow) p w1 = (Ok tt, w'))
  \/ exists client q ps, target_ok req w client /\ query_pairs q = Some ps
       /\ l = default "" (aq_redirect_uri req) +:+ (if contains_byte "?" (default "" (aq_redirect_uri req)) then "&" else "?") +:+ q.

Lemma see_other_location cookies url l : ("Location", l) ∈ rs_headers (see_other_with cookies url) -> l = url.
Proof.
  unfold see_other_with. destruct (header_value_ok url); [|by intros Hl%not_elem_of_nil].
  by intros [[= ->]|Hl%not_elem_of_nil]%elem_of_cons.
Qed.

Lemma authorize_browser state req path qs query w :
  pg_wf (pg w) -> coherent w ->
  wp (authorize state req path qs query) (fun r w' => Session.touched (pg w) (pg w') /\
    forall resp l, r = Ok (Ok resp) -> ("Location", l) ∈ rs_headers resp ->
      browser_target (oa_authorize_flow state) (authorize_request_of (extract req) query) (return_to path qs) w w' l) w.
Proof.
  intros Hwf Hco. unfold authorize. set (q := authorize_request_of (extract req) query). wp_step.
  wp_call authorize_spec; [done|done|]. intros [res|e] w1 [Htd Ho]; [|done]. specialize (Ho res eq_refl).
  assert (Hredir : forall url, ar_redirect res = Some url -> forall l, ("Location", l) ∈ rs_headers (see_other url) ->
    browser_target (oa_authorize_flow state) q (return_to path qs) w w1 l).
  { intros url Hurl l ->%see_other_location. right. right.
    destruct (outcome_redirect _ _ _ _ _ _ Ho Hurl) as (client & qr & ps & Ht & Hu & Hps & _). by exists client, qr, ps. }
  destruct (ar_ok res) eqn:Hok; cbn [negb].
  { wp_step. unfold unwrap. destruct (ar_redirect res) as [url|] eqn:Hurl; wp_step; [|done].
    wp_step. split; [done|]. intros resp l [= <-] Hl. by eapply Hredir. }
  case_bool_decide as Hses.
  { wp_step. split; [done|]. intros resp l [= <-] ->%see_other_location. left. eexists. split; [done|]. apply url_decode_encode. }
  set (bounce := match ar_redirect res with Some _ => _ | None => _ end).
  assert (Hb : Session.touched (pg w) (pg w1) /\ forall resp l, @Ok err answer (Ok bounce) = Ok (Ok resp) ->
    ("Location", l) ∈ rs_headers resp -> browser_target (oa_authorize_flow state) q (return_to path qs) w w1 l).
  { split; [done|]. intros resp l [= <-]. unfold bounce. destruct (ar_redirect res) as [url|] eqn:Hurl; [by apply Hredir|].
    by intros Hl%not_elem_of_nil. }
  case_bool_decide as Hcr; [|by wp_step]. destruct (ar_consent_request_id res) as [rid|] eqn:Hrid; [|by wp_step].
  wp_step. split; [done|]. intros resp l [= <-] ->%see_other_location. right. left.
  destruct Ho as [| |client h m p w2 n|]; try done. injection Hrid as <-.
  eexists _, p, h, client, m, n, w2. split; [done|]. split; [apply url_decode_encode|]. done.
Qed.

(** *** Consent *)

(** Parking a request writes its own key only. *)
Lemma put_pending_frame ttl p w :
  (0 < ttl / ns_per_sec)%Z ->
  wp (Consent.put ttl p) (fun _ w' => redis_frame (eq (Keys.pending_auth (pa_request_id p))) w w') w.
Proof.
  intros Httl. unfold Consent.put. destruct (is_empty _); [wp_step; apply frame_refl|]. do 2 wp_step.
  destruct (if (0 <? _)%Z then _ else _) as [t|] eqn:Ht; [|wp_step; auto with wp].
  assert (Hpos : (0 < t)%Z) by (destruct (0 <? _)%Z eqn:?; [|destruct (_ =? 0)%Z]; simplify_eq; lia).
  destruct (json_to_string p) as [payload|]; [|wp_step; auto with wp].
  do 2 wp_step; [|auto with wp]. apply wp_redis_set_ex; [done| |auto with wp].
  intros r s _ Hu. eapply (frame_cmd _ _ (bump (bump w))); [auto with wp|exact Hu|done].
Qed.

Lemma shrinks_coherent w w' : redis_shrinks w w' -> pg w' = pg w -> coherent w -> coherent w'.
Proof.
  intros Hs Hp Hco cid snap Hne (v & dl & raw & Hl & Hx). rewrite Hp. apply Hco; [done|]. exists v, dl, raw.
  split; [|done]. by eapply shrinks_rlive.
Qed.

Context `{UrlLib} `{!Askama ConsentPage}.

(** The browser that submits the consent form has the session that asked. *)
Definition owner (req : HttpRequest) w w' (pending : PendingAuthorization) : Prop :=
  exists tok h, extract req = Some tok /\ trim tok <> "" /\ Session.source tok w h /\ swu_user_enabled h = true
    /\ Session.fresh_between w w' h /\ ses_id (swu_session h) = pa_session_id pending.

Definition allows (form : ConsentForm) : Prop := exists s, cf_action form = Some s /\ eq_ignore_ascii_case s "allow" = true.

(** The request that is answered, as it was taken. *)
Definition answered (req : HttpRequest) (form : ConsentForm) w (pending : PendingAuthorization) w2 : Prop :=
  owner req w w2 pending /\ Session.touched (pg w) (pg w2)
  /\ exists w1, tick w <= tick w1 /\ take (default "" (cf_req form)) w1 = (Ok (Some pending), w2).

(** The request was taken by its owner, who answered [allow]. *)
Definition consented (req : HttpRequest) (form : ConsentForm) w (pending : PendingAuthorization) w2 : Prop :=
  answered req form w pending w2 /\ allows form.

(** What a submission comes to: the consent, with the code; the consent alone, when
    the code could not be stored; or nothing but an access time. *)
Definition submitted (req : HttpRequest) (form : ConsentForm) w (r : res err answer) w' : Prop :=
  (exists pending w2 res url, consented req form w pending w2 /\ ar_ok res = true /\ resumed pending w2 res w'
     /\ ar_redirect res = Some url /\ r = Ok (Ok (see_other url)))
  \/ (exists pending w2 e, consented req form w pending w2 /\ grant_made pending w2 w' /\ r = Err e)
  \/ (Session.touched (pg w) (pg w') /\ forall resp l, r = Ok (Ok resp) -> ("Location", l) ∈ rs_headers resp ->
        l = "/login" \/ exists pending, answered req form w pending w' /\ l = denied_location pending).

Lemma submit_spec flow req form w :
  pg_wf (pg w) -> coherent w -> wp (submit flow req form) (submitted req form w) w.
Proof.
  intros Hwf Hco. unfold submit, with_session.
  assert (Herr : forall e w', Session.touched (pg w) (pg w') -> submitted req form w (Err e) w')
    by (intros e w' Htd; right; right; by split).
  assert (Hquiet : forall r w', Session.touched (pg w) (pg w') -> (forall resp l, r = Ok resp -> ("Location", l) ∉ rs_headers resp) ->
    submitted req form w (Ok r) w').
  { intros r w' Htd Hl. right; right. split; [done|]. intros resp l [= ->] Hin. by destruct (Hl resp l). }
  wp_step. apply wp_session; [|by auto]. intros o w1 Htd Ht1 Hwf1 Hco1 Hs. destruct o as [h|].
  2:{ wp_step. right; right. split; [done|]. intros resp l [= <-] ->%see_other_location. by left. }
  destruct (Hs h eq_refl) as (tok & Htok & Hne & Hsrc & Hen & n & Hn & Hfr).
  wp_step. apply run_wp. intros r w2 Htake.
  destruct (wp_run _ _ _ _ _ (take_spec _ w1) Htake) as (Hp2 & Hsh & _).
  assert (Ht2 : tick w1 <= tick w2) by apply Hsh.
  assert (Htd2 : Session.touched (pg w) (pg w2)) by by rewrite Hp2.
  destruct r as [[pending|]|e]; [| |by apply Herr].
  2:{ wp_step. apply Hquiet; [done|]. unfold render_page. destruct (askama_render _); [|done].
      intros resp l [= <-]. apply not_elem_of_nil. }
  case_bool_decide as Hid; cbn [negb].
  2:{ wp_step. apply Hquiet; [done|]. intros resp l [= <-]. apply not_elem_of_nil. }
  assert (Hans : answered req form w pending w2).
  { split; [|split; [done|by exists w1]]. exists tok, h. do 4 (split; [done|]). split; [|done]. exists n. split; [lia|done]. }
  destruct (match cf_action form with Some _ => _ | None => _ end) eqn:Hact; cbn [negb].
  2:{ wp_step. right; right. split; [done|]. intros resp l [= <-] ->%see_other_location. right. by exists pending. }
  assert (Hcon : consented req form w pending w2).
  { split; [done|]. unfold allows. destruct (cf_action form) as [s|]; [by exists s|done]. }
  wp_step. wp_call complete_spec; [rewrite Hp2; by apply Hwf1|eapply shrinks_coherent; [done|done|by apply Hco1]|].
  intros [res|e] w3 Hres.
  2:{ destruct Hres as [Hp3|Hg]; [apply Herr; by rewrite Hp3|]. right; left. by exists pending, w2, e. }
  destruct (ar_ok res) eqn:Hok; cbn [negb].
  - assert (Hurl : exists url, ar_redirect res = Some url).
    { pose proof Hres as Hr. unfold resumed in Hr. rewrite Hok in Hr. destruct Hr as (_ & _ & url & _ & _ & _ & _ & -> & _).
      by exists url. }
    destruct Hurl as [url Hurl]. wp_step. rewrite Hurl. unfold unwrap. do 2 wp_step. left. by exists pending, w2, res, url.
  - wp_step. unfold resumed in Hres. rewrite Hok in Hres. destruct Hres as [_ Hp3].
    apply Hquiet; [by rewrite Hp3|]. intros resp l [= <-]. apply not_elem_of_nil.
Qed.
End Browser.

(** ** Theorems *)

(** C38: The OAuth endpoints answer whatever the flows decide, and never panic.  Each
    handler fails exactly when its flow fails and otherwise answers in the state the
    flow left: the [unwrap]s on a payload or a redirect are always on a value.  A
    granted token request, an introspection and a device request have status 200 and
    the flow's payload, a revocation an empty 200 and a device verification a 200; a
    refusal of these has the flow's error name in its body, with status 401 for
    [invalid_client] at the token, introspection and revocation endpoints and for
    [invalid_session] at the device page, and 400 for everything else.  The
    authorization endpoint redirects to what the flow chose; without a session it
    redirects to the login page with the way back, with a parked request to its
    consent screen, with an error for the client to the URI the flow gives, and
    otherwise it is a 400 with the flow's error name. *)
Theorem oauth_answers `{RedisServer} `{Env} `{JwtLib} `{Texts} `{Crypto} `{ValueParser} `{Argon2Lib} `{UnicodeTables} `{UrlCodec}
  `{!JsonCodec ClientSnapshot} `{!JsonCodec SessionSnapshot} `{!JsonCodec PendingAuthorization} `{!JsonCodec AuthorizationCode}
  state :
  (forall form, follows (fun r => is_answer (tr_ok r) (tr_payload r) (tr_error r))
     (TokenFlow.token (oa_token_flow state) (token_request_of form)) (token state form))
  /\ (forall form, follows (fun r => is_answer (ir_ok r) (ir_payload r) (ir_error r))
       (Introspect.introspect (oa_introspect_flow state) (default "" (rq_token form)) (default "" (rq_client_id form))
          (rq_client_secret form)) (introspect state form))
  /\ (forall form, follows (fun r resp => if rr_ok r then resp = finish 200 else is_oauth_error (rr_error r) resp)
       (Introspect.revoke (oa_revoke_flow state) (default "" (rq_token form)) (rq_token_type_hint form)
          (default "" (rq_client_id form)) (rq_client_secret form)) (revoke state form))
  /\ (forall cid scope, follows (fun r resp => if dar_ok r then exists v, dar_payload r = Some v /\ resp = json_response 200 v
         else is_bad_request (dar_error r) resp)
       (request_device_authorization (oa_device_flow state) cid scope) (device_request state cid scope))
  /\ (forall req form,
       let approve := negb (match vq_action form with Some s => eq_ignore_ascii_case s "deny" | None => false end) in
       follows (fun r resp => if dvr_ok r then resp = message 200 (if approve then "device authorized" else "device denied")
         else is_verify_error (dvr_error r) resp)
       (verify_user_code (default "" (vq_user_code form)) (extract req) approve) (device_verify req form))
  /\ (forall req path qs query, follows (is_authorize_answer (return_to path qs))
       (Authorize.authorize (oa_authorize_flow state) (authorize_request_of (extract req) query))
       (authorize state req path qs query)).
Proof.
  split; [|split; [|split; [|split; [|split]]]]; intros; (eapply follows_bind; [first [apply token_yields | apply introspect_yields
    | apply revoke_yields | apply device_yields | apply verify_yields | apply authorize_yields]|]); intros r w Hr.
  - unfold token_result, is_answer in *. destruct (tr_ok r); cbn [negb].
    + destruct Hr as [v ->]. eexists. split; [by rewrite unwrap_some|]. eauto.
    + destruct Hr as [e ->]. eexists. split; [reflexivity|]. apply oauth_error_spec.
  - unfold introspect_result, is_answer in *. destruct (ir_ok r); cbn [negb].
    + destruct Hr as [v ->]. eexists. split; [by rewrite unwrap_some|]. eauto.
    + destruct Hr as [e ->]. eexists. split; [reflexivity|]. apply oauth_error_spec.
  - unfold revoke_result in Hr. destruct (rr_ok r); cbn [negb]; [eexists; by split|].
    destruct Hr as [?|[e ->]]; [done|]. eexists. split; [reflexivity|]. apply oauth_error_spec.
  - unfold device_result in Hr. destruct (dar_ok r); cbn [negb].
    + destruct Hr as [v ->]. eexists. split; [by rewrite unwrap_some|]. eauto.
    + destruct Hr as [e ->]. eexists. split; [reflexivity|]. apply (device_error_spec (fun _ => 400%Z)).
  - unfold verify_result in Hr. destruct (dvr_ok r); cbn [negb]; [eexists; by split|].
    destruct Hr as [?|[e ->]]; [done|]. eexists. split; [reflexivity|].
    replace (bool_decide (Some e = Some "invalid_session")) with (bool_decide (e = "invalid_session"))
      by (apply bool_decide_ext; naive_solver).
    apply (device_error_spec (fun name => if bool_decide (name = "invalid_session") then 401 else 400)%Z).
  - unfold authorize_result, is_authorize_answer in *. destruct (ar_ok r); cbn [negb].
    + destruct Hr as [url ->]. eexists. split; [by rewrite unwrap_some|]. eauto.
    + destruct Hr as [e ->]. case_bool_decide; [eexists; by split|].
      case_bool_decide; [destruct (ar_consent_request_id r); [eexists; by split|]|];
        (destruct (ar_redirect r); eexists; (split; [reflexivity|]); [done|apply (device_error_spec (fun _ => 400%Z))]).
Qed.

(** C8: The authorization endpoint sends a browser to three places only: to the login
    page, with the way back to the request that was made, which reads back exactly; to
    the consent screen of the request that was parked for the session of this browser;
    or to the URI asked for, registered for the client, with a query string that reads
    back.  Nothing in the tables changes but an access time. *)
Theorem authorize_sends_browser `{RedisLaws} `{EnvLaws} `{JwtLib} `{Texts} `{Crypto} `{ValueParser} `{Argon2Lib} `{UnicodeTables}
  `{UrlCodecLaws} `{!JsonCodec ClientSnapshot} `{!JsonCodecLaws ClientSnapshot} `{!JsonCodec SessionSnapshot}
  `{!JsonCodecLaws SessionSnapshot} `{!JsonCodec PendingAuthorization} `{!JsonCodec AuthorizationCode}
  state req path qs query w resp w' :
  pg_wf (pg w) -> coherent w -> authorize state req path qs query w = (Ok (Ok resp), w') ->
  Session.touched (pg w) (pg w')
  /\ forall l, ("Location", l) ∈ rs_headers resp ->
       browser_target (oa_authorize_flow state) (authorize_request_of (extract req) query) (return_to path qs) w w' l.
Proof.
  intros Hwf Hco Hrun. destruct (wp_run _ _ _ _ _ (authorize_browser state req path qs query w Hwf Hco) Hrun) as [Htd Hl].
  split; [done|]. intros l Hin. by apply (Hl resp l).
Qed.

(** C9: Only the user who asked can consent.  Whatever a submission of the consent
    form comes to, failures included, there are three cases.  Either the browser that
    sent it holds the active session, of an enabled user, for which the request was
    parked, and the answer was [allow]: the request was taken, so it cannot be answered
    again, its scopes are added to the grant of that user and that client and no other
    grant changes, and the browser is sent with a code to the URI of the request,
    checked again.  Or all of that happened but storing the code failed, and the
    submission is an error.  Or no grant changes, only an access time may, and a
    response that redirects goes to the login page or back to the client of the
    browser's own request with the denial. *)
Theorem consent_by_owner `{RedisLaws} `{EnvLaws} `{Crypto} `{UrlCodecLaws} `{UrlLib} `{!Askama ConsentPage}
  `{!JsonCodec ClientSnapshot} `{!JsonCodecLaws ClientSnapshot} `{!JsonCodec SessionSnapshot}
  `{!JsonCodecLaws SessionSnapshot} `{!JsonCodec PendingAuthorization} `{!JsonCodec AuthorizationCode}
  flow req form w r w' :
  pg_wf (pg w) -> coherent w -> submit flow req form w = (r, w') -> submitted req form w r w'.
Proof. intros Hwf Hco Hrun. exact (wp_run _ _ _ _ _ (submit_spec flow req form w Hwf Hco) Hrun). Qed.

(** ** Witnesses *)

Import Instances JsonInstance JwtInstance.

#[local] Instance demo_consent_page : Askama ConsentPage := {| askama_render _ := Some "<html>" |}.
#[local] Instance demo_urls : UrlLib := {| url_parse _ := None; port_text _ := "0" |}.

Definition demo_oauth : OAuthState :=
  mkOAuthState demo_config demo_authorize (mkTokenFlow (client_repository_new 60000000000) (mkTokenIssuer demo_signer demo_hmac) demo_hmac)
    demo_revoke demo_introspect (mkLogoutFlow demo_validator (client_repository_new 60000000000) "https://auth")
    (mkDeviceFlow (client_repository_new 60000000000) "https://auth").
Definition browser : HttpRequest := with_cookie SESSION_COOKIE "tok".
Definition authorize_query (scope : string) : AuthorizeQuery :=
  mkAuthorizeQuery (Some "app") (Some "https://app/cb") (Some "code") (Some scope) (Some "st") None None (Some 3600%Z)
    (Some "challenge") (Some "S256") None.

Definition location (r : HttpResponse) : string := default "" (snd <$> head (rs_headers r)).

(** A browser without a session is sent to the login page, with the way back. *)
Lemma authorize_sends_browser_witness :
  let run := authorize demo_oauth (mkHttpRequest [] [] None) "/oauth/authorize" "client_id=app" (authorize_query "openid")
               world_authorize in
  exists enc, location (demo_response run.1) = "/login?return_to=" +:+ enc /\ url_decode enc = Some "/oauth/authorize?client_id=app".
Proof.
  intros run.
  assert (Hr : run.1 = Ok (Ok (demo_response run.1))) by (vm_compute; reflexivity).
  assert (Hl : exists l, rs_headers (demo_response run.1) = [("Location", "/login" +:+ l)]) by (eexists; vm_compute; reflexivity).
  destruct Hl as [l Hl]. unfold location. rewrite Hl. cbn [head fmap option_fmap option_map snd default].
  destruct (authorize_sends_browser demo_oauth (mkHttpRequest [] [] None) "/oauth/authorize" "client_id=app" (authorize_query "openid")
    world_authorize _ _ pg_authorize_wf world_authorize_coherent (run_fst _ _ _ Hr)) as [_ Ht].
  specialize (Ht ("/login" +:+ l)). rewrite Hl in Ht. destruct (Ht ltac:(left)) as [Hlogin|[(e & p & h & c & m & n & w1 & Heq & _)|(c & q & ps & _ & _ & Heq)]].
  - exact Hlogin.
  - discriminate Heq.
  - discriminate Heq.
Defined.

(** The request of the owner of the session waits for an answer. *)
Definition world_asked : World := (Consent.put 600000000000 email_pending world_authorize).2.

Lemma consent_by_owner_witness :
  let run := submit demo_authorize browser (mkConsentForm (Some "r1") (Some "allow")) world_asked in
  rs_status (demo_response run.1) = 303%Z
  /\ exists pending w2, answered browser (mkConsentForm (Some "r1") (Some "allow")) world_asked pending w2
       /\ pg run.2 <> pg world_asked.
Proof.
  intros run.
  assert (Hr : run.1 = Ok (Ok (demo_response run.1))) by (vm_compute; reflexivity).
  assert (Hs : rs_status (demo_response run.1) = 303%Z) by (vm_compute; reflexivity).
  assert (Hwf : pg_wf (pg world_asked)) by exact pg_authorize_wf.
  assert (Hco : coherent world_asked).
  { intros cid snap Hne Hc. apply (world_authorize_coherent cid snap Hne). eapply cached_frame; [| |exact Hc].
    - apply (wp_run _ _ _ _ _ (put_pending_frame 600000000000 email_pending world_authorize eq_refl) (surjective_pairing _)).
    - simpl. key_ne. }
  assert (Hg : bool_decide (granted (pg run.2) 7 5 = granted (pg world_asked) 7 5) = false) by (vm_compute; reflexivity).
  rewrite bool_decide_eq_false in Hg.
  split; [exact Hs|].
  destruct (consent_by_owner demo_authorize browser (mkConsentForm (Some "r1") (Some "allow")) world_asked _ _ Hwf Hco
    (run_fst _ _ _ Hr)) as [(pending & w2 & res & url & [Hans _] & _)|[(pending & w2 & e & _ & _ & He)|[Htd _]]]; [|done|].
  - exists pending, w2. split; [exact Hans|]. intros Heq. apply Hg. by rewrite Heq.
  - exfalso. apply Hg. destruct (touched_rest _ _ Htd) as (_ & _ & Hu). unfold granted, run. by rewrite Hu.
Defined.
