(* ===== verification/Bootstrap.v ===== *)
(** * Start-up seeding ([bootstrap/role.rs], [bootstrap/admin.rs],
    [bootstrap/web_app_client.rs], [bootstrap/lock.rs])

    Before the server listens it makes sure that the core roles, an administrator and
    two clients exist, and migrates a secret that is still in plain text. *)

From stdpp Require Import base tactics list gmap strings.
From Stdlib Require Import ZArith Lia.
From S2P Require Import Prelude RustStr Redis Schema World Ext Demo DemoJson RedisKeys Role User Client Integrity Secrets.
From S2P Require Import Jwt RefreshToken Issuer Password.

Local Open Scope auth_scope.

Section Bootstrap.
Context `{RedisServer} `{Env} `{Argon2Lib} `{Crypto} `{ValueParser} `{UnicodeTables} `{!JsonCodec ClientSnapshot}.

(** [SELECT pg_advisory_xact_lock($1)]: waits for the lock, which the end of the
    transaction releases. *)
Definition acquire (tx : Tx) : io Tx :=
  let! ' (_, tx) := tx_try (fun d => Ok (tt, d)) tx in
  ret tx.

(** Each seeder takes the lock in a transaction of its own, and commits it. *)
Definition locked : io unit :=
  let! tx := begin_tx in
  let! tx := acquire tx in
  commit tx.

Definition ensure_role (name description : string) : io unit :=
  let! found := Role.find_by_name name in
  match found with
  | Some _ => ret tt
  | None =>
      let! id := uuid_new_v4 in
      let! now := utc_now in
      Role.persist (mkRole id name (Some description) None now)
  end.

Definition link_admin : io unit :=
  let! admin := Role.find_by_name "admin" in
  let! user := Role.find_by_name "user" in
  match admin, user with
  | Some admin, Some user =>
      match role_parent_id admin with
      | None => ignore (Role.set_parent (role_id admin) (Some (role_id user)))
      | Some _ => ret tt
      end
  | _, _ => ret tt
  end.

Definition ensure_core_roles : io unit :=
  do! locked in
  do! ensure_role "user" "Standard authenticated user" in
  do! ensure_role "admin" "Full administrative access" in
  link_admin.

Definition create_admin_user : io User :=
  let! now := utc_now in
  let! id := uuid_new_v4 in
  let user := mkUser id "admin@gmail.com" true "admin" (Some "Admin") (Some "User") true now now in
  do! User.persist user in
  let! hashed := Secrets.hash "admin123" in
  let! cid := uuid_new_v4 in
  do! Credentials.persist (mkCredential cid "password" (Some (secret_data hashed)) (Some (credential_data hashed)) now now
        (usr_id user)) in
  ret user.

Definition assign_admin (user : User) : io unit :=
  let! admin_role := Role.find_by_name "admin" in
  match admin_role with
  | None => throw (EOther "admin role missing after bootstrap")
  | Some admin_role =>
      let! assigned := Role.is_assigned (usr_id user) (role_id admin_role) in
      if negb assigned then Role.assign_to_user (usr_id user) (role_id admin_role) else ret tt
  end.

Definition ensure_admin_user : io unit :=
  do! locked in
  let! found := User.find_by_email "admin@gmail.com" in
  let! user := match found with
    | Some u => ret u
    | None => create_admin_user
    end in
  assign_admin user.

Definition SERVICE_CLIENT_BOOTSTRAP_SECRET : string := "service-secret-change-me".

Definition web_app (id uri_id : Uuid) (now : Z) : Client :=
  mkClient id "web-app" None (Some "Web App") (Some "public") (Some "authorization_code refresh_token") (Some "code")
    (Some "openid profile email") true true (Some "http://localhost:3000") (Some "Bootstrap public client for local OAuth testing")
    (Some 900%Z) (Some 2592000%Z) None None now now [mkRedirectUri uri_id id "http://localhost:3000/callback" now].

Definition ensure_web_app (clients : ClientRepository) : io unit :=
  let! found := Client.find_by_client_id clients "web-app" in
  match found with
  | Some _ => ret tt
  | None =>
      let! now := utc_now in
      let! id := uuid_new_v4 in
      let! uri_id := uuid_new_v4 in
      Client.persist (web_app id uri_id now)
  end.

Definition service_client (id : Uuid) (secret : string) (now : Z) : Client :=
  mkClient id "service-client" (Some secret) (Some "Service Client") (Some "confidential") (Some "client_credentials") (Some "")
    (Some "openid profile email") false true None (Some "Confidential client for machine-to-machine (client_credentials)")
    (Some 900%Z) (Some 0%Z) None None now now [].

(** The upgrade of a secret that is still the literal one. *)
Definition migrate_secret (existing : Client) : io unit :=
  if bool_decide (cl_client_secret existing = Some SERVICE_CLIENT_BOOTSTRAP_SECRET)
  then
    let! hashed := ClientSecretHasher.hash SERVICE_CLIENT_BOOTSTRAP_SECRET in
    do! execute_now (fun now => update_client_secret (cl_id existing) hashed now) in
    Client.invalidate (cl_client_id existing)
  else ret tt.

Definition ensure_service_client (clients : ClientRepository) : io unit :=
  let! found := Client.find_by_client_id clients "service-client" in
  match found with
  | Some existing => migrate_secret existing
  | None =>
      let! now := utc_now in
      let! id := uuid_new_v4 in
      let! hashed := ClientSecretHasher.hash SERVICE_CLIENT_BOOTSTRAP_SECRET in
      Client.persist (service_client id hashed now)
  end.

Definition ensure_bootstrap_clients (clients : ClientRepository) : io unit :=
  do! locked in
  do! ensure_web_app clients in
  ensure_service_client clients.

(** The order in which [main] runs them. *)
Definition bootstrap (clients : ClientRepository) : io unit :=
  do! ensure_core_roles in
  do! ensure_admin_user in
  ensure_bootstrap_clients clients.
End Bootstrap.

(** ** What seeding may change *)

(** A role keeps its name and, unless it is the administrators' role without a
    parent, its parent; a client is as it was but for a migrated secret. *)
Definition role_kept (r r' : Role) : Prop :=
  role_name r' = role_name r
  /\ (role_parent_id r' = role_parent_id r \/ role_name r = "admin" /\ role_parent_id r = None).
Definition client_kept (c c' : Client) : Prop :=
  c' = c \/ cl_client_id c = "service-client" /\ cl_client_secret c = Some SERVICE_CLIENT_BOOTSTRAP_SECRET
            /\ exists s t, c' = set_client_secret s t c.

(** Nothing is removed, and what users did is not touched. *)
Record additions (d d' : Pg) : Prop := {
  add_users : users d ⊆ users d';
  add_credentials : credentials d ⊆ credentials d';
  add_user_roles : user_roles d ⊆ user_roles d';
  add_uris : redirect_uris d ⊆ redirect_uris d';
  add_roles : forall i r, roles d !! i = Some r -> exists r', roles d' !! i = Some r' /\ role_kept r r';
  add_clients : forall i c, clients d !! i = Some c -> exists c', clients d' !! i = Some c' /\ client_kept c c';
  add_sessions : user_sessions d' = user_sessions d;
  add_tokens : refresh_tokens d' = refresh_tokens d;
  add_consents : user_consents d' = user_consents d;
  add_verifications : email_verifications d' = email_verifications d;
  add_resets : password_resets d' = password_resets d;
}.

Lemma role_kept_refl r : role_kept r r.
Proof. split; [done|by left]. Qed.
Lemma client_kept_refl c : client_kept c c.
Proof. by left. Qed.
#[local] Hint Resolve role_kept_refl client_kept_refl : core.

Lemma additions_refl d : additions d d.
Proof. split; eauto. Qed.

Lemma client_kept_trans c1 c2 c3 : client_kept c1 c2 -> client_kept c2 c3 -> client_kept c1 c3.
Proof.
  intros [->|(Hc & Hs & s & t & ->)]; [done|]. intros [->|(_ & _ & s' & t' & ->)]; right; (split; [done|]); (split; [done|]);
    [by exists s, t|by exists s', t'].
Qed.

Lemma additions_trans d1 d2 d3 : additions d1 d2 -> additions d2 d3 -> additions d1 d3.
Proof.
  intros [] []. split; try (by etrans); try congruence.
  - intros i r Hr. destruct (add_roles0 i r Hr) as (r2 & Hr2 & Hn & Hp). destruct (add_roles1 i r2 Hr2) as (r3 & Hr3 & Hn3 & Hp3).
    exists r3. split; [done|]. split; [congruence|].
    destruct Hp as [Hp|?]; [|by right]. rewrite Hn, Hp in Hp3. destruct Hp3 as [Hp3|?]; [left; congruence|by right].
  - intros i c Hc. destruct (add_clients0 i c Hc) as (c2 & Hc2 & Hk). destruct (add_clients1 i c2 Hc2) as (c3 & Hc3 & Hk3).
    exists c3. split; [done|]. by eapply client_kept_trans.
Qed.
#[local] Hint Resolve additions_refl : core.

(** The statements that seeding runs. *)
Lemma insert_new_row {A} (m : gmap Uuid A) i x : has_row m i = false -> m ⊆ <[i := x]> m.
Proof. intros Hi. by apply insert_subseteq, has_row_none. Qed.

Lemma insert_role_adds r d a d' :
  insert_role r d = Ok (a, d') -> additions d d' /\ clients d' = clients d /\ redirect_uris d' = redirect_uris d
    /\ exists x, roles d' !! role_id r = Some x /\ varchar 100 (role_name r) = Ok (role_name x).
Proof.
  intros Hs. unfold insert_role in Hs. stmt_inv Hs. bools. split.
  - split; simpl; eauto. intros i x Hx. exists x. split; [|done]. eapply lookup_weaken; [exact Hx|]. by apply insert_new_row.
  - split; [done|]. split; [done|]. eexists. simpl. by rewrite lookup_insert_eq.
Qed.

Lemma insert_user_adds u d a d' :
  insert_user u d = Ok (a, d') -> additions d d' /\ clients d' = clients d /\ redirect_uris d' = redirect_uris d
    /\ exists x, users d' !! usr_id u = Some x /\ varchar 255 (usr_email u) = Ok (usr_email x) /\ usr_enabled x = usr_enabled u.
Proof.
  intros Hs. unfold insert_user in Hs. stmt_inv Hs. bools. split.
  - split; simpl; eauto. by apply insert_new_row.
  - split; [done|]. split; [done|]. eexists. simpl. rewrite lookup_insert_eq. split; [done|].
    match goal with Hr : user_row u = Ok _ |- _ => unfold user_row in Hr; stmt_inv Hr end. done.
Qed.

Lemma insert_credential_adds c d a d' :
  insert_credential c d = Ok (a, d') -> additions d d' /\ clients d' = clients d /\ redirect_uris d' = redirect_uris d.
Proof. intros Hs. unfold insert_credential in Hs. stmt_inv Hs. bools. split; [|done]. split; simpl; eauto. by apply insert_new_row. Qed.

Lemma insert_user_role_adds u r d a d' :
  insert_user_role u r d = Ok (a, d') -> additions d d' /\ clients d' = clients d /\ redirect_uris d' = redirect_uris d
    /\ (u, r) ∈ user_roles d'.
Proof.
  intros Hs. unfold insert_user_role in Hs. case_bool_decide as Hin.
  - injection Hs as _ <-. done.
  - stmt_inv Hs. split; [|split; [done|]; split; [done|]; simpl; set_solver]. split; simpl; eauto. set_solver.
Qed.

Lemma update_parent_adds admin p d a d' :
  keyed role_id (roles d) -> roles d !! role_id admin = Some admin -> role_name admin = "admin" -> role_parent_id admin = None ->
  update_role_parent (Some p) (role_id admin) d = Ok (a, d') ->
  additions d d' /\ clients d' = clients d /\ redirect_uris d' = redirect_uris d.
Proof.
  intros Hk Ha Hn Hp Hs. unfold update_role_parent in Hs. stmt_inv Hs. split; [|done]. split; simpl; eauto.
  intros i r Hr. rewrite lookup_update_where, Hr. eexists. split; [done|]. case_decide as Hid; [|done].
  rewrite <- (Hk _ _ Hr), Hid in Hr. assert (r = admin) as -> by congruence. split; [done|]. by right.
Qed.

Lemma insert_client_adds c d a d' :
  insert_client c d = Ok (a, d') -> additions d d' /\ exists x, clients d' !! cl_id c = Some x /\ varchar 255 (cl_client_id c) = Ok (cl_client_id x).
Proof.
  intros Hs. unfold insert_client in Hs. stmt_inv Hs. bools. split.
  - split; simpl; eauto. intros i x Hx. exists x. split; [|done]. eapply lookup_weaken; [exact Hx|]. by apply insert_new_row.
  - eexists. simpl. by rewrite lookup_insert_eq.
Qed.

Lemma insert_uri_adds i c u t d a d' : insert_redirect_uri i c u t d = Ok (a, d') -> additions d d' /\ clients d' = clients d.
Proof. intros Hs. unfold insert_redirect_uri in Hs. stmt_inv Hs. bools. split; [|done]. split; simpl; eauto. by apply insert_new_row. Qed.

Lemma update_secret_adds c s t d a d' :
  keyed cl_id (clients d) -> clients d !! cl_id c = Some c -> cl_client_id c = "service-client" ->
  cl_client_secret c = Some SERVICE_CLIENT_BOOTSTRAP_SECRET -> update_client_secret (cl_id c) s t d = Ok (a, d') ->
  additions d d' /\ redirect_uris d' = redirect_uris d /\ is_Some (clients d' !! cl_id c).
Proof.
  intros Hk Hc Hid Hsec Hs. unfold update_client_secret in Hs. stmt_inv Hs. split; [|split; [done|]].
  - split; simpl; eauto. intros i x Hx. rewrite lookup_update_where, Hx. eexists. split; [done|]. case_decide as Hi; [|done].
    rewrite <- (Hk _ _ Hx), Hi in Hx. assert (x = c) as -> by congruence. right. eauto.
  - simpl. rewrite lookup_update_where, Hc. by eexists.
Qed.

(** ** Triples *)

Section Specs.
Context `{RedisLaws} `{EnvLaws} `{Argon2Lib} `{Crypto} `{ValueParser} `{UnicodeTables} `{!JsonCodec ClientSnapshot}
  `{!JsonCodecLaws ClientSnapshot}.
Implicit Types w : World.

(** What every seeder keeps, whatever its outcome. *)
Record seeds w w' : Prop := {
  sd_wf : pg_wf (pg w');
  sd_coherent : coherent w';
  sd_adds : additions (pg w) (pg w');
}.
Definition ready w : Prop := pg_wf (pg w) /\ coherent w.

Lemma seeds_ready w w' : seeds w w' -> ready w'.
Proof. intros []. by split. Qed.
Lemma seeds_trans w1 w2 w3 : seeds w1 w2 -> seeds w2 w3 -> seeds w1 w3.
Proof. intros [_ _ ?] []. split; try done. by eapply additions_trans. Qed.
Lemma seeds_quiet w w' : ready w -> quiet w w' -> seeds w w'.
Proof.
  intros [Hwf Hco] (Hp & Hr & Ht). split; [by rewrite Hp|by eapply coherent_later|by rewrite Hp].
Qed.

Lemma coherent_tables w w' :
  tick w <= tick w' -> redis w' = redis w -> clients (pg w') = clients (pg w) -> redirect_uris (pg w') = redirect_uris (pg w) ->
  coherent w -> coherent w'.
Proof.
  intros Ht Hr Hc Hu Hco cid snap Hne Hs. unfold served_from. rewrite Hc, Hu. apply Hco; [done|]. by eapply Client.cached_later.
Qed.

(** A statement that only adds, to other tables than those of the clients. *)
Lemma wp_seed {A} (q : stmt A) w :
  ready w ->
  (forall a d, q (pg w) = Ok (a, d) -> pg_wf d /\ additions (pg w) d /\ clients d = clients (pg w) /\ redirect_uris d = redirect_uris (pg w)) ->
  wp (execute q) (fun r w' => seeds w w' /\ forall a, r = Ok a -> q (pg w) = Ok (a, pg w')) w.
Proof.
  intros Hrd Hq.
  assert (Hs : forall a d, q (pg w) = Ok (a, d) -> seeds w (bump (set_pg d w))).
  { intros a d Hd. destruct (Hq a d Hd) as (Hwf & Ha & Hc & Hu). split; [done| |done].
    eapply coherent_tables; [| | | |apply Hrd]; simpl; auto. }
  wp_step; (split; [eauto using seeds_quiet with wp|]); try done.
  by intros ? [= <-].
Qed.

Lemma locked_spec w : wp locked (fun r w' => quiet w w') w.
Proof.
  unfold locked, acquire. do 2 wp_step; [|auto with wp]. do 3 wp_step; [|auto with wp].
  injection Hq as _ <-. wp_step. wp_step; split; simpl; auto; lia.
Qed.

(** *** Roles *)

Definition has_role (d : Pg) (name : string) : Prop := exists r, roles d !! role_id r = Some r /\ role_name r = name.

Lemma wp_find_role name Q w :
  pg_wf (pg w) ->
  (forall r, roles (pg w) !! role_id r = Some r -> role_name r = name -> Q (Ok (Some r)) (bump w)) ->
  ((forall i r, roles (pg w) !! i = Some r -> role_name r <> name) -> Q (Ok None) (bump w)) ->
  (forall c, Q (Err (EDb c)) (bump w)) -> wp (Role.find_by_name name) Q w.
Proof.
  intros Hwf Hsome Hnone Herr. unfold Role.find_by_name. wp_step; [|done].
  pose proof (head_where_unique role_name (roles (pg w)) (tick w) name (wf_roles_name _ Hwf)) as Hh.
  destruct (head _) as [r|]; [|by apply Hnone]. destruct Hh as [Hn [i Hi]]. apply Hsome; [|done].
  by rewrite (wf_roles_key _ Hwf _ _ Hi).
Qed.

Lemma has_role_later d d' name : pg_wf d' -> additions d d' -> has_role d name -> has_role d' name.
Proof.
  intros Hwf Ha (r & Hr & Hn). destruct (add_roles _ _ Ha _ _ Hr) as (r' & Hr' & Hn' & _). exists r'.
  split; [|congruence]. by rewrite (wf_roles_key _ Hwf _ _ Hr').
Qed.

Lemma ensure_role_spec name desc w :
  ready w -> varchar 100 name = Ok name ->
  wp (ensure_role name desc) (fun r w' => seeds w w' /\ (r = Ok tt -> has_role (pg w') name)) w.
Proof.
  intros Hrd Hv. assert (Hwf := proj1 Hrd). unfold ensure_role. wp_step. apply wp_find_role; [done| | |].
  - intros r Hr Hn. wp_step. split; [apply seeds_quiet; auto with wp|]. intros _. by exists r.
  - intros _. do 4 wp_step. set (r := mkRole _ _ _ _ _). set (w3 := bump (bump (bump w))).
    assert (Hq3 : quiet w w3) by (unfold w3; auto with wp). assert (Hrd3 : ready w3) by (by eapply seeds_ready, seeds_quiet).
    wp_call (wp_seed (insert_role r)); [done| |].
    + intros a d Hd. destruct (insert_role_adds _ _ _ _ Hd) as (? & ? & ? & _). split; [by eapply insert_role_wf; [apply Hrd3|]|done].
    + intros res w' [Hs Hok]. split; [eapply seeds_trans; [by apply seeds_quiet|done]|]. intros ->.
      destruct (insert_role_adds _ _ _ _ (Hok tt eq_refl)) as (_ & _ & _ & x & Hx & Hn). simpl in Hn. rewrite Hv in Hn.
      exists x. split; [|congruence]. by rewrite (wf_roles_key _ (sd_wf _ _ Hs) _ _ Hx).
  - intros c. split; [apply seeds_quiet; auto with wp|done].
Qed.

Lemma set_parent_tick child parent w : wp (Role.set_parent child parent) (fun _ w' => tick w <= tick w') w.
Proof.
  unfold Role.set_parent. wp_step; [by wp_step|]. do 2 wp_step; [|simpl; lia]. apply wp_bind. destruct parent as [p|].
  - do 2 wp_step; [|simpl; lia]. destruct (climb _ _ _ _ _) as [[]|]; wp_step; simpl; try lia.
    do 2 wp_step; [|simpl; lia]. wp_step; simpl; lia.
  - wp_step. do 2 wp_step; [|simpl; lia]. wp_step; simpl; lia.
Qed.

Lemma link_admin_spec w : ready w -> wp link_admin (fun r w' => seeds w w') w.
Proof.
  intros Hrd. assert (Hwf := proj1 Hrd). unfold link_admin.
  assert (Hq : forall w', quiet w w' -> seeds w w') by (intros; by apply seeds_quiet).
  wp_step. apply wp_find_role; [done| |intros _|intros; auto with wp].
  - intros admin Ha Hn. wp_step. apply wp_find_role; [done| |intros _; wp_step; auto with wp|intros; auto with wp].
    intros user Hu Hnu. destruct (role_parent_id admin) as [p|] eqn:Hp; [wp_step; auto with wp|].
    assert (Hupd : forall w' d', update_role_parent (Some (role_id user)) (role_id admin) (pg w) = Ok (tt, d') ->
      pg w' = d' -> redis w' = redis w -> tick w <= tick w' -> seeds w w').
    { intros w' d' Hd Hpg Hr Ht. destruct (update_parent_adds _ _ _ _ _ (wf_roles_key _ Hwf) Ha Hn Hp Hd) as (Hadd & Hc & Hru).
      split; [rewrite Hpg; by eapply update_role_parent_wf| |by rewrite Hpg].
      eapply coherent_tables; [done|done|by rewrite Hpg..|apply Hrd]. }
    wp_step. wp_call (wp_conj _ _ _ _ (set_parent_spec (role_id admin) (Some (role_id user)) (bump (bump w)) (wf_roles_key _ Hwf))
      (set_parent_tick (role_id admin) (Some (role_id user)) (bump (bump w)))).
    simpl. intros r w' [[Hr Hres] Ht]. simpl in Ht.
    assert (Hcases : pg w' = pg w \/ update_role_parent (Some (role_id user)) (role_id admin) (pg w) = Ok (tt, pg w'))
      by (destruct r as [[]|[]]; naive_solver).
    destruct Hcases as [Hpg|Hd]; [apply Hq; split; [done|]; split; [done|lia]|eapply Hupd; [exact Hd|done|done|lia]].
  - wp_step. apply wp_find_role; [done|intros; wp_step; auto with wp|intros _; wp_step; auto with wp|intros; auto with wp].
Qed.

Lemma core_roles_spec w :
  ready w -> wp ensure_core_roles (fun r w' => seeds w w' /\ (r = Ok tt -> has_role (pg w') "admin" /\ has_role (pg w') "user")) w.
Proof.
  intros Hrd. unfold ensure_core_roles. wp_step. wp_call locked_spec. intros r w1 Hq. pose proof (seeds_quiet _ _ Hrd Hq) as Hs1.
  destruct r as [[]|e]; [|done]. wp_step. wp_call ensure_role_spec; [by eapply seeds_ready|reflexivity|]. intros r w2 [Hs2 Hu].
  assert (Hs : seeds w w2) by by eapply seeds_trans. destruct r as [[]|e]; [|done]. specialize (Hu eq_refl).
  wp_step. wp_call ensure_role_spec; [by eapply seeds_ready|reflexivity|]. intros r w3 [Hs3 Ha].
  assert (Hs' : seeds w w3) by by eapply seeds_trans. destruct r as [[]|e]; [|done]. specialize (Ha eq_refl).
  wp_call link_admin_spec; [by eapply seeds_ready|]. intros r w4 Hs4. split; [by eapply seeds_trans|]. intros _.
  split; eapply has_role_later; [apply Hs4|apply Hs4|done|apply Hs4|eapply additions_trans; [apply Hs3|apply Hs4]|done].
Qed.
(** *** The administrator *)

Definition ADMIN_EMAIL : string := "admin@gmail.com".

Definition has_admin_role (d : Pg) (id : Uuid) : Prop :=
  exists r, roles d !! role_id r = Some r /\ role_name r = "admin" /\ (id, role_id r) ∈ user_roles d.

(** A stored user with that address, up to case, who has the administrators' role. *)
Definition administrator (d : Pg) (id : Uuid) : Prop :=
  (exists u, users d !! id = Some u /\ sql_lower (usr_email u) = ADMIN_EMAIL) /\ has_admin_role d id.

Lemma administrator_later d d' id : pg_wf d' -> additions d d' -> administrator d id -> administrator d' id.
Proof.
  intros Hwf Ha [(u & Hu & He) (r & Hr & Hn & Hin)]. split.
  - exists u. split; [|done]. eapply lookup_weaken; [exact Hu|]. apply (add_users _ _ Ha).
  - destruct (add_roles _ _ Ha _ _ Hr) as (r' & Hr' & Hn' & _). exists r'. rewrite (wf_roles_key _ Hwf _ _ Hr').
    split; [done|]. split; [congruence|]. by apply (add_user_roles _ _ Ha).
Qed.

Lemma has_admin_effective d id : has_admin_role d id -> effective_role d id "admin".
Proof. intros (r & Hr & Hn & Hin). exists (role_id r), r. by repeat split. Qed.

Lemma wp_find_admin Q w :
  (forall u, users (pg w) !! usr_id u = Some u -> sql_lower (usr_email u) = ADMIN_EMAIL -> Q (Ok (Some u)) (bump w)) ->
  ((forall i u, users (pg w) !! i = Some u -> sql_lower (usr_email u) <> ADMIN_EMAIL) -> Q (Ok None) (bump w)) ->
  (forall c, Q (Err (EDb c)) (bump w)) -> pg_wf (pg w) -> wp (User.find_by_email ADMIN_EMAIL) Q w.
Proof.
  intros Hsome Hnone Herr Hwf. unfold User.find_by_email. cbv zeta.
  change (to_lowercase (trim ADMIN_EMAIL)) with ADMIN_EMAIL. change (is_empty ADMIN_EMAIL) with false. cbn iota.
  wp_step; [|done]. set (l := where_ _ (users (pg w))).
  destruct (head (row_order (tick w) l)) as [u|] eqn:Hh.
  - assert (Hu : u ∈ row_order (tick w) l) by (destruct (row_order _ _); [done|]; injection Hh as ->; left).
    rewrite row_order_perm in Hu. apply elem_of_where in Hu as [He [i Hi]].
    apply Hsome; [|done]. by rewrite (wf_users_key _ Hwf _ _ Hi).
  - apply Hnone. intros i u Hi He. assert (Hu : u ∈ row_order (tick w) l) by (rewrite row_order_perm; apply elem_of_where; eauto).
    destruct (row_order (tick w) l); [by apply not_elem_of_nil in Hu|done].
Qed.

Lemma is_assigned_spec user role Q w :
  Q (Ok (bool_decide ((user, role) ∈ user_roles (pg w)))) (bump w) -> (forall c, Q (Err (EDb c)) (bump w)) ->
  wp (Role.is_assigned user role) Q w.
Proof.
  intros Hok Herr. unfold Role.is_assigned. do 2 wp_step; [|done]. wp_step.
  set (l := base.filter _ (elements (user_roles (pg w)))).
  assert (Hl : forall p, p ∈ l <-> p = (user, role) /\ p ∈ user_roles (pg w))
    by (intros p; unfold l; by rewrite list_elem_of_filter, elem_of_elements).
  replace (0 <? _)%Z with (bool_decide ((user, role) ∈ user_roles (pg w))); [done|].
  rewrite (Permutation_length (row_order_perm (tick w) l)). case_bool_decide as Hin.
  - destruct l as [|x l']; [|done]. exfalso. eapply not_elem_of_nil. by apply (Hl (user, role)).
  - destruct l as [|x l']; [done|]. exfalso. destruct (proj1 (Hl x)) as [-> ?]; [left|]. done.
Qed.

Lemma assign_admin_spec user w :
  ready w -> wp (assign_admin user) (fun r w' => seeds w w' /\ (r = Ok tt -> has_admin_role (pg w') (usr_id user))) w.
Proof.
  intros Hrd. assert (Hwf := proj1 Hrd). unfold assign_admin.
  assert (Hq : forall w', quiet w w' -> seeds w w') by (intros; by apply seeds_quiet).
  assert (Heff : forall d r, roles d !! role_id r = Some r -> role_name r = "admin" -> (usr_id user, role_id r) ∈ user_roles d ->
    has_admin_role d (usr_id user)) by (intros d r Hr Hn Hin; by exists r).
  wp_step. apply wp_find_role; [done| |intros _; wp_step; split; [auto with wp|done]|intros; split; [auto with wp|done]].
  intros r Hr Hn. wp_step. apply is_assigned_spec; [|intros; split; [auto with wp|done]].
  case_bool_decide as Hin; cbn [negb].
  - wp_step. split; [auto with wp|]. intros _. by eapply Heff.
  - set (w2 := bump (bump w)). assert (Hq2 : quiet w w2) by (unfold w2; auto with wp).
    assert (Hrd2 : ready w2) by (by eapply seeds_ready, Hq).
    wp_call (wp_seed (insert_user_role (usr_id user) (role_id r))); [done| |].
    + intros a d Hd. destruct (insert_user_role_adds _ _ _ _ _ Hd) as (? & ? & ? & _). split; [by eapply insert_user_role_wf; [apply Hrd2|]|done].
    + intros res w' [Hs Hok]. split; [eapply seeds_trans; [by apply Hq|done]|]. intros ->.
      destruct (insert_user_role_adds _ _ _ _ _ (Hok tt eq_refl)) as (Ha & _ & _ & Hm).
      destruct (add_roles _ _ Ha _ _ Hr) as (r' & Hr' & Hn' & _).
      assert (Hid : role_id r' = role_id r) by exact (wf_roles_key _ (sd_wf _ _ Hs) _ _ Hr').
      apply (Heff _ r'); [by rewrite Hid|congruence|by rewrite Hid].
Qed.

Lemma create_admin_spec w :
  ready w -> wp create_admin_user (fun r w' => seeds w w' /\ forall u, r = Ok u ->
    exists x, users (pg w') !! usr_id u = Some x /\ sql_lower (usr_email x) = ADMIN_EMAIL) w.
Proof.
  intros Hrd. unfold create_admin_user. do 4 wp_step. set (u := mkUser _ _ _ _ _ _ _ _ _). set (w2 := bump (bump w)).
  assert (Hs2 : seeds w w2) by (apply seeds_quiet; [done|]; unfold w2; auto with wp). pose proof (seeds_ready _ _ Hs2) as Hrd2.
  wp_step. wp_call (wp_seed (insert_user u)); [done| |].
  { intros a d Hd. destruct (insert_user_adds _ _ _ _ Hd) as (? & ? & ? & _). split; [by eapply insert_user_wf; [apply Hrd2|]|done]. }
  intros r w3 [Hs3 Hok]. assert (Hs : seeds w w3) by by eapply seeds_trans. destruct r as [[]|e]; [|done].
  destruct (insert_user_adds _ _ _ _ (Hok tt eq_refl)) as (_ & _ & _ & x & Hx & He & _).
  assert (Hxe : usr_email x = ADMIN_EMAIL) by (change (Ok ADMIN_EMAIL = @Ok string _ (usr_email x)) in He; congruence).
  clear Hok He. unfold Secrets.hash. do 3 wp_step. destruct (argon2_compute _ _ _ _ _ _ _) as [out|]; wp_step.
  2:{ split; [|done]. eapply seeds_trans; [exact Hs|]. apply seeds_quiet; [by eapply seeds_ready|auto with wp]. }
  do 2 wp_step. wp_step. set (w5 := bump (bump w3)). assert (Hq5 : quiet w3 w5) by (unfold w5; auto with wp).
  assert (Hs5 : seeds w w5) by (eapply seeds_trans; [exact Hs|]; apply seeds_quiet; [by eapply seeds_ready|done]).
  pose proof (seeds_ready _ _ Hs5) as Hrd5. set (cred := mkCredential _ _ _ _ _ _ _).
  wp_call (wp_seed (insert_credential cred)); [done| |].
  { intros a d Hd. split; [by eapply insert_credential_wf; [apply Hrd5|]|by eapply insert_credential_adds]. }
  intros r w6 [Hs6 _]. assert (Hs' : seeds w w6) by by eapply seeds_trans. destruct r as [[]|e]; [|done].
  wp_step. split; [done|]. intros ? [= <-]. exists x. split; [|by rewrite Hxe]. simpl.
  eapply lookup_weaken; [|apply (add_users _ _ (sd_adds _ _ Hs6))]. destruct Hq5 as [-> _]. exact Hx.
Qed.

Lemma admin_user_spec w :
  ready w -> wp ensure_admin_user (fun r w' => seeds w w' /\ (r = Ok tt -> exists id, administrator (pg w') id)) w.
Proof.
  intros Hrd. unfold ensure_admin_user. wp_step. wp_call locked_spec. intros r w1 Hq. pose proof (seeds_quiet _ _ Hrd Hq) as Hs1.
  destruct r as [[]|e]; [|done]. pose proof (seeds_ready _ _ Hs1) as Hrd1. wp_step.
  assert (Hbump : seeds w (bump w1)) by (eapply seeds_trans; [exact Hs1|]; apply seeds_quiet; [done|auto with wp]).
  assert (Hassign : forall user wx, seeds w wx -> (exists x, users (pg wx) !! usr_id user = Some x /\ sql_lower (usr_email x) = ADMIN_EMAIL) ->
    wp (assign_admin user) (fun r w' => seeds w w' /\ (r = Ok tt -> exists id, administrator (pg w') id)) wx).
  { intros user wx Hsx (x & Hx & He). wp_call assign_admin_spec; [by eapply seeds_ready|]. intros r w' [Hs' Hr].
    split; [by eapply seeds_trans|]. intros ->. exists (usr_id user). split; [|by apply Hr]. exists x. split; [|done].
    eapply lookup_weaken; [exact Hx|]. apply (add_users _ _ (sd_adds _ _ Hs')). }
  apply wp_find_admin; [| | |apply Hrd1].
  - intros u Hu He. do 2 wp_step. apply Hassign; [done|]. by exists u.
  - intros _. wp_step. wp_call create_admin_spec; [by eapply seeds_ready|]. intros r w2 [Hs2 Hu].
    assert (Hs : seeds w w2) by by eapply seeds_trans. destruct r as [u|e]; [|done]. apply Hassign; [done|by apply Hu].
  - intros c. by split.
Qed.
(** *** The clients *)

Definition has_client (d : Pg) (cid : string) : Prop := exists i c, clients d !! i = Some c /\ cl_client_id c = cid.

Lemma has_client_later d d' cid : additions d d' -> has_client d cid -> has_client d' cid.
Proof.
  intros Ha (i & c & Hc & Hid). destruct (add_clients _ _ Ha _ _ Hc) as (c' & Hc' & Hk). exists i, c'. split; [done|].
  destruct Hk as [->|(_ & _ & s & t & ->)]; done.
Qed.

Lemma insert_uris_adds cid l d w :
  wp (insert_uris cid l (TxOpen d)) (fun r _ => forall d', r = Ok (TxOpen d') ->
    additions d d' /\ clients d' = clients d /\ (pg_wf d -> pg_wf d')) w.
Proof.
  revert d w. induction l as [|u l IH]; intros d w; simpl; [wp_step; by intros d' [= <-]|].
  do 2 wp_step; [|done]. destruct (insert_uri_adds _ _ _ _ _ _ _ Hq) as [Ha Hc]. wp_call IH. intros r w' Hr d' ->.
  destruct (Hr d' eq_refl) as (Ha' & Hc' & Hwf'). split; [by eapply additions_trans|]. split; [congruence|].
  intros Hwf. by eapply Hwf', insert_redirect_uri_wf.
Qed.

Lemma persist_client_spec c w :
  ready w -> varchar 255 (cl_client_id c) = Ok (cl_client_id c) ->
  wp (Client.persist c) (fun r w' => seeds w w' /\ (r = Ok tt -> has_client (pg w') (cl_client_id c))) w.
Proof.
  intros [Hwf Hco] Hv. wp_call Client.persist_spec; [done|]. intros r w' [Hco' Hcases].
  destruct Hcases as [[Hp Hne]|(d & d' & wx & wy & Hins & Huris & Hp)].
  { split; [|done]. split; [by rewrite Hp|done|by rewrite Hp]. }
  destruct (insert_client_adds _ _ _ _ Hins) as (Ha & x & Hx & Hid). rewrite Hv in Hid.
  destruct (wp_run _ _ _ _ _ (insert_uris_adds _ _ d wx) Huris d' eq_refl) as (Ha' & Hc' & Hwf').
  assert (Hadd : additions (pg w) d') by by eapply additions_trans.
  split; [split; [rewrite Hp; eapply Hwf', insert_client_wf; done|done|by rewrite Hp]|]. intros _.
  exists (cl_id c), x. rewrite Hp, Hc'. split; [done|congruence].
Qed.

(** The row that the look-up found, in the cache or in the table. *)
Lemma wp_find_bootstrap_client' repo cid Q w :
  ready w ->
  (forall c w1, seeds w w1 -> pg w1 = pg w -> served_from cid (pg w) c -> Q (Ok (Some c)) w1) ->
  (forall w1, seeds w w1 -> pg w1 = pg w -> (cid <> "" -> forall i row, clients (pg w) !! i = Some row -> cl_client_id row <> cid) ->
     Q (Ok None) w1) ->
  (forall e w1, seeds w w1 -> pg w1 = pg w -> Q (Err e) w1) ->
  wp (Client.find_by_client_id repo cid) Q w.
Proof.
  intros [Hwf Hco] Hsome Hnone Herr. wp_call (find_by_client_id_spec repo cid w Hwf). intros r w1 (Hp & Hf & Hc & Hr).
  assert (Hs : seeds w w1) by (split; [by rewrite Hp|by apply Hc|by rewrite Hp]).
  destruct r as [[c|]|e]; [|apply Hnone; [done|done|]; intros Hne; by destruct Hr|by apply Herr]. apply Hsome; [done|done|].
  destruct Hr as [Hne [(snap & Hsn & ->)|Hr]]; [by apply Hco|done].
Qed.

Lemma wp_find_bootstrap_client repo cid Q w :
  ready w ->
  (forall c w1, seeds w w1 -> pg w1 = pg w -> served_from cid (pg w) c -> Q (Ok (Some c)) w1) ->
  (forall w1, seeds w w1 -> pg w1 = pg w -> Q (Ok None) w1) ->
  (forall e w1, seeds w w1 -> pg w1 = pg w -> Q (Err e) w1) ->
  wp (Client.find_by_client_id repo cid) Q w.
Proof. intros Hrd Hsome Hnone Herr. apply wp_find_bootstrap_client'; auto. Qed.

Lemma served_has_client cid d c : served_from cid d c -> has_client d cid.
Proof. intros (row & Hrow & Hcid & _). by exists (cl_id c), row. Qed.

Lemma web_app_spec repo w :
  ready w -> wp (ensure_web_app repo) (fun r w' => seeds w w' /\ (r = Ok tt -> has_client (pg w') "web-app")) w.
Proof.
  intros Hrd. unfold ensure_web_app. wp_step. apply wp_find_bootstrap_client; [done| | |by intros].
  - intros c w1 Hs Hp Hc. wp_step. split; [done|]. intros _. rewrite Hp. by eapply served_has_client.
  - intros w1 Hs _. do 6 wp_step. set (w4 := bump (bump (bump w1))).
    assert (Hs4 : seeds w w4) by (eapply seeds_trans; [exact Hs|]; apply seeds_quiet; [by eapply seeds_ready|unfold w4; auto with wp]).
    wp_call persist_client_spec; [by eapply seeds_ready|reflexivity|]. intros r w5 [Hs5 Hr]. split; [by eapply seeds_trans|done].
Qed.

(** The migration of a secret; the cache entry is removed, if Redis can be reached. *)
Lemma migrate_secret_spec existing w :
  ready w -> served_from "service-client" (pg w) existing ->
  wp (migrate_secret existing) (fun r w' => pg_wf (pg w') /\ additions (pg w) (pg w')
    /\ (redis_ok (tick w) -> r = Ok tt -> coherent w')) w.
Proof.
  intros [Hwf Hco] (row & Hrow & Hcid & Heq & _). unfold migrate_secret.
  case_bool_decide as Hsec; [|by wp_step].
  assert (Hkey : cl_id row = cl_id existing) by exact (wf_clients_key _ Hwf _ _ Hrow).
  assert (Hrs : cl_client_secret row = Some SERVICE_CLIENT_BOOTSTRAP_SECRET) by (rewrite Heq in Hsec; exact Hsec).
  assert (Hec : cl_client_id existing = "service-client") by (rewrite Heq; exact Hcid).
  rewrite <- Hkey in Hrow |- *.
  unfold ClientSecretHasher.hash, Secrets.hash. do 4 wp_step.
  destruct (argon2_compute _ _ _ _ _ _ _) as [out|]; wp_step; [|done]. wp_step. wp_step.
  assert (Hadd : forall s t d, update_client_secret (cl_id row) s t (pg w) = Ok (tt, d) ->
    pg_wf d /\ additions (pg w) d /\ only_client (cl_id row) (pg w) d).
  { intros s t d Hd. destruct (update_secret_adds row _ _ _ _ _ (wf_clients_key _ Hwf) Hrow Hcid Hrs Hd) as (Ha & Hru & _).
    split; [by eapply update_client_secret_wf|]. split; [done|]. split; [|intros; by rewrite Hru].
    injection Hd as <-. intros i Hi. simpl. rewrite lookup_update_where. destruct (clients (pg w) !! i) as [x|] eqn:Hx; [|done].
    simpl. f_equal. rewrite decide_False; [done|]. rewrite (wf_clients_key _ Hwf _ _ Hx). done. }
  wp_step; [|done|destruct a; destruct (Hadd _ _ _ Hq) as (? & ? & _); done].
  destruct a. destruct (Hadd _ _ _ Hq) as (Hwf' & Ha & Hloc).
  apply run_wp. intros r w' Hinv. destruct (wp_run _ _ _ _ _ (invalidate_pg _ _) Hinv) as [_ Hp]. simpl in Hp. rewrite Hp.
  split; [done|]. split; [done|]. intros Hup ->.
  destruct (wp_run _ _ _ _ _ (invalidate_coherent (cl_id row) (cl_client_id existing) w (bump (set_pg d (bump w)))
    ltac:(simpl; lia) eq_refl Hco Hloc
    ltac:(intros x Hx; rewrite Hrow in Hx; congruence)) Hinv) as [_ Hco'].
  by apply Hco', redis_ok_reached.
Qed.

Lemma service_client_spec repo w :
  ready w -> wp (ensure_service_client repo) (fun r w' => pg_wf (pg w') /\ additions (pg w) (pg w')
    /\ (r = Ok tt -> has_client (pg w') "service-client")) w.
Proof.
  intros Hrd. unfold ensure_service_client.
  assert (Hs : forall w', seeds w w' -> pg_wf (pg w') /\ additions (pg w) (pg w')) by (by intros w' []).
  wp_step. apply wp_find_bootstrap_client; [done| | |intros e w1 Hs1 _; destruct (Hs w1 Hs1); done].
  - intros c w1 Hs1 Hp Hc. rewrite <- Hp in Hc. wp_call migrate_secret_spec; [by eapply seeds_ready|done|].
    intros r w2 (Hwf2 & Ha2 & _). rewrite Hp in Ha2, Hc. split; [done|]. split; [done|]. intros _.
    eapply has_client_later; [exact Ha2|]. by eapply served_has_client.
  - intros w1 Hs1 _. do 4 wp_step. unfold ClientSecretHasher.hash, Secrets.hash. do 4 wp_step.
    set (w4 := bump (bump (bump w1))).
    assert (Hs4 : seeds w w4) by (eapply seeds_trans; [exact Hs1|]; apply seeds_quiet; [by eapply seeds_ready|unfold w4; auto with wp]).
    destruct (argon2_compute _ _ _ _ _ _ _) as [out|]; wp_step; [|destruct (Hs _ Hs4); done]. wp_step.
    wp_call persist_client_spec; [by eapply seeds_ready|reflexivity|]. intros r w5 [Hs5 Hr].
    destruct (Hs w5) as [? ?]; [by eapply seeds_trans|]. done.
Qed.

(** *** All of it *)

Definition seeded (d : Pg) : Prop :=
  has_role d "user" /\ has_role d "admin" /\ (exists id, administrator d id)
  /\ has_client d "web-app" /\ has_client d "service-client".

Lemma bootstrap_spec repo w :
  ready w -> wp (bootstrap repo) (fun r w' => pg_wf (pg w') /\ additions (pg w) (pg w') /\ (r = Ok tt -> seeded (pg w'))) w.
Proof.
  intros Hrd. assert (Hs : forall (e : err) w', seeds w w' -> pg_wf (pg w') /\ additions (pg w) (pg w') /\ (@Err err unit e = Ok tt -> seeded (pg w')))
    by (by intros e w' []).
  unfold bootstrap. wp_step. wp_call core_roles_spec; [done|]. intros r w1 [Hs1 Hroles]. destruct r as [[]|e]; [|by apply Hs].
  destruct (Hroles eq_refl) as [Ha Hu]. wp_step. wp_call admin_user_spec; [by eapply seeds_ready|]. intros r w2 [Hs2 Hadm].
  assert (Hs12 : seeds w w2) by by eapply seeds_trans. destruct r as [[]|e]; [|by apply Hs]. destruct (Hadm eq_refl) as [id Hid].
  unfold ensure_bootstrap_clients. wp_step. wp_call locked_spec. intros r w3 Hq3.
  assert (Hs3 : seeds w2 w3) by (apply seeds_quiet; [by eapply seeds_ready|done]).
  assert (Hs13 : seeds w w3) by by eapply seeds_trans. destruct r as [[]|e]; [|by apply Hs].
  wp_step. wp_call web_app_spec; [by eapply seeds_ready|]. intros r w4 [Hs4 Hweb].
  assert (Hs14 : seeds w w4) by by eapply seeds_trans. destruct r as [[]|e]; [|by apply Hs]. specialize (Hweb eq_refl).
  wp_call service_client_spec; [by eapply seeds_ready|]. intros r w5 (Hwf5 & Ha5 & Hsvc).
  assert (Ha35 : additions (pg w2) (pg w5)) by (eapply additions_trans; [apply Hs3|]; eapply additions_trans; [apply Hs4|done]).
  assert (Ha25 : additions (pg w1) (pg w5)) by (eapply additions_trans; [apply Hs2|done]).
  split; [done|]. split; [eapply additions_trans; [apply Hs1|done]|]. intros ->.
  split; [by eapply has_role_later|]. split; [by eapply has_role_later|]. split; [exists id; eapply administrator_later; [done|exact Ha35|exact Hid]|].
  split; [eapply has_client_later; [exact Ha5|exact Hweb]|by apply Hsvc].
Qed.

(** *** Once more *)

(** Tables in which a start-up finds everything in place. *)
Definition settled (d : Pg) : Prop :=
  seeded d
  /\ (forall i r, roles d !! i = Some r -> role_name r = "admin" -> role_parent_id r <> None)
  /\ (forall i u, users d !! i = Some u -> sql_lower (usr_email u) = ADMIN_EMAIL -> has_admin_role d i)
  /\ (forall i c, clients d !! i = Some c -> cl_client_id c = "service-client" -> cl_client_secret c <> Some SERVICE_CLIENT_BOOTSTRAP_SECRET).

Definition unchanged w w' : Prop := ready w' /\ pg w' = pg w.

Lemma unchanged_quiet w0 w w' : unchanged w0 w -> quiet w w' -> unchanged w0 w'.
Proof. intros [Hrd Hp] Hq. split; [by eapply seeds_ready, seeds_quiet|]. destruct Hq as [-> _]. done. Qed.

Lemma role_found w0 name d w :
  unchanged w0 w -> has_role (pg w0) name -> wp (ensure_role name d) (fun r w' => unchanged w0 w') w.
Proof.
  intros Hu (x & Hx & Hn). pose proof Hu as [[Hwf _] Hp]. unfold ensure_role. wp_step. apply wp_find_role; [done| | |].
  - intros. wp_step. eapply unchanged_quiet; [done|auto with wp].
  - intros Hno. exfalso. rewrite Hp in Hno. by eapply Hno.
  - intros. eapply unchanged_quiet; [done|auto with wp].
Qed.

Lemma link_found w0 w : unchanged w0 w -> settled (pg w0) -> wp link_admin (fun r w' => unchanged w0 w') w.
Proof.
  intros Hu (_ & Hpar & _). pose proof Hu as [[Hwf _] Hp]. rewrite <- Hp in Hpar. unfold link_admin.
  assert (Hq : forall w', quiet w w' -> unchanged w0 w') by (intros; by eapply unchanged_quiet).
  wp_step. apply wp_find_role; [done| | |intros; auto with wp].
  - intros admin Ha Hn. wp_step. apply wp_find_role; [done| |intros _; wp_step; auto with wp|intros; auto with wp].
    intros user _ _. destruct (role_parent_id admin) eqn:Hpa; [wp_step; auto with wp|]. by destruct (Hpar _ _ Ha Hn).
  - intros _. wp_step. apply wp_find_role; [done|intros; wp_step; auto with wp|intros _; wp_step; auto with wp|intros; auto with wp].
Qed.

Lemma admin_found w0 w : unchanged w0 w -> settled (pg w0) -> wp ensure_admin_user (fun r w' => unchanged w0 w') w.
Proof.
  intros Hu (Hseed & _ & Hall & _). unfold ensure_admin_user. wp_step. wp_call locked_spec. intros r w1 Hq1.
  assert (Hu1 : unchanged w0 w1) by by eapply unchanged_quiet. destruct r as [[]|e]; [|done].
  pose proof Hu1 as [[Hwf1 _] Hp1]. rewrite <- Hp1 in Hall.
  assert (Hq : forall w', quiet w1 w' -> unchanged w0 w') by (intros; by eapply unchanged_quiet).
  wp_step. apply wp_find_admin; [| |intros; auto with wp|done].
  - intros u Hx He. do 2 wp_step. unfold assign_admin. destruct (Hall _ _ Hx He) as (r & Hr & Hn & Hin).
    wp_step. apply wp_find_role; [done| |intros _; wp_step; auto with wp|intros; auto with wp].
    intros r' Hr' Hn'. assert (r' = r) as ->.
    { pose proof (wf_roles_name _ Hwf1 _ _ _ _ Hr' Hr ltac:(simpl; congruence)) as Heq. rewrite Heq in Hr'. simpl in *. congruence. }
    wp_step. apply is_assigned_spec; [|intros; auto with wp]. rewrite bool_decide_eq_true_2 by done. cbn [negb]. wp_step. auto with wp.
  - intros Hno. exfalso. destruct Hseed as (_ & _ & (id & (u & Hx & He) & _) & _). rewrite <- Hp1 in Hx. by eapply Hno.
Qed.

Lemma clients_found repo w0 w : unchanged w0 w -> settled (pg w0) -> wp (ensure_bootstrap_clients repo) (fun r w' => unchanged w0 w') w.
Proof.
  intros Hu (Hseed & _ & _ & Hsec). unfold ensure_bootstrap_clients. wp_step. wp_call locked_spec. intros r w1 Hq1.
  assert (Hu1 : unchanged w0 w1) by by eapply unchanged_quiet. destruct r as [[]|e]; [|done].
  destruct Hseed as (_ & _ & _ & (i & c & Hc & Hcid) & (j & s & Hsv & Hsid)).
  assert (Hgo : forall wx wy, unchanged w0 wx -> seeds wx wy -> pg wy = pg wx -> unchanged w0 wy)
    by (intros wx wy [_ Hpx] Hsxy Hpy; split; [by eapply seeds_ready|congruence]).
  wp_step. unfold ensure_web_app. wp_step. pose proof Hu1 as [Hrd1 Hp1].
  apply wp_find_bootstrap_client'; [done| |intros w2 _ _ Hno; exfalso; rewrite Hp1 in Hno; exact (Hno ltac:(done) _ _ Hc Hcid)|by intros; eapply Hgo].
  intros x w2 Hs2 Hp2 _. wp_step. assert (Hu2 : unchanged w0 w2) by by eapply Hgo. pose proof Hu2 as [Hrd2 Hp2'].
  unfold ensure_service_client. wp_step.
  apply wp_find_bootstrap_client'; [done| |intros w3 _ _ Hno; exfalso; rewrite Hp2' in Hno; exact (Hno ltac:(done) _ _ Hsv Hsid)|by intros; eapply Hgo].
  intros y w3 Hs3 Hp3 (row & Hrow & Hrid & Heq & _). unfold migrate_secret. rewrite Hp2' in Hrow.
  rewrite bool_decide_eq_false_2; [wp_step; by eapply Hgo|]. rewrite Heq. simpl. by eapply Hsec.
Qed.

Lemma settled_spec repo w : ready w -> settled (pg w) -> wp (bootstrap repo) (fun r w' => pg w' = pg w) w.
Proof.
  intros Hrd Hset. assert (Hu : unchanged w w) by done. pose proof Hset as ((Huser & Hadmin & _) & _).
  unfold bootstrap, ensure_core_roles. do 2 wp_step. wp_call locked_spec. intros r w1 Hq1.
  assert (Hu1 : unchanged w w1) by by eapply unchanged_quiet. destruct r as [[]|e]; [|by apply Hu1].
  wp_step. wp_call role_found; [done|done|]. intros r w2 Hu2. destruct r as [[]|e]; [|by apply Hu2].
  wp_step. wp_call role_found; [done|done|]. intros r w3 Hu3. destruct r as [[]|e]; [|by apply Hu3].
  wp_call link_found; [done|done|]. intros r w4 Hu4. destruct r as [[]|e]; [|by apply Hu4].
  wp_step. wp_call admin_found; [done|done|]. intros r w5 Hu5. destruct r as [[]|e]; [|by apply Hu5].
  wp_call clients_found; [done|done|]. intros r w6 Hu6. apply Hu6.
Qed.
End Specs.

(** ** Theorems *)

(** C17: Start-up seeds what the server needs and nothing else.  Whatever fails, the
    tables keep their integrity and no row is removed; sessions, refresh tokens,
    consents, verification and reset tokens are exactly as they were; users,
    credentials, role assignments and redirect URIs are only added; and the roles and
    clients that were there are as they were, but for a parent of the administrators'
    role that had none and a service client's plain-text bootstrap secret that was
    hashed.  After a start-up that succeeded both core roles, both clients and a user
    with the administrator's address exist, and that user is an administrator.  A
    start-up that finds everything in place (that is [settled]: what a successful one
    leaves, the administrators' role linked to a parent, every account of that address
    an administrator, and no plain-text bootstrap secret) changes nothing. *)
Theorem bootstrap_seeds `{RedisLaws} `{EnvLaws} `{Argon2Lib} `{Crypto} `{ValueParser} `{UnicodeTables} `{!JsonCodec ClientSnapshot}
  `{!JsonCodecLaws ClientSnapshot} repo w r w' :
  pg_wf (pg w) -> coherent w -> bootstrap repo w = (r, w') ->
  pg_wf (pg w') /\ additions (pg w) (pg w')
  /\ (r = Ok tt -> has_role (pg w') "user" /\ has_role (pg w') "admin" /\ has_client (pg w') "web-app"
        /\ has_client (pg w') "service-client"
        /\ exists id u, users (pg w') !! id = Some u /\ sql_lower (usr_email u) = ADMIN_EMAIL /\ effective_role (pg w') id "admin")
  /\ (settled (pg w) -> pg w' = pg w).
Proof.
  intros Hwf Hco Hrun. destruct (wp_run _ _ _ _ _ (bootstrap_spec repo w (conj Hwf Hco)) Hrun) as (Hwf' & Ha & Hs).
  split; [done|]. split; [done|]. split.
  - intros ->. destruct (Hs eq_refl) as (Hu & Had & (id & (u & Hx & He) & Hr) & Hweb & Hsvc). do 4 (split; [done|]).
    exists id, u. split; [done|]. split; [done|]. by apply has_admin_effective.
  - intros Hset. exact (wp_run _ _ _ _ _ (settled_spec repo w (conj Hwf Hco) Hset) Hrun).
Qed.

(** ** Witnesses *)

Import Instances JsonInstance.

Definition world_empty : World := mkWorld 0 pg_empty (∅ : gmap string rentry).
Definition demo_repo : ClientRepository := client_repository_new 60000000000.
Definition first_start : res err unit * World := bootstrap demo_repo world_empty.

Definition second_start : res err unit * World := bootstrap demo_repo first_start.2.

Lemma world_empty_ready : ready world_empty.
Proof. split; [exact pg_empty_wf|]. intros cid snap _ (v & dl & raw & Hl & _). done. Qed.

Lemma first_start_ok : first_start.1 = Ok tt.
Proof. vm_compute. reflexivity. Qed.

(** [settled], checked. *)
Lemma settled_check d :
  seeded d ->
  bool_decide (map_Forall (fun _ r => role_name r = "admin" -> role_parent_id r <> None) (roles d)
    /\ map_Forall (fun i _ => Exists (fun p => role_name p.2 = "admin" /\ role_id p.2 = p.1 /\ (i, p.1) ∈ user_roles d)
         (map_to_list (roles d))) (users d)
    /\ map_Forall (fun _ c => cl_client_secret c <> Some SERVICE_CLIENT_BOOTSTRAP_SECRET) (clients d)) = true ->
  settled d.
Proof.
  intros Hs (Hpar & Hadm & Hsec)%bool_decide_eq_true. split; [done|split; [exact Hpar|split]].
  - intros i u Hu _. specialize (Hadm i u Hu). apply Exists_exists in Hadm as ([k r] & Hr & Hn & Hk & Hin).
    apply elem_of_map_to_list in Hr. simpl in *. subst k. by exists r.
  - intros i c Hc _. exact (Hsec i c Hc).
Qed.

Lemma first_start_settled : settled (pg first_start.2).
Proof.
  apply settled_check; [|vm_compute; reflexivity].
  destruct (wp_run _ _ _ _ _ (bootstrap_spec demo_repo world_empty world_empty_ready) (run_fst _ _ _ first_start_ok))
    as (_ & _ & Hs). exact (Hs eq_refl).
Qed.

(** From empty tables start-up succeeds, the administrator can log in, and a second
    start-up changes nothing. *)
Lemma bootstrap_seeds_witness :
  first_start.1 = Ok tt
  /\ (exists id, effective_role (pg first_start.2) id "admin")
  /\ (exists u, (authenticate demo_login (Some "admin@gmail.com") (Some "admin123") first_start.2).1 = Ok (Some u))
  /\ pg second_start.2 = pg first_start.2.
Proof.
  destruct (bootstrap_seeds demo_repo world_empty _ _ pg_empty_wf (proj2 world_empty_ready) (run_fst _ _ _ first_start_ok))
    as (Hwf & _ & Hok & _).
  destruct (Hok eq_refl) as (_ & _ & _ & _ & id & u & _ & _ & He).
  assert (Hr : redis first_start.2 = (∅ : gmap string rentry)) by (vm_compute; reflexivity).
  assert (Hco : coherent first_start.2) by (intros cid snap _ (v & dl & raw & Hl & _); rewrite Hr in Hl; done).
  destruct (bootstrap_seeds demo_repo first_start.2 _ _ Hwf Hco (surjective_pairing _)) as (_ & _ & _ & Hsame).
  split; [exact first_start_ok|]. split; [exists id; exact He|]. split; [eexists; vm_compute; reflexivity|].
  exact (Hsame first_start_settled).
Defined.

(** ** Two surprises *)

(** *** Two replicas that start at once

    The lock is released when its transaction commits, before the seeding: one replica
    looks for a role, the other seeds everything, and the insertion of the first is a
    unique violation, with which its start-up ends. *)
Example replicas_collide :
  let first := bind locked (fun _ => Role.find_by_name "user") world_empty in
  let second := bootstrap demo_repo first.2 in
  first.1 = Ok None /\ second.1 = Ok tt
  /\ (Role.persist (mkRole 1 "user" (Some "Standard authenticated user") None 0) second.2).1 = Err (EDb (Some unique_violation)).
Proof. repeat split; vm_compute; reflexivity. Qed.

(** *** An administrator without a password

    The user and the credential are two statements.  When the second fails, the next
    start-up finds the user, assigns the role and reports success, and nobody can log
    in. *)
Module Interrupted.
Definition failing_at (k : nat) : Env := {|
  clock := clock; redis_clock := redis_clock; random_bytes := random_bytes; new_v4 := new_v4;
  jitter_floor := jitter_floor; redis_pool_up := redis_pool_up; redis_reply := redis_reply;
  pg_reply := fun n => if bool_decide (n = k) then Lost else Served; row_order := fun A => @row_order demo_env A;
  collate_le := collate_le; lower_table := lower_table; pg_clock := pg_clock; gen_range := gen_range; task_ok := task_ok |}.

Definition seeded_roles : World := (ensure_core_roles world_empty).2.
(** The begin, the lock and the commit, the look-up, the clock, the id, the user, the
    salt, the credential's id, and then the credential. *)
Definition interrupted : res err unit * World := @ensure_admin_user _ (failing_at (tick seeded_roles + 9)) _ _ _ seeded_roles.
Definition restarted : res err unit * World := bootstrap demo_repo interrupted.2.

Example administrator_without_password :
  interrupted.1 = Err (EDb None) /\ restarted.1 = Ok tt
  /\ map_to_list (credentials (pg restarted.2)) = []
  /\ (authenticate demo_login (Some "admin@gmail.com") (Some "admin123") restarted.2).1 = Ok None.
Proof. repeat split; vm_compute; reflexivity. Qed.
End Interrupted.
