(* ===== verification/Admin.v ===== *)
(** * The administration API ([admin/resource.rs], [admin/dto.rs])

    Every endpoint is behind one guard, [require_admin]: an active session whose
    user has the effective role [admin].  The endpoints manage users, roles, keys,
    clients, sessions and consents. *)

From stdpp Require Import base tactics list gmap strings.
From Stdlib Require Import ZArith Lia Ascii.
From S2P Require Import Prelude RustStr Redis Schema World Ext Demo DemoJson DemoJwt RedisKeys Http Hashing.
From S2P Require Import Jwt KeyFiles Role User Client RefreshToken Session Consent Integrity Secrets.

Local Open Scope auth_scope.

(** ** Requests and summaries ([admin/dto.rs]) *)

Record ClientRequest := mkClientRequest {
  cq_client_id : option string;
  cq_client_secret : option string;
  cq_name : option string;
  cq_client_type : option string;
  cq_scopes : option string;
  cq_grant_types : option string;
  cq_response_types : option string;
  cq_pkce_required : option bool;
  cq_enabled : option bool;
  cq_base_url : option string;
  cq_description : option string;
  cq_frontchannel_logout_uri : option string;
  cq_backchannel_logout_uri : option string;
}.

Record UserCreateRequest := mkUserCreateRequest {
  uc_email : option string;
  uc_username : option string;
  uc_password : option string;
  uc_first_name : option string;
  uc_last_name : option string;
  uc_enabled : option bool;
  uc_email_verified : option bool;
}.

Record UserUpdateRequest := mkUserUpdateRequest {
  uu_first_name : option string;
  uu_last_name : option string;
  uu_enabled : option bool;
  uu_email_verified : option bool;
  uu_new_password : option string;
}.

Section Dto.
Context `{Texts}.

Definition role_summary (r : Role) : Value :=
  obj [("id", JStr (uuid_to_string (role_id r))); ("name", JStr (role_name r));
       ("description", opt_str (role_description r)); ("parentId", opt_str (uuid_to_string <$> role_parent_id r))].

Definition user_summary (u : User) (roles : list string) : Value :=
  obj [("id", JStr (uuid_to_string (usr_id u))); ("email", JStr (usr_email u)); ("username", JStr (usr_username u));
       ("enabled", JBool (usr_enabled u)); ("emailVerified", JBool (usr_email_verified u));
       ("roles", JArr (JStr <$> roles))].

Definition redirect_uri_summary (r : RedirectUri) : Value :=
  obj [("id", JStr (uuid_to_string (ru_id r))); ("uri", JStr (ru_uri r))].

Definition client_summary (c : Client) : Value :=
  obj [("id", JStr (uuid_to_string (cl_id c))); ("clientId", JStr (cl_client_id c)); ("name", opt_str (cl_name c));
       ("type", opt_str (cl_client_type c)); ("scopes", opt_str (cl_scopes c));
       ("grantTypes", opt_str (cl_grant_types c)); ("responseTypes", opt_str (cl_response_types c));
       ("pkceRequired", JBool (cl_pkce_required c)); ("enabled", JBool (cl_enabled c));
       ("baseUrl", opt_str (cl_base_url c)); ("description", opt_str (cl_description c));
       ("frontchannelLogoutUri", opt_str (cl_frontchannel_logout_uri c));
       ("backchannelLogoutUri", opt_str (cl_backchannel_logout_uri c));
       ("redirectUris", JArr (redirect_uri_summary <$> cl_redirect_uris c))].

Definition session_summary (s : UserSession) (username email : option string) : Value :=
  obj [("id", JStr (uuid_to_string (ses_id s))); ("userId", JStr (uuid_to_string (ses_user_id s)));
       ("username", opt_str username); ("email", opt_str email);
       ("ipAddress", opt_str (ses_ip_address s)); ("userAgent", opt_str (ses_user_agent s));
       ("createdAt", JStr (dt_to_string (ses_created_at s)));
       ("lastAccessedAt", opt_str (dt_to_string <$> ses_last_accessed_at s));
       ("expiresAt", opt_str (dt_to_string <$> ses_expires_at s))].

Definition consent_summary (c : UserConsent) (client : option Client) : Value :=
  obj [("id", JStr (uuid_to_string (con_id c))); ("clientUuid", JStr (uuid_to_string (con_client_id c)));
       ("clientId", opt_str (cl_client_id <$> client)); ("clientName", opt_str (client ≫= cl_name));
       ("scopes", JStr (con_scopes c)); ("grantedAt", JStr (dt_to_string (con_granted_at c)));
       ("updatedAt", JStr (dt_to_string (con_updated_at c)))].
End Dto.

(** ** Redirect URIs an administrator may register *)

(** [s.find(p)] *)
Fixpoint find_str (p s : string) : option nat :=
  if starts_with p s then Some 0
  else match s with "" => None | String _ r => S <$> find_str p r end.

Definition is_ascii_alphabetic (c : ascii) : bool :=
  let n := byte c in ((65 <=? n) && (n <=? 90) || (97 <=? n) && (n <=? 122))%N.
Definition is_ascii_alphanumeric (c : ascii) : bool := is_ascii_alphabetic c || is_digit c.

Definition is_custom_scheme (lower : string) : bool :=
  match find_str "://" lower with
  | None => false
  | Some colon =>
      if colon =? 0 then false
      else
        match take_bytes colon lower with
        | "" => false
        | String first rest =>
            if negb (is_ascii_alphabetic first) then false
            else all_bytes (fun c => is_ascii_alphanumeric c || bool_decide (c = "+"%char) || bool_decide (c = "."%char)
                                     || bool_decide (c = "-"%char)) rest
        end
  end.

(** The scheme check of [add_redirect_uri]. *)
Definition scheme_allowed (uri : string) : bool :=
  let lower := to_ascii_lowercase uri in
  let blocked_scheme := starts_with "javascript:" lower || starts_with "data:" lower
    || starts_with "file:" lower || starts_with "vbscript:" lower in
  let allowed_scheme := starts_with "http://" lower || starts_with "https://" lower || is_custom_scheme lower in
  negb (negb allowed_scheme || blocked_scheme).

(** ** Handlers *)

Record AdminState := mkAdminState { ad_clients : ClientRepository }.

Section Handlers.
Context `{RedisServer} `{Env} `{JwtLib} `{!RsaLib} `{!FsEnv} `{Crypto} `{Texts} `{UnicodeTables} `{Argon2Lib} `{ValueParser}
  `{!JsonCodec ClientSnapshot} `{!JsonCodec SessionSnapshot}.

Definition handler : Type := HttpRequest -> io HttpResponse.

Definition require_admin (req : HttpRequest) : io (res HttpResponse SessionWithUser) :=
  match extract req with
  | None => ret (Err (message 401 "authentication required"))
  | Some token =>
      let! session := attempt (find_active_session token) in
      match session with
      | Ok (Some session) =>
          let! roles := attempt (find_effective_names_by_user_id (ses_user_id (swu_session session))) in
          match roles with
          | Err _ => ret (Err (message 500 "role lookup failed"))
          | Ok roles =>
              if negb (existsb (fun r => bool_decide (r = "admin")) roles)
              then ret (Err (json_response 403 (obj [("message", JStr "forbidden"); ("required_roles", JArr [JStr "admin"])])))
              else ret (Ok session)
          end
      | _ => ret (Err (message 401 "authentication required"))
      end
  end.

(** [match require_admin(..).await { Ok(s) => s, Err(r) => return Ok(r) }] *)
Definition as_admin (req : HttpRequest) (k : SessionWithUser -> io HttpResponse) : io HttpResponse :=
  let! caller := require_admin req in
  match caller with Ok s => k s | Err r => ret r end.

Definition parse_uuid (s msg : string) : res HttpResponse Uuid :=
  match uuid_parse_str s with Some u => Ok u | None => Err (message 400 msg) end.

Definition with_uuid (s msg : string) (k : Uuid -> io HttpResponse) : io HttpResponse :=
  match parse_uuid s msg with Ok u => k u | Err r => ret r end.

(** *** Users *)

Definition ping : handler := fun req =>
  as_admin req (fun session =>
    ret (json_response 200 (obj [("message", JStr "hello admin"); ("username", JStr (swu_user_username session))]))).

Definition list_roles : handler := fun req =>
  as_admin req (fun _ =>
    let! roles := Role.find_all in
    ret (json_response 200 (JArr (role_summary <$> roles)))).

Definition list_users : handler := fun req =>
  as_admin req (fun _ =>
    let! users := User.find_all 100 in
    let! out := for_collect users (fun u =>
      let! roles := find_names_by_user_id (usr_id u) in
      ret (user_summary u roles)) in
    ret (json_response 200 (JArr out))).

Definition get_user (path : string) : handler := fun req =>
  as_admin req (fun _ =>
  with_uuid path "invalid userId" (fun user_id =>
    let! user := User.find_by_id user_id in
    match user with
    | None => ret (message 404 "user not found")
    | Some user =>
        let! roles := find_names_by_user_id (usr_id user) in
        ret (json_response 200 (user_summary user roles))
    end)).

Definition create_user (body : UserCreateRequest) : handler := fun req =>
  as_admin req (fun _ =>
    let email := trim (default "" (uc_email body)) in
    let username := trim (default "" (uc_username body)) in
    let password := default "" (uc_password body) in
    if is_empty email || is_empty username || (String.length password <? 8)
    then ret (message 400 "email, username, password (>=8 chars) are required")
    else
    let normalized_email := to_lowercase email in
    let! taken := find_by_email normalized_email in
    if bool_decide (is_Some taken) then ret (message 409 "email already registered")
    else
    let! taken := find_by_username username in
    if bool_decide (is_Some taken) then ret (message 409 "username already taken")
    else
    let! now := utc_now in
    let! id := uuid_new_v4 in
    let user := mkUser id normalized_email (default false (uc_email_verified body)) username (uc_first_name body)
                  (uc_last_name body) (default true (uc_enabled body)) now now in
    do! User.persist user in
    let! hashed := hash password in
    let! cid := uuid_new_v4 in
    do! Credentials.persist (mkCredential cid "password" (Some (secret_data hashed)) (Some (credential_data hashed))
          now now id) in
    let! role := find_by_name "user" in
    do! match role with
        | Some role => ignore (assign_to_user id (role_id role))
        | None => ret tt
        end in
    let! roles := find_names_by_user_id id in
    ret (json_response 201 (user_summary user roles))).

(** The fields of the request that are set replace the user's. *)
Definition apply_user_update (body : UserUpdateRequest) (u : User) : User :=
  mkUser (usr_id u) (usr_email u) (default (usr_email_verified u) (uu_email_verified body)) (usr_username u)
    (match uu_first_name body with Some n => Some n | None => usr_first_name u end)
    (match uu_last_name body with Some n => Some n | None => usr_last_name u end)
    (default (usr_enabled u) (uu_enabled body)) (usr_created_at u) (usr_updated_at u).

(** Disabling the user, or taking back the verification, ends the sessions. *)
Definition kick_sessions (body : UserUpdateRequest) (u : User) : bool :=
  bool_decide (uu_enabled body = Some false) || (usr_email_verified u && bool_decide (uu_email_verified body = Some false)).

(** [email_verified_cache_only] *)
Definition cache_only (body : UserUpdateRequest) (u : User) : bool :=
  match uu_email_verified body with
  | Some ev => negb (usr_email_verified u && negb ev) && negb (bool_decide (usr_email_verified u = ev))
  | None => false
  end.

Definition set_updated_at (t : Z) (u : User) : User :=
  mkUser (usr_id u) (usr_email u) (usr_email_verified u) (usr_username u) (usr_first_name u) (usr_last_name u)
    (usr_enabled u) (usr_created_at u) t.

(** The [new_password] part of [update_user]: the response that ends it early, if any. *)
Definition admin_set_password (user_id : Uuid) (new_password : option string) : io (option HttpResponse) :=
  match nonempty new_password with
  | None => ret None
  | Some np =>
      if String.length np <? 8 then ret (Some (message 400 "password must be at least 8 characters"))
      else
      let! hashed := hash np in
      let! now := utc_now in
      let! existing := Credentials.find_first_by_user_id_and_type user_id "password" in
      do! match existing with
          | Some c =>
              do! Credentials.update (mkCredential (cred_id c) (cred_type c) (Some (secret_data hashed))
                    (Some (credential_data hashed)) (cred_created_at c) now (cred_user_id c)) in
              ret tt
          | None =>
              let! id := uuid_new_v4 in
              Credentials.persist (mkCredential id "password" (Some (secret_data hashed))
                (Some (credential_data hashed)) now now user_id)
          end in
      do! ignore (delete_all_by_user_id user_id) in
      ret None
  end.

Definition update_user (path : string) (body : UserUpdateRequest) : handler := fun req =>
  as_admin req (fun _ =>
  with_uuid path "invalid userId" (fun user_id =>
    let! user := User.find_by_id user_id in
    match user with
    | None => ret (message 404 "user not found")
    | Some old =>
        let user := apply_user_update body old in
        let kick := kick_sessions body old in
        do! (if kick then ignore (delete_all_by_user_id user_id) else ret tt) in
        let! now := utc_now in
        let user := set_updated_at now user in
        do! User.update user in
        do! (if negb kick && cache_only body old then ignore (invalidate_cache_by_user_id user_id) else ret tt) in
        let! stop := admin_set_password user_id (uu_new_password body) in
        match stop with
        | Some resp => ret resp
        | None =>
            let! roles := find_names_by_user_id user_id in
            ret (json_response 200 (user_summary user roles))
        end
    end)).

Definition delete_user (path : string) : handler := fun req =>
  as_admin req (fun calling =>
  with_uuid path "invalid userId" (fun user_id =>
    if bool_decide (ses_user_id (swu_session calling) = user_id)
    then ret (message 400 "cannot delete your own account")
    else
      do! ignore (delete_all_by_user_id user_id) in
      do! User.delete_by_id user_id in
      ret (finish 204))).

(** *** Roles *)

Definition assign_role (user_id_str role_name_ : string) : handler := fun req =>
  as_admin req (fun _ =>
  with_uuid user_id_str "invalid userId" (fun user_id =>
    let! user := User.find_by_id user_id in
    let! role := find_by_name role_name_ in
    match user, role with
    | Some _, Some role =>
        let! assigned := is_assigned user_id (role_id role) in
        do! (if negb assigned then ignore (assign_to_user user_id (role_id role)) else ret tt) in
        let! names := find_names_by_user_id user_id in
        ret (json_response 200 (obj [("message", JStr "role assigned"); ("roles", JArr (JStr <$> names))]))
    | _, _ => ret (message 404 "user or role not found")
    end)).

Definition revoke_role (user_id_str role_name_ : string) : handler := fun req =>
  as_admin req (fun _ =>
  with_uuid user_id_str "invalid userId" (fun user_id =>
    let! role := find_by_name role_name_ in
    match role with
    | None => ret (message 404 "role not found")
    | Some role =>
        do! ignore (unassign_from_user user_id (role_id role)) in
        let! names := find_names_by_user_id user_id in
        ret (json_response 200 (obj [("message", JStr "role revoked"); ("roles", JArr (JStr <$> names))]))
    end)).

Definition set_role_parent (child_name parent_name : string) : handler := fun req =>
  as_admin req (fun _ =>
    let! child := find_by_name child_name in
    let! parent := find_by_name parent_name in
    match child, parent with
    | Some child, Some parent =>
        let! r := attempt (set_parent (role_id child) (Some (role_id parent))) in
        match r with
        | Ok _ => ret (json_response 200 (obj [("message", JStr "parent set"); ("child", JStr child_name);
                                               ("parent", JStr parent_name)]))
        | Err (ECycle msg) => ret (message 400 msg)
        | Err e => throw e
        end
    | _, _ => ret (message 404 "role not found")
    end).

Definition clear_role_parent (path : string) : handler := fun req =>
  as_admin req (fun _ =>
    let! child := find_by_name path in
    match child with
    | None => ret (message 404 "role not found")
    | Some child =>
        do! ignore (set_parent (role_id child) None) in
        ret (json_response 200 (obj [("message", JStr "parent cleared"); ("child", JStr path)]))
    end).

(** *** Keys

    These handlers also read or change the key provider. *)

Definition list_keys (pv : Provider) : handler := fun req =>
  as_admin req (fun _ =>
    let active := key_id pv in
    let entries := (fun e => obj [("kid", JStr (pe_kid e)); ("active", JBool (bool_decide (pe_kid e = active)))])
                     <$> all_public_keys pv in
    ret (json_response 200 (obj [("active_kid", JStr active); ("keys", JArr entries)]))).

Definition rotate_key (pv : Provider) (req : HttpRequest) : io (res err HttpResponse * Provider) :=
  let! actor := require_admin req in
  match actor with
  | Err r => ret (Ok r, pv)
  | Ok _ =>
      let previous := key_id pv in
      match rotate pv with
      | (Ok new_kid, pv) =>
          ret (Ok (json_response 200 (obj [("message", JStr "key rotated"); ("previous_kid", JStr previous);
                                           ("new_active_kid", JStr new_kid)])), pv)
      | (Err e, pv) => ret (Err e, pv)
      end
  end.

Definition retire_key `{ErrorTexts} (pv : Provider) (kid : string) (req : HttpRequest)
    : io (res err HttpResponse * Provider) :=
  let! actor := require_admin req in
  match actor with
  | Err r => ret (Ok r, pv)
  | Ok _ =>
      match retire kid pv with
      | (Ok true, pv) => ret (Ok (finish 204), pv)
      | (Ok false, pv) => ret (Ok (message 404 "kid not found"), pv)
      | (Err e, pv) => ret (Ok (message 400 (err_text e)), pv)
      end
  end.

(** *** Clients *)

Definition list_clients : handler := fun req =>
  as_admin req (fun _ =>
    let! cs := Client.find_all in
    ret (json_response 200 (JArr (client_summary <$> cs)))).

Definition get_client (path : string) : handler := fun req =>
  as_admin req (fun _ =>
  with_uuid path "invalid id" (fun id =>
    let! client := Client.find_by_id id in
    match client with
    | Some c => ret (json_response 200 (client_summary c))
    | None => ret (message 404 "client not found")
    end)).

(** [.filter(|s| !s.is_empty()).map(ClientSecretHasher::hash)] *)
Definition hash_secret (secret : option string) : io (option string) :=
  match nonempty secret with
  | Some s => let! h := ClientSecretHasher.hash s in ret (Some h)
  | None => ret None
  end.

Definition create_client (state : AdminState) (body : ClientRequest) : handler := fun req =>
  as_admin req (fun _ =>
    let cid := trim (default "" (cq_client_id body)) in
    if is_empty cid then ret (message 400 "clientId is required")
    else
    let! existing := Client.find_by_client_id (ad_clients state) cid in
    if bool_decide (is_Some existing) then ret (message 409 "clientId already exists")
    else
    let! now := utc_now in
    let! id := uuid_new_v4 in
    let! secret := hash_secret (cq_client_secret body) in
    let client := mkClient id cid secret (cq_name body) (Some (default "public" (cq_client_type body)))
      (cq_grant_types body) (cq_response_types body) (cq_scopes body) (default true (cq_pkce_required body))
      (default true (cq_enabled body)) (cq_base_url body) (cq_description body) None None
      (cq_frontchannel_logout_uri body) (cq_backchannel_logout_uri body) now now [] in
    do! Client.persist client in
    let! fresh := Client.find_by_id (cl_id client) in
    ret (json_response 201 (client_summary (default client fresh)))).

(** [if let Some(x) = body.x { existing.x = Some(x) }] *)
Definition or_keep {A} (new old : option A) : option A := match new with Some x => Some x | None => old end.

Definition apply_client_update (body : ClientRequest) (secret : option string) (now : Z) (c : Client) : Client :=
  mkClient (cl_id c) (cl_client_id c) (or_keep secret (cl_client_secret c)) (or_keep (cq_name body) (cl_name c))
    (or_keep (cq_client_type body) (cl_client_type c)) (or_keep (cq_grant_types body) (cl_grant_types c))
    (or_keep (cq_response_types body) (cl_response_types c)) (or_keep (cq_scopes body) (cl_scopes c))
    (default (cl_pkce_required c) (cq_pkce_required body)) (default (cl_enabled c) (cq_enabled body))
    (or_keep (cq_base_url body) (cl_base_url c)) (or_keep (cq_description body) (cl_description c))
    (cl_access_token_ttl c) (cl_refresh_token_ttl c)
    (or_keep (cq_frontchannel_logout_uri body) (cl_frontchannel_logout_uri c))
    (or_keep (cq_backchannel_logout_uri body) (cl_backchannel_logout_uri c))
    (cl_created_at c) now (cl_redirect_uris c).

Definition update_client (state : AdminState) (path : string) (body : ClientRequest) : handler := fun req =>
  as_admin req (fun _ =>
  with_uuid path "invalid id" (fun id =>
    let! existing := Client.find_by_id id in
    match existing with
    | None => ret (message 404 "client not found")
    | Some existing =>
        let! secret := hash_secret (cq_client_secret body) in
        let! now := utc_now in
        let existing := apply_client_update body secret now existing in
        do! Client.update existing in
        let! fresh := Client.find_by_id id in
        ret (json_response 200 (client_summary (default existing fresh)))
    end)).

Definition delete_client (path : string) : handler := fun req =>
  as_admin req (fun _ =>
  with_uuid path "invalid id" (fun id =>
    do! Client.delete_by_id id in
    ret (finish 204))).

Definition add_redirect_uri (path : string) (body_uri : option string) : handler := fun req =>
  as_admin req (fun _ =>
  with_uuid path "invalid id" (fun id =>
    let uri := trim (default "" body_uri) in
    if is_empty uri then ret (message 400 "uri is required")
    else if negb (scheme_allowed uri)
    then ret (message 400 "redirect_uri must use http(s) or a registered native scheme")
    else
    let! client := Client.find_by_id id in
    match client with
    | None => ret (message 404 "client not found")
    | Some _ =>
        let! rid := uuid_new_v4 in
        let! now := utc_now in
        do! Client.add_redirect_uri (mkRedirectUri rid id uri now) in
        let! fresh := Client.find_by_id id in
        match fresh with
        | Some c => ret (json_response 200 (client_summary c))
        | None => ret (message 404 "client not found")
        end
    end)).

Definition remove_redirect_uri (client_id_str uri_id_str : string) : handler := fun req =>
  as_admin req (fun _ =>
  with_uuid uri_id_str "invalid uriId" (fun uri_id =>
    do! Client.remove_redirect_uri uri_id in
    ret (finish 204))).

(** *** Sessions and consents *)

Definition session_rows (rows : list (UserSession * string * string)) : Value :=
  JArr ((fun p => session_summary p.1.1 (Some p.1.2) (Some p.2)) <$> rows).

Definition list_sessions : handler := fun req =>
  as_admin req (fun _ =>
    let! rows := find_all_active_with_user in
    ret (json_response 200 (session_rows rows))).

Definition list_sessions_for_user (path : string) : handler := fun req =>
  as_admin req (fun _ =>
  with_uuid path "invalid userId" (fun user_id =>
    let! rows := find_active_by_user_id_with_user user_id in
    ret (json_response 200 (session_rows rows)))).

Definition revoke_session (path : string) : handler := fun req =>
  as_admin req (fun _ =>
  with_uuid path "invalid id" (fun id =>
    let! tx := begin_tx in
    let! ' (revoked, tx) := revoke_by_session_id_in_tx tx id in
    match revoked with
    | Err e => throw e
    | Ok _ =>
        do! commit tx in
        do! ignore (Session.delete_by_id id) in
        ret (finish 204)
    end)).

Definition list_consents_for_user (path : string) : handler := fun req =>
  as_admin req (fun _ =>
  with_uuid path "invalid userId" (fun user_id =>
    let! consents := Consent.find_by_user_id user_id in
    let! summaries := for_collect consents (fun c =>
      let! client := Client.find_by_id (con_client_id c) in
      ret (consent_summary c client)) in
    ret (json_response 200 (JArr summaries)))).

Definition revoke_consent (path : string) : handler := fun req =>
  as_admin req (fun _ =>
  with_uuid path "invalid id" (fun id =>
    do! Consent.delete_by_id id in
    ret (finish 204))).
End Handlers.

(** ** The whole interface *)

Inductive endpoint :=
| EPing | EListRoles | EListUsers
| ECreateUser (body : UserCreateRequest)
| EGetUser (path : string)
| EUpdateUser (path : string) (body : UserUpdateRequest)
| EDeleteUser (path : string)
| EAssignRole (user role : string)
| ERevokeRole (user role : string)
| ESetRoleParent (child parent : string)
| EClearRoleParent (child : string)
| EListKeys | ERotateKey
| ERetireKey (kid : string)
| EListClients
| ECreateClient (body : ClientRequest)
| EGetClient (path : string)
| EUpdateClient (path : string) (body : ClientRequest)
| EDeleteClient (path : string)
| EAddRedirectUri (path : string) (uri : option string)
| ERemoveRedirectUri (client uri : string)
| EListSessions
| EListSessionsForUser (path : string)
| ERevokeSession (path : string)
| EListConsentsForUser (path : string)
| ERevokeConsent (path : string).

Section Interface.
Context `{RedisServer} `{Env} `{JwtLib} `{!RsaLib} `{!FsEnv} `{Crypto} `{Texts} `{UnicodeTables} `{Argon2Lib} `{ValueParser}
  `{!JsonCodec ClientSnapshot} `{!JsonCodec SessionSnapshot} `{ErrorTexts}.

(** [configure]: which handler serves a route, with its path parameters. *)
Definition handle (state : AdminState) (pv : Provider) (ep : endpoint) (req : HttpRequest)
    : io (res err HttpResponse * Provider) :=
  let serve (h : handler) := let! r := attempt (h req) in ret (r, pv) in
  match ep with
  | EPing => serve ping
  | EListRoles => serve list_roles
  | EListUsers => serve list_users
  | ECreateUser body => serve (create_user body)
  | EGetUser path => serve (get_user path)
  | EUpdateUser path body => serve (update_user path body)
  | EDeleteUser path => serve (delete_user path)
  | EAssignRole user role => serve (assign_role user role)
  | ERevokeRole user role => serve (revoke_role user role)
  | ESetRoleParent child parent => serve (set_role_parent child parent)
  | EClearRoleParent child => serve (clear_role_parent child)
  | EListKeys => serve (list_keys pv)
  | ERotateKey => rotate_key pv req
  | ERetireKey kid => retire_key pv kid req
  | EListClients => serve list_clients
  | ECreateClient body => serve (create_client state body)
  | EGetClient path => serve (get_client path)
  | EUpdateClient path body => serve (update_client state path body)
  | EDeleteClient path => serve (delete_client path)
  | EAddRedirectUri path uri => serve (add_redirect_uri path uri)
  | ERemoveRedirectUri client uri => serve (remove_redirect_uri client uri)
  | EListSessions => serve list_sessions
  | EListSessionsForUser path => serve (list_sessions_for_user path)
  | ERevokeSession path => serve (revoke_session path)
  | EListConsentsForUser path => serve (list_consents_for_user path)
  | ERevokeConsent path => serve (revoke_consent path)
  end.
End Interface.

(** ** What the guard does *)

Section Guard.
Context `{RedisLaws} `{EnvLaws} `{JwtLib} `{!RsaLib} `{!FsEnv} `{Crypto} `{Texts} `{UnicodeTables} `{Argon2Lib} `{ValueParser}
  `{!JsonCodec ClientSnapshot} `{!JsonCodec SessionSnapshot} `{!JsonCodecLaws SessionSnapshot} `{ErrorTexts}.
Implicit Types w : World.

(** The role [admin], assigned or inherited. *)
Definition has_admin (d : Pg) (user : Uuid) : Prop :=
  exists rid a, (user, rid) ∈ user_roles d /\ rtc (parent_step (roles d)) rid (role_id a)
    /\ roles d !! role_id a = Some a /\ role_name a = "admin".

(** The request carries the token of an active session of an administrator. *)
Definition admin_session (req : HttpRequest) w w' (h : SessionWithUser) : Prop :=
  exists tok, extract req = Some tok /\ trim tok <> "" /\ source tok w h /\ swu_user_enabled h = true
    /\ fresh_between w w' h /\ has_admin (pg w) (ses_user_id (swu_session h)).

Definition refused w (r : HttpResponse) w' : Prop :=
  touched (pg w) (pg w') /\ rs_status r ∈ [401; 403; 500]%Z.

Lemma touched_roles d d' : touched d d' -> roles d' = roles d /\ user_roles d' = user_roles d.
Proof. by intros [->|(id & t & [= <-])]. Qed.

Lemma fresh_later w w1 w2 h : fresh_between w w1 h -> tick w1 <= tick w2 -> fresh_between w w2 h.
Proof. intros (n & Hn & He) Ht. exists n. split; [lia|done]. Qed.

Lemma require_admin_spec req w :
  pg_wf (pg w) ->
  wp (require_admin req) (fun r w' => touched (pg w) (pg w') /\ tick w <= tick w' /\ exists o, r = Ok o /\
    match o with Ok h => admin_session req w w' h | Err resp => refused w resp w' end) w.
Proof.
  intros Hwf. unfold require_admin. destruct (extract req) as [tok|] eqn:Htok.
  2:{ wp_step. split; [by left|]. split; [done|]. eexists. split; [done|]. split; [by left|set_solver]. }
  wp_step. wp_step. wp_call find_active_spec. intros r w1 (Htd & [Ht _] & _ & Hr).
  assert (Hno : forall resp w2, pg w2 = pg w1 -> tick w1 <= tick w2 -> rs_status resp ∈ [401; 403; 500]%Z ->
    touched (pg w) (pg w2) /\ tick w <= tick w2 /\ exists o, @Ok err _ (@Err HttpResponse SessionWithUser resp) = Ok o /\
      match o with Ok h => admin_session req w w2 h | Err resp => refused w resp w2 end).
  { intros resp w2 Hp Ht2 Hst. rewrite Hp. split; [done|]. split; [lia|]. eexists. split; [done|].
    split; [by rewrite Hp|done]. }
  destruct r as [[h|]|e]; [|wp_step; apply Hno; [done|done|set_solver]..].
  destruct Hr as (Htrim & Hsrc & Hen & Hfr). do 2 wp_step.
  assert (Hwf1 : pg_wf (pg w1)) by (destruct Htd as [->|(? & ? & Hq)]; [done|by eapply touch_session_wf]).
  destruct (touched_roles _ _ Htd) as [Hro Hur].
  wp_call effective_names_spec; [done|]. intros r w2 [(Hp2 & _ & Ht2) Hr].
  destruct r as [names|e]; [|wp_step; apply Hno; [done|done|set_solver]].
  destruct (existsb _ names) eqn:Hex; cbn [negb]; [|wp_step; apply Hno; [done|done|set_solver]].
  wp_step. rewrite Hp2. split; [done|]. split; [lia|]. eexists. split; [done|]. exists tok. do 4 (split; [done|]).
  split; [by eapply fresh_later|]. apply existsb_exists in Hex as (n & Hn & He). apply bool_decide_eq_true in He as ->.
  apply list_elem_of_In in Hn. destruct Hr as [_ Hr]. apply Hr in Hn as (rid & a & Ha). rewrite Hro, Hur in Ha. by exists rid, a.
Qed.

(** Whatever a handler does after the guard, the caller was an administrator or the
    guard has answered. *)
Lemma as_admin_spec req (k : SessionWithUser -> io HttpResponse) w :
  pg_wf (pg w) ->
  wp (as_admin req k) (fun r w' => (exists h w1, admin_session req w w1 h)
    \/ exists resp, r = Ok resp /\ refused w resp w') w.
Proof.
  intros Hwf. unfold as_admin. wp_step. wp_call require_admin_spec; [done|].
  intros r w1 (_ & _ & [h|resp] & -> & Ho); [|wp_step; eauto]. apply run_wp. eauto.
Qed.

Lemma handle_spec state pv ep req w :
  pg_wf (pg w) ->
  wp (handle state pv ep req) (fun r w' => (exists h w1, admin_session req w w1 h)
    \/ exists resp, r = Ok (Ok resp, pv) /\ refused w resp w') w.
Proof.
  intros Hwf.
  assert (Hserve : forall h k, h = (fun req => as_admin req k) ->
    wp (let! r := attempt (h req) in ret (r, pv)) (fun r w' => (exists h w1, admin_session req w w1 h)
      \/ exists resp, r = Ok (Ok resp, pv) /\ refused w resp w') w).
  { intros h k ->. wp_step. wp_step. wp_call as_admin_spec; [done|]. intros r w1 [Ha|(resp & -> & Hr)].
    - wp_step. by left.
    - wp_step. right. eauto. }
  destruct ep; try (unfold handle; eapply Hserve; reflexivity).
  all: simpl; unfold rotate_key, retire_key; wp_step; wp_call require_admin_spec; [done|];
    intros r w1 (_ & _ & [h|resp] & -> & Ho); [apply run_wp; eauto|wp_step; eauto].
Qed.

(** *** Deleting a user *)

(** No row is, or belongs to, the user. *)
Record user_erased (id : Uuid) (d : Pg) : Prop := {
  er_user : users d !! id = None;
  er_credentials : forall i c, credentials d !! i = Some c -> cred_user_id c <> id;
  er_roles : forall r, (id, r) ∉ user_roles d;
  er_sessions : forall i s, user_sessions d !! i = Some s -> ses_user_id s <> id;
  er_tokens : forall i t, refresh_tokens d !! i = Some t -> rt_user_id t <> id;
  er_consents : forall i c, user_consents d !! i = Some c -> con_user_id c <> id;
  er_verifications : forall i v, email_verifications d !! i = Some v -> ev_user_id v <> id;
  er_resets : forall i p, password_resets d !! i = Some p -> pr_user_id p <> id;
}.

(** What belongs to the others, and the roles and clients. *)
Record others_kept (id : Uuid) (d d' : Pg) : Prop := {
  ok_users : forall u, u <> id -> users d' !! u = users d !! u;
  ok_credentials : forall i c, credentials d !! i = Some c -> cred_user_id c <> id -> credentials d' !! i = Some c;
  ok_roles : roles d' = roles d;
  ok_clients : clients d' = clients d /\ redirect_uris d' = redirect_uris d;
  ok_consents : forall i c, user_consents d !! i = Some c -> con_user_id c <> id -> user_consents d' !! i = Some c;
}.

Lemma delete_user_erases id d n d' : User.delete_user id d = Ok (n, d') -> user_erased id d'.
Proof.
  intros [= _ <-]. split; simpl; try (intros i x [_ Hx]%lookup_delete_where; naive_solver).
  - apply lookup_delete_eq.
  - intros r Hr. by apply elem_of_filter in Hr as [Hr _].
Qed.

Lemma delete_user_spares id d0 d n d' :
  only_sessions d0 d -> User.delete_user id d = Ok (n, d') -> others_kept id d0 d'.
Proof.
  intros -> [= _ <-]. split; simpl; try done; try (intros i c Hi Hne; rewrite lookup_delete_where; naive_solver).
  intros u Hu. by rewrite lookup_delete_ne.
Qed.

Lemma touched_only d d' : touched d d' -> only_sessions d d'.
Proof. intros [->|(i & t & [= <-])]; [apply only_sessions_refl|done]. Qed.

Lemma delete_user_spec path req w :
  pg_wf (pg w) ->
  wp (delete_user path req) (post (fun resp w' => rs_status resp = 204%Z -> exists h w1 id, admin_session req w w1 h
    /\ uuid_parse_str path = Some id /\ ses_user_id (swu_session h) <> id
    /\ user_erased id (pg w') /\ others_kept id (pg w) (pg w'))) w.
Proof.
  intros Hwf. unfold delete_user, as_admin. wp_step. wp_call require_admin_spec; [done|].
  intros r w1 (Htd & _ & [h|resp] & -> & Ho);
    [|wp_step; intros Hs; destruct Ho as [_ Ho]; rewrite Hs in Ho; set_solver].
  unfold with_uuid, parse_uuid. destruct (uuid_parse_str path) as [id|] eqn:Hu; [|by wp_step].
  case_bool_decide as Hme; [by wp_step|]. do 2 wp_step.
  wp_call (delete_bulk_only (fun t => rt_user_id t = id) (fun s => ses_user_id s = id)). intros _ w2 Hos.
  wp_step. unfold User.delete_by_id. wp_step; [|done|done]. wp_step. intros _. exists h, w1, id.
  do 3 (split; [done|]). simpl. split; [by eapply delete_user_erases|]. eapply delete_user_spares; [|done].
  eapply only_sessions_trans; [by apply touched_only|done].
Qed.
End Guard.

(** ** Safe redirect URIs *)

Definition scheme_char (c : ascii) : bool :=
  is_ascii_alphanumeric c || bool_decide (c = "+"%char) || bool_decide (c = "."%char) || bool_decide (c = "-"%char).

(** The scheme of a URI in the sense of RFC 3986. *)
Definition wf_scheme (s : string) : Prop :=
  exists first rest, s = String first rest /\ is_ascii_alphabetic first = true /\ all_bytes scheme_char rest = true.

(** [uri] is hierarchical, with a scheme that no browser runs or reads files with. *)
Definition safe_uri (uri : string) : Prop :=
  exists scheme rest, to_ascii_lowercase uri = scheme +:+ "://" +:+ rest /\ wf_scheme scheme
    /\ scheme ∉ ["javascript"; "data"; "file"; "vbscript"].

Lemma starts_with_app p s : starts_with p (p +:+ s) = true.
Proof. induction p as [|c p IH]; [by destruct s|]. rewrite string_app_cons. cbn. by destruct (ascii_dec c c). Qed.

Lemma starts_with_inv p s : starts_with p s = true -> exists r, s = p +:+ r.
Proof.
  revert s. induction p as [|c p IH]; intros s; [by exists s|]. destruct s as [|d s]; [done|]. cbn.
  destruct (ascii_dec c d) as [<-|]; [|done]. intros [r ->]%IH. by exists r.
Qed.

Lemma find_str_inv p s n : find_str p s = Some n -> exists r, s = take_bytes n s +:+ p +:+ r /\ String.length (take_bytes n s) = n.
Proof.
  revert n. induction s as [|c s IH]; intros n; cbn [find_str]; destruct (starts_with p _) eqn:Hs; try done.
  - intros [= <-]. apply starts_with_inv in Hs as [r ->]. by exists r.
  - intros [= <-]. apply starts_with_inv in Hs as [r Hr]. exists r. by rewrite Hr.
  - destruct (find_str p s) as [m|]; [|done]. intros [= <-]. destruct (IH m eq_refl) as (r & Hr & Hl). exists r. cbn [take_bytes].
    rewrite string_app_cons, <- Hr. split; [done|]. simpl. by rewrite Hl.
Qed.

Lemma scheme_char_colon c : scheme_char c = true -> c <> ":"%char.
Proof. by intros Hc ->. Qed.

Lemma alphabetic_scheme_char c : is_ascii_alphabetic c = true -> scheme_char c = true.
Proof. unfold scheme_char, is_ascii_alphanumeric. by intros ->. Qed.

Lemma find_str_scheme s r : all_bytes scheme_char s = true -> find_str "://" (s +:+ "://" +:+ r) = Some (String.length s).
Proof.
  induction s as [|c s IH].
  { intros _. change ("" +:+ "://" +:+ r) with ("://" +:+ r).
    pose proof (starts_with_app "://" r) as Hp. destruct ("://" +:+ r); cbn [find_str]; by rewrite Hp. }
  cbn [all_bytes String.length]. intros [Hc Hs]%andb_true_iff. rewrite string_app_cons. cbn [find_str].
  rewrite IH by done. destruct (starts_with _ _) eqn:Hp; [|done]. apply starts_with_inv in Hp as [t Ht].
  injection Ht as -> _. by apply scheme_char_colon in Hc.
Qed.

Lemma wf_scheme_bytes s : wf_scheme s -> all_bytes scheme_char s = true.
Proof. intros (c & r & -> & Hc & Hr). simpl. by rewrite alphabetic_scheme_char, Hr. Qed.

Lemma custom_scheme_exact l :
  is_custom_scheme l = true <-> exists scheme rest, l = scheme +:+ "://" +:+ rest /\ wf_scheme scheme.
Proof.
  unfold is_custom_scheme. split.
  - destruct (find_str "://" l) as [n|] eqn:Hf; [|done]. destruct (Nat.eqb_spec n 0); [done|].
    apply find_str_inv in Hf as (r & Hr & Hl). destruct (take_bytes n l) as [|c s] eqn:Ht; [done|].
    destruct (is_ascii_alphabetic c) eqn:Hc; [|done]. intros Hs. exists (String c s), r. split; [done|]. by exists c, s.
  - intros (s & r & -> & Hwf). rewrite find_str_scheme by (by apply wf_scheme_bytes).
    destruct Hwf as (c & t & -> & Hc & Ht). cbn [String.length Nat.eqb]. rewrite take_bytes_all by done.
    rewrite Hc. done.
Qed.

(** A prefix up to a colon is the whole scheme. *)
Lemma scheme_prefix p s r :
  all_bytes scheme_char p = true -> all_bytes scheme_char s = true ->
  starts_with (p +:+ ":") (s +:+ "://" +:+ r) = bool_decide (s = p).
Proof.
  intros Hp Hs. destruct (starts_with _ _) eqn:Hst; symmetry.
  - apply bool_decide_eq_true. apply starts_with_inv in Hst as [t Ht]. rewrite <- string_app_assoc in Ht.
    revert s Hp Hs Ht. induction p as [|c p IH]; intros [|d s] Hp Hs Ht; try done.
    + injection Ht as -> _. by apply andb_true_iff in Hs as [Hs%scheme_char_colon _].
    + injection Ht as <- _. by apply andb_true_iff in Hp as [Hp%scheme_char_colon _].
    + simpl in Hp, Hs. apply andb_true_iff in Hp as [_ Hp], Hs as [_ Hs]. injection Ht as -> Ht. f_equal. by apply IH.
  - apply bool_decide_eq_false. intros ->. rewrite string_app_assoc in Hst.
    change "://" with (":" +:+ "//") in Hst. rewrite <- !string_app_assoc, string_app_assoc, starts_with_app in Hst. done.
Qed.

Lemma scheme_allowed_exact uri : scheme_allowed uri = true <-> safe_uri uri.
Proof.
  unfold scheme_allowed, safe_uri. set (l := to_ascii_lowercase uri).
  assert (Hc : starts_with "http://" l || starts_with "https://" l || is_custom_scheme l = is_custom_scheme l).
  { destruct (is_custom_scheme l) eqn:He; [by rewrite orb_true_r|]. rewrite orb_false_r.
    apply orb_false_iff. split; apply not_true_iff_false; intros [r Hr]%starts_with_inv;
      rewrite <- not_true_iff_false, custom_scheme_exact in He; apply He.
    - exists "http", r. split; [done|]. by eexists _, _.
    - exists "https", r. split; [done|]. by eexists _, _. }
  rewrite Hc, negb_orb, negb_involutive, andb_true_iff, negb_true_iff, custom_scheme_exact. split.
  - intros [(s & r & Hl & Hwf) Hb]. exists s, r. do 2 (split; [done|]). revert Hb. rewrite Hl, !orb_false_iff.
    intros (((H1 & H2) & H3) & H4). rewrite !not_elem_of_cons.
    rewrite (scheme_prefix "javascript") in H1 by (done || by apply wf_scheme_bytes).
    rewrite (scheme_prefix "data") in H2 by (done || by apply wf_scheme_bytes).
    rewrite (scheme_prefix "file") in H3 by (done || by apply wf_scheme_bytes).
    rewrite (scheme_prefix "vbscript") in H4 by (done || by apply wf_scheme_bytes).
    rewrite bool_decide_eq_false in H1, H2, H3, H4. repeat split; try done. apply not_elem_of_nil.
  - intros (s & r & Hl & Hwf & Hn). split; [eauto|]. rewrite !not_elem_of_cons in Hn.
    destruct Hn as (H1 & H2 & H3 & H4 & _). rewrite Hl.
    rewrite (scheme_prefix "javascript"), (scheme_prefix "data"), (scheme_prefix "file"), (scheme_prefix "vbscript")
      by (done || by apply wf_scheme_bytes).
    by rewrite !bool_decide_false.
Qed.

Section RedirectUris.
Context `{RedisLaws} `{EnvLaws} `{Crypto} `{Texts} `{!JsonCodec SessionSnapshot} `{!JsonCodecLaws SessionSnapshot}.
Implicit Types w : World.

(** The table is as it was, or has one more row, with a safe URI of an existing client. *)
Definition safe_addition (d d' : Pg) : Prop :=
  redirect_uris d' = redirect_uris d
  \/ exists row, redirect_uris d !! ru_id row = None /\ redirect_uris d' = <[ru_id row := row]> (redirect_uris d)
       /\ is_Some (clients d !! ru_client_id row) /\ safe_uri (ru_uri row).

Lemma insert_uri_safe id cid uri t d a d' :
  safe_uri uri -> insert_redirect_uri id cid uri t d = Ok (a, d') -> safe_addition d d'.
Proof.
  intros Hs Hq. right. unfold insert_redirect_uri in Hq. repeat case_match; try done. injection Hq as _ <-.
  match goal with Hn : negb (has_row _ _) = true |- _ => apply negb_true_iff, has_row_none in Hn end.
  match goal with Hn : has_row _ _ = true |- _ => apply has_row_spec in Hn end.
  by exists (mkRedirectUri id cid uri (pg_ts t)).
Qed.

Lemma repo_add_uri_safe u w :
  pg_wf (pg w) -> safe_uri (ru_uri u) -> wp (Client.add_redirect_uri u) (always (fun w' => safe_addition (pg w) (pg w'))) w.
Proof.
  intros Hwf Hs. unfold Client.add_redirect_uri. do 2 wp_step; [|by left|by eapply insert_uri_safe].
  assert (Hsafe : safe_addition (pg w) d) by (by eapply insert_uri_safe). unfold client_id_of. do 2 wp_step; [|done].
  destruct (head _) as [cid|]; [|by wp_step]. wp_call invalidate_pg. intros r w1 [_ Hp]. unfold always. by rewrite Hp.
Qed.

Lemma insert_uri_wf_always u w :
  pg_wf (pg w) -> wp (Client.add_redirect_uri u) (always (fun w' => pg_wf (pg w'))) w.
Proof.
  intros Hwf. unfold Client.add_redirect_uri. do 2 wp_step; [|done|by eapply insert_redirect_uri_wf].
  assert (Hd : pg_wf d) by (by eapply insert_redirect_uri_wf). unfold client_id_of. do 2 wp_step; [|done].
  destruct (head _) as [cid|]; [|by wp_step]. wp_call invalidate_pg. intros r w1 [_ Hp]. unfold always. by rewrite Hp.
Qed.

Lemma touched_clients d d' : touched d d' -> clients d' = clients d /\ redirect_uris d' = redirect_uris d.
Proof. by intros [->|(id & t & [= <-])]. Qed.

Lemma add_redirect_uri_spec path body_uri req w :
  pg_wf (pg w) -> wp (add_redirect_uri path body_uri req) (always (fun w' => safe_addition (pg w) (pg w'))) w.
Proof.
  intros Hwf. unfold add_redirect_uri, as_admin. wp_step. wp_call require_admin_spec; [done|].
  intros r w1 (Htd & _ & [h|resp] & -> & _); destruct (touched_clients _ _ Htd) as [Hcl Hru]; [|wp_step; by left].
  unfold with_uuid, parse_uuid. destruct (uuid_parse_str path) as [id|]; [|wp_step; by left].
  destruct (is_empty _); [wp_step; by left|].
  destruct (scheme_allowed _) eqn:Hs; cbn [negb]; [|wp_step; by left]. apply scheme_allowed_exact in Hs.
  assert (Hwf1 : pg_wf (pg w1)) by (destruct Htd as [->|(? & ? & Hq)]; [done|by eapply touch_session_wf]).
  assert (Hmove : forall d, safe_addition (pg w1) d -> safe_addition (pg w) d)
    by (unfold safe_addition; intros d; by rewrite Hcl, Hru).
  wp_step. wp_call find_client_by_id_spec; [done|]. intros r w2 [(Hp2 & _) _].
  assert (Hsame : safe_addition (pg w) (pg w2)) by (left; by rewrite Hp2).
  destruct r as [[c|]|e]; [|by wp_step|done]. do 4 wp_step. wp_step. unfold always.
  eapply wp_mono; [apply wp_conj; [apply repo_add_uri_safe|apply insert_uri_wf_always]; simpl; by rewrite ?Hp2|].
  intros r w3 [Hadd Hwf3]. simpl in *. rewrite Hp2 in Hadd. destruct r as [[]|e]; [|by apply Hmove].
  wp_step. wp_call find_client_by_id_spec; [done|]. intros r w4 [(Hp4 & _) _].
  assert (Hend : safe_addition (pg w) (pg w4)) by (rewrite Hp4; by apply Hmove).
  by destruct r as [[c'|]|e]; [wp_step..|].
Qed.
End RedirectUris.

(** ** Theorems *)

(** C13: Administration is for administrators.  Whatever endpoint is called, either
    the request carries the token of a session that is active (an enabled user, not
    expired when looked up) and whose user has the role [admin], assigned or
    inherited along the role hierarchy, or the answer is 401, 403 or 500, nothing in
    Postgres has changed but at most one session's access time, and the signing keys
    are as they were. *)
Theorem admin_only `{RedisLaws} `{EnvLaws} `{JwtLib} `{!RsaLib} `{!FsEnv} `{Crypto} `{Texts} `{UnicodeTables}
  `{Argon2Lib} `{ValueParser} `{!JsonCodec ClientSnapshot} `{!JsonCodec SessionSnapshot}
  `{!JsonCodecLaws SessionSnapshot} `{ErrorTexts} state pv ep req w r w' :
  pg_wf (pg w) -> handle state pv ep req w = (r, w') ->
  (exists h w1, admin_session req w w1 h) \/ exists resp, r = Ok (Ok resp, pv) /\ refused w resp w'.
Proof. intros Hwf Hrun. exact (wp_run _ _ _ _ _ (handle_spec state pv ep req w Hwf) Hrun). Qed.

(** Deleting a user is complete and confined.  When [delete_user] answers 204,
    the caller was an administrator other than the one deleted, no row of any table
    is or belongs to the deleted user, and the rows of the other users, the roles
    and the clients are as they were. *)
Theorem delete_user_complete `{RedisLaws} `{EnvLaws} `{Crypto} `{Texts}
  `{!JsonCodec SessionSnapshot} `{!JsonCodecLaws SessionSnapshot} path req w resp w' :
  pg_wf (pg w) -> delete_user path req w = (Ok resp, w') -> rs_status resp = 204%Z ->
  exists h w1 id, admin_session req w w1 h /\ uuid_parse_str path = Some id /\ ses_user_id (swu_session h) <> id
    /\ user_erased id (pg w') /\ others_kept id (pg w) (pg w').
Proof. intros Hwf Hrun. exact (wp_run _ _ _ _ _ (delete_user_spec path req w Hwf) Hrun). Qed.

(** C37: Only safe redirect URIs are registered.  Whatever the outcome of
    [add_redirect_uri], the redirect URIs are as they were or have one more row, of
    an existing client, whose URI is [scheme://...] with a well-formed scheme that is
    none of [javascript], [data], [file] and [vbscript]; and the check it uses accepts
    exactly these URIs. *)
Theorem redirect_uris_stay_safe `{RedisLaws} `{EnvLaws} `{Crypto} `{Texts} `{!JsonCodec SessionSnapshot}
  `{!JsonCodecLaws SessionSnapshot} path body_uri req w r w' :
  pg_wf (pg w) -> add_redirect_uri path body_uri req w = (r, w') ->
  safe_addition (pg w) (pg w') /\ forall uri, scheme_allowed uri = true <-> safe_uri uri.
Proof.
  intros Hwf Hrun. split; [exact (wp_run _ _ _ _ _ (add_redirect_uri_spec path body_uri req w Hwf) Hrun)|].
  exact scheme_allowed_exact.
Qed.

(** ** Witnesses *)

Import Instances JsonInstance.

(** An administrator by inheritance (user 7, session token [tok]) and another user
    (11, session token [victim]); one client. *)
Definition pg_admin : Pg :=
  on_user_roles (fun _ => {[(7%N, 2%N)]})
  (on_user_sessions (fun m => <[8%N := demo_session 8 "tok"]>
     (<[12%N := mkUserSession 12 11 "victim" None None (Some 1800000000000000000%Z) None 0]> m))
  (on_users (fun m => <[7%N := demo_user]> (<[11%N := mkUser 11 "v@b" true "v" None None true 0 0]> m))
  (on_roles (fun m => <[1%N := mkRole 1 "admin" None None 0]> (<[2%N := mkRole 2 "boss" None (Some 1%N) 0]> m))
     pg_client))).
Definition world_admin : World := mkWorld 0 pg_admin (∅ : gmap string rentry).

Lemma pg_admin_wf : pg_wf pg_admin.
Proof. apply pg_wf_b_ok. vm_compute. reflexivity. Qed.

Definition with_token (tok : string) : HttpRequest := mkHttpRequest [("Authorization", "Bearer " +:+ tok)] [] None.
Definition demo_admin : AdminState := mkAdminState (client_repository_new 60000000000).
Definition status_of (r : res err HttpResponse) : option Z := rs_status <$> ok r.

Definition delete_run (tok : string) : res err HttpResponse * World :=
  delete_user (uuid_to_string 11) (with_token tok) world_admin.

Lemma delete_user_complete_witness :
  status_of (delete_run "tok").1 = Some 204%Z /\ users (pg (delete_run "tok").2) !! 11%N = None.
Proof.
  assert (Hr : (delete_run "tok").1 = Ok (finish 204)) by (vm_compute; reflexivity).
  split; [by rewrite Hr|].
  destruct (delete_user_complete _ _ world_admin _ _ pg_admin_wf (run_fst _ _ _ Hr) eq_refl) as (h & w1 & id & _ & Hid & _ & He & _).
  assert (Hu : uuid_parse_str (uuid_to_string 11) = Some 11%N) by (vm_compute; reflexivity).
  rewrite Hu in Hid. injection Hid as <-. exact (er_user _ _ He).
Defined.

Lemma redirect_uris_stay_safe_witness :
  scheme_allowed "com.example.app://cb" = true /\ scheme_allowed "JavaScript://%0aalert(1)" = false
  /\ safe_addition pg_admin (pg (add_redirect_uri (uuid_to_string 5) (Some "com.example.app://cb") (with_token "tok") world_admin).2).
Proof.
  split; [vm_compute; reflexivity|]. split; [vm_compute; reflexivity|].
  exact (proj1 (redirect_uris_stay_safe _ _ _ world_admin _ _ pg_admin_wf (surjective_pairing _))).
Defined.

#[export] Instance demo_error_texts : ErrorTexts := {| err_text _ := "error"; u64_to_string _ := "0" |}.

Section AdminOnly.
Import JwtInstance.

Definition rotate_run (tok : string) : res err (res err HttpResponse * Provider) * World :=
  handle demo_admin provider1 ERotateKey (with_token tok) world_admin.
Definition rotated (tok : string) : option (option Z * string) :=
  (fun p => (status_of p.1, key_id p.2)) <$> ok (rotate_run tok).1.

(** The administrator rotates the keys, the other user is turned away. *)
Lemma admin_only_witness :
  (rotated "tok" = Some (Some 200%Z, key_id provider2)) /\ (rotated "victim" = Some (Some 403%Z, key_id provider1))
  /\ ((exists h w1, admin_session (with_token "victim") world_admin w1 h)
      \/ exists resp, (rotate_run "victim").1 = Ok (Ok resp, provider1) /\ refused world_admin resp (rotate_run "victim").2).
Proof.
  split; [vm_compute; reflexivity|]. split; [vm_compute; reflexivity|].
  exact (admin_only demo_admin provider1 ERotateKey (with_token "victim") world_admin _ _ pg_admin_wf (surjective_pairing _)).
Defined.
End AdminOnly.

(** ** Two surprises *)

(** *** A deleted user who stays logged in

    [delete_user] and [update_user] ignore the outcome of ending the user's sessions.
    If Redis cannot be reached while they run, the rows go but the cached session
    stays, and it is served once Redis is back. *)
Module RedisOutage.
#[local] Instance outage_env : Env := {|
  clock := clock; redis_clock := redis_clock; random_bytes := random_bytes; new_v4 := new_v4;
  jitter_floor := jitter_floor; redis_pool_up := fun n => (n <? 100) || (200 <=? n); redis_reply := redis_reply;
  pg_reply := pg_reply; row_order := fun A => @row_order demo_env A; collate_le := collate_le;
  lower_table := lower_table; pg_clock := pg_clock; gen_range := gen_range; task_ok := task_ok |}.

(** The victim's session is looked up, and with that cached, before the outage. *)
Definition before : World := (find_active_session "victim" world_admin).2.
Definition outage (ep : HttpRequest -> io HttpResponse) : res err HttpResponse * World :=
  ep (with_token "tok") (mkWorld 100 (pg before) (redis before)).
Definition later (ep : HttpRequest -> io HttpResponse) : World := mkWorld 200 (pg (outage ep).2) (redis (outage ep).2).
Definition still_active (ep : HttpRequest -> io HttpResponse) : bool :=
  match (find_active_session "victim" (later ep)).1 with Ok (Some h) => true | _ => false end.

Definition disable : UserUpdateRequest := mkUserUpdateRequest None None (Some false) None None.

Example removed_user_stays_logged_in :
  status_of (outage (delete_user (uuid_to_string 11))).1 = Some 204%Z
  /\ users (pg (outage (delete_user (uuid_to_string 11))).2) !! 11%N = None
  /\ still_active (delete_user (uuid_to_string 11)) = true
  /\ status_of (outage (update_user (uuid_to_string 11) disable)).1 = Some 200%Z
  /\ still_active (update_user (uuid_to_string 11) disable) = true.
Proof. repeat split; vm_compute; reflexivity. Qed.
End RedisOutage.

(** *** A refused update that took place

    [update_user] writes the user before it looks at the length of the new password:
    the 400 it answers does not mean that nothing has changed. *)
Definition bad_update : UserUpdateRequest := mkUserUpdateRequest (Some "N") None None None (Some "short").

Example refused_update_applied :
  let run := update_user (uuid_to_string 11) bad_update (with_token "tok") world_admin in
  status_of run.1 = Some 400%Z /\ (users (pg run.2) !! 11%N ≫= usr_first_name) = Some "N".
Proof. split; vm_compute; reflexivity. Qed.
