(* ===== verification/Keeps.v ===== *)
(** * Invariants of the tables along programs

    [keeps I m]: if [I] holds of the tables before [m], it holds after it, whatever the
    outcome, and a transaction that [m] hands on holds tables of which [I] holds.  The
    type class [Good] says what is required of a value by its type, so that there is
    one rule per construct of a program, and the tactic [keeps] applies them along the
    program's text, down to its statements.  [Tame] is what requests outside [/admin]
    ask of an invariant; the operations they share, and the ones that recurse, have
    their lemmas here, and [Server.v] proves the handlers with the tactic alone. *)

From stdpp Require Import base tactics list gmap strings.
From Stdlib Require Import ZArith Lia.
From S2P Require Import Prelude RustStr Redis Schema World Ext RedisKeys Scopes Hashing RateLimit Jwt Role User Client.
From S2P Require Import RefreshToken Session Consent AccountTokens Integrity AuthCode Secrets Password Signup Issuer Device.
From S2P Require Import TokenFlow Introspect Authorize Logout.

Local Open Scope auth_scope.

(** What is required of a value, by its type, when [I] is to hold of the tables: of a
    transaction, that [I] holds of its tables; of everything else, nothing. *)
Class Good (I : Pg -> Prop) (A : Type) := good : A -> Prop.
Global Arguments good I {_ _} _.
#[export] Instance any_good I A : Good I A | 100 := fun _ => True.
#[export] Instance tx_good I : Good I Tx := fun tx => forall d, tx = TxOpen d -> I d.
#[export] Instance pair_good I `{Good I A, Good I B} : Good I (A * B) := fun p => good I p.1 /\ good I p.2.
#[export] Instance res_good I E `{Good I A} : Good I (res E A) | 10 := fun r => forall a, r = Ok a -> good I a.

Definition stmt_keeps (I : Pg -> Prop) {A} (q : stmt A) : Prop := forall d a d', I d -> q d = Ok (a, d') -> I d'.

Section Logic.
Context `{RedisServer} `{EnvLaws}.
Context (I : Pg -> Prop).
Implicit Types w : World.

Definition keeps {A} `{Good I A} (m : io A) : Prop :=
  forall w, I (pg w) -> wp m (fun r w' => I (pg w') /\ forall a, r = Ok a -> good I a) w.

(** *** Rules *)

Lemma keeps_ret {A} `{Good I A} (a : A) : good I a -> keeps (ret a).
Proof. intros Ha w Hw. wp_step. split; [done|]. by intros ? [= <-]. Qed.

Lemma keeps_throw {A} `{Good I A} e : keeps (throw (A:=A) e).
Proof. intros w Hw. wp_step. by split. Qed.

Lemma keeps_bind {A B} `{Good I A, Good I B} (m : io A) (k : A -> io B) :
  keeps m -> (forall a, good I a -> keeps (k a)) -> keeps (bind m k).
Proof.
  intros Hm Hk w Hw. wp_step. eapply wp_mono; [by apply Hm|]. intros [a|e] w' [Hw' Ha]; [|by split].
  by apply Hk; [apply Ha|].
Qed.

Lemma keeps_attempt {A} `{Good I A} (m : io A) : keeps m -> keeps (attempt m).
Proof.
  intros Hm w Hw. wp_step. eapply wp_mono; [by apply Hm|]. intros r w' [Hw' Ha]. split; [done|]. by intros ? [= <-].
Qed.

Lemma keeps_ignore {A} `{Good I A} (m : io A) : keeps m -> keeps (ignore m).
Proof. intros Hm w Hw. wp_step. eapply wp_mono; [by apply Hm|]. intros r w' [Hw' _]. by split. Qed.

Lemma keeps_or_fail {A B F} `{Good I A, Good I B} (m : io A) (f : err -> F) (k : A -> io (res F B)) :
  keeps m -> (forall a, good I a -> keeps (k a)) -> keeps (or_fail m f k).
Proof.
  intros Hm Hk w Hw. wp_step. eapply wp_mono; [by apply Hm|]. intros [a|e] w' [Hw' Ha]; [by apply Hk; [apply Ha|]|].
  split; [done|]. by intros ? [= <-] ? ?.
Qed.

Lemma keeps_for_each {A} (l : list A) (body : A -> io unit) : (forall x, keeps (body x)) -> keeps (for_each l body).
Proof.
  intros Hb. induction l as [|x l IH]; simpl; [by apply keeps_ret|]. by apply keeps_bind.
Qed.

Lemma keeps_for_collect {A B} (l : list A) (body : A -> io B) :
  (forall x, @keeps B (any_good I B) (body x)) -> @keeps (list B) (any_good I _) (for_collect l body).
Proof.
  intros Hb. induction l as [|x l IH]; simpl; [by apply keeps_ret|].
  apply keeps_bind; [done|]. intros y _. apply (keeps_bind (H2 := any_good I _)); [done|]. intros ys _. by apply keeps_ret.
Qed.

(** *** Primitives *)

Lemma keeps_quiet {A} (m : io A) : (forall w, wp m (fun _ w' => pg w' = pg w) w) -> @keeps A (any_good I A) m.
Proof. intros Hm w Hw. eapply wp_mono; [apply Hm|]. intros r w' Hp. by rewrite Hp. Qed.

Lemma keeps_ask {A} (f : nat -> A) : @keeps A (any_good I A) (ask f).
Proof. apply keeps_quiet. intros w. by wp_step. Qed.
Lemma keeps_fetch_all {A} (q : Pg -> list A) : @keeps (list A) (any_good I _) (fetch_all q).
Proof. apply keeps_quiet. intros w. by wp_step. Qed.
Lemma keeps_fetch_optional {A} (q : Pg -> list A) : @keeps (option A) (any_good I _) (fetch_optional q).
Proof. apply keeps_quiet. intros w. by wp_step. Qed.
Lemma keeps_fetch_count {A} (q : Pg -> list A) : @keeps Z (any_good I _) (fetch_count q).
Proof. apply keeps_quiet. intros w. by wp_step. Qed.
Lemma keeps_fetch_ordered {A} le (q : Pg -> list A) : @keeps (list A) (any_good I _) (fetch_ordered le q).
Proof. apply keeps_quiet. intros w. by wp_step. Qed.
Lemma keeps_redis_conn : keeps redis_conn.
Proof. apply keeps_quiet. intros w. by wp_step. Qed.
Lemma keeps_redis_cmd {A} (c : Z -> rstate -> option (A * rstate)) : @keeps A (any_good I A) (redis_cmd c).
Proof. apply keeps_quiet. intros w. by wp_step. Qed.

Lemma keeps_redis_get k : keeps (redis_get k).
Proof. apply keeps_quiet. intros w. by wp_step. Qed.
Lemma keeps_redis_ttl k : keeps (redis_ttl k).
Proof. apply keeps_quiet. intros w. by wp_step. Qed.
Lemma keeps_redis_exists k : keeps (redis_exists k).
Proof. apply keeps_quiet. intros w. by wp_step. Qed.
Lemma keeps_redis_hgetall k : keeps (redis_hgetall k).
Proof. apply keeps_quiet. intros w. by wp_step. Qed.

Lemma keeps_execute {A} (q : stmt A) : stmt_keeps I q -> @keeps A (any_good I A) (execute q).
Proof. intros Hq w Hw. wp_step; (split; [|done]); [by eapply Hq|done|by eapply Hq]. Qed.

Lemma keeps_execute_now {A} (q : Z -> stmt A) : (forall t, stmt_keeps I (q t)) -> @keeps A (any_good I A) (execute_now q).
Proof. intros Hq w Hw. wp_step; (split; [|done]); [by eapply Hq|done|by eapply Hq]. Qed.

Lemma keeps_begin : keeps begin_tx.
Proof. intros w Hw. wp_step; (split; [done|]); [|done]. by intros ? [= <-] d [= <-]. Qed.

Lemma keeps_begin_now : keeps begin_tx_now.
Proof. intros w Hw. wp_step; (split; [done|]); [|done]. intros ? [= <-]. split; [done|]. by intros d [= <-]. Qed.

Local Transparent tx_execute tx_fetch_all tx_fetch_optional wp.

(** A transaction that is over stays over. *)
Lemma wp_tx_execute_dead {A} (q : stmt A) tx Q w :
  (forall d, tx <> TxOpen d) -> (forall e tx', (forall d, tx' <> TxOpen d) -> Q (Ok (Err e, tx')) (bump w)) -> wp (tx_execute q tx) Q w.
Proof.
  intros Hdead HQ. unfold wp, tx_execute. destruct tx as [d| |]; [by destruct (Hdead d)|..]; destruct (pg_reply (tick w)); by apply HQ.
Qed.

Lemma tx_fetch_all_eq {A} (q : Pg -> list A) tx w : tx_fetch_all q tx w = tx_try (fun d => Ok (row_order (tick w) (q d), d)) tx w.
Proof. reflexivity. Qed.

Lemma tx_fetch_optional_eq {A} (q : Pg -> list A) tx :
  tx_fetch_optional q tx = bind (tx_fetch_all q tx) (fun p => ret (head p.1, p.2)).
Proof. reflexivity. Qed.

Local Opaque tx_execute tx_fetch_all tx_fetch_optional wp.

Lemma keeps_tx_execute {A} (q : stmt A) tx :
  stmt_keeps I q -> good I tx -> @keeps (res err A * Tx) (@pair_good I _ (@res_good I _ _ (any_good I A)) _ _) (tx_execute q tx).
Proof.
  intros Hq Htx w Hw. destruct tx as [d| |]; [|apply wp_tx_execute_dead; [done|]; intros e tx' Hd; split; [done|]; intros ? [= <-]; split;
    [done|]; intros d Heq; by destruct (Hd d)..].
  specialize (Htx d eq_refl). wp_step; (split; [done|]); intros p [= <-]; split; try done; intros d2 Hd2; simpl in Hd2; try done.
  injection Hd2 as <-. by eapply (Hq d).
Qed.

Lemma keeps_tx_try {A} (q : stmt A) tx :
  stmt_keeps I q -> good I tx -> @keeps (A * Tx) (@pair_good I _ (any_good I A) _ _) (tx_try q tx).
Proof.
  intros Hq Htx w Hw. destruct tx as [d| |].
  - specialize (Htx d eq_refl). wp_step; (split; [done|]); [|done]. intros ? [= <-]. split; [done|]. intros ? [= <-]. by eapply (Hq d).
  - by apply wp_tx_try_dead.
  - by apply wp_tx_try_dead.
Qed.

Lemma keeps_tx_fetch_all {A} (q : Pg -> list A) tx :
  good I tx -> @keeps (list A * Tx) (@pair_good I _ (any_good I _) _ _) (tx_fetch_all q tx).
Proof.
  intros Htx w Hw. apply run_wp. intros r w' Hr. rewrite tx_fetch_all_eq in Hr. run_wp Hr.
  apply keeps_tx_try; [|done|done]. by intros d a d' Hd [= _ <-].
Qed.

Lemma keeps_tx_fetch_optional {A} (q : Pg -> list A) tx :
  good I tx -> @keeps (option A * Tx) (@pair_good I _ (any_good I _) _ _) (tx_fetch_optional q tx).
Proof.
  intros Htx. rewrite tx_fetch_optional_eq. eapply keeps_bind; [by apply keeps_tx_fetch_all|].
  intros [l tx'] [_ Hg]. apply keeps_ret. by split.
Qed.

Lemma keeps_commit tx : good I tx -> keeps (commit tx).
Proof. intros Htx w Hw. destruct tx as [d| |]; wp_step; (split; [|done]); try done; by apply Htx. Qed.
End Logic.

(** ** Statements *)

(** The statements that requests outside [/admin] run, and the sweep, but for the
    writing of passwords. *)
Inductive everyday : forall A : Type, stmt A -> Prop :=
| ev_insert_user u : everyday _ (insert_user u)
| ev_verify_email id t : everyday _ (verify_user_email id t)
| ev_insert_refresh t : everyday _ (insert_refresh_token t)
| ev_update_revoked id b : everyday _ (update_refresh_revoked id b)
| ev_revoke (P : RefreshToken -> Prop) `{forall t, Decision (P t)} : everyday _ (revoke_where P)
| ev_delete_expired t : everyday _ (delete_expired t)
| ev_insert_session s : everyday _ (insert_session s)
| ev_touch_session id t : everyday _ (update_session_access id t)
| ev_delete_sessions (P : UserSession -> Prop) `{forall s, Decision (P s)} : everyday _ (delete_sessions_where P)
| ev_insert_consent c : everyday _ (insert_consent c)
| ev_update_consent id s t : everyday _ (update_consent id s t)
| ev_delete_consents (P : UserConsent -> Prop) `{forall c, Decision (P c)} : everyday _ (delete_consents P)
| ev_insert_reset r : everyday _ (insert_reset r)
| ev_consume_reset id t : everyday _ (consume_reset_row id t)
| ev_consume_siblings u k t : everyday _ (consume_siblings u k t)
| ev_insert_verification v : everyday _ (insert_verification v)
| ev_consume_verification id t : everyday _ (consume_verification id t).

(** [c'] rewrites the password [c] in place. *)
Definition rewrites (c c' : Credential) : Prop :=
  cred_id c' = cred_id c /\ cred_type c' = "password" /\ cred_user_id c' = cred_user_id c.

(** What such requests ask of an invariant.  Registration also gives the user it made
    the role it finds under the name [user]; [tame_fresh] and [tame_default] are what
    the invariant must know of these two.  A password is written in place of one that
    was found, or as a new row if none was found or the user is new; [tame_bare] is
    what the invariant must know of a user without one. *)
Class Tame (I : Pg -> Prop) := {
  tame_everyday A (q : stmt A) : everyday A q -> stmt_keeps I q;
  tame_fresh : Uuid -> Prop;
  tame_default : Uuid -> Prop;
  tame_bare : Pg -> Uuid -> Prop;
  tame_new_user u d d' : I d -> insert_user u d = Ok (tt, d') -> tame_fresh (usr_id u) /\ tame_bare d' (usr_id u);
  tame_found d i r : I d -> roles d !! i = Some r -> role_name r = "user" -> tame_default (role_id r);
  tame_role u r : tame_fresh u -> tame_default r -> stmt_keeps I (insert_user_role u r);
  tame_none d u : I d -> (forall c, ~ password_of d u c) -> tame_bare d u;
  tame_password c d a d' : I d -> cred_type c = "password" -> tame_bare d (cred_user_id c) ->
    insert_credential c d = Ok (a, d') -> I d';
  tame_rewrite u c c' d a d' : I d -> password_of d u c -> rewrites c c' -> update_credential c' d = Ok (a, d') -> I d';
}.

(** A statement that only reads. *)
Lemma query_keeps I {A} (f : Pg -> A) : stmt_keeps I (fun d => Ok (f d, d)).
Proof. by intros d a d' Hd [= _ <-]. Qed.

Create HintDb keeps.
#[export] Hint Extern 1 (stmt_keeps _ (fun d => Ok (_, d))) => apply (query_keeps _ (fun _ => _)) : keeps.
#[export] Hint Constructors everyday : keeps.
#[export] Hint Resolve tame_everyday tame_role eq_refl : keeps.
#[export] Hint Resolve keeps_ask keeps_fetch_all keeps_fetch_optional keeps_fetch_count keeps_fetch_ordered keeps_redis_conn
  keeps_redis_cmd keeps_execute keeps_execute_now keeps_begin keeps_begin_now keeps_tx_execute keeps_tx_try keeps_tx_fetch_all
  keeps_tx_fetch_optional keeps_commit keeps_redis_get keeps_redis_ttl keeps_redis_exists keeps_redis_hgetall : keeps.

(** ** Programs *)

(** What is known of a value that a program handed on, component by component. *)
Ltac good_parts :=
  repeat match goal with
  | Hg : @good _ (_ * _) _ (_, _) |- _ => destruct Hg as [?Hg ?Hg]; simpl in *
  | Hg : @good _ _ (@res_good _ _ _ _) (Ok ?a) |- _ => specialize (Hg a eq_refl)
  | Hg : @good _ _ (@any_good _ _) _ |- _ => clear Hg
  end.

Ltac solve_good :=
  first [ assumption
        | exact Logic.I
        | match goal with
          | |- @good _ _ (@pair_good _ _ _ _ _) _ => split; cbn [fst snd]; solve_good
          | |- @good _ _ (@res_good _ _ _ _) (Ok _) => intros ?a [= <-]; solve_good
          | |- @good _ _ (@res_good _ _ _ _) _ => intros ?a ?Ha; first [discriminate Ha | solve_good]
          end ].

Ltac head_of t := lazymatch t with ?f _ => head_of f | _ => t end.

(** One step: the rule of the head of the program; a known operation; or the text of
    the function called. *)
Ltac keeps_step :=
  lazymatch goal with
  | |- keeps _ (bind _ _) => eapply keeps_bind; [|intros ?x ?Hg]
  | |- keeps _ (ret _) => apply keeps_ret; solve_good
  | |- keeps _ (throw _) => apply keeps_throw
  | |- keeps _ (attempt _) => eapply keeps_attempt
  | |- keeps _ (ignore _) => eapply keeps_ignore
  | |- keeps _ (or_fail _ _ _) => eapply keeps_or_fail; [|intros ?x ?Hg]
  | |- keeps _ (for_each _ _) => eapply keeps_for_each; intros ?x
  | |- keeps _ (for_collect _ _) => eapply keeps_for_collect; intros ?x
  | |- keeps _ (match ?x with _ => _ end) => destruct x; good_parts
  | |- keeps _ ?m =>
      first [ solve [eauto 5 with keeps nocore]
            | let h := head_of m in progress (unfold h; cbv zeta beta) ]
  end.

Ltac keeps := intros; repeat keeps_step.

(** ** Operations *)

Section Operations.
Context `{RedisServer} `{EnvLaws} `{JwtLib} `{Crypto} `{Texts} `{UnicodeTables} `{Argon2Lib} `{ValueParser} `{UrlCodec}
  `{!JsonCodec ClientSnapshot} `{!JsonCodec SessionSnapshot} `{!JsonCodec PendingAuthorization} `{!JsonCodec AuthorizationCode}.
Context (I : Pg -> Prop) `{!Tame I}.
Implicit Types w : World.

(** *** Passwords *)

(** The password of a user, rewritten if there is one, written if there is none. *)
Lemma write_password_keeps u h now w :
  I (pg w) ->
  wp (Credentials.find_first_by_user_id_and_type u "password") (fun r w1 => I (pg w1) /\ forall o, r = Ok o ->
    wp (match o with
        | Some c =>
            do! Credentials.update (mkCredential (cred_id c) (cred_type c) (Some (secret_data h)) (Some (credential_data h))
                  (cred_created_at c) now (cred_user_id c)) in
            ret tt
        | None =>
            let! id := uuid_new_v4 in
            Credentials.persist (mkCredential id "password" (Some (secret_data h)) (Some (credential_data h)) now now u)
        end) (fun _ w2 => I (pg w2)) w1) w.
Proof.
  intros Hw. apply wp_find_password; [|by intros c]. intros o Ho. split; [done|]. intros o' [= <-]. destruct o as [c|].
  - assert (Hrw : rewrites c (mkCredential (cred_id c) (cred_type c) (Some (secret_data h)) (Some (credential_data h))
      (cred_created_at c) now (cred_user_id c))) by (destruct Ho as (_ & _ & Ht); by split).
    unfold Credentials.update. do 2 wp_step; simpl in *; [wp_step|done|]; exact (tame_rewrite _ _ _ _ _ _ Hw Ho Hrw Hq).
  - pose proof (tame_none _ _ Hw Ho) as Hb. unfold Credentials.persist.
    do 3 wp_step; simpl in *; [|done|];
      (eapply tame_password; [exact Hw|..|exact Hq]; [reflexivity|exact Hb]).
Qed.

Lemma keeps_rotate_password u pw : keeps I (rotate_password u pw).
Proof.
  unfold rotate_password. keeps_step; [keeps|]. keeps_step; [keeps|]. intros w Hw.
  wp_step. eapply wp_mono; [apply write_password_keeps; exact Hw|]. intros [o|e] w1 [Hw1 Ho]; [|by split].
  eapply wp_mono; [exact (Ho o eq_refl)|]. by intros r w2 Hw2.
Qed.

(** A new account: the user, and then the password. *)
Lemma keeps_account {B} `{Good I B} user pw (c : Hashed -> Uuid -> Credential) (k : io B) :
  (forall h i, cred_user_id (c h i) = usr_id user /\ cred_type (c h i) = "password") -> keeps I k ->
  keeps I (do! User.persist user in let! hashed := hash pw in let! cid := uuid_new_v4 in
           do! Credentials.persist (c hashed cid) in k).
Proof.
  intros Hc Hk w Hw. unfold User.persist. do 2 wp_step; [|by split|].
  2:{ split; [|done]. by eapply tame_everyday; [constructor|..]. }
  destruct a. destruct (tame_new_user _ _ _ Hw Hq) as [_ Hb].
  assert (Hd : I d) by by eapply tame_everyday; [constructor|..].
  unfold hash. do 3 wp_step. destruct (argon2_compute _ _ _ _ _ _ _) as [out|]; wp_step; [|by split].
  do 3 wp_step. unfold Credentials.persist. set (h := mkHashed _ _). set (i := new_v4 _). destruct (Hc h i) as [Hu Ht].
  rewrite <- Hu in Hb. wp_step; simpl in *; [|by split|split; [|done]];
    pose proof (tame_password _ _ _ _ Hd Ht Hb Hq0) as Hd0; [by apply Hk|done].
Qed.
#[local] Hint Resolve keeps_rotate_password : keeps.

Lemma keeps_client_find repo id : keeps I (Client.find_by_client_id repo id).
Proof. keeps. Qed.
Lemma keeps_find_active t : keeps I (find_active_session t).
Proof. keeps. Qed.
Lemma keeps_create_session i e u v b ip a : keeps I (create_session i e u v b ip a).
Proof. keeps. Qed.
Lemma keeps_authenticate self i p : keeps I (authenticate self i p).
Proof. keeps. Qed.
#[local] Hint Resolve keeps_client_find keeps_find_active keeps_create_session keeps_authenticate : keeps.

(** *** Loops *)

Lemma keeps_invalidate_tokens l : keeps I (invalidate_tokens l).
Proof. induction l as [|t l IH]; simpl; keeps. Qed.
Lemma keeps_push_chars i n s : keeps I (push_chars i n s).
Proof. revert i s. induction n as [|n IH]; intros i s; simpl; keeps. Qed.
#[local] Hint Resolve keeps_invalidate_tokens keeps_push_chars : keeps.
Lemma keeps_persist_loop n a : keeps I (persist_loop n a).
Proof. revert a. induction n as [|n IH]; intros a; simpl; keeps. Qed.
#[local] Hint Resolve keeps_persist_loop : keeps.

(** *** Registration *)

Lemma keeps_new_user {F B} `{Good I B} u tx (f : err -> F) (k : unit * Tx -> io (res F B)) :
  good I tx -> (forall tx', tame_fresh (usr_id u) -> (forall d, tx' = TxOpen d -> tame_bare d (usr_id u)) ->
     good I tx' -> keeps I (k (tt, tx'))) ->
  keeps I (or_fail (tx_try (insert_user u) tx) f k).
Proof.
  intros Htx Hk w Hw. apply wp_or_fail.
  assert (Hfail : forall e w', I (pg w') -> I (pg w') /\ (forall a : res F B, Ok (Err (f e)) = Ok (E:=err) a -> good I a)).
  { intros e w' Hw'. split; [done|]. by intros ? [= <-] ? ?. }
  destruct tx as [d| |]; [|apply wp_tx_try_dead; [done|]; intros c; by apply Hfail..].
  specialize (Htx d eq_refl). wp_step; [|by apply Hfail]. destruct a.
  destruct (tame_new_user u d _ Htx Hq) as [Hfresh Hbare]. apply Hk; [done|by intros d2 [= <-]| |done].
  intros d2 [= <-]. exact (tame_everyday unit (insert_user u) (ev_insert_user u) _ _ _ Htx Hq).
Qed.

(** Its password, in the same transaction. *)
Lemma keeps_new_password {F B} `{Good I B} c tx (f : err -> F) (k : unit * Tx -> io (res F B)) :
  cred_type c = "password" -> good I tx -> (forall d, tx = TxOpen d -> tame_bare d (cred_user_id c)) ->
  (forall tx', good I tx' -> keeps I (k (tt, tx'))) -> keeps I (or_fail (tx_try (insert_credential c) tx) f k).
Proof.
  intros Ht Htx Hb Hk w Hw. apply wp_or_fail.
  assert (Hfail : forall e w', I (pg w') -> I (pg w') /\ (forall a : res F B, Ok (Err (f e)) = Ok (E:=err) a -> good I a)).
  { intros e w' Hw'. split; [done|]. by intros ? [= <-] ? ?. }
  destruct tx as [d| |]; [|apply wp_tx_try_dead; [done|]; intros x; by apply Hfail..].
  specialize (Htx d eq_refl). specialize (Hb d eq_refl). wp_step; [|by apply Hfail]. destruct a. apply Hk; [|done].
  intros d2 [= <-]. exact (tame_password _ _ _ _ Htx Ht Hb Hq).
Qed.

Lemma keeps_default_role {B} `{Good I B} (k : res err (option Role) -> io B) :
  (forall r, (forall role, r = Ok (Some role) -> tame_default (role_id role)) -> keeps I (k r)) ->
  keeps I (bind (attempt (Role.find_by_name "user")) k).
Proof.
  intros Hk w Hw. unfold Role.find_by_name. do 3 wp_step; [|by apply Hk]. apply Hk; [|done].
  intros role [= Hh]. apply head_elem in Hh. rewrite row_order_perm, elem_of_where in Hh.
  destruct Hh as [Hn [i Hi]]. by eapply tame_found.
Qed.

Lemma keeps_signup self body : keeps I (Signup.signup self body).
Proof.
  unfold Signup.signup. repeat first [eapply keeps_new_user; [assumption|]; intros ?tx ?Hfresh ?Hbare ?Hg; simpl in Hfresh
                                     | eapply keeps_new_password; [reflexivity|assumption|assumption|]; intros ?tx ?Hg
                                     | eapply keeps_default_role; intros ?r ?Hdefault | keeps_step].
Qed.
End Operations.
