(* ===== verification/Invariants.v ===== *)
(** * Four invariants of the tables

    [intact]: the schema's constraints hold and the roles form a forest; every statement
    of the code keeps it, if [set_parent] is taken as a whole.  [named n]: there is a
    role of that name; nothing removes or renames one.  [contained d0]: who may do what
    is as in [d0], but for accounts made since, which have the role [user]; the
    statements that requests outside [/admin] run keep it.  [single]: no user has two
    password credentials; this is no constraint of the schema but the work of the
    operations that write passwords, which look for one first. *)

From stdpp Require Import base tactics list gmap strings relations.
From Stdlib Require Import ZArith Lia.
From S2P Require Import Prelude RustStr Redis Schema World Ext Role User Client RefreshToken Session Consent AccountTokens Integrity.
From S2P Require Import Password Keeps.

Local Open Scope auth_scope.

(** Every way a statement can succeed. *)
Ltac stmt_cases Hq :=
  repeat match type of Hq with
  | rbind ?r _ = _ => destruct r eqn:?; cbn [rbind] in Hq
  | (match ?x with _ => _ end) = _ => destruct x eqn:?
  end; try discriminate Hq; inversion Hq; subst; clear Hq.

(** The text of the statement [q] in [q d = Ok _]. *)
Ltac stmt_text Hq := lazymatch type of Hq with ?q _ = Ok _ => let h := head_of q in unfold h in Hq end.

(** ** What the statements of requests and of start-up leave alone *)

(** The statements of [/admin] and of start-up that are not everyday ones, but for those
    on roles. *)
Inductive administrative : forall A : Type, stmt A -> Prop :=
| ad_update_user u : administrative _ (update_user u)
| ad_delete_user id : administrative _ (delete_user id)
| ad_give_role u r : administrative _ (insert_user_role u r)
| ad_take_role u r : administrative _ (delete_user_role u r)
| ad_insert_client c : administrative _ (insert_client c)
| ad_update_client c : administrative _ (update_client c)
| ad_client_secret id s t : administrative _ (update_client_secret id s t)
| ad_delete_client id : administrative _ (delete_client id)
| ad_insert_uri id c uri t : administrative _ (insert_redirect_uri id c uri t)
| ad_delete_uri id : administrative _ (delete_redirect_uri id).

Lemma revoke_where_wf (P : RefreshToken -> Prop) `{forall t, Decision (P t)} d a d' :
  pg_wf d -> revoke_where P d = Ok (a, d') -> pg_wf d'.
Proof. intros Hwf [= _ <-]. by apply set_revoked_wf. Qed.

Lemma update_refresh_revoked_wf id b d a d' : pg_wf d -> update_refresh_revoked id b d = Ok (a, d') -> pg_wf d'.
Proof. intros Hwf [= _ <-]. by apply set_revoked_wf. Qed.

#[export] Hint Resolve revoke_where_wf update_refresh_revoked_wf delete_sessions_wf delete_consents_wf : stmts.

(** The two statements that write passwords. *)
Inductive password_stmt : forall A : Type, stmt A -> Prop :=
| pw_insert c : password_stmt _ (insert_credential c)
| pw_update c : password_stmt _ (update_credential c).

Lemma password_wf A (q : stmt A) d a d' : password_stmt A q -> pg_wf d -> q d = Ok (a, d') -> pg_wf d'.
Proof. intros Hq. destruct Hq; eauto 2 with stmts nocore. Qed.
Lemma password_only A (q : stmt A) d a d' :
  password_stmt A q -> q d = Ok (a, d') -> exists m, d' = on_credentials (fun _ => m) d.
Proof.
  intros Hq Hs. exists (credentials d').
  destruct Hq; stmt_text Hs; stmt_cases Hs; first [reflexivity | match goal with |- ?x = _ => by destruct x end].
Qed.
#[export] Hint Constructors password_stmt : core.

Lemma everyday_wf A (q : stmt A) d a d' : everyday A q -> pg_wf d -> q d = Ok (a, d') -> pg_wf d'.
Proof. intros Hq. destruct Hq; eauto 2 with stmts nocore. Qed.
Lemma administrative_wf A (q : stmt A) d a d' : administrative A q -> pg_wf d -> q d = Ok (a, d') -> pg_wf d'.
Proof. intros Hq. destruct Hq; eauto 2 with stmts nocore. Qed.

Lemma everyday_roles A (q : stmt A) d a d' : everyday A q -> q d = Ok (a, d') -> roles d' = roles d.
Proof. intros Hq Hs. destruct Hq; stmt_text Hs; stmt_cases Hs; reflexivity. Qed.
Lemma administrative_roles A (q : stmt A) d a d' : administrative A q -> q d = Ok (a, d') -> roles d' = roles d.
Proof. intros Hq Hs. destruct Hq; stmt_text Hs; stmt_cases Hs; reflexivity. Qed.

(** What all requests and start-up ask of an invariant. *)
Class Broad (I : Pg -> Prop) := {
  broad_tame :: Tame I;
  broad_administrative A (q : stmt A) : administrative A q -> stmt_keeps I q;
  broad_new_role r : role_parent_id r = None -> stmt_keeps I (insert_role r);
  broad_parent `{RedisServer} `{EnvLaws} child parent : keeps I (set_parent child parent);
}.

#[export] Hint Constructors administrative : keeps.
#[export] Hint Resolve broad_tame broad_administrative broad_parent : keeps.
#[export] Hint Extern 1 (stmt_keeps _ (insert_role _)) => apply broad_new_role; reflexivity : keeps.

Lemma keeps_insert_uris `{RedisServer} `{EnvLaws} I `{!Broad I} c l tx : good I tx -> keeps I (insert_uris c l tx).
Proof. revert tx. induction l as [|u l IH]; intros tx Htx; simpl; keeps; eauto. Qed.
#[export] Hint Resolve keeps_insert_uris : keeps.

(** ** Integrity *)

Definition intact (d : Pg) : Prop := pg_wf d /\ acyclic (roles d).

(** A new role under a role that was there, or under none, closes no cycle. *)
Lemma insert_role_intact r : role_parent_id r <> Some (role_id r) -> stmt_keeps intact (insert_role r).
Proof.
  intros Hself d a d' [Hwf Hac] Hq. split; [by eapply insert_role_wf|]. unfold insert_role in Hq. stmt_inv Hq. bools.
  unfold acyclic. apply (acyclic_new_edge (parent_step (roles d)) _ (role_id r) (role_parent_id r)); [| |exact Hac].
  - intros c p (x & Hx & Hp). simpl in Hx. apply lookup_insert_Some in Hx as [[<- <-]|[Hne Hx]]; [by right|].
    left. split; [by exists x|done].
  - intros p Hp [->|(y & _ & x & Hx & Hy)]%rtc_inv_r; [done|]. destruct (wf_roles_parent _ Hwf _ _ _ Hx Hy) as [z Hz].
    match goal with Hf : has_row _ _ = false |- _ => apply has_row_none in Hf end. congruence.
Qed.

Lemma everyday_intact A (q : stmt A) : everyday A q -> stmt_keeps intact q.
Proof. intros Hq d a d' [Hd Hac] Hs. split; [by eapply everyday_wf|]. by rewrite (everyday_roles _ _ _ _ _ Hq Hs). Qed.
Lemma administrative_intact A (q : stmt A) : administrative A q -> stmt_keeps intact q.
Proof. intros Hq d a d' [Hd Hac] Hs. split; [by eapply administrative_wf|]. by rewrite (administrative_roles _ _ _ _ _ Hq Hs). Qed.

(** The one writer of [parent_id]. *)
Lemma set_parent_intact `{RedisServer} `{EnvLaws} child parent : keeps intact (set_parent child parent).
Proof.
  intros w [Hwf Hac]. wp_call set_parent_spec; [by apply Hwf|]. intros r w' [_ Hr]. split; [|done].
  assert (Hnew : update_role_parent parent child (pg w) = Ok (tt, pg w') /\
    (forall p, parent = Some p -> ~ rtc (parent_step (roles (pg w))) p child) -> intact (pg w')).
  { intros [Hu Hno]. split; [by eapply update_role_parent_wf|]. eapply update_parent_acyclic; [|done..]. apply Hwf. }
  destruct r as [[]|[code| | | | | |]]; try done;
    [by apply Hnew|destruct Hr as [->|Hr]; [done|by apply Hnew]|by destruct Hr as [-> _]].
Qed.

Lemma password_intact A (q : stmt A) : password_stmt A q -> stmt_keeps intact q.
Proof.
  intros Hq d a d' [Hd Hac] Hs. split; [by eapply password_wf|]. by destruct (password_only _ _ _ _ _ Hq Hs) as [m ->].
Qed.

#[export, refine] Instance intact_tame : Tame intact :=
  {| tame_fresh _ := True; tame_default _ := True; tame_bare _ _ := True |}.
Proof.
  - apply everyday_intact.
  - done.
  - done.
  - intros u r _ _. apply administrative_intact. constructor.
  - done.
  - intros c d a d' Hd _ _. by apply (password_intact _ (insert_credential c)).
  - intros u c c' d a d' Hd _ _. by apply (password_intact _ (update_credential c')).
Qed.

#[export] Instance intact_broad : Broad intact.
Proof.
  refine (Build_Broad _ _ _ _ _).
  - apply administrative_intact.
  - intros r Hr. apply insert_role_intact. by rewrite Hr.
  - intros. apply set_parent_intact.
Qed.

(** ** The roles the server relies on *)

Definition named (name : string) (d : Pg) : Prop := exists i r, roles d !! i = Some r /\ role_name r = name.

Lemma named_kept name d d' :
  (forall i r, roles d !! i = Some r -> exists r', roles d' !! i = Some r' /\ role_name r' = role_name r) ->
  named name d -> named name d'.
Proof. intros Hk (i & r & Hr & <-). destruct (Hk i r Hr) as (r' & Hr' & Hn). by exists i, r'. Qed.

Lemma named_same name d d' : roles d' = roles d -> named name d -> named name d'.
Proof. unfold named. by intros ->. Qed.

Lemma update_role_parent_named name parent id : stmt_keeps (named name) (update_role_parent parent id).
Proof.
  intros d a d' Hd Hs. unfold update_role_parent in Hs. stmt_cases Hs; revert Hd; apply named_kept; intros i r Hr; simpl;
    rewrite lookup_update_where, Hr; simpl; (eexists; split; [done|]; by case_decide).
Qed.

#[export, refine] Instance named_tame name : Tame (named name) :=
  {| tame_fresh _ := True; tame_default _ := True; tame_bare _ _ := True |}.
Proof.
  - intros A q Hq d a d' Hd Hs. exact (named_same _ _ _ (everyday_roles _ _ _ _ _ Hq Hs) Hd).
  - done.
  - done.
  - intros u r _ _ d a d' Hd Hs. exact (named_same _ _ _ (administrative_roles _ _ _ _ _ (ad_give_role u r) Hs) Hd).
  - done.
  - intros c d a d' Hd _ _ Hs. by destruct (password_only _ _ _ _ _ (pw_insert c) Hs) as [m ->].
  - intros u c c' d a d' Hd _ _ Hs. by destruct (password_only _ _ _ _ _ (pw_update c') Hs) as [m ->].
Qed.

#[export] Instance named_broad name : Broad (named name).
Proof.
  refine (Build_Broad _ _ _ _ _).
  - intros A q Hq d a d' Hd Hs. exact (named_same _ _ _ (administrative_roles _ _ _ _ _ Hq Hs) Hd).
  - intros r _ d a d' Hd Hs. unfold insert_role in Hs. stmt_inv Hs. bools. revert Hd. apply named_kept. intros i x Hx. simpl.
    exists x. split; [|done]. match goal with Hn : has_row _ _ = false |- _ => apply has_row_none in Hn end.
    rewrite lookup_insert_ne; congruence.
  - intros. pose proof (update_role_parent_named name). keeps.
Qed.

(** ** Containment *)

(** What makes an account what it is, but for its verification and its times. *)
Definition account (u : User) : Uuid * string * string * option string * option string * bool :=
  (usr_id u, usr_email u, usr_username u, usr_first_name u, usr_last_name u, usr_enabled u).

Record contained (d d' : Pg) : Prop := {
  cn_roles : roles d' = roles d;
  cn_clients : clients d' = clients d;
  cn_redirect_uris : redirect_uris d' = redirect_uris d;
  (** accounts stay, and stay what they are *)
  cn_users : forall id u, users d !! id = Some u -> exists u', users d' !! id = Some u' /\ account u' = account u;
  (** a role is taken from nobody, and given to new accounts only: the role [user] *)
  cn_kept : user_roles d ⊆ user_roles d';
  cn_given : forall id r, (id, r) ∈ user_roles d' -> (id, r) ∉ user_roles d ->
    users d !! id = None /\ exists i x, roles d !! i = Some x /\ role_id x = r /\ role_name x = "user";
}.

Lemma contained_refl d : contained d d.
Proof. split; eauto; done. Qed.

(** A statement that touches neither roles nor clients nor accounts. *)
Lemma contained_same d0 d d' :
  roles d' = roles d -> clients d' = clients d -> redirect_uris d' = redirect_uris d -> users d' = users d ->
  user_roles d' = user_roles d -> contained d0 d -> contained d0 d'.
Proof. intros Hr Hc Hu Hus Hur []. split; rewrite ?Hr, ?Hc, ?Hu, ?Hus, ?Hur; done. Qed.

(** Accounts that change in what they may, or that are new. *)
Lemma contained_users d0 d m :
  (forall id u, users d !! id = Some u -> exists u', m !! id = Some u' /\ account u' = account u) ->
  contained d0 d -> contained d0 (on_users (fun _ => m) d).
Proof.
  intros Hm []. split; simpl; try done. intros id u (u1 & Hu1 & Ha1)%cn_users0. destruct (Hm _ _ Hu1) as (u2 & Hu2 & Ha2).
  exists u2. split; [done|congruence].
Qed.

Lemma insert_user_new u d a d' : insert_user u d = Ok (a, d') -> users d !! usr_id u = None.
Proof. intros Hs. unfold insert_user in Hs. stmt_inv Hs. by apply has_row_none, negb_true_iff. Qed.

Lemma insert_user_contained d0 u : stmt_keeps (contained d0) (insert_user u).
Proof.
  intros d a d' Hd Hs. pose proof (insert_user_new _ _ _ _ Hs) as Hnew. unfold insert_user in Hs. stmt_inv Hs.
  apply contained_users; [|done]. intros id x Hx. exists x. split; [|done]. rewrite lookup_insert_ne; congruence.
Qed.

Lemma verify_user_email_contained d0 id t : stmt_keeps (contained d0) (verify_user_email id t).
Proof.
  intros d a d' Hd [= _ <-]. apply contained_users; [|done]. intros i x Hx. rewrite lookup_update_where, Hx. simpl.
  eexists. split; [done|]. by case_decide.
Qed.

Lemma insert_user_role_contained d0 u r :
  users d0 !! u = None -> (exists i x, roles d0 !! i = Some x /\ role_id x = r /\ role_name x = "user") ->
  stmt_keeps (contained d0) (insert_user_role u r).
Proof.
  intros Hu Hr d a d' Hd Hs. unfold insert_user_role in Hs. stmt_cases Hs; [done|]. destruct Hd. split; simpl; try done.
  - set_solver.
  - intros id r' [[= -> ->]%elem_of_singleton|Hin]%elem_of_union Hout; [done|by apply cn_given0].
Qed.

#[export, refine] Instance contained_tame d0 : Tame (contained d0) := {|
  tame_fresh u := users d0 !! u = None;
  tame_default r := exists i x, roles d0 !! i = Some x /\ role_id x = r /\ role_name x = "user";
  tame_bare _ _ := True |}.
Proof.
  - intros A q Hq. destruct Hq; auto using insert_user_contained, verify_user_email_contained;
      intros d a d' Hd Hs; stmt_text Hs; stmt_cases Hs; by first [done | apply (contained_same d0 d)].
  - intros u d d' Hd Hs%insert_user_new. split; [|done]. destruct (users d0 !! usr_id u) as [x|] eqn:Hx; [|done].
    destruct (cn_users _ _ Hd _ _ Hx) as (y & Hy & _). congruence.
  - intros d i r Hd Hr Hn. rewrite (cn_roles _ _ Hd) in Hr. eauto.
  - intros u r Hu Hr. by apply insert_user_role_contained.
  - done.
  - intros c d a d' Hd _ _ Hs. destruct (password_only _ _ _ _ _ (pw_insert c) Hs) as [m ->]. by apply (contained_same d0 d).
  - intros u c c' d a d' Hd _ _ Hs. destruct (password_only _ _ _ _ _ (pw_update c') Hs) as [m ->].
    by apply (contained_same d0 d).
Qed.

(** ** Passwords *)

(** No user has two password credentials; the schema would allow it. *)
Definition single (d : Pg) : Prop := pg_wf d /\ forall u, one_password d u.

Lemma password_sub d d' u c : credentials d' ⊆ credentials d -> password_of d' u c -> password_of d u c.
Proof. intros Hs ([i Hi] & ?). split; [|done]. exists i. by eapply lookup_weaken. Qed.

Lemma single_sub d d' : pg_wf d' -> credentials d' ⊆ credentials d -> single d -> single d'.
Proof. intros Hwf Hs [_ Hone]. split; [done|]. intros u c c' Hc Hc'. apply (Hone u); by eapply password_sub. Qed.

Lemma everyday_credentials A (q : stmt A) d a d' : everyday A q -> q d = Ok (a, d') -> credentials d' = credentials d.
Proof. intros Hq Hs. destruct Hq; stmt_text Hs; stmt_cases Hs; reflexivity. Qed.
Lemma administrative_credentials A (q : stmt A) d a d' :
  administrative A q -> q d = Ok (a, d') -> credentials d' ⊆ credentials d.
Proof. intros Hq Hs. destruct Hq; stmt_text Hs; stmt_cases Hs; first [reflexivity | apply map_filter_subseteq]. Qed.

Lemma administrative_single A (q : stmt A) : administrative A q -> stmt_keeps single q.
Proof.
  intros Hq d a d' Hd Hs. eapply single_sub; [|exact (administrative_credentials _ _ _ _ _ Hq Hs)|done].
  eapply administrative_wf; [done|apply Hd|done].
Qed.

(** A first password. *)
Lemma insert_password_single c d a d' :
  single d -> (forall x, ~ password_of d (cred_user_id c) x) -> insert_credential c d = Ok (a, d') -> single d'.
Proof.
  intros [Hwf Hone] Hno Hs. split; [by eapply insert_credential_wf|]. unfold insert_credential in Hs. stmt_inv Hs.
  set (row := mkCredential _ _ _ _ _ _ _).
  assert (Hcase : forall u x, password_of (on_credentials <[cred_id c := row]> d) u x ->
    x = row /\ u = cred_user_id c \/ password_of d u x).
  { intros u x ([i Hi] & Hu & Ht). simpl in Hi. apply lookup_insert_Some in Hi as [[<- <-]|[_ Hi]]; [by left|].
    right. split; [eauto|done]. }
  intros u x y [[-> ->]|Hx]%Hcase [[-> ?]|Hy]%Hcase; try done; try (subst; by edestruct Hno). by eapply Hone.
Qed.

(** A password in place of another. *)
Lemma rewrite_password_single u c c' d a d' :
  single d -> password_of d u c -> rewrites c c' -> update_credential c' d = Ok (a, d') -> single d'.
Proof.
  intros [Hwf Hone] Hc (Hid & Hty & Hu) Hs. split; [by eapply update_credential_wf|].
  pose proof Hc as ([i Hi] & Hcu & _). pose proof (wf_credentials_key _ Hwf _ _ Hi) as Hk. simpl in Hk. subst i.
  unfold update_credential in Hs. rewrite Hid, Hi in Hs. stmt_inv Hs. set (row := mkCredential _ _ _ _ _ _ _).
  assert (Hcase : forall v x, password_of (on_credentials <[cred_id c := row]> d) v x ->
    x = row /\ v = cred_user_id c \/ password_of d v x /\ x <> c).
  { intros v x ([i Hx] & Hv & Ht). simpl in Hx. apply lookup_insert_Some in Hx as [[<- <-]|[Hne Hx]]; [left; split; [done|]|].
    - simpl in Hv. congruence.
    - right. split; [split; [eauto|done]|]. intros ->. pose proof (wf_credentials_key _ Hwf _ _ Hx) as Hk. simpl in Hk. congruence. }
  assert (Hc0 : password_of d (cred_user_id c) c) by (destruct Hc as (Hc & _ & ?); by split).
  intros v x y [[-> ->]|[Hx Hxc]]%Hcase [[-> Hv]|[Hy Hyc]]%Hcase; [done|..|by apply (Hone v)].
  - destruct Hyc. by apply (Hone _ _ _ Hy).
  - subst v. destruct Hxc. by apply (Hone _ _ _ Hx).
Qed.

#[export, refine] Instance single_tame : Tame single :=
  {| tame_fresh _ := True; tame_default _ := True; tame_bare d u := forall c, ~ password_of d u c |}.
Proof.
  - intros A q Hq d a d' Hd Hs. eapply single_sub; [|by rewrite (everyday_credentials _ _ _ _ _ Hq Hs)|exact Hd].
    eapply everyday_wf; [done|apply Hd|done].
  - intros u d d' [Hwf _] Hs. split; [done|]. intros c Hc.
    destruct Hc as ([i Hi] & Hcu & _). rewrite (everyday_credentials _ _ _ _ _ (ev_insert_user u) Hs) in Hi.
    destruct (wf_credentials_user _ Hwf _ _ Hi) as [x Hx]. rewrite Hcu, (insert_user_new _ _ _ _ Hs) in Hx. done.
  - done.
  - intros u r _ _. apply administrative_single. constructor.
  - done.
  - intros c d a d' Hd _. by apply insert_password_single.
  - intros u c c' d a d'. apply rewrite_password_single.
Qed.

#[export] Instance single_broad : Broad single.
Proof.
  assert (Hsame : forall d d', pg_wf d' -> credentials d' = credentials d -> single d -> single d')
    by (intros d d' Hwf Hc; apply single_sub; [done|by rewrite Hc]).
  refine (Build_Broad _ _ _ _ _).
  - apply administrative_single.
  - intros r _ d a d' Hd Hs. eapply Hsame; [eapply insert_role_wf; [apply Hd|done]| |exact Hd].
    unfold insert_role in Hs. by stmt_inv Hs.
  - intros. assert (Hp : forall p c, stmt_keeps single (update_role_parent p c)).
    { intros p c d a d' Hd Hs. eapply Hsame; [eapply update_role_parent_wf; [apply Hd|done]| |exact Hd].
      unfold update_role_parent in Hs. by stmt_inv Hs. }
    keeps.
Qed.
