(* ===== verification/ClientCache.v ===== *)
(** * The client cache over time ([client/repository.rs])

    [Client.v] models the look-up of a client through Redis and the writers that
    invalidate its entry.  Here they run one after the other, in any order, among
    whatever the rest of the server does, and the theorem says when a look-up may be
    trusted: from a cache without entries, always, as long as no write to the client
    tables misses Redis.  A write that does miss it leaves an old answer behind, until
    the entry expires. *)

From stdpp Require Import base tactics list gmap strings relations.
From Stdlib Require Import ZArith Lia.
From S2P Require Import Prelude Redis Schema World Ext Demo DemoJson RedisKeys Role Client Integrity Keeps Invariants.

Local Open Scope auth_scope.

(** ** What happens to the cache *)

Section Steps.
Context `{RedisLaws} `{EnvLaws} `{JsonCodecLaws ClientSnapshot}.
Implicit Types w : World.

(** The rest of the server: the client tables stay as they are, and the entries of
    the cache stay or disappear, or expire. *)
Definition elsewhere w w' : Prop :=
  tick w <= tick w' /\ intact (pg w') /\ clients (pg w') = clients (pg w) /\ redirect_uris (pg w') = redirect_uris (pg w)
  /\ forall t cid, (redis_clock (tick w') <= t)%Z ->
       rlive t (Keys.client cid) (redis w') = rlive t (Keys.client cid) (redis w)
       \/ rlive t (Keys.client cid) (redis w') = None.

Inductive cache_step (self : ClientRepository) : relation World :=
(** a look-up, whatever fails on the way *)
| cache_read cid r w w' : find_by_client_id self cid w = (r, w') -> cache_step self w w'
(** a write that reported success, while Redis answered *)
| cache_write op w w' : run_op op w = (Ok tt, w') -> redis_reached (tick w) (tick w') -> cache_step self w w'
(** a write that failed and changed nothing *)
| cache_refused op e w w' : run_op op w = (Err e, w') -> pg w' = pg w -> cache_step self w w'
| cache_elsewhere w w' : elsewhere w w' -> cache_step self w w'.

(** No client is in the cache, as when Redis starts. *)
Definition cache_empty w : Prop := forall cid snap, ~ cached cid w snap.

(** *** Each step *)

Lemma keeps_run_op I `{!Broad I} op : keeps I (run_op op).
Proof. destruct op; keeps. Qed.

(** Writers only remove from the cache. *)
Lemma wp_invalidate cid Q w0 w :
  redis_shrinks w0 w -> (forall w', redis_shrinks w0 w' -> Q (Ok tt) w') -> wp (invalidate cid) Q w.
Proof.
  intros Hs HQ. wp_call invalidate_shrinks. intros r w' (-> & _ & Hs'). apply HQ. by eapply shrinks_trans.
Qed.

Lemma run_op_shrinks op w : wp (run_op op) (fun _ w' => redis_shrinks w w') w.
Proof.
  destruct op as [c|c|id|u|id]; simpl.
  - unfold persist. do 2 wp_step; [|auto with wp]. do 2 wp_step; [|auto with wp]. destruct a.
    wp_step. wp_call insert_uris_spec. intros r w1 (_ & Hr1 & Ht1 & Hres). simpl in Hr1, Ht1.
    assert (Hs1 : redis_shrinks w w1) by (split; [lia|]; rewrite Hr1; by left).
    destruct r as [tx|e]; [|done]. destruct Hres as (d' & -> & _). do 2 wp_step; auto with wp.
    apply (wp_invalidate _ _ w); auto with wp.
  - wp_step. unfold update. do 2 wp_step; auto with wp. destruct a; [|do 2 wp_step; auto with wp].
    wp_step. apply (wp_invalidate _ _ w); [auto with wp|]. intros. do 2 wp_step. done.
  - wp_step. unfold delete_by_id, client_id_of. do 2 wp_step; auto with wp.
    destruct (head _); [|do 2 wp_step; auto with wp]. do 2 wp_step; auto with wp.
    wp_step. apply (wp_invalidate _ _ w); [auto with wp|]. intros. do 2 wp_step. done.
  - unfold add_redirect_uri, client_id_of. do 2 wp_step; auto with wp. do 2 wp_step; auto with wp.
    destruct (head _); [|wp_step; auto with wp]. apply (wp_invalidate _ _ w); auto with wp.
  - wp_step. unfold remove_redirect_uri. do 2 wp_step; auto with wp. set (owning := head _).
    do 2 wp_step; auto with wp. destruct (0 <? a)%Z; [|do 4 wp_step; auto with wp].
    destruct owning; [|do 4 wp_step; auto with wp]. wp_step. apply (wp_invalidate _ _ w); [auto with wp|]. intros. do 2 wp_step. done.
Qed.

Lemma elsewhere_coherent w w' : elsewhere w w' -> coherent w -> coherent w'.
Proof.
  intros (Ht & _ & Hc & Hu & Hr) Hco cid snap Hne (v & dl & raw & Hl & Hx).
  unfold served_from. rewrite Hc, Hu. apply Hco; [done|]. exists v, dl, raw. split; [|done].
  destruct (Hr (redis_clock (tick w')) cid) as [Heq|Heq]; [done| |congruence].
  rewrite Heq in Hl. eapply rlive_some_earlier; [|exact Hl]. by apply redis_clock_mono.
Qed.

Definition sound_cache w : Prop := intact (pg w) /\ coherent w.

Lemma cache_step_sound self w w' : cache_step self w w' -> sound_cache w -> sound_cache w'.
Proof.
  intros Hstep [Hi Hco]. pose proof (proj1 Hi) as Hwf.
  destruct Hstep as [cid r w w' Hrun|op w w' Hrun Hup|op e w w' Hrun Hp|w w' He].
  - destruct (wp_run _ _ _ _ _ (find_by_client_id_spec self cid w Hwf) Hrun) as (Hp & _ & Hc & _).
    split; [by rewrite Hp|auto].
  - split; [by destruct (wp_run _ _ _ _ _ (keeps_run_op intact op w Hi) Hrun)|].
    exact (wp_run _ _ _ _ _ (run_op_coherent op w Hwf Hco) Hrun Hup).
  - split; [by rewrite Hp|]. eapply same_coherent; [exact Hp|exact (wp_run _ _ _ _ _ (run_op_shrinks op w) Hrun)|done].
  - split; [apply He|by eapply elsewhere_coherent].
Qed.

Lemma cache_steps_sound self w w' : rtc (cache_step self) w w' -> sound_cache w -> sound_cache w'.
Proof. induction 1 as [|x y z Hs _ IH]; [done|]. intros Hx. by eapply IH, cache_step_sound. Qed.
End Steps.

(** ** Theorem *)

(** C25: The client cache answers as the database would.  Start with no client in the
    cache.  Then after any sequence of look-ups (whatever fails on the way), of writes
    to the client tables that reported success while Redis answered, of writes that
    failed without effect, and of anything else that leaves the client tables and the
    cache entries alone, a look-up by [client_id], whatever fails now, returns the
    database's row of today with exactly its redirect URIs; or none, and there is no
    such row; or a database error.  It changes no table.  (A write that reaches the
    tables but misses Redis is not among these: [stale_after_missed_write].) *)
Theorem client_reads_current `{RedisLaws} `{EnvLaws} `{JsonCodecLaws ClientSnapshot} self cid w0 w r w' :
  intact (pg w0) -> cache_empty w0 -> rtc (cache_step self) w0 w -> find_by_client_id self cid w = (r, w') ->
  pg w' = pg w
  /\ match r with
     | Ok (Some c) => served_from cid (pg w) c
     | Ok None => cid = "" \/ forall i row, clients (pg w) !! i = Some row -> cl_client_id row <> cid
     | Err e => exists code, e = EDb code
     end.
Proof.
  intros Hi Hempty Hsteps Hrun. assert (Hs0 : sound_cache w0) by (split; [done|]; intros x snap _ Hc; by destruct (Hempty x snap)).
  destruct (cache_steps_sound _ _ _ Hsteps Hs0) as [Hi' Hco].
  destruct (wp_run _ _ _ _ _ (find_by_client_id_spec self cid w (proj1 Hi')) Hrun) as (Hp & _ & _ & Hr).
  split; [done|]. destruct r as [[c|]|e]; [|done..]. destruct Hr as [Hne [(snap & Hs & ->)|Hr]]; [by apply Hco|done].
Qed.

(** ** Witness *)

Import Instances.

Definition demo_repo : ClientRepository := mkClientRepository 60.
(** A client is looked up, which fills the cache; it is renamed; and it is looked up
    again. *)
Definition renamed : Client :=
  mkClient 5 "app" None (Some "renamed") (Some "public") None None (Some "openid email") true true None None
    None None None None 0 0 [].
Definition looked_up_once : World := (find_by_client_id demo_repo "app" world_client).2.
Definition renamed_world : World := (run_op (OpUpdate renamed) looked_up_once).2.
Definition name_of (r : res err (option Client)) : option string :=
  match r with Ok (Some c) => cl_name c | _ => None end.

Lemma client_reads_current_witness :
  is_Some (rlive 0 (Keys.client "app") (redis looked_up_once))
  /\ name_of (find_by_client_id demo_repo "app" renamed_world).1 = Some "renamed"
  /\ exists c, (find_by_client_id demo_repo "app" renamed_world).1 = Ok (Some c) /\ served_from "app" (pg renamed_world) c.
Proof.
  assert (Hint : intact (pg world_client)).
  { split; [exact pg_client_wf|]. intros i Hi. by destruct Hi as [? ? (x & Hx & _)|? ? ? (x & Hx & _) _]. }
  assert (Hempty : cache_empty world_client) by (intros cid snap (v & dl & raw & Hl & _); discriminate Hl).
  assert (Hw : (run_op (OpUpdate renamed) looked_up_once).1 = Ok tt) by (vm_compute; reflexivity).
  assert (Hsteps : rtc (cache_step demo_repo) world_client renamed_world).
  { eapply rtc_l; [exact (cache_read _ "app" _ _ _ (surjective_pairing _))|]. apply rtc_once.
    exact (cache_write _ _ _ _ (run_fst _ _ _ Hw) (redis_ok_reached _ _ (demo_redis_ok _))). }
  assert (Hn : name_of (find_by_client_id demo_repo "app" renamed_world).1 = Some "renamed") by (vm_compute; reflexivity).
  split; [|split; [exact Hn|]].
  { apply (bool_decide_eq_true _). vm_compute. reflexivity. }
  destruct (client_reads_current demo_repo "app" world_client renamed_world _ _ Hint Hempty Hsteps (surjective_pairing _)) as [_ Hr].
  destruct (find_by_client_id demo_repo "app" renamed_world).1 as [[c|]|e]; [|discriminate Hn..]. by exists c.
Defined.

(** *** A write that misses Redis

    The update takes effect, the removal of the entry does not, and the next look-up
    answers with the old row, without a name; the code reports success all the same. *)
Module Missed.
Definition redis_down_from (k : nat) : Env := {|
  clock := clock; redis_clock := redis_clock; random_bytes := random_bytes; new_v4 := new_v4;
  jitter_floor := jitter_floor; redis_pool_up := fun n => bool_decide (n <> k); redis_reply := redis_reply;
  pg_reply := pg_reply; row_order := fun A => @row_order demo_env A;
  collate_le := collate_le; lower_table := lower_table; pg_clock := pg_clock; gen_range := gen_range; task_ok := task_ok |}.

Definition missed : res err unit * World :=
  @run_op _ (redis_down_from (S (tick looked_up_once))) (OpUpdate renamed) looked_up_once.

Example stale_after_missed_write :
  missed.1 = Ok tt /\ (cl_name <$> clients (pg missed.2) !! 5%N) = Some (Some "renamed")
  /\ (find_by_client_id demo_repo "app" missed.2).1 = Ok (Some (set_redirect_uris [demo_uri] demo_client)).
Proof. split; [|split]; vm_compute; reflexivity. Qed.
End Missed.
