(* ===== verification/Server.v ===== *)
(** * The server ([main.rs], [state.rs])

    [wire] builds the services from the configuration the way [main] does, [start_up]
    is [main] up to the listening socket, and [serve] is what answers a request once
    its route is found.  A [step] is a request, a sweep of the refresh tokens, a
    restart, or time that passes: the theorems are about every sequence of steps.

    Requests are taken one at a time.  The handlers that need more than one statement
    to be atomic use a transaction or a Lua script, which is one step of their own
    models; what two interleaved requests can do to each other is examined where the
    code relies on it ([AuthCode.v], [Client.v], [TokenFlow.v], [Bootstrap.v]). *)

From stdpp Require Import base tactics list gmap strings relations.
From Stdlib Require Import ZArith Lia.
From S2P Require Import Prelude RustStr Redis Schema World Ext Demo DemoJson DemoJwt RedisKeys Http Config Scopes Hashing RateLimit.
From S2P Require Import Jwt KeyFiles Role User Client RefreshToken Session Consent AccountTokens Integrity AuthCode Secrets Password.
From S2P Require Import LoginHttp Signup AccountHttp Issuer Oidc Device TokenFlow Introspect Authorize Logout OAuthHttp.
From S2P Require Import Bootstrap Admin Keeps Invariants.

Local Open Scope auth_scope.

(** ** The state the handlers share ([state.rs]) *)

Section State.
Context `{JwtLib}.

(** The pools and the repositories that hold nothing but a pool have no part here. *)
Record AppState := mkAppState {
  as_config : Config;
  as_jwt_signer : JwtSigner;
  as_jwt_validator : JwtValidator;
  as_token_hmac : HmacSha256;
  as_clients : ClientRepository;
  as_login_service : LoginService;
  as_signup_flow : SignupFlow;
  as_password_flow : PasswordFlow;
  as_authorize_flow : AuthorizeFlow;
  as_token_flow : TokenFlow;
  as_token_issuer : TokenIssuer;
  as_introspect_flow : IntrospectFlow;
  as_revoke_flow : RevokeFlow;
  as_device_flow : DeviceFlow;
  as_logout_flow : LogoutFlow;
}.

(** [JwtSigner::new]; the lifetimes are used in seconds. *)
Definition jwt_signer_new (keys : nat -> Store) (issuer : string) (access_ttl id_ttl : Z) : JwtSigner :=
  mkJwtSigner keys issuer (access_ttl / ns_per_sec) (id_ttl / ns_per_sec).

(** The services of [main]: [keys] is the shared key provider as it is read at each
    tick, [dummy] the hash the login service compares with when there is no user.  An
    empty HMAC key is a panic. *)
Definition wire (keys : nat -> Store) (dummy : Hashed) (cfg : Config) : option AppState :=
  let issuer_url := sc_issuer_url (cfg_server cfg) in
  let jwt_signer := jwt_signer_new keys issuer_url (jc_access_token_ttl (cfg_jwt cfg)) (jc_id_token_ttl (cfg_jwt cfg)) in
  let jwt_validator := mkJwtValidator keys issuer_url in
  token_hmac ← hmac_new (cfg_token_hmac_key cfg);
  let clients := client_repository_new (ttl_client_cache (cfg_redis_ttl cfg)) in
  let token_issuer := mkTokenIssuer jwt_signer token_hmac in
  Some {|
    as_config := cfg;
    as_jwt_signer := jwt_signer;
    as_jwt_validator := jwt_validator;
    as_token_hmac := token_hmac;
    as_clients := clients;
    as_login_service := mkLoginService dummy;
    as_signup_flow := mkSignupFlow token_hmac;
    as_password_flow := mkPasswordFlow token_hmac;
    as_authorize_flow := mkAuthorizeFlow clients (ttl_pending_auth (cfg_redis_ttl cfg));
    as_token_flow := mkTokenFlow clients token_issuer token_hmac;
    as_token_issuer := token_issuer;
    as_introspect_flow := mkIntrospectFlow clients jwt_validator;
    as_revoke_flow := mkRevokeFlow clients token_hmac;
    as_device_flow := mkDeviceFlow clients issuer_url;
    as_logout_flow := mkLogoutFlow jwt_validator clients issuer_url |}.

Lemma wire_some keys dummy cfg : cfg_token_hmac_key cfg <> "" -> is_Some (wire keys dummy cfg).
Proof. intros Hk. unfold wire, hmac_new. rewrite is_empty_false by done. by eexists. Qed.

(** The parts of the state each group of handlers uses. *)
Definition login_state (s : AppState) : LoginState := mkLoginState (as_config s) (as_login_service s).
Definition account_state (s : AppState) : AccountState := mkAccountState (as_config s) (as_signup_flow s) (as_password_flow s).
Definition oauth_state (s : AppState) : OAuthState :=
  mkOAuthState (as_config s) (as_authorize_flow s) (as_token_flow s) (as_revoke_flow s) (as_introspect_flow s)
    (as_logout_flow s) (as_device_flow s).
Definition admin_state (s : AppState) : AdminState := mkAdminState (as_clients s).
End State.

(** ** Requests *)

(** One constructor per handler, with what its extractors produce. *)
Inductive request :=
| RHealth | RHealthLive | RHealthReady
| RLogin (body : LoginRequest) (req : HttpRequest)
| RMe (req : HttpRequest)
| RAuthLogout (req : HttpRequest)
| RLoginPage (return_to error : option string) (req : HttpRequest)
| RSubmitLogin (form : LoginForm) (req : HttpRequest)
| RSignup (body : SignupRequest) (req : HttpRequest)
| RVerifyEmail (body : gmap string string) (req : HttpRequest)
| RForgotPassword (body : gmap string string)
| RResetPassword (body : gmap string string)
| RChangePassword (body : gmap string string) (req : HttpRequest)
| RAuthorize (path qs : string) (query : AuthorizeQuery) (req : HttpRequest)
| RToken (form : TokenForm)
| RRevoke (form : RevokeForm)
| RIntrospect (form : RevokeForm)
| RLogout (query : LogoutQuery) (req : HttpRequest)
| RDeviceAuthorization (form : DeviceAuthForm)
| RDeviceVerify (form : DeviceVerifyForm) (req : HttpRequest)
| RConsent (query_req : option string) (req : HttpRequest)
| RSubmitConsent (form : ConsentForm) (req : HttpRequest)
| RUserinfo (req : HttpRequest)
| RDiscovery
| RJwks
| RAdmin (ep : endpoint) (req : HttpRequest).

Section Serve.
Context `{RedisServer} `{Env} `{JwtLib} `{!RsaLib} `{!FsEnv} `{Crypto} `{Texts} `{UnicodeTables} `{Argon2Lib} `{ValueParser}
  `{UrlCodec} `{UrlLib} `{ErrorTexts}.
Context `{!JsonCodec ClientSnapshot} `{!JsonCodec SessionSnapshot} `{!JsonCodec PendingAuthorization} `{!JsonCodec AuthorizationCode}.
Context `{!Askama LoginPage} `{!Askama LogoutPage} `{!Askama ConsentPage}.

Definition up : HttpResponse := json_response 200 (obj [("status", JStr "UP")]).

(** [SELECT 1] *)
Definition health_ready : io HttpResponse :=
  let! r := attempt (execute (fun d => Ok (1%Z, d))) in
  match r with
  | Ok _ => ret up
  | Err e => ret (json_response 503 (obj [("status", JStr "DOWN"); ("reason", JStr (err_text e))]))
  end.

(** What a handler leaves: its response, the tasks it spawned, and the key provider. *)
Definition outcome : Type := HttpResponse * list Delivery * Provider.

Definition plainly (pv : Provider) (m : io HttpResponse) : io outcome :=
  let! r := attempt m in ret (respond r, [], pv).
Definition answered (pv : Provider) (m : io answer) : io outcome :=
  let! r := attempt m in ret (on_wire r, [], pv).

Definition serve (app : AppState) (pv : Provider) (rq : request) : io outcome :=
  match rq with
  | RHealth | RHealthLive => plainly pv (ret up)
  | RHealthReady => plainly pv health_ready
  | RLogin body req => answered pv (login (login_state app) body req)
  | RMe req => answered pv (me req)
  | RAuthLogout req => answered pv (auth_logout (login_state app) req)
  | RLoginPage return_to error req => answered pv (render_login (Some (login_state app)) return_to error req)
  | RSubmitLogin form req => answered pv (submit_login (login_state app) form req)
  | RSignup body req => answered pv (AccountHttp.signup (account_state app) body req)
  | RVerifyEmail body req => answered pv (AccountHttp.verify_email (account_state app) body req)
  | RForgotPassword body => answered pv (forgot_password (account_state app) body)
  | RResetPassword body => answered pv (reset_password (account_state app) body)
  | RChangePassword body req => answered pv (AccountHttp.change_password body req)
  | RAuthorize path qs query req => answered pv (OAuthHttp.authorize (oauth_state app) req path qs query)
  | RToken form => answered pv (OAuthHttp.token (oauth_state app) form)
  | RRevoke form => answered pv (OAuthHttp.revoke (oauth_state app) form)
  | RIntrospect form => answered pv (OAuthHttp.introspect (oauth_state app) form)
  | RLogout query req =>
      let! r := attempt (OAuthHttp.logout (oauth_state app) req query) in
      match r with
      | Ok (a, tasks) => ret (on_wire (Ok a), tasks, pv)
      | Err e => ret (on_wire (Err e), [], pv)
      end
  | RDeviceAuthorization form => answered pv (device_authorization (oauth_state app) form)
  | RDeviceVerify form req => answered pv (device_verify req form)
  | RConsent query_req req => answered pv (OAuthHttp.render (as_clients app) req query_req)
  | RSubmitConsent form req => answered pv (OAuthHttp.submit (as_authorize_flow app) req form)
  | RUserinfo req => plainly pv (userinfo (as_jwt_validator app) req)
  | RDiscovery => plainly pv (ret (discovery (as_config app)))
  | RJwks => plainly pv (ret (jwks pv))
  | RAdmin ep req =>
      let! r := attempt (handle (admin_state app) pv ep req) in
      match r with
      | Ok (r, pv) => ret (respond r, [], pv)
      | Err e => ret (respond (Err e), [], pv)
      end
  end.

(** The outcome of these two is the handler's. *)
Lemma attempt_state {A} (m : io A) w : attempt m w = (Ok (m w).1, (m w).2).
Proof. unfold attempt. by destruct (m w). Qed.

Lemma answered_eq pv (m : io answer) w : answered pv m w = (Ok (on_wire (m w).1, [], pv), (m w).2).
Proof. unfold answered. by rewrite (bind_eq _ _ _ _ _ (attempt_state m w)). Qed.
Lemma plainly_eq pv (m : io HttpResponse) w : plainly pv m w = (Ok (respond (m w).1, [], pv), (m w).2).
Proof. unfold plainly. by rewrite (bind_eq _ _ _ _ _ (attempt_state m w)). Qed.

(** ** Start-up and steps *)

(** The services around the provider as it is now. *)
Definition wire_now (pv : Provider) : Hashed -> Config -> option AppState := wire (fun _ => store_view pv).

(** [main] from the key provider to the seeders; loading the configuration and
    connecting the pools come before.  The seeders run before the server listens. *)
Definition start_up (cfg : Config) (dummy : Hashed) (pv : Provider) : io AppState * Provider :=
  match KeyFiles.init pv with
  | (Err e, pv) => (throw e, pv)
  | (Ok _, pv) =>
      (match wire_now pv dummy cfg with
       | None => throw (EOther "HMAC key must not be empty")
       | Some app => do! bootstrap (as_clients app) in ret app
       end, pv)
  end.

Inductive step (cfg : Config) (dummy : Hashed) : relation (World * Provider) :=
| step_serve app rq resp tasks pv pv' w w' :
    wire_now pv dummy cfg = Some app -> serve app pv rq w = (Ok (resp, tasks, pv'), w') -> step cfg dummy (w, pv) (w', pv')
| step_sweep pv w r w' : sweep_once w = (r, w') -> step cfg dummy (w, pv) (w', pv)
| step_restart pv pv' m w r w' :
    start_up cfg dummy pv = (m, pv') -> m w = (r, w') -> step cfg dummy (w, pv) (w', pv')
| step_time pv w : step cfg dummy (w, pv) (bump w, pv).
End Serve.

(** ** What requests do to the tables *)

Section Keeping.
Context `{RedisServer} `{EnvLaws} `{JwtLib} `{!RsaLib} `{!FsEnv} `{Crypto} `{Texts} `{UnicodeTables} `{Argon2Lib} `{ValueParser}
  `{UrlCodec} `{UrlLib} `{ErrorTexts}.
Context `{!JsonCodec ClientSnapshot} `{!JsonCodec SessionSnapshot} `{!JsonCodec PendingAuthorization} `{!JsonCodec AuthorizationCode}.
Context `{!Askama LoginPage} `{!Askama LogoutPage} `{!Askama ConsentPage}.

(** Requests outside [/admin] keep every invariant that the everyday statements keep. *)
Definition is_admin (rq : request) : bool := match rq with RAdmin _ _ => true | _ => false end.

Section Everyday.
Context (I : Pg -> Prop) `{!Tame I}.

#[local] Hint Resolve keeps_client_find keeps_find_active keeps_create_session keeps_authenticate keeps_invalidate_tokens
  keeps_persist_loop keeps_signup keeps_rotate_password : keeps.

Lemma keeps_serve app pv rq : is_admin rq = false -> keeps I (serve app pv rq).
Proof. intros Hrq. destruct rq; try discriminate Hrq; unfold serve; keeps. Qed.

Lemma keeps_sweep : keeps I sweep_once.
Proof. keeps. Qed.
End Everyday.

(** Every request and start-up keep the invariants that all statements keep. *)
Section Everything.
Context (I : Pg -> Prop) `{!Broad I}.

#[local] Hint Resolve keeps_client_find keeps_find_active keeps_invalidate_tokens : keeps.

Lemma keeps_set_password u new : keeps I (admin_set_password u new).
Proof.
  unfold admin_set_password. destruct (nonempty new) as [np|]; [|keeps]. destruct (_ <? 8); [keeps|].
  keeps_step; [keeps|]. keeps_step; [keeps|]. intros w Hw. wp_step.
  eapply wp_mono; [apply (write_password_keeps I); exact Hw|]. intros [o|e] w1 [Hw1 Ho]; [|by split].
  wp_step. eapply wp_mono; [exact (Ho o eq_refl)|]. intros [[]|e] w2 Hw2; [|by split].
  assert (Hrest : keeps I (do! ignore (delete_all_by_user_id u) in ret (@None HttpResponse))) by keeps. by apply Hrest.
Qed.

Lemma keeps_create_user body : forall req, keeps I (create_user body req).
Proof.
  unfold create_user. intros req. repeat first [eapply keeps_account; [exact _|by intros|] | keeps_step].
Qed.

Lemma keeps_create_admin : keeps I create_admin_user.
Proof. unfold create_admin_user. repeat first [eapply keeps_account; [exact _|by intros|] | keeps_step]. Qed.
#[local] Hint Resolve keeps_set_password keeps_create_user keeps_create_admin : keeps.

Lemma keeps_admin state pv ep req : keeps I (handle state pv ep req).
Proof. destruct ep; keeps. Qed.

Lemma keeps_bootstrap repo : keeps I (bootstrap repo).
Proof. keeps. Qed.
#[local] Hint Resolve keeps_admin keeps_bootstrap : keeps.

Lemma keeps_run {A} `{Good I A} (m : io A) w r w' : keeps I m -> I (pg w) -> m w = (r, w') -> I (pg w').
Proof. intros Hm Hw Hrun. by destruct (wp_run _ _ _ _ _ (Hm w Hw) Hrun) as [? _]. Qed.

Lemma serve_keeps app pv rq : keeps I (serve app pv rq).
Proof.
  destruct (is_admin rq) eqn:Hrq; [|by apply (keeps_serve I)]. destruct rq; try discriminate Hrq. unfold serve. keeps.
Qed.

Lemma start_up_keeps cfg dummy pv : keeps I (start_up cfg dummy pv).1.
Proof. unfold start_up. destruct (KeyFiles.init pv) as [[[]|e] pv1]; simpl; [destruct (wire_now pv1 dummy cfg)|]; keeps. Qed.

Lemma step_keeps cfg dummy s s' : step cfg dummy s s' -> I (pg s.1) -> I (pg s'.1).
Proof.
  intros [app rq resp tasks pv pv' w w' _ Hrun|pv w r w' Hrun|pv pv' m w r w' Hs Hrun|pv w]; simpl; intros Hw; [..|done].
  - exact (keeps_run _ _ _ _ (serve_keeps app pv rq) Hw Hrun).
  - exact (keeps_run _ _ _ _ (keeps_sweep I) Hw Hrun).
  - pose proof (start_up_keeps cfg dummy pv) as Hk. rewrite Hs in Hk. exact (keeps_run _ _ _ _ Hk Hw Hrun).
Qed.

Lemma steps_keep cfg dummy s s' : rtc (step cfg dummy) s s' -> I (pg s.1) -> I (pg s'.1).
Proof. induction 1 as [|x y z Hs _ IH]; [done|]. intros Hx. by eapply IH, step_keeps. Qed.
End Everything.

(** What a start-up that succeeded leaves. *)
Lemma start_up_keys cfg dummy pv pv' : KeyFiles.init pv = (Ok tt, pv') -> start_up cfg dummy pv = ((start_up cfg dummy pv).1, pv').
Proof. intros Hi. unfold start_up. by rewrite Hi. Qed.

Lemma start_up_wired cfg dummy pv pv' w app w' :
  KeyFiles.init pv = (Ok tt, pv') -> (start_up cfg dummy pv).1 w = (Ok app, w') -> wire_now pv' dummy cfg = Some app.
Proof.
  intros Hi Hrun. unfold start_up in Hrun. rewrite Hi in Hrun. simpl in Hrun. destruct (wire_now pv' dummy cfg) as [app'|]; [|done].
  by apply bind_ok in Hrun as (u & w1 & _ & [= <- _]).
Qed.

Lemma empty_intact : intact pg_empty.
Proof. split; [apply pg_empty_wf|]. intros i Hi. by destruct Hi as [? ? (r & Hr & _)|? ? ? (r & Hr & _) _]. Qed.

(** *** The key provider *)

Lemma handle_keys state pv ep req : yields (fun o => rtc key_step pv o.2) (handle state pv ep req).
Proof.
  destruct ep; unfold handle; cbv zeta; try (yields_steps; apply rtc_refl).
  - unfold rotate_key. yields_step. destruct a; [|yields_step; apply rtc_refl]. destruct (KeyFiles.rotate pv) as [[kid|e] pv'] eqn:Hr;
      yields_step; apply rtc_once; exists KRotate; eexists; simpl.
    + rewrite (bind_eq _ _ _ _ _ Hr). reflexivity.
    + by apply bind_err.
  - unfold retire_key. yields_step. destruct a; [|yields_step; apply rtc_refl]. destruct (KeyFiles.retire kid pv) as [[[]|e] pv'] eqn:Hr;
      yields_step; apply rtc_once; exists (KRetire kid); eexists; simpl.
    1-2: rewrite (bind_eq _ _ _ _ _ Hr); reflexivity.
    by apply bind_err.
Qed.

Lemma serve_plain app pv rq : is_admin rq = false -> yields (fun o => o.2 = pv) (serve app pv rq).
Proof. intros Hrq. destruct rq; try discriminate Hrq; unfold serve, plainly, answered; by yields_steps. Qed.

Lemma serve_keys app pv rq w o w' : serve app pv rq w = (Ok o, w') -> rtc key_step pv o.2.
Proof.
  intros Hrun. destruct (is_admin rq) eqn:Hrq; [|rewrite (serve_plain app pv rq Hrq _ _ _ Hrun); apply rtc_refl].
  destruct rq; try discriminate Hrq. apply bind_ok in Hrun as (r & w1 & Hr & Hrun). unfold attempt in Hr.
  destruct (handle _ _ _ _ _) as [[[r0 pv1]|e] w2] eqn:Hh; injection Hr as <- <-; injection Hrun as <- <-; [|apply rtc_refl].
  exact (handle_keys _ _ _ _ _ _ _ Hh).
Qed.

Lemma step_keys cfg dummy s s' : step cfg dummy s s' -> rtc key_step s.2 s'.2.
Proof.
  intros [app rq resp tasks pv pv' w w' _ Hrun|pv w r w' _|pv pv' m w r w' Hs _|pv w]; simpl; [|apply rtc_refl| |apply rtc_refl].
  - exact (serve_keys _ _ _ _ _ _ Hrun).
  - apply rtc_once. exists KInit. unfold start_up in Hs. simpl.
    destruct (KeyFiles.init pv) as [[u|e] pv1]; injection Hs as _ <-; by eexists.
Qed.

Lemma steps_keys cfg dummy s s' : rtc (step cfg dummy) s s' -> rtc key_step s.2 s'.2.
Proof. induction 1 as [|x y z Hs _ IH]; [apply rtc_refl|]. etrans; [by eapply step_keys|done]. Qed.
End Keeping.

(** *** Administrators *)

Section Seeded.
Context `{RedisLaws} `{EnvLaws} `{JwtLib} `{!RsaLib} `{!FsEnv} `{Crypto} `{UnicodeTables} `{Argon2Lib} `{ValueParser}
  `{!JsonCodec ClientSnapshot} `{!JsonCodecLaws ClientSnapshot}.

Lemma start_up_seeded cfg dummy pv pv' w app w' :
  KeyFiles.init pv = (Ok tt, pv') -> Bootstrap.ready w -> (start_up cfg dummy pv).1 w = (Ok app, w') ->
  named "user" (pg w') /\ named "admin" (pg w').
Proof.
  intros Hi Hw Hrun. unfold start_up in Hrun. rewrite Hi in Hrun. simpl in Hrun. destruct (wire_now pv' dummy cfg) as [app'|]; [|done].
  apply bind_ok in Hrun as ([] & w1 & Hb & [= _ <-]).
  destruct (wp_run _ _ _ _ _ (bootstrap_spec (as_clients app') w Hw) Hb) as (_ & _ & Hs).
  destruct (Hs eq_refl) as ((r & Hr & Hn) & (r' & Hr' & Hn') & _). split; [by exists (role_id r), r|by exists (role_id r'), r'].
Qed.
End Seeded.

Section Privileges.
Context `{RedisLaws} `{EnvLaws} `{JwtLib} `{!RsaLib} `{!FsEnv} `{Crypto} `{Texts} `{UnicodeTables} `{Argon2Lib} `{ValueParser}
  `{UrlCodec} `{UrlLib} `{ErrorTexts}.
Context `{!JsonCodec ClientSnapshot} `{!JsonCodec SessionSnapshot} `{!JsonCodecLaws SessionSnapshot}
  `{!JsonCodec PendingAuthorization} `{!JsonCodec AuthorizationCode}.
Context `{!Askama LoginPage} `{!Askama LogoutPage} `{!Askama ConsentPage}.

Lemma touched_contained d d' : touched d d' -> contained d d'.
Proof.
  intros [->|(id & t & Hq)]; [apply contained_refl|].
  exact (tame_everyday _ _ (ev_touch_session id t) _ _ _ (contained_refl d) Hq).
Qed.

(** The role [user] is [admin], or a descendant of it: whoever registers is then an
    administrator.  The hierarchy is the administrators' to arrange. *)
Definition user_inherits_admin (d : Pg) : Prop :=
  exists r a, roles d !! role_id r = Some r /\ role_name r = "user"
    /\ rtc (parent_step (roles d)) (role_id r) (role_id a) /\ roles d !! role_id a = Some a /\ role_name a = "admin".

(** Nobody becomes an administrator but a new account, where the role [user] makes
    everybody one. *)
Lemma contained_admin d d' u :
  pg_wf d -> contained d d' -> has_admin d' u ->
  has_admin d u \/ (users d !! u = None /\ user_inherits_admin d).
Proof.
  intros Hwf Hc (rid & a & Hin & Hpath & Ha & Hn). rewrite (cn_roles _ _ Hc) in *.
  destruct (decide ((u, rid) ∈ user_roles d)) as [|Hout]; [left; by exists rid, a|right].
  destruct (cn_given _ _ Hc _ _ Hin Hout) as (Hu & i & x & Hi & <- & Hx). split; [done|].
  exists x, a. pose proof (wf_roles_key _ Hwf _ _ Hi) as Hk. simpl in Hk. subst i. by repeat split.
Qed.

Lemma serve_contained app pv rq w resp tasks pv' w' :
  pg_wf (pg w) -> serve app pv rq w = (Ok (resp, tasks, pv'), w') ->
  (exists ep req h w1, rq = RAdmin ep req /\ admin_session req w w1 h) \/ (contained (pg w) (pg w') /\ pv' = pv).
Proof.
  intros Hwf Hrun. destruct (is_admin rq) eqn:Hrq.
  - destruct rq; try discriminate Hrq. apply bind_ok in Hrun as (r & w1 & Hr & Hrun). unfold attempt in Hr.
    destruct (handle (admin_state app) pv ep req w) as [o w2] eqn:Hh. injection Hr as <- <-.
    destruct (wp_run _ _ _ _ _ (handle_spec (admin_state app) pv ep req w Hwf) Hh) as [(h & w1 & Hs)|(x & -> & Ht & _)].
    + left. exists ep, req, h, w1. by split.
    + right. injection Hrun as _ _ <- <-. split; [by apply touched_contained|done].
  - right. split; [|exact (serve_plain app pv rq Hrq _ _ _ Hrun)].
    refine (keeps_run (contained (pg w)) (serve app pv rq) _ _ _ _ (contained_refl _) Hrun). by apply (keeps_serve (contained (pg w))).
Qed.
End Privileges.

(** ** Theorems *)

(** C3: From its first start on the server is sound.  Start it on empty tables and a
    sound key directory; then whatever is requested, in whatever order, whatever
    Postgres, Redis and the file system fail to do, and however often it is restarted:
    the tables keep every constraint of the schema, the roles are a forest, the roles
    [user] and [admin] exist, which registration and the guard of [/admin] go by, and
    the signer and the validator have the keys they need. *)
Theorem server_always_sound `{RedisLaws} `{EnvLaws} `{RsaLaws} `{Crypto} `{!KidLaws} `{!FsEnv} `{!FsLaws} `{Texts} `{UnicodeTables}
  `{Argon2Lib} `{ValueParser} `{UrlCodec} `{UrlLib} `{ErrorTexts} `{!JsonCodec ClientSnapshot} `{!JsonCodecLaws ClientSnapshot}
  `{!JsonCodec SessionSnapshot} `{!JsonCodec PendingAuthorization} `{!JsonCodec AuthorizationCode} `{!Askama LoginPage}
  `{!Askama LogoutPage} `{!Askama ConsentPage} cfg dummy w0 pv0 m app w1 pv1 w pv :
  pg w0 = pg_empty -> coherent w0 -> disk_ok (pv_files pv0) ->
  start_up cfg dummy pv0 = (m, pv1) -> m w0 = (Ok app, w1) -> rtc (step cfg dummy) (w1, pv1) (w, pv) ->
  pg_wf (pg w) /\ acyclic (roles (pg w)) /\ named "user" (pg w) /\ named "admin" (pg w) /\ KeyProvider (store_view pv).
Proof.
  intros Hempty Hco Hdisk Hstart Hrun Hsteps.
  assert (Hw0 : intact (pg w0)) by (rewrite Hempty; apply empty_intact).
  destruct (KeyFiles.init pv0) as [[[]|e] pv2] eqn:Hinit; [|unfold start_up in Hstart; rewrite Hinit in Hstart; by injection Hstart as <- <-].
  rewrite (start_up_keys _ _ _ _ Hinit) in Hstart. injection Hstart as <- <-.
  assert (Hsteps0 : rtc (step cfg dummy) (w0, pv0) (w, pv)).
  { eapply rtc_l; [|exact Hsteps]. exact (step_restart _ _ _ _ _ _ _ _ (start_up_keys _ _ _ _ Hinit) Hrun). }
  destruct (steps_keep intact _ _ _ _ Hsteps0 Hw0) as [Hwf Hac].
  destruct (start_up_seeded _ _ _ _ _ _ _ Hinit (conj (proj1 Hw0) Hco) Hrun) as [Hu Ha].
  do 2 (split; [done|]). split; [exact (steps_keep (named "user") _ _ _ _ Hsteps Hu)|].
  split; [exact (steps_keep (named "admin") _ _ _ _ Hsteps Ha)|].
  eapply provider_ok_provides, reachable_ok; [exact Hdisk|exact Hinit|exact (steps_keys _ _ _ _ Hsteps)].
Qed.

(** C2: Only administrators change what people may do.  In every state the server can
    reach, a request that does not carry the token of an active session of an
    administrator leaves the signing keys, the roles and their hierarchy, the clients
    and their redirect URIs as they are; accounts stay, keep their names and stay
    enabled or disabled; nobody with an account gains or loses a role; an account made
    by the request has at most the role [user]; and whoever is an administrator after
    the request was one before, unless the account is new and administrators have
    arranged the hierarchy so that the role [user] inherits [admin], which makes every
    registration one. *)
Theorem only_admins_change_privileges `{RedisLaws} `{EnvLaws} `{JwtLib} `{!RsaLib} `{!FsEnv} `{Crypto} `{Texts} `{UnicodeTables}
  `{Argon2Lib} `{ValueParser} `{UrlCodec} `{UrlLib} `{ErrorTexts} `{!JsonCodec ClientSnapshot} `{!JsonCodec SessionSnapshot}
  `{!JsonCodecLaws SessionSnapshot} `{!JsonCodec PendingAuthorization} `{!JsonCodec AuthorizationCode} `{!Askama LoginPage}
  `{!Askama LogoutPage} `{!Askama ConsentPage} cfg dummy s0 w pv app rq resp tasks pv' w' :
  intact (pg s0.1) -> rtc (step cfg dummy) s0 (w, pv) -> wire_now pv dummy cfg = Some app ->
  serve app pv rq w = (Ok (resp, tasks, pv'), w') ->
  (exists ep req h w1, rq = RAdmin ep req /\ admin_session req w w1 h)
  \/ (contained (pg w) (pg w') /\ pv' = pv
      /\ forall u, has_admin (pg w') u ->
           has_admin (pg w) u \/ (users (pg w) !! u = None /\ user_inherits_admin (pg w))).
Proof.
  intros Hw0 Hsteps _ Hrun. destruct (steps_keep intact _ _ _ _ Hsteps Hw0) as [Hwf _].
  destruct (serve_contained _ _ _ _ _ _ _ _ Hwf Hrun) as [Hadm|[Hc Hpv]]; [by left|right].
  split; [exact Hc|]. split; [exact Hpv|]. intros u. by apply contained_admin.
Qed.

(** C22: Nobody ever has two passwords.  The schema would allow a user two credentials
    of type [password], and then which of them opens the account would be up to
    Postgres; but if there is nobody who has, as in empty tables, then whatever is
    requested, in whatever order, whatever fails, and however often the server is
    restarted, there never is: registration, the reset and the change of a password,
    the user administration and start-up all rewrite the one they find. *)
Theorem one_password_always `{RedisServer} `{EnvLaws} `{JwtLib} `{!RsaLib} `{!FsEnv} `{Crypto} `{Texts} `{UnicodeTables}
  `{Argon2Lib} `{ValueParser} `{UrlCodec} `{UrlLib} `{ErrorTexts} `{!JsonCodec ClientSnapshot} `{!JsonCodec SessionSnapshot}
  `{!JsonCodec PendingAuthorization} `{!JsonCodec AuthorizationCode} `{!Askama LoginPage} `{!Askama LogoutPage}
  `{!Askama ConsentPage} cfg dummy s s' :
  pg_wf (pg s.1) -> (forall u, one_password (pg s.1) u) -> rtc (step cfg dummy) s s' ->
  forall u c c', password_of (pg s'.1) u c -> password_of (pg s'.1) u c' -> c = c'.
Proof. intros Hwf Hone Hsteps u. by apply (steps_keep single _ _ _ _ Hsteps (conj Hwf Hone)). Qed.

(** ** Witnesses *)

Import Instances JsonInstance JwtInstance.

#[local] Instance demo_login_page : Askama LoginPage := {| askama_render _ := Some "<html>" |}.
#[local] Instance demo_logout_page : Askama LogoutPage := {| askama_render _ := Some "<html>" |}.
#[local] Instance demo_consent_page : Askama ConsentPage := {| askama_render _ := Some "<html>" |}.
#[local] Instance demo_urls : UrlLib := {| url_parse _ := None; port_text _ := "0" |}.

Definition no_hash : Hashed := mkHashed "" "".
Definition succeeded {E A} (r : res E A) : bool := match r with Ok _ => true | Err _ => false end.

(** The first start, on empty tables and an empty directory, and then a registration. *)
Definition first_run : res err AppState * World := (start_up demo_config no_hash provider0).1 world_empty.
Definition registration : request := RSignup (demo_request "bob") (mkHttpRequest [] [] (Some "::1")).
Definition after_registration (app : AppState) : res err outcome * World := serve app provider1 registration first_run.2.

Lemma first_start : start_up demo_config no_hash provider0 = ((start_up demo_config no_hash provider0).1, provider1).
Proof. exact (start_up_keys _ _ _ _ provider0_init). Qed.

Lemma first_run_ok : exists app, first_run = (Ok app, first_run.2) /\ wire_now provider1 no_hash demo_config = Some app.
Proof.
  assert (Hok : succeeded first_run.1 = true) by (vm_compute; reflexivity).
  destruct first_run as [[app|e] w] eqn:Hrun; [|done]. exists app. split; [done|].
  exact (start_up_wired _ _ _ _ _ _ _ provider0_init Hrun).
Qed.

Lemma registration_runs : exists app resp tasks, first_run = (Ok app, first_run.2) /\ wire_now provider1 no_hash demo_config = Some app
  /\ after_registration app = (Ok (resp, tasks, provider1), (after_registration app).2).
Proof.
  destruct first_run_ok as (app & Hfirst & Hwire).
  pose proof (answered_eq provider1 (AccountHttp.signup (account_state app) (demo_request "bob") (mkHttpRequest [] [] (Some "::1")))
    first_run.2) as Hr.
  change (answered provider1 _ first_run.2) with (after_registration app) in Hr.
  do 3 eexists. do 2 (split; [done|]). rewrite Hr. reflexivity.
Qed.

Lemma registration_step app resp tasks :
  wire_now provider1 no_hash demo_config = Some app ->
  after_registration app = (Ok (resp, tasks, provider1), (after_registration app).2) ->
  rtc (step demo_config no_hash) (first_run.2, provider1) ((after_registration app).2, provider1).
Proof. intros Hwire Hrun. apply rtc_once. exact (step_serve _ _ _ _ _ _ _ _ _ _ Hwire Hrun). Qed.

Lemma server_always_sound_witness : exists app, let w := (after_registration app).2 in
  pg_wf (pg w) /\ acyclic (roles (pg w)) /\ named "user" (pg w) /\ named "admin" (pg w) /\ KeyProvider (store_view provider1).
Proof.
  destruct registration_runs as (app & resp & tasks & Hfirst & Hwire & Hrun). exists app.
  exact (server_always_sound demo_config no_hash world_empty provider0 _ app first_run.2 provider1 _ provider1 eq_refl
    ltac:(intros cid snap _ (v & dl & raw & Hl & _); discriminate Hl) provider0_disk first_start Hfirst (registration_step _ _ _ Hwire Hrun)).
Defined.

(** From empty tables on: the administrator and Bob have one password each. *)
Lemma one_password_always_witness : exists app, let d := pg (after_registration app).2 in
  size (credentials d) = 2 /\ forall u c c', password_of d u c -> password_of d u c' -> c = c'.
Proof.
  destruct registration_runs as (app & resp & tasks & Hfirst & Hwire & Hrun). exists app.
  assert (Hs : rtc (step demo_config no_hash) (world_empty, provider0) ((after_registration app).2, provider1)).
  { eapply rtc_l; [exact (step_restart _ _ _ _ _ _ _ _ first_start Hfirst)|exact (registration_step _ _ _ Hwire Hrun)]. }
  split.
  - assert (Happ : Some app = wire_now provider1 no_hash demo_config) by by rewrite Hwire.
    injection Happ as ->. vm_compute. reflexivity.
  - apply (one_password_always demo_config no_hash (world_empty, provider0) ((after_registration app).2, provider1) pg_empty_wf);
      [|exact Hs].
    intros u c c' ([i Hi] & _). discriminate Hi.
Defined.

(** Bob has an account like any other. *)
Lemma only_admins_change_privileges_witness : exists app, let w := (after_registration app).2 in
  contained (pg first_run.2) (pg w) /\ size (users (pg first_run.2)) = 1 /\ size (users (pg w)) = 2.
Proof.
  destruct registration_runs as (app & resp & tasks & Hfirst & Hwire & Hrun). exists app. split.
  - assert (Hs : rtc (step demo_config no_hash) (world_empty, provider0) (first_run.2, provider1)).
    { apply rtc_once. exact (step_restart _ _ _ _ _ _ _ _ first_start Hfirst). }
    destruct (only_admins_change_privileges demo_config no_hash (world_empty, provider0) first_run.2 provider1 app registration
      resp tasks provider1 _ empty_intact Hs Hwire Hrun) as [(ep & req & h & w1 & Hrq & _)|[Hc _]]; [discriminate Hrq|exact Hc].
  - assert (Happ : Some app = wire_now provider1 no_hash demo_config) by by rewrite Hwire.
    injection Happ as ->. split; vm_compute; reflexivity.
Defined.
