(* ===== verification/ServerFlow.v ===== *)
(** * The authorization-code flow over HTTP

    [CodeFlow.code_flow_completes] on the server [Server.wire] puts together: one
    configuration and one key provider make the issuers, keys and HMACs of the
    services agree, and the answers are the responses of the endpoints. *)

From stdpp Require Import base tactics list gmap strings relations.
From Stdlib Require Import ZArith Lia Ascii.
From S2P Require Import Prelude RustStr Redis Schema World Ext Demo DemoJson DemoJwt RedisKeys Http Config Scopes Hashing.
From S2P Require Import Secrets Jwt KeyFiles Role User Client RefreshToken Session Consent AuthCode Integrity LoginHttp Issuer.
From S2P Require Import Device TokenFlow Authorize Logout Oidc CodeFlow OAuthHttp Admin Server.

Local Open Scope auth_scope.

(** ** The redirect is a header *)

Section Header.
Context `{UrlCodecLaws}.

Lemma all_bytes_app p a b : all_bytes p (a +:+ b) = all_bytes p a && all_bytes p b.
Proof. induction a as [|c a IH]; simpl; [done|]. by rewrite IH, andb_assoc. Qed.

Lemma all_bytes_weaken p q s : (forall c, p c = true -> q c = true) -> all_bytes p s = true -> all_bytes q s = true.
Proof. intros Hpq. induction s as [|c s IH]; simpl; [done|]. intros [Hc Hs]%andb_prop. by rewrite (Hpq c Hc), IH. Qed.

Lemma url_byte_printable c : is_url_byte c = true -> ((byte c =? 9)%N || ((32 <=? byte c)%N && negb (byte c =? 127)%N)) = true.
Proof.
  unfold is_url_byte. intros Hc. rewrite !orb_true_iff, !andb_true_iff, !N.leb_le, !N.eqb_eq in Hc.
  rewrite orb_true_iff, andb_true_iff, negb_true_iff, N.leb_le, N.eqb_eq, N.eqb_neq. right. lia.
Qed.

Lemma header_value_app a b : header_value_ok (a +:+ b) = header_value_ok a && header_value_ok b.
Proof. apply all_bytes_app. Qed.

Lemma header_value_encoded s : header_value_ok (url_encode s) = true.
Proof. eapply all_bytes_weaken; [apply url_byte_printable|apply url_alphabet]. Qed.

(** A redirect to a URI that is a header value is one. *)
Lemma push_params_header params first out : header_value_ok out = true -> header_value_ok (push_params first out params) = true.
Proof.
  revert first out. induction params as [|[k v] params IH]; intros first out Hout; simpl; [done|]. apply IH.
  rewrite !header_value_app, !header_value_encoded. destruct first; rewrite ?header_value_app, Hout; reflexivity.
Qed.

Lemma build_redirect_header uri params : header_value_ok uri = true -> header_value_ok (build_redirect uri params) = true.
Proof. intros Hu. apply push_params_header. rewrite header_value_app, Hu. by destruct (contains_byte _ _). Qed.
End Header.

(** ** The requests *)

(** The form the client posts to redeem its code. *)
Definition exchange_form (q : AuthorizeQuery) (client : Client) (code : string) (verifier secret : option string) : TokenForm :=
  mkTokenForm (Some "authorization_code") (Some code) (yq_redirect_uri q) (Some (cl_client_id client)) secret verifier None None None.

Section Answers.
Context `{RedisServer} `{Env} `{JwtLib} `{!RsaLib} `{!FsEnv} `{Crypto} `{Texts} `{UnicodeTables} `{Argon2Lib} `{ValueParser}
  `{UrlCodec} `{UrlLib} `{ErrorTexts}.
Context `{!JsonCodec ClientSnapshot} `{!JsonCodec SessionSnapshot} `{!JsonCodec PendingAuthorization} `{!JsonCodec AuthorizationCode}.
Context `{!Askama LoginPage} `{!Askama LogoutPage} `{!Askama ConsentPage}.
Implicit Types w : World.

(** What comes after a flow leaves the state alone. *)
Lemma bind_state {A B} (m : io A) (k : A -> io B) w : (forall a w, (k a w).2 = w) -> (bind m k w).2 = (m w).2.
Proof.
  intros Hk. destruct (m w) as [[a|e] w'] eqn:Hm; [by rewrite (bind_eq _ _ _ _ _ Hm)|by rewrite (bind_err _ _ _ _ _ Hm)].
Qed.

Lemma run_bind {A B} (m : io A) (k : A -> io B) w a : (m w).1 = Ok a -> bind m k w = k a (m w).2.
Proof. intros Hm. apply bind_eq. destruct (m w). simpl in Hm. by subst. Qed.

Lemma serve_authorize app pv path qs q hreq w :
  let flow := Authorize.authorize (as_authorize_flow app) (authorize_request_of (extract hreq) q) w in
  (serve app pv (RAuthorize path qs q hreq) w).2 = flow.2
  /\ forall url, flow.1 = Ok (ar_success url) -> (serve app pv (RAuthorize path qs q hreq) w).1 = Ok (see_other url, [], pv).
Proof.
  intros flow. unfold serve. rewrite answered_eq. simpl fst. simpl snd. split.
  - apply bind_state. intros r w'. destruct (negb _); [|by destruct (ar_redirect r)].
    destruct (bool_decide _); [done|]. destruct (bool_decide _); [|done]. by destruct (ar_consent_request_id r).
  - intros url Hf. unfold OAuthHttp.authorize. by rewrite (run_bind _ _ _ _ Hf).
Qed.

Lemma serve_token app pv form w :
  let flow := TokenFlow.token (as_token_flow app) (token_request_of form) w in
  (serve app pv (RToken form) w).2 = flow.2
  /\ forall v, flow.1 = Ok (success v) -> (serve app pv (RToken form) w).1 = Ok (json_response 200 v, [], pv).
Proof.
  intros flow. unfold serve. rewrite answered_eq. simpl fst. simpl snd. split.
  - apply bind_state. intros r w'. destruct (negb _); [done|]. by destruct (tr_payload r).
  - intros v Hf. unfold OAuthHttp.token. by rewrite (run_bind _ _ _ _ Hf).
Qed.

(** What [wire] makes agree. *)
Lemma wire_spec keys dummy cfg app : wire keys dummy cfg = Some app ->
  ti_jwt_signer (tf_issuer (as_token_flow app)) = as_jwt_signer app /\ ti_hmac (tf_issuer (as_token_flow app)) = as_token_hmac app
  /\ js_keys (as_jwt_signer app) = keys /\ jv_keys (as_jwt_validator app) = keys
  /\ js_issuer (as_jwt_signer app) = sc_issuer_url (cfg_server cfg)
  /\ jv_expected_issuer (as_jwt_validator app) = sc_issuer_url (cfg_server cfg)
  /\ js_access_ttl (as_jwt_signer app) = (jc_access_token_ttl (cfg_jwt cfg) / ns_per_sec)%Z.
Proof. unfold wire. destruct (hmac_new _); [|done]. intros [= <-]. by repeat split. Qed.
End Answers.

(** ** Theorem *)

(** C1: The authorization-code flow completes over HTTP, also across a key rotation.
    Take the services as [main] wires them.  Let a user be logged in and have
    consented, and an enabled client ask for a code as [ready] says (a registered
    redirect URI, a scope within its registration, no [prompt=login], no
    [prompt=consent], no [max_age]), while Postgres and Redis answer, tasks finish,
    and nothing the random source gives is in use already.  PKCE may be used or not:
    a challenge is of method S256 and its verifier is presented with the code; without
    one the client is not one that requires PKCE.
    If the session has a minute left and the requests take at most that, then
    [GET /oauth/authorize] is a redirect to the client with a code; the client's
    [POST /oauth/token] with that code, its secret and the verifier is a 200 with an
    access and a refresh token, and with an id token exactly if [openid] was asked for;
    and until the access token expires [GET /userinfo] with it, from a server that
    still has the keys of then, is a 200 with the user's claims if [openid] was asked
    for, and otherwise the 403 [insufficient_scope]. *)
Theorem code_flow_over_http `{RedisLaws} `{EnvLaws} `{CryptoLaws} `{!DigestInjective} `{JwtSigns} `{!RsaLib} `{!FsEnv} `{TextsLaws}
  `{ValueParser} `{Argon2Lib} `{UrlCodecLaws} `{UnicodeTables} `{UrlLib} `{ErrorTexts} `{!JsonCodec ClientSnapshot}
  `{!JsonCodecLaws ClientSnapshot} `{!JsonCodec SessionSnapshot} `{!JsonCodecLaws SessionSnapshot} `{!JsonCodec PendingAuthorization}
  `{!JsonCodec AuthorizationCode} `{!JsonCodecLaws AuthorizationCode} `{!Askama LoginPage} `{!Askama LogoutPage} `{!Askama ConsentPage}
  cfg dummy pv app path qs q hreq session user client e verifier secret w w1 :
  wire_now pv dummy cfg = Some app -> KeyProvider (store_view pv) ->
  let req := authorize_request_of (extract hreq) q in
  ready req session user client e w -> header_value_ok (default "" (yq_redirect_uri q)) = true ->
  pkce_agrees client req verifier ->
  authenticated client secret -> (forall n, tick w <= n -> task_ok n = true) -> refresh_room (as_token_hmac app) (pg w) w ->
  (clock (tick w) + MINUTE <= ends e)%Z ->
  w1 = (serve app pv (RAuthorize path qs q hreq) w).2 -> within MINUTE w w1 ->
  exists code, (serve app pv (RAuthorize path qs q hreq) w).1
      = Ok (mkHttpResponse 303 [("Location", redirect_of req code)] [] NoBody, [], pv)
    /\ let exchange := serve app pv (RToken (exchange_form q client code verifier secret)) w1 in
       within MINUTE w exchange.2 ->
       exists m access, exchange.1 = Ok (json_response 200 (JObj m), [], pv) /\ m !! "access_token" = Some (JStr access)
         /\ is_Some (m !! "refresh_token") /\ (is_Some (m !! "id_token") <-> "openid" ∈ parse (yq_scope q))
         /\ forall pv' app' hreq' w3, wire_now pv' dummy cfg = Some app' -> by_kid (store_view pv) ⊆ by_kid (store_view pv') ->
              extract hreq' = Some access -> tick exchange.2 <= tick w3 -> pg w3 = pg exchange.2 -> pg_ok (tick w3) ->
              (forall n, tick w <= n <= tick exchange.2 -> (secs (clock (S (tick w3)))
                 < wrap_i64 (secs (clock n) + wrap_i64 (jc_access_token_ttl (cfg_jwt cfg) / ns_per_sec)))%Z) ->
              (serve app' pv' (RUserinfo hreq') w3).1 = Ok (
                (if bool_decide ("openid" ∈ parse (yq_scope q))
                 then json_response 200 (JObj (userinfo_claims_of user (parse (yq_scope q))
                        (sorted (userinfo_claims (parse_claims (yq_claims q))))))
                 else insufficient_scope_response), [], pv').
Proof.
  intros Hwire Hkeys req Hrd Huri Hpk Hauth Htask Hroom Hlast Hw1 Hin1.
  destruct (wire_spec _ _ _ _ Hwire) as (Hsig & Hmac & Hjk & _ & Hji & _ & Httl).
  destruct (serve_authorize app pv path qs q hreq w) as [Hst Hok]. rewrite Hst in Hw1.
  destruct (code_flow_completes (as_authorize_flow app) (as_token_flow app) req session user client e verifier secret w w1
    Hrd Hpk Hauth Htask ltac:(by rewrite Hmac) ltac:(intros n; by rewrite Hsig, Hjk) Hlast Hw1 Hin1) as (code & Ha & Hx).
  exists code. split.
  { rewrite (Hok _ Ha). unfold see_other, see_other_with, redirect_of. by rewrite build_redirect_header. }
  intros exchange Hin2. destruct (serve_token app pv (exchange_form q client code verifier secret) w1) as [Hst2 Hok2].
  fold exchange in Hst2, Hok2. rewrite Hst2 in Hin2 |- *. destruct (Hx Hin2) as (m & access & Hm & Hacc & Href & Hid & Hu).
  exists m, access. split; [exact (Hok2 _ Hm)|]. do 3 (split; [done|]). intros pv' app' hreq' w3 Hwire' Hsub Hex Ht Hp Hpg Hlive.
  destruct (wire_spec _ _ _ _ Hwire') as (_ & _ & _ & Hvk & _ & Hvi & _).
  unfold serve. rewrite plainly_eq. simpl fst.
  rewrite (Hu (as_jwt_validator app') hreq' w3); try done.
  - intros n m' k kp _. rewrite Hsig, Hjk, Hvk. intros Hk. by eapply lookup_weaken.
  - by rewrite Hsig, Hji, Hvi.
  - rewrite Hsig, Httl. exact Hlive.
Qed.

(** ** Witness *)

Import Instances JsonInstance JwtInstance StillClock.

#[local] Instance demo_login_page : Askama LoginPage := {| askama_render _ := Some "<html>" |}.
#[local] Instance demo_logout_page : Askama LogoutPage := {| askama_render _ := Some "<html>" |}.
#[local] Instance demo_consent_page : Askama ConsentPage := {| askama_render _ := Some "<html>" |}.
#[local] Instance demo_urls : UrlLib := {| url_parse _ := None; port_text _ := "0" |}.

Definition bearer (tok : string) : HttpRequest := mkHttpRequest [("Authorization", "Bearer " +:+ tok)] [] None.
Definition query : AuthorizeQuery :=
  mkAuthorizeQuery (Some "app") (Some "https://app/cb") (Some "code") (Some "openid") (Some "st") None None None
    (Some "verifier") (Some "S256") None.
Definition a_hash : Hashed := mkHashed "" "".

Lemma request_of_query : authorize_request_of (extract (bearer "tok")) query = request.
Proof. vm_compute. reflexivity. Qed.

Lemma first_key_kept : by_kid (store_view provider1) ⊆ by_kid (store_view provider2).
Proof.
  apply map_subseteq_spec. intros k x Hx%elem_of_map_to_list.
  let l := eval vm_compute in (map_to_list (by_kid (store_view provider1))) in
  assert (Hl : map_to_list (by_kid (store_view provider1)) = l) by (vm_compute; reflexivity).
  rewrite Hl in Hx. apply list_elem_of_singleton in Hx as [= -> ->]. vm_compute. reflexivity.
Qed.

(** The key is rotated between the exchange and the use of the access token. *)
Lemma code_flow_over_http_witness :
  exists app app' code m access, wire_now provider1 a_hash demo_config = Some app /\ wire_now provider2 a_hash demo_config = Some app'
    /\ let asked := serve app provider1 (RAuthorize "" "" query (bearer "tok")) world_authorize in
       let exchange := serve app provider1 (RToken (exchange_form query client code (Some "verifier") None)) asked.2 in
       asked.1 = Ok (mkHttpResponse 303 [("Location", redirect_of request code)] [] NoBody, [], provider1)
       /\ exchange.1 = Ok (json_response 200 (JObj m), [], provider1) /\ m !! "access_token" = Some (JStr access)
       /\ forall hreq, extract hreq = Some access ->
            (serve app' provider2 (RUserinfo hreq) exchange.2).1
            = Ok (json_response 200 (JObj (userinfo_claims_of user (parse (Some "openid")) [])), [], provider2).
Proof.
  assert (Hin : forall w w', within MINUTE w w') by (intros w w' n m _ _; vm_compute; split; discriminate).
  destruct (wire_some (fun _ => store_view provider1) a_hash demo_config) as [app Happ]; [vm_compute; discriminate|].
  destruct (wire_some (fun _ => store_view provider2) a_hash demo_config) as [app' Happ']; [vm_compute; discriminate|].
  exists app, app'.
  destruct (code_flow_over_http demo_config a_hash provider1 app "" "" query (bearer "tok") session user client 1800000000000000000
    (Some "verifier") None world_authorize _ Happ
    (provider_ok_provides _ (reachable_ok _ _ _ provider0_disk provider0_init (rtc_refl _ _)))
    ltac:(rewrite request_of_query; exact world_ready) ltac:(vm_compute; reflexivity) ltac:(split; vm_compute; reflexivity)
    ltac:(left; vm_compute; reflexivity) ltac:(done)
    ltac:(intros n Hn; split; [reflexivity|]; intros n' i t _ Ht; done)
    ltac:(vm_compute; discriminate) eq_refl (Hin _ _)) as (code & Ha & Hx).
  destruct (Hx (Hin _ _)) as (m & access & Hm & Hacc & _ & _ & Hu). exists code, m, access. rewrite request_of_query in Ha.
  do 2 (split; [assumption|]). split; [exact Ha|]. split; [exact Hm|]. split; [exact Hacc|]. intros hreq Hreq.
  rewrite (Hu provider2 app' hreq _ Happ' first_key_kept Hreq (le_n _) eq_refl (fun _ _ => eq_refl) ltac:(intros n _; vm_compute; reflexivity)).
  reflexivity.
Defined.
