(* ===== verification/Routes.v ===== *)
(** * Routes ([main.rs] and the [configure] functions)

    Which handler a request goes to.  The tables are the code's; how actix-web searches
    them is a parameter with its documented laws: services are tried in the order of
    their registration, and the first whose path matches takes the request, a scope also
    when nothing inside it matches. *)

From stdpp Require Import base tactics list strings.
From Stdlib Require Import Ascii.
From S2P Require Import Prelude RustStr.

(** ** Tables *)

Inductive method := GET | POST | PUT | PATCH | DELETE.
#[export] Instance method_eq_dec : EqDecision method.
Proof. solve_decision. Defined.

(** A handler, by its path in the crate. *)
Definition handler_path := string.

(** [.route(path, web::m().to(h))] and [#[m(path)]], [web::resource(path)], and
    [web::scope(prefix)] *)
Inductive service :=
| Route (path : string) (m : method) (h : handler_path)
| Resource (path : string) (routes : list (method * handler_path))
| Scope (prefix : string) (services : list (string * method * handler_path)).

(** [main]: the handlers with a route of their own. *)
Definition own_routes : list service :=
  [Route "/q/health" GET "health"; Route "/q/health/live" GET "health_live"; Route "/q/health/ready" GET "health_ready";
   Route "/favicon.png" GET "favicon"].

Definition login_configure : list service :=
  [Scope "/auth" [("/login", POST, "login::login"); ("/me", GET, "login::me"); ("/logout", POST, "login::logout")]].

Definition login_page_configure : list service :=
  [Resource "/login" [(GET, "login::render_login"); (POST, "login::submit_login")]].

Definition signup_configure : list service :=
  [Scope "/auth" [("/signup", POST, "signup::signup"); ("/verify-email", POST, "signup::verify_email")]].

Definition password_configure : list service :=
  [Scope "/auth" [("/forgot-password", POST, "password::forgot_password"); ("/reset-password", POST, "password::reset_password");
     ("/change-password", PUT, "password::change_password")]].

Definition oauth_configure : list service :=
  [Scope "/oauth" [("/authorize", GET, "oauth::authorize"); ("/token", POST, "oauth::token"); ("/revoke", POST, "oauth::revoke");
     ("/introspect", POST, "oauth::introspect"); ("/logout", GET, "oauth::logout");
     ("/device-authorization", POST, "oauth::device_authorization"); ("/device/verify", POST, "oauth::device_verify")]].

Definition consent_configure : list service :=
  [Resource "/consent" [(GET, "consent::render"); (POST, "consent::submit")]].

Definition oidc_configure : list service :=
  [Route "/userinfo" GET "oidc::userinfo"; Route "/.well-known/openid-configuration" GET "oidc::discovery";
   Route "/.well-known/jwks.json" GET "oidc::jwks"].

Definition admin_configure : list service :=
  [Scope "/admin" [("/ping", GET, "admin::ping"); ("/roles", GET, "admin::list_roles"); ("/users", GET, "admin::list_users");
     ("/users", POST, "admin::create_user"); ("/users/{user_id}", GET, "admin::get_user");
     ("/users/{user_id}", PATCH, "admin::update_user"); ("/users/{user_id}", DELETE, "admin::delete_user");
     ("/users/{user_id}/roles/{role_name}", POST, "admin::assign_role");
     ("/users/{user_id}/roles/{role_name}", DELETE, "admin::revoke_role");
     ("/roles/{child}/parent/{parent}", POST, "admin::set_role_parent"); ("/roles/{child}/parent", DELETE, "admin::clear_role_parent");
     ("/keys", GET, "admin::list_keys"); ("/keys/rotate", POST, "admin::rotate_key"); ("/keys/{kid}", DELETE, "admin::retire_key");
     ("/clients", GET, "admin::list_clients"); ("/clients", POST, "admin::create_client"); ("/clients/{id}", GET, "admin::get_client");
     ("/clients/{id}", PUT, "admin::update_client"); ("/clients/{id}", DELETE, "admin::delete_client");
     ("/clients/{id}/redirect-uris", POST, "admin::add_redirect_uri");
     ("/clients/{id}/redirect-uris/{uri_id}", DELETE, "admin::remove_redirect_uri"); ("/sessions", GET, "admin::list_sessions");
     ("/users/{user_id}/sessions", GET, "admin::list_sessions_for_user"); ("/sessions/{id}", DELETE, "admin::revoke_session");
     ("/users/{user_id}/consents", GET, "admin::list_consents_for_user"); ("/consents/{id}", DELETE, "admin::revoke_consent")]].

(** The services in the order [main] registers them. *)
Definition app_services : list service :=
  own_routes ++ login_configure ++ login_page_configure ++ signup_configure ++ password_configure ++ oauth_configure
  ++ consent_configure ++ oidc_configure ++ admin_configure.

(** ** The router *)

Class Router := {
  (** whether a pattern matches a path, or what a scope left of one *)
  matches : string -> string -> bool;
  (** what the prefix of a scope leaves of a path that has it *)
  inside : string -> string -> option string;
  (** the handler of a request, if it is not answered with 404 or 405 *)
  find_handler : list service -> method -> string -> option handler_path;
}.

(** The first of the routes that has the method and matches. *)
Definition first_route `{Router} (routes : list (string * method * handler_path)) (m : method) (path : string) : option handler_path :=
  snd <$> head (base.filter (fun r => matches r.1.1 path = true /\ r.1.2 = m) routes).

Class RouterLaws `{Router} := {
  find_nil m path : find_handler [] m path = None;
  find_route pattern m' h l m path : find_handler (Route pattern m' h :: l) m path =
    if matches pattern path && bool_decide (m' = m) then Some h else find_handler l m path;
  find_resource pattern routes l m path : find_handler (Resource pattern routes :: l) m path =
    if matches pattern path then snd <$> head (base.filter (fun r => r.1 = m) routes) else find_handler l m path;
  find_scope prefix routes l m path : find_handler (Scope prefix routes :: l) m path =
    match inside prefix path with Some rest => first_route routes m rest | None => find_handler l m path end;
}.

(** ** Which handlers can be reached *)

Definition handlers_of (s : service) : list handler_path :=
  match s with
  | Route _ _ h => [h]
  | Resource _ routes => snd <$> routes
  | Scope _ routes => snd <$> routes
  end.

(** The handlers of the services, without the scopes whose prefix was there before. *)
Fixpoint reachable (seen : list string) (l : list service) : list handler_path :=
  match l with
  | [] => []
  | Scope prefix routes :: l =>
      if bool_decide (prefix ∈ seen) then reachable seen l
      else (snd <$> routes) ++ reachable (prefix :: seen) l
  | s :: l => handlers_of s ++ reachable seen l
  end.

Section Reach.
Context `{RouterLaws}.

Lemma head_filter_in {A} (P : A -> Prop) `{forall x, Decision (P x)} (f : A -> handler_path) l h :
  f <$> head (base.filter P l) = Some h -> h ∈ f <$> l.
Proof.
  destruct (base.filter P l) as [|x r] eqn:Hf; [done|]. intros [= <-]. apply list_elem_of_fmap. exists x. split; [done|].
  assert (Hx : x ∈ base.filter P l) by (rewrite Hf; left). by apply list_elem_of_filter in Hx as [_ Hx].
Qed.

Lemma find_reachable seen l m path h :
  (forall prefix, prefix ∈ seen -> inside prefix path = None) -> find_handler l m path = Some h -> h ∈ reachable seen l.
Proof.
  revert seen. induction l as [|s l IH]; intros seen Hseen; [by rewrite find_nil|].
  destruct s as [pattern m' h'|pattern routes|prefix routes]; cbn [reachable handlers_of].
  - rewrite find_route. destruct (matches pattern path && _); [intros [= <-]; left|]. intros Hf. apply elem_of_app. right. by apply IH.
  - rewrite find_resource. destruct (matches pattern path); intros Hf; apply elem_of_app; [left|right; by apply IH].
    exact (head_filter_in _ _ _ _ Hf).
  - rewrite find_scope. destruct (inside prefix path) as [rest|] eqn:Hin.
    + intros Hf. rewrite bool_decide_eq_false_2 by (intros Hp; apply Hseen in Hp; congruence).
      apply elem_of_app. left. exact (head_filter_in _ _ _ _ Hf).
    + intros Hf. case_bool_decide; [by apply IH|]. apply elem_of_app. right. apply IH; [|done].
      intros q [->|Hq]%elem_of_cons; [done|by apply Hseen].
Qed.
End Reach.

(** The handlers that are registered and cannot be reached. *)
Definition shadowed : list handler_path :=
  ["signup::signup"; "signup::verify_email"; "password::forgot_password"; "password::reset_password"; "password::change_password"].

(** ** Theorem *)

(** Registration and the password endpoints cannot be reached.  The login, signup
    and password resources each register a scope [/auth]; the first takes every request
    below [/auth], so no request is handled by the other two: every handler that is
    reached is one of the other registered ones. *)
Theorem auth_scopes_shadowed `{RouterLaws} m path h :
  find_handler app_services m path = Some h -> (h ∉ shadowed) /\ h ∈ (app_services ≫= handlers_of).
Proof.
  intros Hf. apply (find_reachable []) in Hf; [|by intros ? ?%not_elem_of_nil].
  assert (Hall : forallb (fun h => bool_decide ((h ∉ shadowed) /\ h ∈ (app_services ≫= handlers_of))) (reachable [] app_services) = true)
    by (vm_compute; reflexivity).
  rewrite forallb_forall in Hall. apply list_elem_of_In in Hf. apply Hall in Hf. by apply bool_decide_eq_true in Hf.
Qed.

(** ** Witness *)

(** Paths by segments; a segment of a pattern in braces stands for any segment. *)
Definition segment_matches (pattern segment : string) : bool :=
  match pattern with
  | String c _ => if bool_decide (c = "{"%char) then negb (is_empty segment) else bool_decide (pattern = segment)
  | "" => is_empty segment
  end.

Fixpoint segments (s : string) : list string :=
  match s with
  | "" => [""]
  | String c r =>
      if bool_decide (c = "/"%char) then "" :: segments r
      else match segments r with x :: l => String c x :: l | [] => [] end
  end.

Definition demo_matches (pattern path : string) : bool :=
  let ps := segments pattern in
  let ss := segments path in
  (length ps =? length ss) && forallb (fun p => segment_matches p.1 p.2) (zip ps ss).

Definition demo_inside (prefix path : string) : option string :=
  let rest := drop_bytes (String.length prefix) path in
  if bool_decide (take_bytes (String.length prefix) path = prefix) && bool_decide (take_bytes 1 rest = "/") then Some rest else None.

Fixpoint demo_find (l : list service) (m : method) (path : string) : option handler_path :=
  match l with
  | [] => None
  | Route pattern m' h :: l => if demo_matches pattern path && bool_decide (m' = m) then Some h else demo_find l m path
  | Resource pattern routes :: l =>
      if demo_matches pattern path then snd <$> head (base.filter (fun r => r.1 = m) routes) else demo_find l m path
  | Scope prefix routes :: l =>
      match demo_inside prefix path with
      | Some rest => snd <$> head (base.filter (fun r => demo_matches r.1.1 rest = true /\ r.1.2 = m) routes)
      | None => demo_find l m path
      end
  end.

#[local] Instance demo_router : Router := {| matches := demo_matches; inside := demo_inside; find_handler := demo_find |}.
#[local] Instance demo_router_laws : RouterLaws.
Proof. by split. Qed.

Definition demo_requests : list (method * string) :=
  [(POST, "/auth/login"); (GET, "/login"); (POST, "/auth/signup"); (PUT, "/auth/change-password"); (PATCH, "/admin/users/7");
   (DELETE, "/admin/keys/k1"); (DELETE, "/oauth/token")].

Lemma auth_scopes_shadowed_witness :
  (fun r => find_handler app_services r.1 r.2) <$> demo_requests
  = [Some "login::login"; Some "login::render_login"; None; None; Some "admin::update_user"; Some "admin::retire_key"; None]
  /\ ("login::login" ∉ shadowed).
Proof. split; [vm_compute; reflexivity|]. exact (proj1 (auth_scopes_shadowed POST "/auth/login" "login::login" eq_refl)). Defined.
